(** * SolanaTokenSniper: the token-lifecycle monitoring engine

    A shallow embedding of the TypeScript sources
    - [src/services/dex-analyse-manager.service.ts] and
      [src/services/analyse-manager.service.ts] (signal ingestion),
    - [src/services/database.service.ts] (the persistent token store),
    - [src/services/token-monitor.service.ts] (the lifecycle monitor),
    - [src/index.ts] (the trade dispatcher and its in-flight counter, the
      message handler of the websocket),
    - [src/getpools.ts] (the scan of recent pool transactions),
    - the version of [src/services/token-monitor.service.ts] that tracks
      the tokens in memory, and the interval timers of both versions,
    followed by the properties of the design document that are checked
    against it and by further properties of the code.

    Conventions of the embedding.
    - A JavaScript string is the list of its UTF-16 code units.
    - A JavaScript number holding a price is an exact rational ([Q]); a
      number holding a count or a timestamp is an integer ([Z]).
    - An [async] method is a computation in the monad [M]: it reads and
      writes the token table, emits the effects it has on the outside
      world (swap calls, log lines, SQL statements) and either returns or
      throws.  The answers of the external collaborators are read from an
      environment [Env] that is fixed for one handler invocation.
    - The callbacks of the event loop are the events of a transition
      system.  In [System] a callback of the monitor runs to its end
      before the next event, and [onTokenReceived] is split at its
      [await], so that signals and settlements of dispatches interleave
      freely: these are the schedules in which the handlers of the
      monitor do not overlap.
    - The handlers of the monitor are [async] functions that timers and
      socket messages start whether or not an earlier one has ended.  In
      [Concurrent] each handler is cut at its [await]s ([Prog]) and the
      event loop resumes the running handlers in any order, one segment
      at a time.  What the design document says of the table over time
      (status, stored price, repeated buys, the life of a record) is
      proved there, for every schedule. *)

From Stdlib Require Import ZArith NArith QArith List Bool String Ascii Lia Lqa.
Import ListNotations.

(* ===================================================================== *)
(** * JavaScript strings *)
(* ===================================================================== *)

Definition jsstring := list N.

(** A string literal of the source, as code units. *)
Definition lit (s : string) : jsstring :=
  map N_of_ascii (list_ascii_of_string s).

Definition jsstring_eq_dec : forall a b : jsstring, {a = b} + {a <> b} :=
  list_eq_dec N.eq_dec.

Definition jsstring_eqb (a b : jsstring) : bool :=
  if jsstring_eq_dec a b then true else false.

Definition in_range (lo hi c : N) : bool := (lo <=? c)%N && (c <=? hi)%N.

(** ECMAScript WhiteSpace and LineTerminator code points: what
    [String.prototype.trim] strips. *)
Definition isWhiteSpace (c : N) : bool :=
  in_range 9 13 c            (* TAB LF VT FF CR *)
  || (c =? 32)%N             (* space *)
  || (c =? 160)%N            (* U+00A0 *)
  || (c =? 5760)%N           (* U+1680 *)
  || in_range 8192 8202 c    (* U+2000 .. U+200A *)
  || (c =? 8232)%N || (c =? 8233)%N   (* U+2028 U+2029 *)
  || (c =? 8239)%N           (* U+202F *)
  || (c =? 8287)%N           (* U+205F *)
  || (c =? 12288)%N          (* U+3000 *)
  || (c =? 65279)%N.         (* U+FEFF *)

Fixpoint dropWhile (p : N -> bool) (s : jsstring) : jsstring :=
  match s with
  | [] => []
  | c :: s' => if p c then dropWhile p s' else s
  end.

Definition trimStart (s : jsstring) : jsstring := dropWhile isWhiteSpace s.
Definition trimEnd (s : jsstring) : jsstring := rev (dropWhile isWhiteSpace (rev s)).
Definition trim (s : jsstring) : jsstring := trimEnd (trimStart s).

(** [s.split(sep)] for a one-code-unit separator: always at least one
    piece, the pieces never contain the separator. *)
Fixpoint split (sep : N) (s : jsstring) : list jsstring :=
  match s with
  | [] => [[]]
  | c :: s' =>
      if (c =? sep)%N then [] :: split sep s'
      else match split sep s' with
           | [] => [[c]]
           | l :: ls => (c :: l) :: ls
           end
  end.

Definition newline : N := 10.

(** The character class [[1-9A-HJ-NP-Za-km-z]]. *)
Definition isBase58 (c : N) : bool :=
  in_range 49 57 c        (* 1-9 *)
  || in_range 65 72 c     (* A-H *)
  || in_range 74 78 c     (* J-N *)
  || in_range 80 90 c     (* P-Z *)
  || in_range 97 107 c    (* a-k *)
  || in_range 109 122 c.  (* m-z *)

(** [/^[1-9A-HJ-NP-Za-km-z]{44}$/.test(s)]: the pattern has no flag, so
    [^] and [$] are the two ends of the input. *)
Definition solanaAddressRegex_test (s : jsstring) : bool :=
  (List.length s =? 44)%nat && forallb isBase58 s.

(** The longest prefix of [s] made of at most [n] characters of the
    class: what the greedy quantifier [{32,44}] consumes at one start
    position. *)
Fixpoint greedyClass (n : nat) (s : jsstring) : jsstring :=
  match n, s with
  | S n', c :: s' => if isBase58 c then c :: greedyClass n' s' else []
  | _, _ => []
  end.

(** [message.match(/[1-9A-HJ-NP-Za-km-z]{32,44}/)]: the start positions
    are tried from the left, the first one where at least 32 class
    characters follow wins, and the match takes up to 44 of them. *)
Fixpoint addressPattern_match (s : jsstring) : option jsstring :=
  match s with
  | [] => None
  | _ :: s' =>
      let m := greedyClass 44 s in
      if (32 <=? List.length m)%nat then Some m else addressPattern_match s'
  end.

(** What a message handler of the signal ingestor does to the outside. *)
Inductive SignalEffect : Type :=
| SLog (line : string)
| SWarn (line : string)
| SInfo (line : string)
| SSetCorrectToken (tokenAddress : jsstring)
| STokenReceived (tokenAddress : jsstring).

Definition CryptoPumpClubChannelId : jsstring := lit "1625691880".
Definition CryptoBotTestChannelId : jsstring := lit "1629064884".

Definition allowListed (channelId : jsstring) : bool :=
  jsstring_eqb channelId CryptoPumpClubChannelId
  || jsstring_eqb channelId CryptoBotTestChannelId.

(** [!tokenAddress] for a [string | null]. *)
Definition falsy_string (a : option jsstring) : bool :=
  match a with
  | None => true
  | Some [] => true
  | Some (_ :: _) => false
  end.

Definition discoveries (es : list SignalEffect) : list jsstring :=
  flat_map (fun e => match e with STokenReceived a => [a] | _ => [] end) es.

Module DexAnalyseManagerService.

(** [extractSolanaAddress]: the first line whose trimmed text is a
    full match. *)
Fixpoint firstMatchingLine (lines : list jsstring) : option jsstring :=
  match lines with
  | [] => None
  | line :: rest =>
      let trimmedLine := trim line in
      if solanaAddressRegex_test trimmedLine then Some trimmedLine
      else firstMatchingLine rest
  end.

Definition extractSolanaAddress (message : jsstring) : option jsstring :=
  firstMatchingLine (split newline message).

(** [analyseTelegramMessage], with [onTokenReceived] installed.  The
    result lists the effects in program order. *)
Definition analyseTelegramMessage (message channelId : jsstring)
  : list SignalEffect :=
  if allowListed channelId then
    let tokenAddress := extractSolanaAddress message in
    match tokenAddress with
    | Some a =>
        if falsy_string tokenAddress
        then [SLog "Analysing DEX telegram message"; SWarn "No token address found in message"]
        else [SLog "Analysing DEX telegram message"; SLog "Token address found"; STokenReceived a]
    | None => [SLog "Analysing DEX telegram message"; SWarn "No token address found in message"]
    end
  else [].

End DexAnalyseManagerService.

Module AnalyseManagerService.

Definition extractTokenAddress (message : jsstring) : option jsstring :=
  addressPattern_match message.

(** [analyseTelegramMessage], with the token monitor and
    [onTokenReceived] installed. *)
Definition analyseTelegramMessage (message channelId : jsstring)
  : list SignalEffect :=
  if allowListed channelId then
    let tokenAddress := extractTokenAddress message in
    match tokenAddress with
    | Some a =>
        if falsy_string tokenAddress
        then [SLog "Analysing DEX telegram message"; SInfo "No token address found in message"]
        else [SLog "Analysing DEX telegram message"; SInfo "Extracted token address";
              SSetCorrectToken a; STokenReceived a]
    | None => [SLog "Analysing DEX telegram message"; SInfo "No token address found in message"]
    end
  else [].

End AnalyseManagerService.

(* ===================================================================== *)
(** * Data model *)
(* ===================================================================== *)

Definition address := jsstring.

Inductive Status : Type := active | inactive.

Definition Status_eqb (a b : Status) : bool :=
  match a, b with
  | active, active | inactive, inactive => true
  | _, _ => false
  end.

(** [interface TokenTrack] of database.service.ts; also a row of the
    table [tokens], whose primary key is [tokenAddress]. *)
Record TokenTrack : Type := mkToken {
  tokenAddress : address;
  timestamp : Z;
  price : Q;
  lastCheck : Z;
  status : Status
}.

Definition Table := list TokenTrack.

(** The options of [config] the code reads. *)
Record Config : Type := mkConfig {
  simulation_mode : bool;           (* config.rug_check.simulation_mode *)
  concurrent_transactions : Z;      (* config.tx.concurrent_transactions *)
  swap_tx_initial_delay : Z;        (* config.tx.swap_tx_initial_delay *)
  wsol_pc_mint : address            (* config.liquidity_pool.wsol_pc_mint *)
}.

(** The SQL statements of [DatabaseService]. *)
Inductive DbCall : Type :=
| SqlInsertOrReplace (row : TokenTrack)
| SqlSelectToken (a : address)
| SqlUpdateStatus (a : address) (st : Status)
| SqlUpdatePrice (a : address) (p : Q)
| SqlSelectActive
| SqlDeleteOld (maxAgeHours : Z).

Definition isWrite (c : DbCall) : bool :=
  match c with
  | SqlSelectToken _ | SqlSelectActive => false
  | _ => true
  end.

Inductive Level : Type := LInfo | LWarn | LError | LSuccess.

(** What a handler does to the outside, in program order: a statement
    the driver ran, a call of [createSwapTransaction] (a trade dispatch;
    [solMint = None] spends the base currency), a line of the logger with
    the address it mentions. *)
Inductive Effect : Type :=
| Sql (c : DbCall)
| Swap (solMint : option address) (tokenMint : address)
| Log (lvl : Level) (line : string) (subject : option address).

(** The result of awaiting an external promise. *)
Inductive Ext (A : Type) : Type :=
| Resolves (a : A)
| Rejects.
Arguments Resolves {A} a.
Arguments Rejects {A}.

(** One transfer and one transaction of the Helius answer read by
    [checkDevSold]. *)
Record Transfer : Type := mkTransfer {
  fromUserAccount : address;
  tokenAmount : Q
}.

Record HeliusTx : Type := mkHeliusTx {
  feePayer : address;
  tokenTransfers : option (list Transfer)
}.

(** The outside world during one handler invocation. *)
Record Env : Type := mkEnv {
  now : Z;                                              (* Date.now() *)
  getRugCheckConfirmed : address -> Ext bool;
  jupPrice : address -> Ext (option Q);   (* response.data?.data?.[a]?.price *)
  heliusTransfers : address -> Ext (list HeliusTx);
  createSwapTransaction : option address -> address -> Ext (option jsstring);
  fetchAndSaveSwapDetails : jsstring -> Ext bool;
  dbThrows : DbCall -> bool                    (* the driver rejects *)
}.

(* ===================================================================== *)
(** * The monad of handlers *)
(* ===================================================================== *)

Inductive Res (A : Type) : Type :=
| Returns (a : A)
| Throws.
Arguments Returns {A} a.
Arguments Throws {A}.

Definition M (A : Type) : Type := Table -> Res A * Table * list Effect.

Definition resultOf {A} (r : Res A * Table * list Effect) : Res A := fst (fst r).
Definition tableOf {A} (r : Res A * Table * list Effect) : Table := snd (fst r).
Definition effectsOf {A} (r : Res A * Table * list Effect) : list Effect := snd r.

Definition ret {A} (a : A) : M A := fun t => (Returns a, t, []).

Definition throw {A} : M A := fun t => (Throws, t, []).

Definition bind {A B} (m : M A) (k : A -> M B) : M B :=
  fun t =>
    match m t with
    | (Returns a, t1, e1) =>
        match k a t1 with
        | (r, t2, e2) => (r, t2, e1 ++ e2)
        end
    | (Throws, t1, e1) => (Throws, t1, e1)
    end.

(** [try { body } catch (error) { handler }], and [promise.catch]. *)
Definition tryCatch {A} (body handler : M A) : M A :=
  fun t =>
    match body t with
    | (Returns a, t1, e1) => (Returns a, t1, e1)
    | (Throws, t1, e1) =>
        match handler t1 with
        | (r, t2, e2) => (r, t2, e1 ++ e2)
        end
    end.

Definition emit (e : Effect) : M unit := fun t => (Returns tt, t, [e]).

Definition await {A} (x : Ext A) : M A :=
  match x with
  | Resolves a => ret a
  | Rejects => throw
  end.

Declare Scope monad_scope.
Delimit Scope monad_scope with monad.
Notation "x <- m ;; k" := (bind m (fun x => k))
  (at level 61, m at next level, right associativity) : monad_scope.
Notation "m ;; k" := (bind m (fun _ => k))
  (at level 61, right associativity) : monad_scope.
Open Scope monad_scope.

(** [for (const x of xs) { await body(x) }] *)
Fixpoint forOf {A} (xs : list A) (body : A -> M unit) : M unit :=
  match xs with
  | [] => ret tt
  | x :: xs' => body x ;; forOf xs' body
  end.

(** The swap calls among the effects. *)
Definition swapsOf (es : list Effect) : list (option address * address) :=
  flat_map (fun e => match e with Swap f t => [(f, t)] | _ => [] end) es.

(** The buys among the effects: swaps that spend the base currency. *)
Definition buysOf (es : list Effect) : list address :=
  flat_map (fun e => match e with Swap None t => [t] | _ => [] end) es.

(** The statements among the effects that write to the table. *)
Definition writesOf (es : list Effect) : list DbCall :=
  flat_map (fun e => match e with
                     | Sql c => if isWrite c then [c] else []
                     | _ => [] end) es.

(* ===================================================================== *)
(** * database.service.ts *)
(* ===================================================================== *)

Definition hasAddress (a : address) (r : TokenTrack) : bool :=
  jsstring_eqb (tokenAddress r) a.

Definition keys (t : Table) : list address := map tokenAddress t.

Module DatabaseService.

(** [INSERT OR REPLACE INTO tokens ...]: a row with the same primary
    key is deleted, then the new row is inserted. *)
Definition insertOrReplace (row : TokenTrack) (t : Table) : Table :=
  filter (fun r => negb (hasAddress (tokenAddress row) r)) t ++ [row].

Definition selectToken (a : address) (t : Table) : option TokenTrack :=
  find (hasAddress a) t.

(** [UPDATE tokens SET status = ?, lastCheck = ? WHERE tokenAddress = ?] *)
Definition setStatus (a : address) (st : Status) (at_ : Z) (t : Table) : Table :=
  map (fun r => if hasAddress a r
                then mkToken (tokenAddress r) (timestamp r) (price r) at_ st
                else r) t.

(** [UPDATE tokens SET price = ?, lastCheck = ? WHERE tokenAddress = ?] *)
Definition setPrice (a : address) (p : Q) (at_ : Z) (t : Table) : Table :=
  map (fun r => if hasAddress a r
                then mkToken (tokenAddress r) (timestamp r) p at_ (status r)
                else r) t.

Definition selectActive (t : Table) : list TokenTrack :=
  filter (fun r => Status_eqb (status r) active) t.

(** [DELETE FROM tokens WHERE lastCheck < ? AND status = 'inactive'] *)
Definition deleteOld (cutoffTime : Z) (t : Table) : Table :=
  filter (fun r => negb ((lastCheck r <? cutoffTime)%Z
                         && Status_eqb (status r) inactive)) t.

(** Every method is [try { await this.db... } catch (error)
    { logger.error(...); throw error; }]. *)
Definition statement {A} (env : Env) (c : DbCall) (failed : string)
    (subject : option address) (run : Table -> A * Table) : M A :=
  fun t =>
    if dbThrows env c then (Throws, t, [Log LError failed subject])
    else (Returns (fst (run t)), snd (run t), [Sql c]).

Definition addToken (env : Env) (token : TokenTrack) : M unit :=
  statement env (SqlInsertOrReplace token) "Failed to add token"
    (Some (tokenAddress token))
    (fun t => (tt, insertOrReplace token t)).

Definition getToken (env : Env) (a : address) : M (option TokenTrack) :=
  statement env (SqlSelectToken a) "Failed to get token" (Some a)
    (fun t => (selectToken a t, t)).

Definition updateTokenStatus (env : Env) (a : address) (st : Status) : M unit :=
  statement env (SqlUpdateStatus a st) "Failed to update token status" (Some a)
    (fun t => (tt, setStatus a st (now env) t)).

Definition updateTokenPrice (env : Env) (a : address) (p : Q) : M unit :=
  statement env (SqlUpdatePrice a p) "Failed to update token price" (Some a)
    (fun t => (tt, setPrice a p (now env) t)).

Definition getActiveTokens (env : Env) : M (list TokenTrack) :=
  statement env SqlSelectActive "Failed to get active tokens" None
    (fun t => (selectActive t, t)).

Definition cleanupOldTokens (env : Env) (maxAgeHours : Z) : M unit :=
  let cutoffTime := (now env - maxAgeHours * 60 * 60 * 1000)%Z in
  statement env (SqlDeleteOld maxAgeHours) "Failed to cleanup old tokens" None
    (fun t => (tt, deleteOld cutoffTime t)).

End DatabaseService.

(* ===================================================================== *)
(** * Arithmetic on prices *)
(* ===================================================================== *)

Definition Qltb (x y : Q) : bool := negb (Qle_bool y x).

(** A number produced by a division: finite, or one of the three values
    a zero divisor gives. *)
Inductive jsnum : Type :=
| Fin (q : Q)
| PosInf
| NegInf
| NaN.

Definition jsdiv (x y : Q) : jsnum :=
  if Qeq_bool y 0 then
    if Qeq_bool x 0 then NaN
    else if Qltb 0 x then PosInf else NegInf
  else Fin (x / y).

Definition jsmul (x : jsnum) (k : Q) : jsnum :=   (* for a constant 0 < k *)
  match x with
  | Fin q => Fin (q * k)
  | other => other
  end.

Definition jsgt (x : jsnum) (k : Q) : bool :=
  match x with
  | Fin q => Qltb k q
  | PosInf => true
  | NegInf | NaN => false
  end.

(** [number | undefined || null]: zero and a missing value are falsy. *)
Definition orNull (p : option Q) : option Q :=
  match p with
  | Some q => if Qeq_bool q 0 then None else Some q
  | None => None
  end.

(* ===================================================================== *)
(** * token-monitor.service.ts *)
(* ===================================================================== *)

(** [txDetails: any]: the object handed over by the websocket handler. *)
Record TxDetails : Type := mkTxDetails { mint : option address }.

Module TokenMonitorService.

Definition TOKEN_MAX_AGE_HOURS : Z := 72.

Definition addToken (env : Env) (a : address) (p : Q) : M unit :=
  let token := mkToken a (now env) p (now env) active in
  DatabaseService.addToken env token ;;
  emit (Log LInfo "Added new token to monitor" (Some a)).

Definition getCurrentPrice (env : Env) (a : address) : M (option Q) :=
  tryCatch
    (response <- await (jupPrice env a) ;;
     ret (orNull response))
    (emit (Log LError "Error fetching price for token" (Some a)) ;;
     ret None).

Definition devTransfer (tx : HeliusTx) (transfer : Transfer) : bool :=
  jsstring_eqb (fromUserAccount transfer) (feePayer tx)
  && Qltb 0 (tokenAmount transfer).

(** [data.some(tx => tx.tokenTransfers?.some(transfer => ...))] *)
Definition someDevTransfer (data : list HeliusTx) : bool :=
  existsb (fun tx => match tokenTransfers tx with
                     | Some ts => existsb (devTransfer tx) ts
                     | None => false
                     end) data.

Definition checkDevSold (env : Env) (a : address) : M bool :=
  tryCatch
    (data <- await (heliusTransfers env a) ;;
     ret (someDevTransfer data))
    (emit (Log LError "Error checking dev sales" None) ;;
     ret false).

Definition buyToken (env : Env) (a : address) : M unit :=
  tryCatch
    (emit (Swap None a) ;;
     _ <- await (createSwapTransaction env None a) ;;
     emit (Log LSuccess "Bought token" (Some a)))
    (emit (Log LError "Error buying token" None)).

(** [((currentPrice - token.price) / token.price) * 100] *)
Definition priceIncrease (currentPrice tokenPrice : Q) : jsnum :=
  jsmul (jsdiv (currentPrice - tokenPrice) tokenPrice) 100.

Definition thresholdMet (currentPrice tokenPrice : Q) : bool :=
  jsgt (priceIncrease currentPrice tokenPrice) 200.

Definition checkToken (env : Env) (token : TokenTrack) : M unit :=
  let a := tokenAddress token in
  tryCatch
    (currentPrice <- getCurrentPrice env a ;;
     match currentPrice with
     | Some cur =>
         DatabaseService.updateTokenPrice env a cur ;;
         if thresholdMet cur (price token) then buyToken env a else ret tt
     | None => ret tt
     end ;;
     devSold <- checkDevSold env a ;;
     if devSold then
       DatabaseService.updateTokenStatus env a inactive ;;
       emit (Log LWarn "Developer sold tokens, marking as inactive" (Some a))
     else ret tt)
    (emit (Log LError "Error checking token" (Some a))).

(** The callback of the monitoring interval of [startMonitoring]. *)
Definition monitoringTick (env : Env) : M unit :=
  tryCatch
    (activeTokens <- DatabaseService.getActiveTokens env ;;
     forOf activeTokens (checkToken env))
    (emit (Log LError "Error during token monitoring" None)).

(** The callback of the cleanup interval of [startCleanupInterval]. *)
Definition cleanupTick (env : Env) : M unit :=
  tryCatch
    (DatabaseService.cleanupOldTokens env TOKEN_MAX_AGE_HOURS)
    (emit (Log LError "Failed to cleanup old tokens" None)).

(** [handleNewTokenFromWebsocket].  The inner [try] around the rug check
    returns from the method on a failed check and in its [catch]; here it
    yields [gate = false] and the method ends. *)
Definition handleNewTokenFromWebsocket (env : Env) (txDetails : option TxDetails)
  : M unit :=
  tryCatch
    (match txDetails with
     | None => emit (Log LError "Invalid transaction details received" None)
     | Some d =>
         if falsy_string (mint d)
         then emit (Log LError "Invalid transaction details received" None)
         else
           let m := match mint d with Some a => a | None => [] end in
           existingToken <- DatabaseService.getToken env m ;;
           match existingToken with
           | Some _ => emit (Log LInfo "Token already being monitored" (Some m))
           | None =>
               gate <- tryCatch
                 (isRugCheckPassed <- await (getRugCheckConfirmed env m) ;;
                  if negb isRugCheckPassed then
                    emit (Log LWarn "Rug Check not passed! Token not added." None) ;;
                    ret false
                  else
                    emit (Log LInfo "Rug check passed for token" (Some m)) ;;
                    ret true)
                 (emit (Log LError "Failed to perform rug check for token" (Some m)) ;;
                  ret false) ;;
               if negb gate then ret tt
               else
                 currentPrice <- getCurrentPrice env m ;;
                 match currentPrice with
                 | Some cur => addToken env m cur
                 | None => ret tt
                 end
           end
     end)
    (emit (Log LError "Error handling new token from websocket" None)).

(** The body of the loop of [setCorrectToken]. *)
Definition sellIncorrect (cfg : Config) (env : Env) (a : address)
    (token : TokenTrack) : M unit :=
  if negb (jsstring_eqb (tokenAddress token) a) then
    tryCatch
      (emit (Swap (Some (tokenAddress token)) (wsol_pc_mint cfg)) ;;
       _ <- await (createSwapTransaction env (Some (tokenAddress token))
                     (wsol_pc_mint cfg)) ;;
       emit (Log LInfo "Sold incorrect token" (Some (tokenAddress token))) ;;
       DatabaseService.updateTokenStatus env (tokenAddress token) inactive)
      (emit (Log LError "Error selling token" (Some (tokenAddress token))))
  else ret tt.

(** The end of [setCorrectToken], after the loop. *)
Definition buyCorrect (env : Env) (a : address) : M unit :=
  correctToken <- DatabaseService.getToken env a ;;
  match correctToken with
  | None =>
      currentPrice <- getCurrentPrice env a ;;
      match currentPrice with
      | Some cur => addToken env a cur ;; buyToken env a
      | None => ret tt
      end
  | Some _ => ret tt
  end.

Definition setCorrectToken (cfg : Config) (env : Env) (a : address) : M unit :=
  emit (Log LInfo "Setting correct token" (Some a)) ;;
  activeTokens <- DatabaseService.getActiveTokens env ;;
  forOf activeTokens (sellIncorrect cfg env a) ;;
  buyCorrect env a.

End TokenMonitorService.

(* ===================================================================== *)
(** * index.ts *)
(* ===================================================================== *)

(** [processTransaction]; the pause of [swap_tx_initial_delay] before the
    swap has no counterpart in the model, which has no clock. *)
Definition processTransaction (cfg : Config) (env : Env) (a : address) : M unit :=
  emit (Log LInfo "New Token Signal Received" None) ;;
  if falsy_string (Some a) then ret tt
  else
    emit (Log LSuccess "Token found" (Some a)) ;;
    if simulation_mode cfg then
      emit (Log LWarn "Token not swapped. Simulation mode is enabled." None)
    else
      emit (Swap None a) ;;
      tx <- await (createSwapTransaction env None a) ;;
      if falsy_string tx then
        emit (Log LError "Transaction aborted." None)
      else
        emit (Log LSuccess "Swapping SOL for Token." None) ;;
        saveConfirmation <-
          await (fetchAndSaveSwapDetails env
                   (match tx with Some x => x | None => [] end)) ;;
        if negb saveConfirmation then
          emit (Log LError "Warning: Transaction not saved for tracking!" None)
        else ret tt.

(** The whole process: the token table, the module variable
    [activeTransactions], and the dispatches of [onTokenReceived] whose
    [processTransaction] promise has not settled yet.  [dispatched] numbers
    the dispatches and [released] lists those whose [finally] callback
    has run; both are bookkeeping of the model. *)
Record System : Type := mkSystem {
  tokens : Table;
  activeTransactions : Z;
  pending : list (nat * address);
  dispatched : nat;
  released : list nat
}.

Definition initial : System := mkSystem [] 0 [] 0 [].

(** The callbacks the event loop can run next.  Timer and socket
    callbacks carry the answers the outside world gives while they run. *)
Inductive Event : Type :=
| EvDiscovery (env : Env) (txDetails : option TxDetails)
| EvMonitoringTick (env : Env)
| EvCleanupTick (env : Env)
| EvCorrectToken (env : Env) (a : address)
| EvTokenReceived (a : address)
| EvSettled (env : Env) (id : nat).

Definition MAX_CONCURRENT (cfg : Config) : Z := concurrent_transactions cfg.

(** [onTokenReceived] up to its [await]: the test of the cap and the
    increment run without interruption. *)
Definition onTokenReceived_enter (cfg : Config) (s : System) (a : address)
  : System * list Effect :=
  if (MAX_CONCURRENT cfg <=? activeTransactions s)%Z then
    (s, [Log LWarn "Max concurrent transactions reached, skipping..." None])
  else
    (mkSystem (tokens s) (activeTransactions s + 1)
       ((dispatched s, a) :: pending s) (S (dispatched s)) (released s), []).

Definition lookupPending (id : nat) (p : list (nat * address)) : option address :=
  option_map snd (find (fun d => Nat.eqb (fst d) id) p).

Definition removePending (id : nat) (p : list (nat * address)) : list (nat * address) :=
  filter (fun d => negb (Nat.eqb (fst d) id)) p.

(** [processTransaction(a).catch(log).finally(() => activeTransactions--)]
    for the dispatch [id], once its promise settles. *)
Definition onTokenReceived_settle (cfg : Config) (env : Env) (s : System) (id : nat)
  : System * list Effect :=
  match lookupPending id (pending s) with
  | None => (s, [])
  | Some a =>
      let r := tryCatch (processTransaction cfg env a)
                 (emit (Log LError "Error processing transaction" None))
                 (tokens s) in
      (mkSystem (tableOf r) (activeTransactions s - 1)
         (removePending id (pending s)) (dispatched s) (id :: released s),
       effectsOf r)
  end.

Definition lift (s : System) (m : M unit) : System * list Effect :=
  let r := m (tokens s) in
  (mkSystem (tableOf r) (activeTransactions s) (pending s) (dispatched s)
     (released s), effectsOf r).

(** One callback of the event loop, run to its end with no other
    callback in between.  The handlers of the monitor as they overlap
    are [Concurrent] below. *)
Definition step (cfg : Config) (s : System) (ev : Event) : System * list Effect :=
  match ev with
  | EvDiscovery env d => lift s (TokenMonitorService.handleNewTokenFromWebsocket env d)
  | EvMonitoringTick env => lift s (TokenMonitorService.monitoringTick env)
  | EvCleanupTick env => lift s (TokenMonitorService.cleanupTick env)
  | EvCorrectToken env a => lift s (TokenMonitorService.setCorrectToken cfg env a)
  | EvTokenReceived a => onTokenReceived_enter cfg s a
  | EvSettled env id => onTokenReceived_settle cfg env s id
  end.

Fixpoint run (cfg : Config) (s : System) (evs : list Event) : System * list Effect :=
  match evs with
  | [] => (s, [])
  | ev :: evs' =>
      let '(s1, e1) := step cfg s ev in
      let '(s2, e2) := run cfg s1 evs' in
      (s2, e1 ++ e2)
  end.

(* ===================================================================== *)
(** * Invariants and derived notions *)
(* ===================================================================== *)

Definition pendingIds (s : System) : list nat := map fst (pending s).

(** The in-flight counter counts the pending dispatches; every dispatch
    that was started is either still pending or was released once. *)
Record CounterInvariant (cfg : Config) (s : System) : Prop := {
  counter_nonneg : (0 <= activeTransactions s)%Z;
  counter_capped : (activeTransactions s <= MAX_CONCURRENT cfg)%Z;
  counter_counts : activeTransactions s = Z.of_nat (List.length (pending s));
  ids_pending_once : NoDup (pendingIds s);
  ids_released_once : NoDup (released s);
  ids_disjoint : forall id, In id (pendingIds s) -> ~ In id (released s);
  ids_complete : forall id,
      (id < dispatched s)%nat <-> In id (pendingIds s) \/ In id (released s)
}.

(** The primary key: no two rows under one address. *)
Definition UniqueKeys (t : Table) : Prop := NoDup (keys t).

(** The rows of a table stored under one address. *)
Definition rowsOf (a : address) (t : Table) : list TokenTrack :=
  filter (hasAddress a) t.

(** [Marked t t']: [t'] comes from [t] by statements that update the
    price of a row or set a row to inactive, the only updates the monitor
    ever issues. *)
Inductive Marked (t : Table) : Table -> Prop :=
| Marked_refl : Marked t t
| Marked_price (a : address) (p : Q) (at_ : Z) (t1 : Table) :
    Marked t t1 -> Marked t (DatabaseService.setPrice a p at_ t1)
| Marked_inactive (a : address) (at_ : Z) (t1 : Table) :
    Marked t t1 -> Marked t (DatabaseService.setStatus a inactive at_ t1).

(** [Enrolled t t']: [t'] is [t], or [t] with one new active row under an
    address that had no row. *)
Definition Enrolled (t t' : Table) : Prop :=
  t' = t
  \/ exists row, DatabaseService.selectToken (tokenAddress row) t = None
                 /\ status row = active /\ t' = t ++ [row].

(** The driver rejects no statement. *)
Definition noDbFault (env : Env) : Prop := forall c, dbThrows env c = false.

(** The price a poll of [a] observes: the value of [getCurrentPrice]. *)
Definition observedPrice (env : Env) (a : address) : option Q :=
  match jupPrice env a with
  | Resolves p => orNull p
  | Rejects => None
  end.

(** The value of [checkDevSold]. *)
Definition devSold (env : Env) (a : address) : bool :=
  match heliusTransfers env a with
  | Resolves data => TokenMonitorService.someDevTransfer data
  | Rejects => false
  end.

(** Whether [checkToken] reaches [buyToken] for the snapshot [token]. *)
Definition buyTriggered (env : Env) (token : TokenTrack) : bool :=
  match observedPrice env (tokenAddress token) with
  | Some cur =>
      negb (dbThrows env (SqlUpdatePrice (tokenAddress token) cur))
      && TokenMonitorService.thresholdMet cur (price token)
  | None => false
  end.

(** The row of a token after one poll in which the driver does not
    fail. *)
Definition polled (env : Env) (r : TokenTrack) : TokenTrack :=
  let r1 := match observedPrice env (tokenAddress r) with
            | Some cur => mkToken (tokenAddress r) (timestamp r) cur (now env) (status r)
            | None => r
            end in
  if devSold env (tokenAddress r)
  then mkToken (tokenAddress r1) (timestamp r1) (price r1) (now env) inactive
  else r1.

(** Whether the sweep of [setCorrectToken] sets the snapshot [token] to
    inactive. *)
Definition sold (cfg : Config) (env : Env) (a : address) (token : TokenTrack) : bool :=
  negb (jsstring_eqb (tokenAddress token) a)
  && match createSwapTransaction env (Some (tokenAddress token)) (wsol_pc_mint cfg) with
     | Resolves _ => negb (dbThrows env (SqlUpdateStatus (tokenAddress token) inactive))
     | Rejects => false
     end.

(** The row [r] of the snapshot [token], once the sweep of
    [setCorrectToken] has passed. *)
Definition swept (cfg : Config) (env : Env) (a : address) (token r : TokenTrack)
  : TokenTrack :=
  if sold cfg env a token
  then mkToken (tokenAddress r) (timestamp r) (price r) (now env) inactive
  else r.

(** A swap out of a token, as opposed to a buy with the base currency. *)
Definition isSell (s : option address * address) : bool :=
  match fst s with Some _ => true | None => false end.

(** The buys of one token among the effects. *)
Definition buysFor (a : address) (es : list Effect) : list address :=
  filter (jsstring_eqb a) (buysOf es).

Definition discoveryEvents (ds : list (Env * option TxDetails)) : list Event :=
  map (fun d => EvDiscovery (fst d) (snd d)) ds.

(* ===================================================================== *)
(** * Scenarios *)
(* ===================================================================== *)

Definition wsol : address := lit "So11111111111111111111111111111111111111112".

Definition Addr1 : address := lit "Addr1".
Definition AddrX : address := lit "AddrX".
Definition AddrY : address := lit "AddrY".

Definition liveConfig : Config := mkConfig false 2 0 wsol.
Definition simulationConfig : Config := mkConfig true 2 0 wsol.

(** An outside world in which every collaborator answers, the rug check
    passes, no price is known, no developer sold and every swap goes
    through. *)
Definition calmEnv : Env :=
  mkEnv 0
    (fun _ => Resolves true)
    (fun _ => Resolves None)
    (fun _ => Resolves [])
    (fun _ _ => Resolves (Some (lit "tx")))
    (fun _ => Resolves true)
    (fun _ => false).

Definition withPrice (env : Env) (p : Ext (option Q)) : Env :=
  mkEnv (now env) (getRugCheckConfirmed env) (fun _ => p)
    (heliusTransfers env) (createSwapTransaction env)
    (fetchAndSaveSwapDetails env) (dbThrows env).

Definition withRugCheck (env : Env) (r : Ext bool) : Env :=
  mkEnv (now env) (fun _ => r) (jupPrice env)
    (heliusTransfers env) (createSwapTransaction env)
    (fetchAndSaveSwapDetails env) (dbThrows env).

Definition withSwap (env : Env) (r : Ext (option jsstring)) : Env :=
  mkEnv (now env) (getRugCheckConfirmed env) (jupPrice env)
    (heliusTransfers env) (fun _ _ => r)
    (fetchAndSaveSwapDetails env) (dbThrows env).

(** A calm outside world in which every price lookup answers [p]. *)
Definition priced (p : Q) : Env := withPrice calmEnv (Resolves (Some p)).

(** A calm outside world in which the developer of every token has sold. *)
Definition devSellsEnv : Env :=
  mkEnv 0
    (fun _ => Resolves true)
    (fun _ => Resolves None)
    (fun _ => Resolves [mkHeliusTx (lit "dev") (Some [mkTransfer (lit "dev") 5])])
    (fun _ _ => Resolves (Some (lit "tx")))
    (fun _ => Resolves true)
    (fun _ => false).

(** An outside world with no price for any token and in which every swap
    call throws. *)
Definition swapsFailEnv : Env := withSwap calmEnv Rejects.

(** The [txDetails] of a pool creation for the mint [a]. *)
Definition discover (a : address) : option TxDetails := Some (mkTxDetails (Some a)).

Definition row1 : TokenTrack := mkToken Addr1 0 1 0 active.
Definition row1Sold : TokenTrack := mkToken Addr1 0 1 0 inactive.
Definition rowY : TokenTrack := mkToken AddrY 0 1 0 active.

(** Two signals in flight under [liveConfig], whose cap is 2. *)
Definition twoInFlight : System :=
  fst (run liveConfig initial [EvTokenReceived Addr1; EvTokenReceived AddrX]).

(** [Addr1] enrolled at price 1. *)
Definition enrolled1 : System :=
  fst (run liveConfig initial [EvDiscovery (priced 1) (discover Addr1)]).

(** [Addr1] enrolled at price 1, then set to inactive by a poll. *)
Definition retired1 : System :=
  fst (run liveConfig initial
         [EvDiscovery (priced 1) (discover Addr1); EvMonitoringTick devSellsEnv]).

(** [AddrY] enrolled at price 1. *)
Definition holdingY (cfg : Config) : System :=
  fst (run cfg initial [EvDiscovery (priced 1) (discover AddrY)]).

(** A one-line signal holding the 43-character wrapped-SOL mint address
    between two words. *)
Definition wsolMessage : jsstring :=
  lit "buy So11111111111111111111111111111111111111112 now".

(** A three-line signal whose second line is an address between blanks
    and before a carriage return. *)
Definition signalMessage : jsstring :=
  lit "hi" ++ [newline] ++ lit "  BBc9zfiSMgqmmTqtFGE1xHzb1XcPzYSLQNLYTVoMpump "
  ++ [13%N; newline] ++ lit "bye".

(* ===================================================================== *)
(** * getpools.ts *)
(* ===================================================================== *)

(** [s.startsWith(search)] and [s.includes(search)], on code units. *)
Fixpoint startsWith (s search : jsstring) : bool :=
  match search, s with
  | [], _ => true
  | _ :: _, [] => false
  | c :: search', d :: s' => (c =? d)%N && startsWith s' search'
  end.

Fixpoint includes (s search : jsstring) : bool :=
  startsWith s search
  || match s with
     | [] => false
     | _ :: s' => includes s' search
     end.

Module GetPools.

(** What the script reads of one transaction of the answer: each of the
    fields may be missing. *)
Record Tx : Type := mkTx {
  blockTime : option Z;
  signature : option jsstring;
  logMessages : option (list jsstring)
}.

(** [axios.post(endpoint, body)]: the answer to the request number [n]
    of a run, whose body carries [before] when it is set; [None] is an
    answer that is not an array. *)
Definition Endpoint : Type := nat -> option jsstring -> Ext (option (list Tx)).

(** [Math.floor(Date.now() / 1000) - 5 * 60 * 60] *)
Definition getFiveHoursAgo (dateNow : Z) : Z := (dateNow / 1000 - 5 * 60 * 60)%Z.

(** [blockTime >= t] and [blockTime < t]: both are false when the block
    time is missing. *)
Definition geNumber (blockTime : option Z) (t : Z) : bool :=
  match blockTime with
  | Some b => (t <=? b)%Z
  | None => false
  end.

Definition ltNumber (blockTime : option Z) (t : Z) : bool :=
  match blockTime with
  | Some b => (b <? t)%Z
  | None => false
  end.

(** The [while (!done)] loop of [fetchRecentRaydiumTxs], entered with
    the transactions gathered so far and [beforeSignature]; [None] when
    the loop is still running after [fuel] requests. *)
Fixpoint fetchLoop (fuel : nat) (post : Endpoint) (fiveHoursAgo : Z) (n : nat)
    (txs : list Tx) (beforeSignature : option jsstring) : option (Res (list Tx)) :=
  match fuel with
  | O => None
  | S fuel' =>
      let before := if falsy_string beforeSignature then None else beforeSignature in
      match post n before with
      | Rejects => Some Throws
      | Resolves None => Some (Returns txs)
      | Resolves (Some []) => Some (Returns txs)
      | Resolves (Some (d :: data')) =>
          let data := d :: data' in
          let relevantTxs := filter (fun tx => geNumber (blockTime tx) fiveHoursAgo) data in
          let txs' := txs ++ relevantTxs in
          let oldestTx := last data d in
          if ltNumber (blockTime oldestTx) fiveHoursAgo then Some (Returns txs')
          else fetchLoop fuel' post fiveHoursAgo (S n) txs' (signature oldestTx)
      end
  end.

Definition fetchRecentRaydiumTxs (fuel : nat) (post : Endpoint) (dateNow : Z)
  : option (Res (list Tx)) :=
  fetchLoop fuel post (getFiveHoursAgo dateNow) 0 [] None.

End GetPools.

(* ===================================================================== *)
(** * index.ts: the message handler of the websocket *)
(* ===================================================================== *)

(** The values [JSON.parse] gives.  An object is the list of its own
    properties, each key once. *)
#[warnings="-register-all"] Inductive json : Type :=
| JNull
| JBool (b : bool)
| JNumber (n : jsnum)
| JString (s : jsstring)
| JArray (items : list json)
| JObject (fields : list (jsstring * json)).

Definition own (fields : list (jsstring * json)) (k : string) : option json :=
  option_map snd (find (fun f => jsstring_eqb (fst f) (lit k)) fields).

(** [v.k] for one of the keys the handler reads, which only an object
    can carry; [None] is [undefined]. *)
Definition prop (v : json) (k : string) : option json :=
  match v with
  | JObject fields => own fields k
  | _ => None
  end.

(** [v?.k] *)
Definition optProp (v : option json) (k : string) : option json :=
  match v with
  | None | Some JNull => None
  | Some w => prop w k
  end.

(** [!!v] *)
Definition truthy (v : option json) : bool :=
  match v with
  | None | Some JNull => false
  | Some (JBool b) => b
  | Some (JNumber (Fin q)) => negb (Qeq_bool q 0)
  | Some (JNumber NaN) => false
  | Some (JNumber _) => true
  | Some (JString s) => negb (falsy_string (Some s))
  | Some (JArray _) | Some (JObject _) => true
  end.

Definition isDefined (v : option json) : bool :=
  match v with
  | Some _ => true
  | None => false
  end.

(** [Array.isArray(v)], and the elements of [v] when it is one. *)
Definition isArray (v : option json) : bool :=
  match v with
  | Some (JArray _) => true
  | _ => false
  end.

Definition elements (v : option json) : list json :=
  match v with
  | Some (JArray items) => items
  | _ => []
  end.

(** [typeof v === "string"], and the code units of [v] when it is one. *)
Definition isString (v : option json) : bool :=
  match v with
  | Some (JString _) => true
  | _ => false
  end.

Definition codeUnits (v : option json) : jsstring :=
  match v with
  | Some (JString s) => s
  | _ => []
  end.

Module WebsocketHandler.

Definition poolCreationLog : jsstring :=
  lit "Program log: initialize2: InitializeInstruction2".

(** [logs.some(log => typeof log === "string" && log.includes(...))] *)
Definition containsCreate (logs : list json) : bool :=
  existsb (fun log => isString (Some log)
                      && includes (codeUnits (Some log)) poolCreationLog) logs.

(** The listener of ["message"].  [data] is what [JSON.parse] gives for
    the text of the message, [None] when it throws;
    [tokenMonitorInstance] tells whether the module variable is set. *)
Definition onMessage (env : Env)
    (fetchTransactionDetails : jsstring -> Ext (option TxDetails))
    (tokenMonitorInstance : bool) (data : option json) : M unit :=
  tryCatch
    (match data with
     | None => throw
     | Some JNull => throw
     | Some parsedData =>
         if isDefined (prop parsedData "result")
            && negb (truthy (prop parsedData "error"))
         then emit (Log LInfo "Subscription confirmed" None)
         else if truthy (prop parsedData "error")
         then emit (Log LError "RPC Error:" None)
         else
           let value := optProp (optProp (prop parsedData "params") "result") "value" in
           let logs := optProp value "logs" in
           let signature := optProp value "signature" in
           if negb (isArray logs) || negb (truthy signature) then ret tt
           else
             if negb (containsCreate (elements logs)) || negb (isString signature)
             then ret tt
             else
               emit (Log LInfo "New pool creation detected with signature"
                       (Some (codeUnits signature))) ;;
               tryCatch
                 (txDetails <- await (fetchTransactionDetails (codeUnits signature)) ;;
                  match txDetails with
                  | None => emit (Log LError "Failed to fetch transaction details" None)
                  | Some d =>
                      emit (Log LInfo "Found new token mint" (mint d)) ;;
                      if tokenMonitorInstance
                      then TokenMonitorService.handleNewTokenFromWebsocket env (Some d)
                      else ret tt
                  end)
                 (emit (Log LError "Error fetching transaction details:" None))
     end)
    (emit (Log LError "Error processing message:" None)).

End WebsocketHandler.

(* ===================================================================== *)
(** * token-monitor.service.ts: the version that tracks tokens in memory *)
(* ===================================================================== *)

(** The options of [config.rug_check] that [isTokenSafe] reads. *)
Record RugCheckConfig : Type := mkRugCheckConfig {
  allow_mint_authority : bool;
  allow_freeze_authority : bool;
  allow_mutable : bool
}.

Module WatchlistMonitor.

(** A value of the map [activeTokens]. *)
Record Tracked : Type := mkTracked {
  timestamp : Z;
  price : Q;
  lastCheck : Z
}.

(** [Map<string, ...>]: the entries in insertion order, each key once. *)
Definition ActiveTokens : Type := list (address * Tracked).

Definition isKey (a : address) (e : address * Tracked) : bool :=
  jsstring_eqb (fst e) a.

Definition mapHas (a : address) (m : ActiveTokens) : bool := existsb (isKey a) m.

Definition mapGet (a : address) (m : ActiveTokens) : option Tracked :=
  option_map snd (find (isKey a) m).

Definition mapDelete (a : address) (m : ActiveTokens) : ActiveTokens :=
  filter (fun e => negb (isKey a e)) m.

(** [set] keeps the place of a key that is present and appends a new
    one. *)
Definition mapSet (a : address) (d : Tracked) (m : ActiveTokens) : ActiveTokens :=
  if mapHas a m then map (fun e => if isKey a e then (a, d) else e) m
  else m ++ [(a, d)].

(** The fields of the service the callbacks read and write;
    [checkTimeWindow] sets [isWithinTimeWindow] once a second. *)
Record State : Type := mkState {
  activeTokens : ActiveTokens;
  correctToken : option address;
  isWithinTimeWindow : bool
}.

Definition withTokens (s : State) (m : ActiveTokens) : State :=
  mkState m (correctToken s) (isWithinTimeWindow s).

Definition buyToken (env : Env) (a : address) : list Effect :=
  Swap None a
  :: match createSwapTransaction env None a with
     | Resolves _ => [Log LSuccess "Bought token" (Some a)]
     | Rejects => [Log LError "Error buying token:" None]
     end.

Definition checkTokenPrice (env : Env) (a : address) (m : ActiveTokens)
  : ActiveTokens * list Effect :=
  match jupPrice env a with
  | Rejects => (m, [Log LError "Error checking price for token" (Some a)])
  | Resolves response =>
      match orNull response with
      | None => (m, [])
      | Some currentPrice =>
          match mapGet a m with
          | None => (m, [])
          | Some tokenData =>
              (mapSet a (mkTracked (timestamp tokenData) currentPrice (now env)) m,
               if TokenMonitorService.thresholdMet currentPrice (price tokenData)
               then buyToken env a else [])
          end
      end
  end.

(** The loop of [checkAllTokenPrices] over the entries of the map. *)
Fixpoint checkEach (env : Env) (entries : list (address * Tracked)) (m : ActiveTokens)
  : ActiveTokens * list Effect :=
  match entries with
  | [] => (m, [])
  | (a, data) :: rest =>
      let thirtyMinutesAgo := (now env - 30 * 60 * 1000)%Z in
      if (timestamp data <? thirtyMinutesAgo)%Z then checkEach env rest (mapDelete a m)
      else if (now env - lastCheck data <? 1000)%Z then checkEach env rest m
      else
        let '(m1, e1) := checkTokenPrice env a m in
        let '(m2, e2) := checkEach env rest m1 in
        (m2, e1 ++ e2)
  end.

Definition checkAllTokenPrices (env : Env) (s : State) : State * list Effect :=
  if negb (isWithinTimeWindow s) then (s, [])
  else
    let '(m, e) := checkEach env (activeTokens s) (activeTokens s) in
    (withTokens s m, e).

(** The loop of [handleCorrectTokenAnnouncement] over the keys. *)
Fixpoint sellEach (cfg : Config) (env : Env) (correct : option address)
    (tracked : list address) (m : ActiveTokens) : ActiveTokens * list Effect :=
  match tracked with
  | [] => (m, [])
  | a :: rest =>
      let same := match correct with
                  | Some c => jsstring_eqb a c
                  | None => false
                  end in
      if negb same then
        match createSwapTransaction env (Some a) (wsol_pc_mint cfg) with
        | Resolves _ =>
            let '(m2, e2) := sellEach cfg env correct rest (mapDelete a m) in
            (m2, Swap (Some a) (wsol_pc_mint cfg)
                 :: Log LInfo "Sold incorrect token" (Some a) :: e2)
        | Rejects =>
            let '(m2, e2) := sellEach cfg env correct rest m in
            (m2, Swap (Some a) (wsol_pc_mint cfg)
                 :: Log LError "Error selling token" (Some a) :: e2)
        end
      else sellEach cfg env correct rest m
  end.

Definition handleCorrectTokenAnnouncement (cfg : Config) (env : Env) (s : State)
  : State * list Effect :=
  let '(m, e) := sellEach cfg env (correctToken s) (map fst (activeTokens s))
                   (activeTokens s) in
  (withTokens s m,
   e ++ match correctToken s with
        | Some c =>
            if negb (falsy_string (Some c)) && negb (mapHas c m)
            then buyToken env c else []
        | None => []
        end).

Definition setCorrectToken (cfg : Config) (env : Env) (a : address) (s : State)
  : State * list Effect :=
  let r := handleCorrectTokenAnnouncement cfg env
             (mkState (activeTokens s) (Some a) (isWithinTimeWindow s)) in
  (fst r, Log LInfo "Setting correct token" (Some a) :: snd r).

(** [isTokenSafe(rugcheck)]: reading a property of [null] or of
    [undefined] throws. *)
Definition isTokenSafe (rc : RugCheckConfig) (rugcheck : option json) : Res bool :=
  match rugcheck with
  | None | Some JNull => Throws
  | Some v =>
      Returns (negb (truthy (prop v "rugged"))
               && (negb (truthy (prop v "mintAuthority")) || allow_mint_authority rc)
               && (negb (truthy (prop v "freezeAuthority")) || allow_freeze_authority rc)
               && (negb (truthy (prop v "mutable")) || allow_mutable rc))
  end.

(** [!creationTime] for the value of [getTokenCreationTime], which is
    [null] when the request fails. *)
Definition creationTimeOf (response : Ext (option Z)) : option Z :=
  match response with
  | Resolves (Some ts) => if (ts =? 0)%Z then None else Some ts
  | Resolves None => None
  | Rejects => None
  end.

(** [handleNewToken], which [handleNewTokenFromWebsocket] awaits.
    [getTokenCreationTime] and [getRugCheckConfirmed] give the answers of
    the two lookups this version makes beside those of [Env]. *)
Definition handleNewToken (rc : RugCheckConfig) (env : Env)
    (getTokenCreationTime : address -> Ext (option Z))
    (getRugCheckConfirmed : address -> Ext (option json))
    (tokenData : TxDetails) (s : State) : Res unit * State * list Effect :=
  if falsy_string (mint tokenData) then (Returns tt, s, [])
  else
    let a := match mint tokenData with Some x => x | None => [] end in
    if mapHas a (activeTokens s) then (Returns tt, s, [])
    else
      let creationLog := match getTokenCreationTime a with
                         | Rejects => [Log LError "Error getting token creation time:" None]
                         | Resolves _ => []
                         end in
      match creationTimeOf (getTokenCreationTime a) with
      | None => (Returns tt, s, creationLog)
      | Some creationTime =>
          let thirtyMinutesAgo := (now env - 30 * 60 * 1000)%Z in
          if (creationTime <? thirtyMinutesAgo)%Z then (Returns tt, s, creationLog)
          else
            let devLog := match heliusTransfers env a with
                          | Rejects => [Log LError "Error checking dev sales:" None]
                          | Resolves _ => []
                          end in
            let hasDevSold := match heliusTransfers env a with
                              | Resolves data => TokenMonitorService.someDevTransfer data
                              | Rejects => false
                              end in
            if negb hasDevSold
            then (Returns tt, s,
                  creationLog ++ devLog
                  ++ [Log LInfo "skipped: Developer hasn't sold yet" (Some a)])
            else
              match getRugCheckConfirmed a with
              | Rejects => (Throws, s, creationLog ++ devLog)
              | Resolves rugcheck =>
                  match isTokenSafe rc rugcheck with
                  | Throws => (Throws, s, creationLog ++ devLog)
                  | Returns false =>
                      (Returns tt, s,
                       creationLog ++ devLog
                       ++ [Log LInfo "skipped: Failed rugcheck" (Some a)])
                  | Returns true =>
                      match jupPrice env a with
                      | Rejects =>
                          (Returns tt, s,
                           creationLog ++ devLog
                           ++ [Log LError "Error getting initial price:" None])
                      | Resolves response =>
                          match orNull response with
                          | None =>
                              (Returns tt, s,
                               creationLog ++ devLog
                               ++ [Log LInfo "skipped: No price data available" (Some a)])
                          | Some p =>
                              let m := mapSet a (mkTracked (now env) p (now env))
                                         (activeTokens s) in
                              (Returns tt, withTokens s m,
                               creationLog ++ devLog
                               ++ Log LInfo "Added token to watchlist" (Some a)
                               :: Log LInfo "Current watchlist size" None
                               :: Log LInfo "Current watchlist:" None
                               :: map (fun e => Log LInfo "-" (Some (fst e))) m)
                          end
                      end
                  end
              end
      end.

End WatchlistMonitor.

(* ===================================================================== *)
(** * token-monitor.service.ts: the interval timers of the two monitors *)
(* ===================================================================== *)

(** What an interval runs each time it fires. *)
Inductive Callback : Type :=
| CleanupCallback        (* cleanupOldTokens *)
| MonitoringCallback     (* the poll of the active tokens *)
| TimeWindowCallback     (* checkTimeWindow *)
| PriceCheckCallback.    (* checkAllTokenPrices *)

Definition Callback_eqb (a b : Callback) : bool :=
  match a, b with
  | CleanupCallback, CleanupCallback
  | MonitoringCallback, MonitoringCallback
  | TimeWindowCallback, TimeWindowCallback
  | PriceCheckCallback, PriceCheckCallback => true
  | _, _ => false
  end.

(** The intervals that were set and not cleared, each under the handle
    [setInterval] returned for it. *)
Record Timers : Type := mkTimers {
  nextHandle : nat;
  live : list (nat * Callback)
}.

Definition setInterval (cb : Callback) (t : Timers) : nat * Timers :=
  (nextHandle t, mkTimers (S (nextHandle t)) (live t ++ [(nextHandle t, cb)])).

Definition clearInterval (h : nat) (t : Timers) : Timers :=
  mkTimers (nextHandle t) (filter (fun x => negb (Nat.eqb (fst x) h)) (live t)).

(** The version that keeps the tokens in the database. *)
Module StoreMonitorTimers.

Record Service : Type := mkService {
  monitoringInterval : option nat;
  timers : Timers
}.

Definition startCleanupInterval (s : Service) : Service :=
  mkService (monitoringInterval s) (snd (setInterval CleanupCallback (timers s))).

(** [initialize], once the database is open. *)
Definition initialize (s : Service) : Service := startCleanupInterval s.

Definition startMonitoring (s : Service) : Service * list Effect :=
  match monitoringInterval s with
  | Some _ => (s, [Log LWarn "Monitoring is already running" None])
  | None =>
      let '(h, t) := setInterval MonitoringCallback (timers s) in
      (mkService (Some h) t, [])
  end.

Definition stopMonitoring (s : Service) : Service :=
  match monitoringInterval s with
  | Some h => mkService None (clearInterval h (timers s))
  | None => s
  end.

End StoreMonitorTimers.

(** The version that keeps the tokens in memory. *)
Module WatchlistMonitorTimers.

Record Service : Type := mkService {
  monitoringInterval : option nat;
  priceCheckInterval : option nat;
  timers : Timers
}.

Definition startMonitoring (s : Service) : Service :=
  let '(h1, t1) := setInterval TimeWindowCallback (timers s) in
  let '(h2, t2) := setInterval PriceCheckCallback t1 in
  mkService (Some h1) (Some h2) t2.

Definition stopMonitoring (s : Service) : Service :=
  let s1 := match monitoringInterval s with
            | Some h => mkService None (priceCheckInterval s)
                          (clearInterval h (timers s))
            | None => s
            end in
  match priceCheckInterval s1 with
  | Some h => mkService (monitoringInterval s1) None (clearInterval h (timers s1))
  | None => s1
  end.

End WatchlistMonitorTimers.

(** The calls a user of the service makes. *)
Inductive Call : Type := Initialize | StartMonitoring | StopMonitoring.

Definition callStore (s : StoreMonitorTimers.Service) (c : Call)
  : StoreMonitorTimers.Service :=
  match c with
  | Initialize => StoreMonitorTimers.initialize s
  | StartMonitoring => fst (StoreMonitorTimers.startMonitoring s)
  | StopMonitoring => StoreMonitorTimers.stopMonitoring s
  end.

(** The in-memory version has no [initialize]. *)
Definition callWatchlist (s : WatchlistMonitorTimers.Service) (c : Call)
  : WatchlistMonitorTimers.Service :=
  match c with
  | Initialize => s
  | StartMonitoring => WatchlistMonitorTimers.startMonitoring s
  | StopMonitoring => WatchlistMonitorTimers.stopMonitoring s
  end.

(* ===================================================================== *)
(** * The handlers as asynchronous functions *)
(* ===================================================================== *)

(** An [async] function runs without interruption from one [await] to
    the next; while it waits, other callbacks of the event loop run and
    may read and write the table.  [Prog A] is a handler cut into such
    segments: it has ended with a result, or its next segment is ready
    and, run on the table as it is at that time, gives the rest of the
    handler ([next]), the table it leaves ([write]) and what it does to
    the outside ([says]). *)
Inductive Prog (A : Type) : Type :=
| Done (r : Res A)
| Step (next : Table -> Prog A) (write : Table -> Table)
       (says : Table -> list Effect).
Arguments Done {A} r.
Arguments Step {A} next write says.

(** One awaited operation as a segment.  Every statement of the database
    service and every request to the outside is one; a log line is made
    a segment of its own as well, which adds places where other handlers
    may run but, a log line touching nothing, no behaviour of the table
    or of the trades. *)
Definition perform {A} (m : M A) : Prog A :=
  Step (fun t => Done (resultOf (m t))) (fun t => tableOf (m t))
       (fun t => effectsOf (m t)).

Definition pret {A} (a : A) : Prog A := Done (Returns a).

Fixpoint pbind {A B} (p : Prog A) (k : A -> Prog B) : Prog B :=
  match p with
  | Done (Returns a) => k a
  | Done Throws => Done Throws
  | Step next write says => Step (fun t => pbind (next t) k) write says
  end.

(** [try { body } catch (error) { handler }] *)
Fixpoint ptryCatch {A} (body handler : Prog A) : Prog A :=
  match body with
  | Done (Returns a) => Done (Returns a)
  | Done Throws => handler
  | Step next write says => Step (fun t => ptryCatch (next t) handler) write says
  end.

Declare Scope prog_scope.
Delimit Scope prog_scope with prog.
Notation "x <- p ;; k" := (pbind p (fun x => k))
  (at level 61, p at next level, right associativity) : prog_scope.
Notation "p ;; k" := (pbind p (fun _ => k))
  (at level 61, right associativity) : prog_scope.

(** [for (const x of xs) { await body(x) }] *)
Fixpoint pforOf {A} (xs : list A) (body : A -> Prog unit) : Prog unit :=
  match xs with
  | [] => pret tt
  | x :: xs' => pbind (body x) (fun _ => pforOf xs' body)
  end.

(** A handler run from its first segment to its end with no other
    callback in between. *)
Fixpoint runToEnd {A} (p : Prog A) : M A :=
  fun t =>
    match p with
    | Done r => (r, t, [])
    | Step next write says =>
        match runToEnd (next t) (write t) with
        | (r, t2, e2) => (r, t2, says t ++ e2)
        end
    end.

(** What one segment did: the table it found, the table it left, its
    effects. *)
Definition Segment : Type := Table * Table * list Effect.

Definition found (s : Segment) : Table := fst (fst s).
Definition left (s : Segment) : Table := snd (fst s).
Definition said (s : Segment) : list Effect := snd s.

(** A handler run while other callbacks do what they will: its segment
    number [k] finds the table [seen k], whatever the handler itself left
    before. *)
Fixpoint runSeen {A} (p : Prog A) (seen : nat -> Table) (k : nat)
  : Res A * list Segment :=
  match p with
  | Done r => (r, [])
  | Step next write says =>
      let t := seen k in
      match runSeen (next t) seen (S k) with
      | (r, log) => (r, (t, write t, says t) :: log)
      end
  end.

Definition saidIn (log : list Segment) : list Effect := flat_map said log.

(** The methods of [TokenMonitorService] again, cut at their [await]s:
    each is the method above with every awaited operation made a
    segment.  [runToEnd] gives the method back (see [checkToken_serial]
    and the lemmas after it). *)
Module Async.

Local Open Scope prog_scope.

Definition addToken (env : Env) (a : address) (p : Q) : Prog unit :=
  let token := mkToken a (now env) p (now env) active in
  perform (DatabaseService.addToken env token) ;;
  perform (emit (Log LInfo "Added new token to monitor" (Some a))).

Definition getCurrentPrice (env : Env) (a : address) : Prog (option Q) :=
  ptryCatch
    (response <- perform (await (jupPrice env a)) ;;
     pret (orNull response))
    (perform (emit (Log LError "Error fetching price for token" (Some a))) ;;
     pret None).

Definition checkDevSold (env : Env) (a : address) : Prog bool :=
  ptryCatch
    (data <- perform (await (heliusTransfers env a)) ;;
     pret (TokenMonitorService.someDevTransfer data))
    (perform (emit (Log LError "Error checking dev sales" None)) ;;
     pret false).

Definition buyToken (env : Env) (a : address) : Prog unit :=
  ptryCatch
    (perform (emit (Swap None a)) ;;
     _ <- perform (await (createSwapTransaction env None a)) ;;
     perform (emit (Log LSuccess "Bought token" (Some a))))
    (perform (emit (Log LError "Error buying token" None))).

Definition checkToken (env : Env) (token : TokenTrack) : Prog unit :=
  let a := tokenAddress token in
  ptryCatch
    (currentPrice <- getCurrentPrice env a ;;
     match currentPrice with
     | Some cur =>
         perform (DatabaseService.updateTokenPrice env a cur) ;;
         if TokenMonitorService.thresholdMet cur (price token)
         then buyToken env a else pret tt
     | None => pret tt
     end ;;
     devSold <- checkDevSold env a ;;
     if devSold then
       perform (DatabaseService.updateTokenStatus env a inactive) ;;
       perform (emit (Log LWarn "Developer sold tokens, marking as inactive" (Some a)))
     else pret tt)
    (perform (emit (Log LError "Error checking token" (Some a)))).

(** The callback of the monitoring interval: [setInterval] starts it
    every ten seconds whether or not the one before has ended. *)
Definition monitoringTick (env : Env) : Prog unit :=
  ptryCatch
    (activeTokens <- perform (DatabaseService.getActiveTokens env) ;;
     pforOf activeTokens (checkToken env))
    (perform (emit (Log LError "Error during token monitoring" None))).

Definition cleanupTick (env : Env) : Prog unit :=
  ptryCatch
    (perform (DatabaseService.cleanupOldTokens env
                TokenMonitorService.TOKEN_MAX_AGE_HOURS))
    (perform (emit (Log LError "Failed to cleanup old tokens" None))).

Definition handleNewTokenFromWebsocket (env : Env) (txDetails : option TxDetails)
  : Prog unit :=
  ptryCatch
    (match txDetails with
     | None => perform (emit (Log LError "Invalid transaction details received" None))
     | Some d =>
         if falsy_string (mint d)
         then perform (emit (Log LError "Invalid transaction details received" None))
         else
           let m := match mint d with Some a => a | None => [] end in
           existingToken <- perform (DatabaseService.getToken env m) ;;
           match existingToken with
           | Some _ =>
               perform (emit (Log LInfo "Token already being monitored" (Some m)))
           | None =>
               gate <- ptryCatch
                 (isRugCheckPassed <- perform (await (getRugCheckConfirmed env m)) ;;
                  if negb isRugCheckPassed then
                    perform (emit (Log LWarn "Rug Check not passed! Token not added."
                                     None)) ;;
                    pret false
                  else
                    perform (emit (Log LInfo "Rug check passed for token" (Some m))) ;;
                    pret true)
                 (perform (emit (Log LError "Failed to perform rug check for token"
                                   (Some m))) ;;
                  pret false) ;;
               if negb gate then pret tt
               else
                 currentPrice <- getCurrentPrice env m ;;
                 match currentPrice with
                 | Some cur => addToken env m cur
                 | None => pret tt
                 end
           end
     end)
    (perform (emit (Log LError "Error handling new token from websocket" None))).

Definition sellIncorrect (cfg : Config) (env : Env) (a : address)
    (token : TokenTrack) : Prog unit :=
  if negb (jsstring_eqb (tokenAddress token) a) then
    ptryCatch
      (perform (emit (Swap (Some (tokenAddress token)) (wsol_pc_mint cfg))) ;;
       _ <- perform (await (createSwapTransaction env (Some (tokenAddress token))
                              (wsol_pc_mint cfg))) ;;
       perform (emit (Log LInfo "Sold incorrect token" (Some (tokenAddress token)))) ;;
       perform (DatabaseService.updateTokenStatus env (tokenAddress token) inactive))
      (perform (emit (Log LError "Error selling token" (Some (tokenAddress token)))))
  else pret tt.

Definition buyCorrect (env : Env) (a : address) : Prog unit :=
  correctToken <- perform (DatabaseService.getToken env a) ;;
  match correctToken with
  | None =>
      currentPrice <- getCurrentPrice env a ;;
      match currentPrice with
      | Some cur => addToken env a cur ;; buyToken env a
      | None => pret tt
      end
  | Some _ => pret tt
  end.

Definition setCorrectToken (cfg : Config) (env : Env) (a : address) : Prog unit :=
  perform (emit (Log LInfo "Setting correct token" (Some a))) ;;
  activeTokens <- perform (DatabaseService.getActiveTokens env) ;;
  pforOf activeTokens (sellIncorrect cfg env a) ;;
  buyCorrect env a.

End Async.

(** The callbacks of the monitor that the event loop starts. *)
Inductive Handler : Type :=
| HDiscovery (env : Env) (txDetails : option TxDetails)
| HMonitoringTick (env : Env)
| HCleanupTick (env : Env)
| HCorrectToken (env : Env) (a : address).

Definition worldOf (h : Handler) : Env :=
  match h with
  | HDiscovery env _ | HMonitoringTick env | HCleanupTick env
  | HCorrectToken env _ => env
  end.

Definition programOf (cfg : Config) (h : Handler) : Prog unit :=
  match h with
  | HDiscovery env d => Async.handleNewTokenFromWebsocket env d
  | HMonitoringTick env => Async.monitoringTick env
  | HCleanupTick env => Async.cleanupTick env
  | HCorrectToken env a => Async.setCorrectToken cfg env a
  end.

(** The monitor at one moment: the token table and the handlers that
    were started, each with what is left of it (a handler that has ended
    keeps its place). *)
Record Concurrent : Type := mkConcurrent {
  store : Table;
  running : list (Handler * Prog unit)
}.

Definition idle : Concurrent := mkConcurrent [] [].

(** What the event loop does next: it starts a handler, or it resumes
    the handler number [i] for one segment. *)
Inductive Move : Type :=
| Start (h : Handler)
| Resume (i : nat).

Fixpoint setNth {A} (i : nat) (x : A) (l : list A) : list A :=
  match l, i with
  | [], _ => []
  | _ :: l', O => x :: l'
  | y :: l', S i' => y :: setNth i' x l'
  end.

Definition move (cfg : Config) (s : Concurrent) (mv : Move)
  : Concurrent * list Effect :=
  match mv with
  | Start h => (mkConcurrent (store s) (running s ++ [(h, programOf cfg h)]), [])
  | Resume i =>
      match nth_error (running s) i with
      | Some (h, Step next write says) =>
          (mkConcurrent (write (store s))
             (setNth i (h, next (store s)) (running s)),
           says (store s))
      | _ => (s, [])
      end
  end.

Fixpoint play (cfg : Config) (s : Concurrent) (mvs : list Move)
  : Concurrent * list Effect :=
  match mvs with
  | [] => (s, [])
  | mv :: mvs' =>
      let '(s1, e1) := move cfg s mv in
      let '(s2, e2) := play cfg s1 mvs' in
      (s2, e1 ++ e2)
  end.

(** The handler number [i] resumed until it has ended, with no other
    callback in between; [fuel] bounds the number of segments. *)
Definition finish (fuel : nat) (i : nat) : list Move := repeat (Resume i) fuel.

(* ===================================================================== *)
(** * Further scenarios *)
(* ===================================================================== *)

(** An outside world whose clock shows 300000000 ms, in which the driver
    works and every collaborator fails. *)
Definition lateEnv : Env :=
  mkEnv 300000000 (fun _ => Rejects) (fun _ => Rejects) (fun _ => Rejects)
    (fun _ _ => Rejects) (fun _ => Rejects) (fun _ => false).


(** A calm outside world with price 3.5 for every token, in which the
    driver rejects the price update of [AddrY]. *)
Definition priceWriteFailsEnv : Env :=
  mkEnv 0
    (fun _ => Resolves true)
    (fun _ => Resolves (Some 3.5))
    (fun _ => Resolves [])
    (fun _ _ => Resolves (Some (lit "tx")))
    (fun _ => Resolves true)
    (fun c => match c with
              | SqlUpdatePrice a _ => jsstring_eqb a AddrY
              | _ => false
              end).

(** A ledger of three transactions, newest first, and the clock of a run
    whose five-hour window starts at second 500. *)
Definition ledger3 : list GetPools.Tx :=
  [GetPools.mkTx (Some 1000%Z) (Some (lit "s1")) None;
   GetPools.mkTx (Some 900%Z) (Some (lit "s2")) None;
   GetPools.mkTx (Some 100%Z) (Some (lit "s3")) None].

Definition clock3 : Z := 18500999.

(** An endpoint that answers every request with the same page, whose
    last transaction carries no signature. *)
Definition unsignedEndpoint : GetPools.Endpoint :=
  fun _ _ => Resolves (Some [GetPools.mkTx (Some 1000%Z) (Some (lit "s1")) None;
                             GetPools.mkTx (Some 900%Z) None None]).

(** The notification of the log subscription for a transaction signed
    [sig] whose logs show the creation of a pool; the acknowledgement of
    the subscription; an error of the RPC node. *)
Definition poolNotice (sig : jsstring) : json :=
  JObject
    [(lit "jsonrpc", JString (lit "2.0"));
     (lit "method", JString (lit "logsNotification"));
     (lit "params",
      JObject
        [(lit "result",
          JObject
            [(lit "context", JObject [(lit "slot", JNumber (Fin 5))]);
             (lit "value",
              JObject
                [(lit "signature", JString sig);
                 (lit "err", JNull);
                 (lit "logs",
                  JArray
                    [JString (lit "Program 675k invoke [1]");
                     JString (lit "Program log: initialize2: InitializeInstruction2 { nonce: 254 }")])])]);
         (lit "subscription", JNumber (Fin 7))])].

Definition subscriptionAck : json :=
  JObject [(lit "jsonrpc", JString (lit "2.0")); (lit "result", JNumber (Fin 7));
           (lit "id", JNumber (Fin 1))].

Definition rpcError : json :=
  JObject [(lit "jsonrpc", JString (lit "2.0"));
           (lit "error", JObject [(lit "code", JNumber (Fin (-32601)))]);
           (lit "id", JNumber (Fin 1))].

(** Transaction details are found for every signature: the mint is
    [AddrX]. *)
Definition fetchesX : jsstring -> Ext (option TxDetails) :=
  fun _ => Resolves (discover AddrX).

(** An outside world in which prices are 3.5 and swaps work, and the
    driver rejects every statement: the database was never opened. *)
Definition noDatabaseEnv : Env :=
  mkEnv 0
    (fun _ => Resolves true)
    (fun _ => Resolves (Some 3.5))
    (fun _ => Resolves [])
    (fun _ _ => Resolves (Some (lit "tx")))
    (fun _ => Resolves true)
    (fun _ => true).

(** A run of 45 characters of the class, and two messages that hold it:
    after a word, and on a line before a line that holds an address. *)
Definition run45 : jsstring := repeat 49%N 45.

Definition address44 : jsstring := repeat 50%N 44.

Definition runMessage : jsstring := lit "CA: " ++ run45 ++ lit " now".

Definition twoLineMessage : jsstring := run45 ++ [newline] ++ address44.

(** A watchlist of two tokens enrolled at time 0 at price 1, in a
    service whose window flag is set. *)
Definition watch2 : WatchlistMonitor.State :=
  WatchlistMonitor.mkState
    [(Addr1, WatchlistMonitor.mkTracked 0 1 (-5000));
     (AddrY, WatchlistMonitor.mkTracked 0 1 (-5000))]
    None true.

Definition strictRugCheck : RugCheckConfig := mkRugCheckConfig false false false.

(** A rug-check report of a token whose mint authority is still set. *)
Definition mintableReport : json :=
  JObject [(lit "rugged", JBool false);
           (lit "mintAuthority", JString (lit "9xQe"));
           (lit "freezeAuthority", JNull);
           (lit "mutable", JBool false)].

(** An outside world in which the developer of every token has sold and
    every token is priced 2. *)
Definition devSoldEnv : Env := withPrice devSellsEnv (Resolves (Some 2)).

(** ** Runs of the event loop *)






(** [Addr1] is enrolled at price 1; a tick observes 3.5 and runs to its
    end; then a tick that observes [q] runs. *)
Definition twoPolls (q : Q) : list Move :=
  Start (HDiscovery (priced 1) (discover Addr1)) :: finish 8 0
  ++ Start (HMonitoringTick (priced 3.5)) :: finish 8 1
  ++ Start (HMonitoringTick (priced q)) :: finish 8 2.

(** [AddrY] is enrolled at price 1; a tick that observes 3.5 and finds
    that the developer has sold runs to its end; then a tick that
    observes 11 runs. *)
Definition soldThenPolled : list Move :=
  Start (HDiscovery (priced 1) (discover AddrY)) :: finish 8 0
  ++ Start (HMonitoringTick (withPrice devSellsEnv (Resolves (Some 3.5))))
     :: finish 12 1
  ++ Start (HMonitoringTick (priced 11)) :: finish 8 2.

(** [Addr1], inactive and last checked at time 0, and [AddrY], active,
    are in the table when cleanup runs at 300000000 ms. *)
Definition cleanupOfTwo : list Move :=
  Start (HDiscovery (priced 1) (discover Addr1)) :: finish 8 0
  ++ Start (HMonitoringTick devSellsEnv) :: finish 8 1
  ++ Start (HDiscovery (priced 1) (discover AddrY)) :: finish 8 2
  ++ [Start (HCleanupTick lateEnv)].


(** [Addr1] is enrolled at price 1, then [AddrX] is discovered at price
    2; the second discovery has run to its end. *)
Definition twoDiscoveries : list Move :=
  Start (HDiscovery (priced 1) (discover Addr1)) :: finish 8 0
  ++ Start (HDiscovery (priced 2) (discover AddrX)) :: finish 8 1.

(* ===================================================================== *)
(** * Further derived notions *)
(* ===================================================================== *)

(** The row of a token after one poll, whatever the driver does: a
    failed price update ends the poll of that token, a failed status
    update leaves the price update in place. *)
Definition polledWith (env : Env) (r : TokenTrack) : TokenTrack :=
  let retire (r1 : TokenTrack) :=
    if devSold env (tokenAddress r) then
      if dbThrows env (SqlUpdateStatus (tokenAddress r) inactive) then r1
      else mkToken (tokenAddress r1) (timestamp r1) (price r1) (now env) inactive
    else r1 in
  match observedPrice env (tokenAddress r) with
  | Some cur =>
      if dbThrows env (SqlUpdatePrice (tokenAddress r) cur) then r
      else retire (mkToken (tokenAddress r) (timestamp r) cur (now env) (status r))
  | None => retire r
  end.

(** The transactions of a ledger listed after the one signed [b]. *)
Fixpoint ledgerAfter (b : jsstring) (ledger : list GetPools.Tx) : list GetPools.Tx :=
  match ledger with
  | [] => []
  | tx :: rest =>
      match GetPools.signature tx with
      | Some s => if jsstring_eqb s b then rest else ledgerAfter b rest
      | None => ledgerAfter b rest
      end
  end.

(** An endpoint that pages through a ledger, [limit] transactions at a
    time, starting after the transaction named in the request. *)
Definition pagingEndpoint (limit : nat) (ledger : list GetPools.Tx)
  : GetPools.Endpoint :=
  fun _ before =>
    Resolves (Some (firstn limit (match before with
                                  | None => ledger
                                  | Some b => ledgerAfter b ledger
                                  end))).

(** A ledger lists its transactions newest first, each with its block
    time. *)
Definition notOlder (x y : GetPools.Tx) : Prop :=
  match GetPools.blockTime x, GetPools.blockTime y with
  | Some a, Some b => (b <= a)%Z
  | _, _ => False
  end.

Fixpoint NewestFirst (ledger : list GetPools.Tx) : Prop :=
  match ledger with
  | [] => True
  | x :: rest => (forall y, In y rest -> notOlder x y) /\ NewestFirst rest
  end.

Definition inWindow (dateNow : Z) (tx : GetPools.Tx) : bool :=
  GetPools.geNumber (GetPools.blockTime tx) (GetPools.getFiveHoursAgo dateNow).

(** A notification of the log subscription that reports the creation of
    a pool by the transaction signed [sig]: an object with no [result]
    and no error, whose [params.result.value] holds a non-empty string
    [signature] and an array [logs] with a string that contains the
    marker of the pool initialisation. *)
Definition PoolCreationNotice (data : option json) (sig : jsstring) : Prop :=
  exists fields params result value items log pre post,
    data = Some (JObject fields)
    /\ own fields "result" = None
    /\ truthy (own fields "error") = false
    /\ own fields "params" = Some (JObject params)
    /\ own params "result" = Some (JObject result)
    /\ own result "value" = Some (JObject value)
    /\ own value "logs" = Some (JArray items)
    /\ own value "signature" = Some (JString sig)
    /\ sig <> []
    /\ In (JString log) items
    /\ log = pre ++ WebsocketHandler.poolCreationLog ++ post.

(** The outcome of the handler for a notification of a pool creation. *)
Definition handled (env : Env)
    (fetchTransactionDetails : jsstring -> Ext (option TxDetails))
    (tokenMonitorInstance : bool) (sig : jsstring) (t : Table)
  : Res unit * Table * list Effect :=
  let seen := Log LInfo "New pool creation detected with signature" (Some sig) in
  match fetchTransactionDetails sig with
  | Rejects => (Returns tt, t, [seen; Log LError "Error fetching transaction details:" None])
  | Resolves None =>
      (Returns tt, t, [seen; Log LError "Failed to fetch transaction details" None])
  | Resolves (Some d) =>
      if tokenMonitorInstance then
        (Returns tt,
         tableOf (TokenMonitorService.handleNewTokenFromWebsocket env (Some d) t),
         seen :: Log LInfo "Found new token mint" (mint d)
           :: effectsOf (TokenMonitorService.handleNewTokenFromWebsocket env (Some d) t))
      else (Returns tt, t, [seen; Log LInfo "Found new token mint" (mint d)])
  end.

(** What the handler leaves behind when it stops before the lookup of
    the transaction. *)
Definition Dropped (r : Res unit * Table * list Effect) (t : Table) : Prop :=
  resultOf r = Returns tt /\ tableOf r = t
  /\ (effectsOf r = [] \/ exists lvl line, effectsOf r = [Log lvl line None]).

(** The outside world a callback runs in, for the callbacks that have
    one. *)
Definition envOf (ev : Event) : option Env :=
  match ev with
  | EvDiscovery env _ | EvMonitoringTick env | EvCleanupTick env
  | EvCorrectToken env _ | EvSettled env _ => Some env
  | EvTokenReceived _ => None
  end.

Definition isSettlement (ev : Event) : bool :=
  match ev with
  | EvSettled _ _ => true
  | _ => false
  end.

Definition sqlOf (es : list Effect) : list DbCall :=
  flat_map (fun e => match e with Sql c => [c] | _ => [] end) es.

(** The text ends, or begins, outside the class of the address pattern:
    a run of class characters cannot continue across its end, or its
    start. *)
Fixpoint endsOutsideClass (s : jsstring) : bool :=
  match s with
  | [] => true
  | [c] => negb (isBase58 c)
  | _ :: s' => endsOutsideClass s'
  end.

Definition startsOutsideClass (s : jsstring) : bool :=
  match s with
  | [] => true
  | c :: _ => negb (isBase58 c)
  end.

(** An entry of the watchlist is stale at the time of a price sweep, or
    was checked less than a second before it. *)
Definition stale (env : Env) (e : address * WatchlistMonitor.Tracked) : bool :=
  (WatchlistMonitor.timestamp (snd e) <? now env - 30 * 60 * 1000)%Z.

Definition justChecked (env : Env) (e : address * WatchlistMonitor.Tracked) : bool :=
  (now env - WatchlistMonitor.lastCheck (snd e) <? 1000)%Z.

(** The entry after a price sweep, for an entry that stays. *)
Definition repriced (env : Env) (e : address * WatchlistMonitor.Tracked)
  : address * WatchlistMonitor.Tracked :=
  if justChecked env e then e
  else match observedPrice env (fst e) with
       | Some p => (fst e, WatchlistMonitor.mkTracked
                             (WatchlistMonitor.timestamp (snd e)) p (now env))
       | None => e
       end.

(** Whether a price sweep buys the token of an entry. *)
Definition sweepBuys (env : Env) (e : address * WatchlistMonitor.Tracked) : bool :=
  negb (stale env e) && negb (justChecked env e)
  && match observedPrice env (fst e) with
     | Some p => TokenMonitorService.thresholdMet p (WatchlistMonitor.price (snd e))
     | None => false
     end.

(** Whether the sweep of a designation of [a] leaves an entry in the
    watchlist: the entry of [a], and those whose sell is rejected. *)
Definition unsold (cfg : Config) (env : Env) (a : address)
    (e : address * WatchlistMonitor.Tracked) : bool :=
  WatchlistMonitor.isKey a e
  || match createSwapTransaction env (Some (fst e)) (wsol_pc_mint cfg) with
     | Resolves _ => false
     | Rejects => true
     end.

(** The rug-check options ordered by what they allow. *)
Definition allowsAtLeast (rc rc' : RugCheckConfig) : Prop :=
  (allow_mint_authority rc = true -> allow_mint_authority rc' = true)
  /\ (allow_freeze_authority rc = true -> allow_freeze_authority rc' = true)
  /\ (allow_mutable rc = true -> allow_mutable rc' = true).

(** The conditions under which the in-memory monitor starts to track the
    mint [a] of a discovery, at the price [p]. *)
Definition Trackable (rc : RugCheckConfig) (env : Env)
    (getTokenCreationTime : address -> Ext (option Z))
    (getRugCheckConfirmed : address -> Ext (option json))
    (tokenData : TxDetails) (s : WatchlistMonitor.State) (a : address) (p : Q)
  : Prop :=
  mint tokenData = Some a /\ a <> []
  /\ WatchlistMonitor.mapHas a (WatchlistMonitor.activeTokens s) = false
  /\ (exists ts, getTokenCreationTime a = Resolves (Some ts)
                 /\ ts <> 0%Z /\ (now env - 30 * 60 * 1000 <= ts)%Z)
  /\ devSold env a = true
  /\ (exists rugcheck, getRugCheckConfirmed a = Resolves rugcheck
                       /\ WatchlistMonitor.isTokenSafe rc rugcheck = Returns true)
  /\ observedPrice env a = Some p.

(** The number of live intervals that run a given callback. *)
Definition liveCount (cb : Callback) (t : Timers) : nat :=
  List.length (filter (fun x => Callback_eqb (snd x) cb) (live t)).

Definition newStore : StoreMonitorTimers.Service :=
  StoreMonitorTimers.mkService None (mkTimers 0 []).

Definition newWatchlist : WatchlistMonitorTimers.Service :=
  WatchlistMonitorTimers.mkService None None (mkTimers 0 []).

Definition initializations (calls : list Call) : nat :=
  List.length (filter (fun c => match c with Initialize => true | _ => false end) calls).

(** The handles are fresh, every interval has a handle of its own, and
    the only monitoring interval is the one the service holds. *)
Record StoreTimersInvariant (s : StoreMonitorTimers.Service) : Prop := {
  handles_below : forall x, In x (live (StoreMonitorTimers.timers s)) ->
                            (fst x < nextHandle (StoreMonitorTimers.timers s))%nat;
  handles_once : NoDup (map fst (live (StoreMonitorTimers.timers s)));
  monitoring_held :
    filter (fun x => Callback_eqb (snd x) MonitoringCallback)
      (live (StoreMonitorTimers.timers s))
    = match StoreMonitorTimers.monitoringInterval s with
      | Some h => [(h, MonitoringCallback)]
      | None => []
      end
}.

(** An interval that the in-memory service no longer holds. *)
Definition Leaked (cb : Callback) (h : nat) (s : WatchlistMonitorTimers.Service)
  : Prop :=
  In (h, cb) (live (WatchlistMonitorTimers.timers s))
  /\ (h < nextHandle (WatchlistMonitorTimers.timers s))%nat
  /\ WatchlistMonitorTimers.monitoringInterval s <> Some h
  /\ WatchlistMonitorTimers.priceCheckInterval s <> Some h.

(** ** Handlers that overlap *)

(** Every segment of a handler, on whatever table it finds, is in [R],
    and a value the handler returns is in [Q]. *)
Inductive Segments {A : Type} (R : Table -> Table -> list Effect -> Prop)
    (Q : A -> Prop) : Prog A -> Prop :=
| Segments_returns (a : A) : Q a -> Segments R Q (Done (Returns a))
| Segments_throws : Segments R Q (Done Throws)
| Segments_step (next : Table -> Prog A) (write : Table -> Table)
    (says : Table -> list Effect) :
    (forall t, R t (write t) (says t)) ->
    (forall t, Segments R Q (next t)) ->
    Segments R Q (Step next write says).

(** A handler that does not look at the table: what it goes on to do and
    what it does to the outside are the same on every table (what it
    writes may depend on the table it writes to). *)
Inductive Blind {A : Type} : Prog A -> Prop :=
| Blind_done (r : Res A) : Blind (Done r)
| Blind_step (next : Table -> Prog A) (write : Table -> Table)
    (says : Table -> list Effect) :
    (forall t u, next t = next u) ->
    (forall t u, says t = says u) ->
    (forall t, Blind (next t)) ->
    Blind (Step next write says).

(** Which handlers poll prices, set tokens inactive, enroll tokens and
    clean the table. *)
Definition polls (h : Handler) : bool :=
  match h with HMonitoringTick _ => true | _ => false end.

Definition retires (h : Handler) : bool :=
  match h with HMonitoringTick _ | HCorrectToken _ _ => true | _ => false end.

Definition enrolls (h : Handler) : bool :=
  match h with HDiscovery _ _ | HCorrectToken _ _ => true | _ => false end.

Definition cleans (h : Handler) : bool :=
  match h with HCleanupTick _ => true | _ => false end.

(** What one segment of the handler [h] may do to the table: nothing, or
    one of the four writing statements of the database service with the
    arguments the handler gives it. *)
Inductive Wrote (h : Handler) (t : Table) : Table -> list Effect -> Prop :=
| Wrote_nothing (es : list Effect) :
    writesOf es = [] -> Wrote h t t es
| Wrote_price (a : address) (p : Q) :
    polls h = true ->
    observedPrice (worldOf h) a = Some p ->
    Wrote h t (DatabaseService.setPrice a p (now (worldOf h)) t)
      [Sql (SqlUpdatePrice a p)]
| Wrote_status (a : address) :
    retires h = true ->
    Wrote h t (DatabaseService.setStatus a inactive (now (worldOf h)) t)
      [Sql (SqlUpdateStatus a inactive)]
| Wrote_token (a : address) (p : Q) :
    enrolls h = true ->
    observedPrice (worldOf h) a = Some p ->
    Wrote h t
      (DatabaseService.insertOrReplace
         (mkToken a (now (worldOf h)) p (now (worldOf h)) active) t)
      [Sql (SqlInsertOrReplace
              (mkToken a (now (worldOf h)) p (now (worldOf h)) active))]
| Wrote_cleanup :
    cleans h = true ->
    Wrote h t
      (DatabaseService.deleteOld
         (now (worldOf h)
          - TokenMonitorService.TOKEN_MAX_AGE_HOURS * 60 * 60 * 1000) t)
      [Sql (SqlDeleteOld TokenMonitorService.TOKEN_MAX_AGE_HOURS)].

(** The segments the handler number [i] ran during a run of the event
    loop. *)
Fixpoint threadLog (cfg : Config) (s : Concurrent) (mvs : list Move) (i : nat)
  : list Segment :=
  match mvs with
  | [] => []
  | mv :: mvs' =>
      match mv with
      | Resume j =>
          if Nat.eqb j i then
            match nth_error (running s) i with
            | Some (_, Step _ write says) =>
                [(store s, write (store s), says (store s))]
            | _ => []
            end
          else []
      | Start _ => []
      end ++ threadLog cfg (fst (move cfg s mv)) mvs' i
  end.

(** The enrollment writes for [a] among the effects. *)
Definition enrollsOf (a : address) (es : list Effect) : list TokenTrack :=
  flat_map (fun e => match e with
                     | Sql (SqlInsertOrReplace row) =>
                         if jsstring_eqb (tokenAddress row) a then [row] else []
                     | _ => []
                     end) es.

(** The same table at every segment. *)
Definition still (t : Table) : nat -> Table := fun _ => t.

(** What one segment of the handler [h] does to the record of [a]: it
    leaves it as it is, a poll stores the price it observed, the token is
    set inactive, an enrollment writes a fresh active record in its
    place, or cleanup deletes it when it is inactive and was last checked
    more than 72 hours before. *)
Inductive RowStep (h : Handler) (a : address)
  : option TokenTrack -> option TokenTrack -> list Effect -> Prop :=
| Row_kept (o : option TokenTrack) (es : list Effect) :
    enrollsOf a es = [] -> RowStep h a o o es
| Row_priced (r : TokenTrack) (p : Q) :
    polls h = true ->
    observedPrice (worldOf h) a = Some p ->
    RowStep h a (Some r)
      (Some (mkToken (tokenAddress r) (timestamp r) p (now (worldOf h)) (status r)))
      [Sql (SqlUpdatePrice a p)]
| Row_retired (r : TokenTrack) :
    retires h = true ->
    RowStep h a (Some r)
      (Some (mkToken (tokenAddress r) (timestamp r) (price r) (now (worldOf h))
               inactive))
      [Sql (SqlUpdateStatus a inactive)]
| Row_enrolled (o : option TokenTrack) (p : Q) :
    enrolls h = true ->
    observedPrice (worldOf h) a = Some p ->
    RowStep h a o
      (Some (mkToken a (now (worldOf h)) p (now (worldOf h)) active))
      [Sql (SqlInsertOrReplace
              (mkToken a (now (worldOf h)) p (now (worldOf h)) active))]
| Row_deleted (r : TokenTrack) :
    cleans h = true ->
    status r = inactive ->
    (lastCheck r
     < now (worldOf h)
       - TokenMonitorService.TOKEN_MAX_AGE_HOURS * 60 * 60 * 1000)%Z ->
    RowStep h a (Some r) None
      [Sql (SqlDeleteOld TokenMonitorService.TOKEN_MAX_AGE_HOURS)].

(** Every handler that was started is one of the handlers of the
    monitor, or what is left of it. *)
Definition Tame (s : Concurrent) : Prop :=
  Forall (fun hp => Segments (Wrote (fst hp)) (fun _ => True) (snd hp))
    (running s).

(** The tables a handler finds: [first] in its next segment, and
    [later n] in the segment [n] segments after that. *)
Definition seenFrom (first : Table) (later : nat -> Table) : nat -> Table :=
  fun n => match n with O => first | S m => later m end.

(** In the run [mvs] of the event loop the handler [h] was started and
    ran to its end; [log] are its segments, and its first segment found
    the table [t0]. *)
Definition ran (cfg : Config) (mvs : list Move) (h : Handler) (t0 : Table)
    (log : list Segment) : Prop :=
  exists i r,
    nth_error (running (fst (play cfg idle mvs))) i = Some (h, Done r)
    /\ log = threadLog cfg idle mvs i
    /\ option_map found (hd_error log) = Some t0.

(** The move [mv] resumes the handler [h]. *)
Definition movedBy (s : Concurrent) (mv : Move) (h : Handler) : Prop :=
  exists i p, mv = Resume i /\ nth_error (running s) i = Some (h, p).

(** The number of segments of a handler run in one piece from the table
    [t]. *)
Fixpoint segmentsLeft {A : Type} (p : Prog A) (t : Table) : nat :=
  match p with
  | Done _ => 0
  | Step next write _ => S (segmentsLeft (next t) (write t))
  end.

(** The callbacks of [System] that are handlers of the monitor. *)
Definition eventOf (h : Handler) : Event :=
  match h with
  | HDiscovery env d => EvDiscovery env d
  | HMonitoringTick env => EvMonitoringTick env
  | HCleanupTick env => EvCleanupTick env
  | HCorrectToken env a => EvCorrectToken env a
  end.

(* ===================================================================== *)
(** * Signal ingestion: address extraction *)
(* ===================================================================== *)

Section Extraction.

Lemma firstMatchingLine_found (pre : list jsstring) (line : jsstring)
    (post : list jsstring) :
  (forall l, In l pre -> solanaAddressRegex_test (trim l) = false) ->
  solanaAddressRegex_test (trim line) = true ->
  DexAnalyseManagerService.firstMatchingLine (pre ++ line :: post)
  = Some (trim line).
Proof.
  intros Hpre Hline. induction pre as [|l pre IH]; simpl.
  - now rewrite Hline.
  - rewrite (Hpre l (or_introl eq_refl)). apply IH.
    intros l' Hl'. apply Hpre. now right.
Qed.

Lemma firstMatchingLine_none (lines : list jsstring) :
  (forall l, In l lines -> solanaAddressRegex_test (trim l) = false) ->
  DexAnalyseManagerService.firstMatchingLine lines = None.
Proof.
  induction lines as [|l lines IH]; intros H; simpl; [reflexivity|].
  rewrite (H l (or_introl eq_refl)). apply IH.
  intros l' Hl'. apply H. now right.
Qed.

Lemma regex_test_nonempty (s : jsstring) :
  solanaAddressRegex_test s = true -> falsy_string (Some s) = false.
Proof.
  unfold solanaAddressRegex_test. destruct s; simpl; [discriminate|reflexivity].
Qed.

Lemma greedyClass_prefix (n : nat) (s : jsstring) :
  exists rest, s = greedyClass n s ++ rest.
Proof.
  revert s. induction n as [|n IH]; intros s.
  - exists s. now destruct s.
  - destruct s as [|c s]; [now exists []|]. simpl.
    destruct (isBase58 c).
    + destruct (IH s) as [rest Hrest]. exists rest. simpl. now f_equal.
    + now exists (c :: s).
Qed.

Lemma greedyClass_class (n : nat) (s : jsstring) :
  forallb isBase58 (greedyClass n s) = true.
Proof.
  revert s. induction n as [|n IH]; intros s; [now destruct s|].
  destruct s as [|c s]; [reflexivity|]. simpl.
  destruct (isBase58 c) eqn:Hc; [|reflexivity].
  simpl. now rewrite Hc, IH.
Qed.

Lemma greedyClass_length (n : nat) (s : jsstring) :
  (List.length (greedyClass n s) <= n)%nat.
Proof.
  revert s. induction n as [|n IH]; intros s; [destruct s; simpl; lia|].
  destruct s as [|c s]; simpl; [lia|].
  destruct (isBase58 c); simpl; [specialize (IH s)|]; lia.
Qed.

Lemma greedyClass_window (n : nat) (w post : jsstring) :
  forallb isBase58 w = true ->
  (List.length w <= n)%nat ->
  (List.length w <= List.length (greedyClass n (w ++ post)))%nat.
Proof.
  revert n. induction w as [|c w IH]; intros n Hw Hn; simpl; [lia|].
  simpl in Hw, Hn. apply andb_prop in Hw as [Hc Hw].
  destruct n as [|n]; [lia|]. simpl. rewrite Hc. simpl.
  specialize (IH n Hw). lia.
Qed.

Lemma addressPattern_match_some (s a : jsstring) :
  addressPattern_match s = Some a ->
  exists pre post,
    s = pre ++ a ++ post
    /\ (32 <= List.length a <= 44)%nat
    /\ forallb isBase58 a = true.
Proof.
  induction s as [|c s IH]; [discriminate|].
  cbn [addressPattern_match].
  pose proof (greedyClass_prefix 44 (c :: s)) as [rest Hrest].
  pose proof (greedyClass_length 44 (c :: s)) as Hmax.
  pose proof (greedyClass_class 44 (c :: s)) as Hcls.
  remember (greedyClass 44 (c :: s)) as g eqn:Hg. clear Hg.
  destruct (Nat.leb_spec 32 (List.length g)) as [Hlen|Hlen].
  - intros Heq. assert (g = a) as -> by congruence.
    exists [], rest. repeat split; assumption.
  - intros H. destruct (IH H) as (pre & post & -> & Hl & Hc).
    exists (c :: pre), post. now repeat split.
Qed.

Lemma addressPattern_match_none (s : jsstring) :
  addressPattern_match s = None ->
  forall pre w post,
    s = pre ++ w ++ post -> List.length w = 32%nat ->
    forallb isBase58 w = false.
Proof.
  induction s as [|c s IH]; intros Hnone pre w post Hs Hlen.
  - destruct pre; [|discriminate]. destruct w; [discriminate Hlen|discriminate Hs].
  - cbn [addressPattern_match] in Hnone.
    destruct pre as [|c' pre].
    + destruct (forallb isBase58 w) eqn:Hw; [|reflexivity]. exfalso.
      cbn [app] in Hs. rewrite Hs in Hnone.
      pose proof (greedyClass_window 44 w post Hw) as Hwin.
      remember (greedyClass 44 (w ++ post)) as g eqn:Hg. clear Hg.
      destruct (Nat.leb_spec 32 (List.length g)); [discriminate|lia].
    + remember (greedyClass 44 (c :: s)) as g eqn:Hg. clear Hg.
      destruct (Nat.leb_spec 32 (List.length g)); [discriminate|].
      injection Hs as _ Hs. exact (IH Hnone pre w post Hs Hlen).
Qed.

Lemma forallb_firstn (p : N -> bool) (n : nat) (w : jsstring) :
  forallb p w = true -> forallb p (firstn n w) = true.
Proof.
  revert n. induction w as [|c w IH]; intros n H; [now rewrite firstn_nil|].
  destruct n as [|n]; [reflexivity|]. cbn [firstn forallb] in *.
  apply andb_prop in H as [Hc Hw]. rewrite Hc. now apply IH.
Qed.

Lemma greedyClass_maximal (n : nat) (s post : jsstring) :
  s = greedyClass n s ++ post ->
  List.length (greedyClass n s) = n \/ startsOutsideClass post = true.
Proof.
  revert s. induction n as [|n IH]; intros s Hs; [left; now destruct s|].
  destruct s as [|c s].
  - right. cbn in Hs. now subst post.
  - cbn [greedyClass] in *. destruct (isBase58 c) eqn:Hc.
    + cbn [app] in Hs. injection Hs as Hs. destruct (IH s Hs) as [Hl|Hr].
      * left. cbn [List.length]. now rewrite Hl.
      * now right.
    + right. cbn [app] in Hs. subst post. cbn [startsOutsideClass]. now rewrite Hc.
Qed.

Lemma addressPattern_match_leftmost (s a : jsstring) :
  addressPattern_match s = Some a ->
  exists pre post,
    s = pre ++ a ++ post
    /\ (forall pre' w post',
          s = pre' ++ w ++ post' -> List.length w = 32%nat ->
          forallb isBase58 w = true ->
          (List.length pre <= List.length pre')%nat)
    /\ (List.length a = 44%nat \/ startsOutsideClass post = true).
Proof.
  induction s as [|c s IH]; [discriminate|].
  cbn [addressPattern_match].
  pose proof (greedyClass_prefix 44 (c :: s)) as [rest Hrest].
  pose proof (greedyClass_maximal 44 (c :: s) rest Hrest) as Hmaximal.
  assert (Hwin : forall w post',
             c :: s = w ++ post' -> List.length w = 32%nat ->
             forallb isBase58 w = true ->
             (32 <= List.length (greedyClass 44 (c :: s)))%nat).
  { intros w post' Hs Hl Hw. rewrite Hs, <- Hl.
    apply greedyClass_window; [assumption|lia]. }
  remember (greedyClass 44 (c :: s)) as g eqn:Hg. clear Hg.
  destruct (Nat.leb_spec 32 (List.length g)) as [Hlen|Hlen].
  - intros Heq. assert (g = a) as -> by congruence.
    exists [], rest. split; [exact Hrest|]. split; [intros; cbn; lia|exact Hmaximal].
  - intros H. destruct (IH H) as (pre & post & Hs & Hleft & Hgreedy).
    exists (c :: pre), post. split; [cbn [app]; now f_equal|].
    split; [|exact Hgreedy].
    intros pre' w post' Hm Hl Hw. destruct pre' as [|c' pre'].
    + exfalso. specialize (Hwin w post' Hm Hl Hw). lia.
    + cbn [app] in Hm. injection Hm as _ Hm. cbn [List.length].
      specialize (Hleft pre' w post' Hm Hl Hw). lia.
Qed.

End Extraction.

(** C9 (counterexample).  A message from an allow-listed channel none of
    whose lines fully matches the 44-character address pattern still
    makes [AnalyseManagerService] emit a discovery event: its pattern is
    not anchored to a line and accepts 32 to 44 characters. *)
Lemma C9_counterexample :
  allowListed CryptoPumpClubChannelId = true
  /\ (forall line, In line (split newline wsolMessage) ->
        solanaAddressRegex_test (trim line) = false)
  /\ discoveries
       (AnalyseManagerService.analyseTelegramMessage wsolMessage
          CryptoPumpClubChannelId)
     = [lit "So11111111111111111111111111111111111111112"].
Proof.
  split; [reflexivity|]. split.
  - intros line Hin. vm_compute in Hin.
    destruct Hin as [<-|[]]. vm_compute. reflexivity.
  - vm_compute. reflexivity.
Qed.

(** C9 (amended).  For a message from an allow-listed channel:
    [DexAnalyseManagerService] splits it into lines and hands the first
    line that, once trimmed, fully matches the 44-character base58
    pattern to [onTokenReceived]; when no line matches it emits no
    discovery event and only logs a warning.  [AnalyseManagerService]
    instead hands over the leftmost run of 32 to 44 base58 characters
    found anywhere in the message: the text that starts at the first
    position where 32 base58 characters follow one another and that goes
    on for as long as base58 characters follow, up to 44 of them; it
    emits no discovery event exactly when the message has no 32
    consecutive base58 characters. *)
Theorem C9_address_extraction (message channelId : jsstring) :
  allowListed channelId = true ->
  (forall pre line post,
      split newline message = pre ++ line :: post ->
      (forall l, In l pre -> solanaAddressRegex_test (trim l) = false) ->
      solanaAddressRegex_test (trim line) = true ->
      DexAnalyseManagerService.extractSolanaAddress message = Some (trim line)
      /\ discoveries (DexAnalyseManagerService.analyseTelegramMessage message channelId)
         = [trim line])
  /\ ((forall l, In l (split newline message) ->
         solanaAddressRegex_test (trim l) = false) ->
      DexAnalyseManagerService.extractSolanaAddress message = None
      /\ DexAnalyseManagerService.analyseTelegramMessage message channelId
         = [SLog "Analysing DEX telegram message";
            SWarn "No token address found in message"])
  /\ (forall a,
      AnalyseManagerService.extractTokenAddress message = Some a ->
      (exists pre post,
          message = pre ++ a ++ post
          /\ (forall pre' w post',
                message = pre' ++ w ++ post' -> List.length w = 32%nat ->
                forallb isBase58 w = true ->
                (List.length pre <= List.length pre')%nat)
          /\ (List.length a = 44%nat \/ startsOutsideClass post = true))
      /\ (32 <= List.length a <= 44)%nat
      /\ forallb isBase58 a = true
      /\ discoveries (AnalyseManagerService.analyseTelegramMessage message channelId)
         = [a])
  /\ (AnalyseManagerService.extractTokenAddress message = None ->
      (forall pre w post, message = pre ++ w ++ post ->
         List.length w = 32%nat -> forallb isBase58 w = false)
      /\ discoveries (AnalyseManagerService.analyseTelegramMessage message channelId)
         = [])
  /\ (discoveries (AnalyseManagerService.analyseTelegramMessage message channelId) = []
      <-> forall pre w post, message = pre ++ w ++ post ->
            List.length w = 32%nat -> forallb isBase58 w = false).
Proof.
  intros Hch.
  assert (Hds : forall a,
             AnalyseManagerService.extractTokenAddress message = Some a ->
             discoveries (AnalyseManagerService.analyseTelegramMessage message channelId)
             = [a]).
  { intros a Hext.
    destruct (addressPattern_match_some _ _ Hext) as (pre & post & Hm & Hl & Hc).
    unfold AnalyseManagerService.analyseTelegramMessage.
    rewrite Hch, Hext. destruct a; [simpl in Hl; lia|reflexivity]. }
  assert (Hdn : AnalyseManagerService.extractTokenAddress message = None ->
                  discoveries (AnalyseManagerService.analyseTelegramMessage message
                                 channelId) = []).
  { intros Hext. unfold AnalyseManagerService.analyseTelegramMessage.
    now rewrite Hch, Hext. }
  split; [|split; [|split; [|split]]].
  - intros pre line post Hsplit Hpre Hline.
    assert (Hext : DexAnalyseManagerService.extractSolanaAddress message
                   = Some (trim line)).
    { unfold DexAnalyseManagerService.extractSolanaAddress. rewrite Hsplit.
      now apply firstMatchingLine_found. }
    split; [exact Hext|].
    unfold DexAnalyseManagerService.analyseTelegramMessage.
    now rewrite Hch, Hext, (regex_test_nonempty _ Hline).
  - intros Hnone.
    assert (Hext : DexAnalyseManagerService.extractSolanaAddress message = None).
    { unfold DexAnalyseManagerService.extractSolanaAddress.
      now apply firstMatchingLine_none. }
    split; [exact Hext|].
    unfold DexAnalyseManagerService.analyseTelegramMessage.
    now rewrite Hch, Hext.
  - intros a Hext.
    destruct (addressPattern_match_some _ _ Hext) as (pre0 & post0 & _ & Hl & Hc).
    destruct (addressPattern_match_leftmost _ _ Hext) as (pre & post & Hm & Hleft & Hgr).
    split; [exists pre, post; now repeat split|].
    split; [exact Hl|]. split; [exact Hc|]. now apply Hds.
  - intros Hext. split.
    + intros pre w post. now apply addressPattern_match_none.
    + now apply Hdn.
  - destruct (AnalyseManagerService.extractTokenAddress message) as [a|] eqn:Hext.
    + rewrite (Hds a eq_refl). split; [discriminate|]. intros Hno. exfalso.
      destruct (addressPattern_match_some _ _ Hext) as (pre & post & Hm & Hl & Hc).
      assert (Hm' : message = pre ++ firstn 32 a ++ (skipn 32 a ++ post))
        by (rewrite (app_assoc (firstn 32 a)), firstn_skipn; exact Hm).
      assert (Hl32 : List.length (firstn 32 a) = 32%nat)
        by (rewrite length_firstn; lia).
      specialize (Hno pre (firstn 32 a) (skipn 32 a ++ post) Hm' Hl32).
      pose proof (forallb_firstn isBase58 32 a Hc) as Hall.
      congruence.
    + rewrite (Hdn eq_refl). split; [|reflexivity].
      intros _ pre w post. now apply addressPattern_match_none.
Qed.

Lemma C9_address_extraction_witness :
  allowListed CryptoPumpClubChannelId = true
  /\ split newline signalMessage
     = [lit "hi"]
         ++ (lit "  BBc9zfiSMgqmmTqtFGE1xHzb1XcPzYSLQNLYTVoMpump " ++ [13%N])
         :: [lit "bye"]
  /\ discoveries (DexAnalyseManagerService.analyseTelegramMessage signalMessage
                    CryptoPumpClubChannelId)
     = [trim (lit "  BBc9zfiSMgqmmTqtFGE1xHzb1XcPzYSLQNLYTVoMpump " ++ [13%N])]
  /\ DexAnalyseManagerService.extractSolanaAddress wsolMessage = None
  /\ AnalyseManagerService.extractTokenAddress wsolMessage = Some wsol
  /\ discoveries (AnalyseManagerService.analyseTelegramMessage wsolMessage
                    CryptoPumpClubChannelId)
     = [wsol]
  /\ discoveries (AnalyseManagerService.analyseTelegramMessage (lit "hello")
                    CryptoPumpClubChannelId)
     = [].
Proof.
  assert (Hch : allowListed CryptoPumpClubChannelId = true) by reflexivity.
  assert (Hsplit : split newline signalMessage
                   = [lit "hi"]
                       ++ (lit "  BBc9zfiSMgqmmTqtFGE1xHzb1XcPzYSLQNLYTVoMpump "
                           ++ [13%N])
                       :: [lit "bye"]) by (vm_compute; reflexivity).
  assert (Hpre : forall l, In l [lit "hi"] -> solanaAddressRegex_test (trim l) = false).
  { intros l [<-|[]]. vm_compute. reflexivity. }
  assert (Hnone : forall l, In l (split newline wsolMessage) ->
                            solanaAddressRegex_test (trim l) = false).
  { intros l Hin. vm_compute in Hin. destruct Hin as [<-|[]]. vm_compute. reflexivity. }
  split; [exact Hch|]. split; [exact Hsplit|].
  split.
  { exact (proj2 (proj1 (C9_address_extraction signalMessage
                           CryptoPumpClubChannelId Hch)
                    _ _ _ Hsplit Hpre eq_refl)). }
  split.
  { exact (proj1 (proj1 (proj2 (C9_address_extraction wsolMessage
                                  CryptoPumpClubChannelId Hch))
                    Hnone)). }
  split; [vm_compute; reflexivity|].
  split.
  { exact (proj2 (proj2 (proj2 (proj1 (proj2 (proj2 (C9_address_extraction wsolMessage
                                  CryptoPumpClubChannelId Hch)))
                    wsol eq_refl)))). }
  exact (proj2 (proj1 (proj2 (proj2 (proj2 (C9_address_extraction (lit "hello")
                                              CryptoPumpClubChannelId Hch))))
           eq_refl)).
Defined.

(* ===================================================================== *)
(** * The in-flight counter *)
(* ===================================================================== *)

Section Counter.

Variable cfg : Config.

Lemma run_cons (s : System) (ev : Event) (evs : list Event) :
  fst (run cfg s (ev :: evs)) = fst (run cfg (fst (step cfg s ev)) evs).
Proof.
  simpl. destruct (step cfg s ev) as [s1 e1]. simpl.
  now destruct (run cfg s1 evs).
Qed.

Lemma lookupPending_In (id : nat) (a : address) (p : list (nat * address)) :
  lookupPending id p = Some a -> In id (map fst p).
Proof.
  unfold lookupPending. induction p as [|[i b] p IH]; simpl; [discriminate|].
  destruct (Nat.eqb_spec i id) as [->|Hne]; [now left|].
  intros H. right. now apply IH.
Qed.

Lemma removePending_ids (id x : nat) (p : list (nat * address)) :
  In x (map fst (removePending id p)) <-> In x (map fst p) /\ x <> id.
Proof.
  unfold removePending. induction p as [|[i b] p IH]; simpl; [tauto|].
  destruct (Nat.eqb_spec i id) as [->|Hne]; simpl; rewrite IH.
  - split; [tauto|]. intros [[->|H] Hx]; [congruence|tauto].
  - split; [|tauto]. intros [->|H]; tauto.
Qed.

Lemma removePending_NoDup (id : nat) (p : list (nat * address)) :
  NoDup (map fst p) -> NoDup (map fst (removePending id p)).
Proof.
  unfold removePending. induction p as [|[i b] p IH]; simpl; intros H; [constructor|].
  inversion H as [|? ? Hnot Hnd]; subst.
  destruct (Nat.eqb_spec i id); simpl; [now apply IH|].
  constructor; [|now apply IH].
  intros Hin. apply Hnot. now apply (removePending_ids id i p).
Qed.

Lemma removePending_absent (id : nat) (p : list (nat * address)) :
  ~ In id (map fst p) -> removePending id p = p.
Proof.
  unfold removePending. induction p as [|[i b] p IH]; simpl; intros H; [reflexivity|].
  destruct (Nat.eqb_spec i id) as [->|Hne]; [tauto|]. simpl. f_equal. tauto.
Qed.

Lemma removePending_length (id : nat) (p : list (nat * address)) :
  NoDup (map fst p) -> In id (map fst p) ->
  S (List.length (removePending id p)) = List.length p.
Proof.
  induction p as [|[i b] p IH]; simpl; intros Hnd Hin; [tauto|].
  inversion Hnd as [|? ? Hnot Hnd']; subst.
  destruct (Nat.eqb_spec i id) as [->|Hne]; simpl.
  - fold (removePending id p). now rewrite removePending_absent.
  - fold (removePending id p). f_equal. apply IH; [assumption|].
    destruct Hin; [congruence|assumption].
Qed.

Lemma lift_counter (s : System) (m : M unit) :
  CounterInvariant cfg s -> CounterInvariant cfg (fst (lift s m)).
Proof. intros [H1 H2 H3 H4 H5 H6 H7]. now constructor. Qed.

Lemma enter_counter (s : System) (a : address) :
  CounterInvariant cfg s ->
  CounterInvariant cfg (fst (onTokenReceived_enter cfg s a)).
Proof.
  intros [H1 H2 H3 H4 H5 H6 H7]. unfold onTokenReceived_enter.
  destruct (Z.leb_spec (MAX_CONCURRENT cfg) (activeTransactions s)) as [Hfull|Hfree];
    [now constructor|].
  assert (Hfresh : ~ In (dispatched s) (pendingIds s)
                   /\ ~ In (dispatched s) (released s)).
  { split; intros Hin;
      assert (dispatched s < dispatched s)%nat by (apply H7; tauto); lia. }
  constructor; unfold pendingIds in *; cbn [fst activeTransactions pending
    dispatched released map List.length].
  - lia.
  - lia.
  - rewrite H3. lia.
  - constructor; tauto.
  - assumption.
  - intros id [<-|Hin]; [tauto|now apply H6].
  - intros id. cbn [In fst]. rewrite Nat.lt_succ_r, Nat.le_lteq, H7.
    split; [intros [?| ->]; tauto|intros [[<-|?]|?]; tauto].
Qed.

Lemma settle_counter (env : Env) (s : System) (id : nat) :
  CounterInvariant cfg s ->
  CounterInvariant cfg (fst (onTokenReceived_settle cfg env s id)).
Proof.
  intros Hinv. unfold onTokenReceived_settle.
  destruct (lookupPending id (pending s)) as [a|] eqn:Hlook; [|assumption].
  destruct Hinv as [H1 H2 H3 H4 H5 H6 H7].
  pose proof (lookupPending_In _ _ _ Hlook) as Hin.
  pose proof (removePending_length id (pending s) H4 Hin) as Hlen.
  constructor; unfold pendingIds in *; cbn [fst activeTransactions pending
    dispatched released].
  - lia.
  - lia.
  - lia.
  - now apply removePending_NoDup.
  - constructor; [now apply H6|assumption].
  - intros x Hx [<-|Hr].
    + apply removePending_ids in Hx. tauto.
    + apply removePending_ids in Hx. apply (H6 x); tauto.
  - intros x. rewrite H7, removePending_ids. cbn [In].
    destruct (Nat.eq_dec x id) as [->|Hne]; [tauto|].
    split; [tauto|]. intros [[? _]|[?|?]]; [tauto|congruence|tauto].
Qed.

Lemma step_counter (s : System) (ev : Event) :
  CounterInvariant cfg s -> CounterInvariant cfg (fst (step cfg s ev)).
Proof.
  destruct ev; cbn [step];
    auto using lift_counter, enter_counter, settle_counter.
Qed.

Lemma run_counter (evs : list Event) (s : System) :
  CounterInvariant cfg s -> CounterInvariant cfg (fst (run cfg s evs)).
Proof.
  revert s. induction evs as [|ev evs IH]; intros s H; [assumption|].
  rewrite run_cons. apply IH. now apply step_counter.
Qed.

Lemma initial_counter :
  (0 <= MAX_CONCURRENT cfg)%Z -> CounterInvariant cfg initial.
Proof.
  intros H. constructor; cbn; try lia; try constructor; try tauto.
Qed.

End Counter.

(** C1.  With a cap [MAX_CONCURRENT] that is not negative, after every
    sequence of events of the process (token signals, settlements of
    dispatches in any order and with any outcome, monitor callbacks) the
    counter [activeTransactions] is between 0 and the cap and equals the
    number of dispatches in flight; a signal that arrives when the counter
    has reached the cap is skipped and leaves the state as it is; a signal
    below the cap increments by one; and the settlement of a dispatch,
    whether [processTransaction] returned or threw, decrements by exactly
    one and releases that dispatch, which is then never released again. *)
Theorem C1_in_flight_counter (cfg : Config) :
  (0 <= MAX_CONCURRENT cfg)%Z ->
  (forall evs,
      let s := fst (run cfg initial evs) in
      (0 <= activeTransactions s <= MAX_CONCURRENT cfg)%Z
      /\ activeTransactions s = Z.of_nat (List.length (pending s))
      /\ NoDup (released s)
      /\ (forall id, (id < dispatched s)%nat ->
            (In id (pendingIds s) /\ ~ In id (released s))
            \/ (~ In id (pendingIds s) /\ In id (released s))))
  /\ (forall s a,
        (MAX_CONCURRENT cfg <= activeTransactions s)%Z ->
        onTokenReceived_enter cfg s a
        = (s, [Log LWarn "Max concurrent transactions reached, skipping..." None]))
  /\ (forall s a,
        (activeTransactions s < MAX_CONCURRENT cfg)%Z ->
        activeTransactions (fst (onTokenReceived_enter cfg s a))
        = (activeTransactions s + 1)%Z
        /\ pending (fst (onTokenReceived_enter cfg s a))
           = (dispatched s, a) :: pending s)
  /\ (forall env s id a,
        lookupPending id (pending s) = Some a ->
        forall outcome,
        resultOf (processTransaction cfg env a (tokens s)) = outcome ->
        activeTransactions (fst (onTokenReceived_settle cfg env s id))
        = (activeTransactions s - 1)%Z
        /\ released (fst (onTokenReceived_settle cfg env s id))
           = id :: released s
        /\ lookupPending id (pending (fst (onTokenReceived_settle cfg env s id)))
           = None).
Proof.
  intros Hcap. split; [|split; [|split]].
  - intros evs s.
    destruct (run_counter cfg evs initial (initial_counter cfg Hcap))
      as [H1 H2 H3 H4 H5 H6 H7]. fold s in H1, H2, H3, H4, H5, H6, H7.
    repeat split; try assumption.
    intros id Hid. apply H7 in Hid as [Hp|Hr].
    + left. split; [assumption|now apply H6].
    + right. split; [|assumption]. intros Hp. now apply (H6 id).
  - intros s a Hfull. unfold onTokenReceived_enter.
    destruct (Z.leb_spec (MAX_CONCURRENT cfg) (activeTransactions s)); [reflexivity|lia].
  - intros s a Hfree. unfold onTokenReceived_enter.
    destruct (Z.leb_spec (MAX_CONCURRENT cfg) (activeTransactions s)); [lia|].
    split; reflexivity.
  - intros env s id a Hlook outcome _. unfold onTokenReceived_settle.
    rewrite Hlook. cbn [fst activeTransactions released pending].
    repeat split.
    unfold lookupPending, removePending.
    destruct (find _ (filter _ (pending s))) as [d|] eqn:Hfind; [|reflexivity].
    apply find_some in Hfind as [Hin Heq]. apply filter_In in Hin as [_ Hne].
    rewrite Heq in Hne. discriminate.
Qed.

(* ===================================================================== *)
(** * The token table *)
(* ===================================================================== *)

Section TableFacts.

Lemma jsstring_eqb_eq (a b : jsstring) : jsstring_eqb a b = true <-> a = b.
Proof.
  unfold jsstring_eqb. destruct (jsstring_eq_dec a b); split; congruence.
Qed.

Lemma jsstring_eqb_refl (a : jsstring) : jsstring_eqb a a = true.
Proof. now apply jsstring_eqb_eq. Qed.

Lemma jsstring_eqb_neq (a b : jsstring) : jsstring_eqb a b = false <-> a <> b.
Proof.
  unfold jsstring_eqb. destruct (jsstring_eq_dec a b); split; congruence.
Qed.

Lemma hasAddress_true (a : address) (r : TokenTrack) :
  hasAddress a r = true <-> tokenAddress r = a.
Proof. apply jsstring_eqb_eq. Qed.

Lemma hasAddress_false (a : address) (r : TokenTrack) :
  hasAddress a r = false <-> tokenAddress r <> a.
Proof. apply jsstring_eqb_neq. Qed.

Lemma select_In (a : address) (t : Table) (r : TokenTrack) :
  DatabaseService.selectToken a t = Some r -> In r t /\ tokenAddress r = a.
Proof.
  intros H. apply find_some in H as [Hin Ha]. split; [assumption|].
  now apply hasAddress_true.
Qed.

Lemma select_None (a : address) (t : Table) :
  DatabaseService.selectToken a t = None <-> ~ In a (keys t).
Proof.
  unfold DatabaseService.selectToken, keys.
  induction t as [|r t IH]; simpl; [tauto|].
  destruct (hasAddress a r) eqn:Hr.
  - apply hasAddress_true in Hr. split; [discriminate|tauto].
  - apply hasAddress_false in Hr. rewrite IH. tauto.
Qed.

Lemma select_unique (t : Table) (r : TokenTrack) :
  UniqueKeys t -> In r t ->
  DatabaseService.selectToken (tokenAddress r) t = Some r.
Proof.
  unfold UniqueKeys, keys, DatabaseService.selectToken.
  induction t as [|x t IH]; simpl; intros Hnd Hin; [tauto|].
  inversion Hnd as [|? ? Hnot Hnd']; subst.
  destruct Hin as [->|Hin].
  - unfold hasAddress. now rewrite jsstring_eqb_refl.
  - destruct (hasAddress (tokenAddress r) x) eqn:Hx; [|now apply IH].
    apply hasAddress_true in Hx. exfalso. apply Hnot. rewrite Hx.
    now apply in_map.
Qed.

Lemma rowsOf_unique (a : address) (t : Table) (r : TokenTrack) :
  UniqueKeys t -> DatabaseService.selectToken a t = Some r ->
  rowsOf a t = [r].
Proof.
  unfold UniqueKeys, keys, DatabaseService.selectToken, rowsOf.
  induction t as [|x t IH]; simpl; intros Hnd Hsel; [discriminate|].
  inversion Hnd as [|? ? Hnot Hnd']; subst.
  destruct (hasAddress a x) eqn:Hx.
  - injection Hsel as ->. f_equal.
    apply hasAddress_true in Hx. subst a.
    clear IH Hnd Hnd'. induction t as [|y t IH]; simpl; [reflexivity|].
    simpl in Hnot. destruct (hasAddress (tokenAddress r) y) eqn:Hy.
    + apply hasAddress_true in Hy. tauto.
    + apply IH. tauto.
  - now apply IH.
Qed.

Lemma keys_setPrice (a : address) (p : Q) (n : Z) (t : Table) :
  keys (DatabaseService.setPrice a p n t) = keys t.
Proof.
  unfold keys, DatabaseService.setPrice. rewrite map_map.
  apply map_ext. intros r. now destruct (hasAddress a r).
Qed.

Lemma keys_setStatus (a : address) (st : Status) (n : Z) (t : Table) :
  keys (DatabaseService.setStatus a st n t) = keys t.
Proof.
  unfold keys, DatabaseService.setStatus. rewrite map_map.
  apply map_ext. intros r. now destruct (hasAddress a r).
Qed.

Lemma select_setPrice (a b : address) (p : Q) (n : Z) (t : Table) :
  DatabaseService.selectToken a (DatabaseService.setPrice b p n t)
  = if jsstring_eqb a b
    then option_map (fun r => mkToken (tokenAddress r) (timestamp r) p n (status r))
           (DatabaseService.selectToken a t)
    else DatabaseService.selectToken a t.
Proof.
  unfold DatabaseService.selectToken, DatabaseService.setPrice.
  induction t as [|r t IH]; simpl; [now destruct (jsstring_eqb a b)|].
  destruct (hasAddress b r) eqn:Hb; unfold hasAddress at 1; cbn [tokenAddress];
    fold (hasAddress a r); destruct (hasAddress a r) eqn:Ha.
  - apply hasAddress_true in Ha, Hb.
    assert (Hab : jsstring_eqb a b = true) by (apply jsstring_eqb_eq; congruence).
    now rewrite Hab.
  - rewrite IH. reflexivity.
  - apply hasAddress_true in Ha. apply hasAddress_false in Hb.
    assert (Hab : jsstring_eqb a b = false) by (apply jsstring_eqb_neq; congruence).
    now rewrite Hab.
  - rewrite IH. reflexivity.
Qed.

Lemma select_setStatus (a b : address) (st : Status) (n : Z) (t : Table) :
  DatabaseService.selectToken a (DatabaseService.setStatus b st n t)
  = if jsstring_eqb a b
    then option_map (fun r => mkToken (tokenAddress r) (timestamp r) (price r) n st)
           (DatabaseService.selectToken a t)
    else DatabaseService.selectToken a t.
Proof.
  unfold DatabaseService.selectToken, DatabaseService.setStatus.
  induction t as [|r t IH]; simpl; [now destruct (jsstring_eqb a b)|].
  destruct (hasAddress b r) eqn:Hb; unfold hasAddress at 1; cbn [tokenAddress];
    fold (hasAddress a r); destruct (hasAddress a r) eqn:Ha.
  - apply hasAddress_true in Ha, Hb.
    assert (Hab : jsstring_eqb a b = true) by (apply jsstring_eqb_eq; congruence).
    now rewrite Hab.
  - rewrite IH. reflexivity.
  - apply hasAddress_true in Ha. apply hasAddress_false in Hb.
    assert (Hab : jsstring_eqb a b = false) by (apply jsstring_eqb_neq; congruence).
    now rewrite Hab.
  - rewrite IH. reflexivity.
Qed.

Lemma insertOrReplace_absent (row : TokenTrack) (t : Table) :
  DatabaseService.selectToken (tokenAddress row) t = None ->
  DatabaseService.insertOrReplace row t = t ++ [row].
Proof.
  intros H. unfold DatabaseService.insertOrReplace. f_equal.
  apply select_None in H. unfold keys in H.
  induction t as [|r t IH]; simpl; [reflexivity|].
  simpl in H. destruct (hasAddress (tokenAddress row) r) eqn:Hr.
  - apply hasAddress_true in Hr. tauto.
  - simpl. f_equal. apply IH. tauto.
Qed.

Lemma select_app (a : address) (t : Table) (row : TokenTrack) :
  DatabaseService.selectToken a (t ++ [row])
  = match DatabaseService.selectToken a t with
    | Some r => Some r
    | None => if hasAddress a row then Some row else None
    end.
Proof.
  unfold DatabaseService.selectToken.
  induction t as [|r t IH]; simpl; [reflexivity|].
  now destruct (hasAddress a r).
Qed.

Lemma unique_app (t : Table) (row : TokenTrack) :
  UniqueKeys t -> DatabaseService.selectToken (tokenAddress row) t = None ->
  UniqueKeys (t ++ [row]).
Proof.
  unfold UniqueKeys, keys. intros Hnd Habs. apply select_None in Habs.
  rewrite map_app. apply NoDup_app; [assumption|repeat constructor; simpl; tauto|].
  intros x Hx [<-|[]]. now apply Habs.
Qed.

Lemma keys_filter_NoDup (q : TokenTrack -> bool) (t : Table) :
  UniqueKeys t -> UniqueKeys (filter q t).
Proof.
  unfold UniqueKeys, keys. induction t as [|r t IH]; simpl; intros H; [constructor|].
  inversion H as [|? ? Hnot Hnd]; subst.
  destruct (q r); simpl; [|now apply IH].
  constructor; [|now apply IH].
  intros Hin. apply Hnot. apply in_map_iff in Hin as (x & Hx & Hin).
  apply filter_In in Hin as [Hin _]. rewrite <- Hx. now apply in_map.
Qed.

Lemma select_filter (q : TokenTrack -> bool) (a : address) (t : Table)
    (r' : TokenTrack) :
  UniqueKeys t ->
  DatabaseService.selectToken a (filter q t) = Some r' ->
  DatabaseService.selectToken a t = Some r'.
Proof.
  intros Hu H. apply select_In in H as [Hin Ha].
  apply filter_In in Hin as [Hin _]. rewrite <- Ha. now apply select_unique.
Qed.

Lemma Marked_keys (t t' : Table) : Marked t t' -> keys t' = keys t.
Proof.
  induction 1 as [|a p n t1 _ IH|a n t1 _ IH]; [reflexivity| |].
  - now rewrite keys_setPrice.
  - now rewrite keys_setStatus.
Qed.

Lemma Marked_trans (t t1 t2 : Table) :
  Marked t t1 -> Marked t1 t2 -> Marked t t2.
Proof.
  intros H1 H2. induction H2; [assumption| |]; now constructor.
Qed.

Lemma Marked_select_None (t t' : Table) (a : address) :
  Marked t t' ->
  DatabaseService.selectToken a t = None ->
  DatabaseService.selectToken a t' = None.
Proof.
  intros HM H. apply select_None. rewrite (Marked_keys _ _ HM).
  now apply select_None.
Qed.

Lemma Marked_unique (t t' : Table) : Marked t t' -> UniqueKeys t -> UniqueKeys t'.
Proof. intros HM. unfold UniqueKeys. now rewrite (Marked_keys _ _ HM). Qed.

End TableFacts.

(* ===================================================================== *)
(** * Handlers *)
(* ===================================================================== *)

Ltac unfold_handlers :=
  unfold TokenMonitorService.handleNewTokenFromWebsocket,
    TokenMonitorService.checkToken, TokenMonitorService.cleanupTick,
    TokenMonitorService.sellIncorrect, TokenMonitorService.buyCorrect,
    TokenMonitorService.addToken, TokenMonitorService.getCurrentPrice,
    TokenMonitorService.checkDevSold, TokenMonitorService.buyToken,
    processTransaction, buyTriggered, polled, sold, observedPrice, devSold,
    DatabaseService.addToken, DatabaseService.getToken,
    DatabaseService.updateTokenPrice, DatabaseService.updateTokenStatus,
    DatabaseService.getActiveTokens, DatabaseService.cleanupOldTokens in *.

Ltac msimpl :=
  cbv beta iota zeta delta [resultOf tableOf effectsOf fst snd ret throw emit
                             bind tryCatch await DatabaseService.statement] in *;
  cbn [app negb andb orb] in *.

(** Case analysis on every answer of the outside world the goal
    branches on, innermost first. *)
Ltac crunch :=
  repeat (msimpl;
          match goal with
          | |- context [match ?x with _ => _ end] =>
              lazymatch x with
              | context [match _ with _ => _ end] => fail
              | _ => destruct x eqn:?
              end
          | |- context [if ?x then _ else _] =>
              lazymatch x with
              | context [match _ with _ => _ end] => fail
              | _ => destruct x eqn:?
              end
          end);
  msimpl.

Section Loops.

Context {A : Type}.
Variable body : A -> M unit.

Lemma forOf_cons (x : A) (xs : list A) (t : Table) :
  resultOf (body x t) = Returns tt ->
  forOf (x :: xs) body t
  = (resultOf (forOf xs body (tableOf (body x t))),
     tableOf (forOf xs body (tableOf (body x t))),
     effectsOf (body x t) ++ effectsOf (forOf xs body (tableOf (body x t)))).
Proof.
  intros H. cbn [forOf]. unfold bind, resultOf, tableOf, effectsOf in *.
  destruct (body x t) as [[r t1] e1]. cbn [fst snd] in *. subst r.
  now destruct (forOf xs body t1) as [[r2 t2] e2].
Qed.

Hypothesis body_returns : forall x t, resultOf (body x t) = Returns tt.

Lemma forOf_returns (xs : list A) (t : Table) :
  resultOf (forOf xs body t) = Returns tt.
Proof.
  revert t. induction xs as [|x xs IH]; intros t; [reflexivity|].
  rewrite forOf_cons by apply body_returns. apply IH.
Qed.

Lemma forOf_marked (xs : list A) (t : Table) :
  (forall x t, Marked t (tableOf (body x t))) ->
  Marked t (tableOf (forOf xs body t)).
Proof.
  intros Hbody. revert t. induction xs as [|x xs IH]; intros t; [constructor|].
  rewrite forOf_cons by apply body_returns. cbn [tableOf fst snd].
  eapply Marked_trans; [apply Hbody|apply IH].
Qed.

Variable key : A -> address.
Variable change : A -> TokenTrack -> TokenTrack.

Hypothesis body_select : forall x t b,
    DatabaseService.selectToken b (tableOf (body x t))
    = if jsstring_eqb b (key x)
      then option_map (change x) (DatabaseService.selectToken b t)
      else DatabaseService.selectToken b t.

Lemma forOf_select (xs : list A) (t : Table) (b : address) :
  NoDup (map key xs) ->
  DatabaseService.selectToken b (tableOf (forOf xs body t))
  = match find (fun x => jsstring_eqb b (key x)) xs with
    | Some x => option_map (change x) (DatabaseService.selectToken b t)
    | None => DatabaseService.selectToken b t
    end.
Proof.
  revert t. induction xs as [|x xs IH]; intros t Hnd; [reflexivity|].
  inversion Hnd as [|? ? Hnot Hnd']; subst.
  rewrite forOf_cons by apply body_returns. cbn [tableOf fst snd find].
  fold (tableOf (forOf xs body (tableOf (body x t)))).
  rewrite (IH _ Hnd'), body_select.
  destruct (jsstring_eqb b (key x)) eqn:Hb; [|reflexivity].
  apply jsstring_eqb_eq in Hb. subst b.
  destruct (find (fun y => jsstring_eqb (key x) (key y)) xs) as [y|] eqn:Hfind;
    [|reflexivity].
  apply find_some in Hfind as [Hin Heq]. apply jsstring_eqb_eq in Heq.
  exfalso. apply Hnot. rewrite Heq. now apply in_map.
Qed.

End Loops.

Section CheckToken.

Variable env : Env.

Lemma checkToken_returns (token : TokenTrack) (t : Table) :
  resultOf (TokenMonitorService.checkToken env token t) = Returns tt.
Proof. unfold_handlers. crunch; reflexivity. Qed.

Lemma checkToken_marked (token : TokenTrack) (t : Table) :
  Marked t (tableOf (TokenMonitorService.checkToken env token t)).
Proof. unfold_handlers. crunch; repeat constructor. Qed.

Lemma checkToken_buys (token : TokenTrack) (t : Table) :
  buysOf (effectsOf (TokenMonitorService.checkToken env token t))
  = if buyTriggered env token then [tokenAddress token] else [].
Proof. unfold_handlers. crunch; reflexivity. Qed.

Lemma checkToken_swaps (token : TokenTrack) (t : Table) :
  swapsOf (effectsOf (TokenMonitorService.checkToken env token t))
  = if buyTriggered env token then [(None, tokenAddress token)] else [].
Proof. unfold_handlers. crunch; reflexivity. Qed.

Lemma checkToken_table (token : TokenTrack) (t : Table) :
  noDbFault env ->
  tableOf (TokenMonitorService.checkToken env token t)
  = (if devSold env (tokenAddress token)
     then DatabaseService.setStatus (tokenAddress token) inactive (now env)
     else fun t => t)
      (match observedPrice env (tokenAddress token) with
       | Some cur => DatabaseService.setPrice (tokenAddress token) cur (now env) t
       | None => t
       end).
Proof.
  intros Hdb. unfold_handlers. crunch; try reflexivity;
    rewrite Hdb in *; discriminate.
Qed.

Lemma checkToken_select (token : TokenTrack) (t : Table) (b : address) :
  noDbFault env ->
  DatabaseService.selectToken b (tableOf (TokenMonitorService.checkToken env token t))
  = if jsstring_eqb b (tokenAddress token)
    then option_map (polled env) (DatabaseService.selectToken b t)
    else DatabaseService.selectToken b t.
Proof.
  intros Hdb. rewrite checkToken_table by assumption.
  destruct (jsstring_eqb b (tokenAddress token)) eqn:Hb.
  - apply jsstring_eqb_eq in Hb. subst b.
    destruct (DatabaseService.selectToken (tokenAddress token) t) as [r|] eqn:Hsel.
    + pose proof (select_In _ _ _ Hsel) as [_ Ha].
      cbn [option_map]. unfold polled. rewrite Ha.
      destruct (devSold env (tokenAddress token)),
        (observedPrice env (tokenAddress token));
        rewrite ?select_setStatus, ?select_setPrice, ?jsstring_eqb_refl, ?Hsel;
        cbn [option_map tokenAddress timestamp price status lastCheck];
        rewrite ?Ha; reflexivity.
    + destruct (devSold env (tokenAddress token)),
        (observedPrice env (tokenAddress token));
        rewrite ?select_setStatus, ?select_setPrice, ?jsstring_eqb_refl, ?Hsel;
        reflexivity.
  - destruct (devSold env (tokenAddress token)),
      (observedPrice env (tokenAddress token));
      rewrite ?select_setStatus, ?select_setPrice, ?Hb; reflexivity.
Qed.

End CheckToken.

Section MonitoringTick.

Variable env : Env.

Lemma buysOf_app (e1 e2 : list Effect) : buysOf (e1 ++ e2) = buysOf e1 ++ buysOf e2.
Proof. apply flat_map_app. Qed.

Lemma swapsOf_app (e1 e2 : list Effect) : swapsOf (e1 ++ e2) = swapsOf e1 ++ swapsOf e2.
Proof. apply flat_map_app. Qed.

Lemma sweep_buys (xs : list TokenTrack) (t : Table) :
  buysOf (effectsOf (forOf xs (TokenMonitorService.checkToken env) t))
  = map tokenAddress (filter (buyTriggered env) xs).
Proof.
  revert t. induction xs as [|x xs IH]; intros t; [reflexivity|].
  rewrite forOf_cons by apply checkToken_returns.
  cbn [effectsOf snd filter]. rewrite buysOf_app.
  fold (effectsOf (TokenMonitorService.checkToken env x t)).
  fold (effectsOf (forOf xs (TokenMonitorService.checkToken env)
                     (tableOf (TokenMonitorService.checkToken env x t)))).
  rewrite checkToken_buys, IH.
  now destruct (buyTriggered env x).
Qed.

Lemma sweep_swaps (xs : list TokenTrack) (t : Table) :
  swapsOf (effectsOf (forOf xs (TokenMonitorService.checkToken env) t))
  = map (fun x => (None, tokenAddress x)) (filter (buyTriggered env) xs).
Proof.
  revert t. induction xs as [|x xs IH]; intros t; [reflexivity|].
  rewrite forOf_cons by apply checkToken_returns.
  cbn [effectsOf snd filter]. rewrite swapsOf_app.
  fold (effectsOf (TokenMonitorService.checkToken env x t)).
  fold (effectsOf (forOf xs (TokenMonitorService.checkToken env)
                     (tableOf (TokenMonitorService.checkToken env x t)))).
  rewrite checkToken_swaps, IH.
  now destruct (buyTriggered env x).
Qed.

Lemma tick_unfold (t : Table) :
  dbThrows env SqlSelectActive = false ->
  TokenMonitorService.monitoringTick env t
  = (Returns tt,
     tableOf (forOf (DatabaseService.selectActive t)
                (TokenMonitorService.checkToken env) t),
     Sql SqlSelectActive
     :: effectsOf (forOf (DatabaseService.selectActive t)
                     (TokenMonitorService.checkToken env) t)).
Proof.
  intros Hdb.
  pose proof (forOf_returns _ (checkToken_returns env)
                (DatabaseService.selectActive t) t) as Hret.
  unfold TokenMonitorService.monitoringTick, DatabaseService.getActiveTokens,
    DatabaseService.statement, tryCatch, bind.
  rewrite Hdb. cbn [fst snd].
  destruct (forOf _ _ t) as [[r t1] e1]. cbn in Hret. now subst r.
Qed.

Lemma tick_fault (t : Table) :
  dbThrows env SqlSelectActive = true ->
  TokenMonitorService.monitoringTick env t
  = (Returns tt, t,
     [Log LError "Failed to get active tokens" None;
      Log LError "Error during token monitoring" None]).
Proof.
  intros Hdb.
  unfold TokenMonitorService.monitoringTick, DatabaseService.getActiveTokens,
    DatabaseService.statement, tryCatch, bind, emit.
  now rewrite Hdb.
Qed.

Lemma tick_marked (t : Table) :
  Marked t (tableOf (TokenMonitorService.monitoringTick env t)).
Proof.
  destruct (dbThrows env SqlSelectActive) eqn:Hdb.
  - rewrite tick_fault by assumption. constructor.
  - rewrite tick_unfold by assumption. cbn [tableOf fst snd].
    apply forOf_marked; [apply checkToken_returns|apply checkToken_marked].
Qed.

Lemma tick_buys (t : Table) :
  buysOf (effectsOf (TokenMonitorService.monitoringTick env t))
  = if dbThrows env SqlSelectActive then []
    else map tokenAddress
           (filter (buyTriggered env) (DatabaseService.selectActive t)).
Proof.
  destruct (dbThrows env SqlSelectActive) eqn:Hdb.
  - now rewrite tick_fault.
  - rewrite tick_unfold by assumption. cbn [effectsOf snd].
    change (buysOf (Sql SqlSelectActive :: ?e)) with (buysOf e).
    apply sweep_buys.
Qed.

Lemma tick_swaps (t : Table) :
  swapsOf (effectsOf (TokenMonitorService.monitoringTick env t))
  = if dbThrows env SqlSelectActive then []
    else map (fun x => (None, tokenAddress x))
           (filter (buyTriggered env) (DatabaseService.selectActive t)).
Proof.
  destruct (dbThrows env SqlSelectActive) eqn:Hdb.
  - now rewrite tick_fault.
  - rewrite tick_unfold by assumption. cbn [effectsOf snd].
    change (swapsOf (Sql SqlSelectActive :: ?e)) with (swapsOf e).
    apply sweep_swaps.
Qed.

Lemma jsstring_eqb_sym (a b : jsstring) : jsstring_eqb a b = jsstring_eqb b a.
Proof.
  destruct (jsstring_eqb b a) eqn:H.
  - apply jsstring_eqb_eq in H. subst. apply jsstring_eqb_refl.
  - apply jsstring_eqb_neq in H. apply jsstring_eqb_neq. congruence.
Qed.

Lemma find_active (b : address) (t : Table) :
  UniqueKeys t ->
  find (fun x => jsstring_eqb b (tokenAddress x)) (DatabaseService.selectActive t)
  = match DatabaseService.selectToken b t with
    | Some r => if Status_eqb (status r) active then Some r else None
    | None => None
    end.
Proof.
  unfold UniqueKeys, keys, DatabaseService.selectActive, DatabaseService.selectToken.
  induction t as [|r t IH]; intros Hnd; [reflexivity|].
  inversion Hnd as [|? ? Hnot Hnd']; subst.
  cbn [filter find]. unfold hasAddress at 1.
  rewrite (jsstring_eqb_sym (tokenAddress r) b).
  destruct (Status_eqb (status r) active) eqn:Hst;
    destruct (jsstring_eqb b (tokenAddress r)) eqn:Hb; cbn [find];
    rewrite ?Hb, ?Hst; try reflexivity; try (now apply IH).
  apply jsstring_eqb_eq in Hb. subst b.
  destruct (find _ (filter _ t)) as [y|] eqn:Hfind; [|reflexivity].
  apply find_some in Hfind as [Hin Heq]. apply filter_In in Hin as [Hin _].
  apply jsstring_eqb_eq in Heq. exfalso. apply Hnot. rewrite Heq.
  now apply in_map.
Qed.

Lemma tick_select (t : Table) (b : address) :
  noDbFault env -> UniqueKeys t ->
  DatabaseService.selectToken b (tableOf (TokenMonitorService.monitoringTick env t))
  = match DatabaseService.selectToken b t with
    | Some r => if Status_eqb (status r) active then Some (polled env r) else Some r
    | None => None
    end.
Proof.
  intros Hdb Hu. rewrite tick_unfold by apply Hdb. cbn [tableOf fst snd].
  fold (tableOf (forOf (DatabaseService.selectActive t)
                   (TokenMonitorService.checkToken env) t)).
  rewrite (forOf_select _ (checkToken_returns env) tokenAddress
             (fun _ => polled env)).
  - rewrite find_active by assumption.
    destruct (DatabaseService.selectToken b t) as [r|]; [|reflexivity].
    now destruct (Status_eqb (status r) active).
  - intros x t' b'. now apply checkToken_select.
  - apply (keys_filter_NoDup _ t Hu).
Qed.

Lemma buysFor_rows (a : address) (f : TokenTrack -> bool) (t : Table) :
  filter (jsstring_eqb a)
    (map tokenAddress (filter f (DatabaseService.selectActive t)))
  = map tokenAddress (filter f (DatabaseService.selectActive (rowsOf a t))).
Proof.
  unfold DatabaseService.selectActive, rowsOf.
  induction t as [|r t IH]; [reflexivity|].
  cbn [filter]. unfold hasAddress at 1.
  rewrite (jsstring_eqb_sym (tokenAddress r) a).
  destruct (Status_eqb (status r) active) eqn:Hst;
    destruct (jsstring_eqb a (tokenAddress r)) eqn:Ha;
    cbn [filter]; rewrite ?Hst; cbn [filter]; try apply IH;
    destruct (f r); cbn [map filter]; rewrite ?Ha; try apply IH.
  f_equal. apply IH.
Qed.

Lemma tick_buysFor (t : Table) (a : address) (r : TokenTrack) :
  dbThrows env SqlSelectActive = false ->
  UniqueKeys t -> DatabaseService.selectToken a t = Some r ->
  buysFor a (effectsOf (TokenMonitorService.monitoringTick env t))
  = if Status_eqb (status r) active && buyTriggered env r then [a] else [].
Proof.
  intros Hdb Hu Hsel. unfold buysFor. rewrite tick_buys, Hdb, buysFor_rows.
  rewrite (rowsOf_unique _ _ _ Hu Hsel).
  apply select_In in Hsel as [_ Ha].
  unfold DatabaseService.selectActive. cbn [filter].
  destruct (Status_eqb (status r) active); cbn [filter andb map]; [|reflexivity].
  destruct (buyTriggered env r); cbn [map]; congruence.
Qed.

End MonitoringTick.

Section Enrollment.

Variable env : Env.

Lemma handleNew_returns (d : option TxDetails) (t : Table) :
  resultOf (TokenMonitorService.handleNewTokenFromWebsocket env d t) = Returns tt.
Proof. unfold_handlers. crunch; reflexivity. Qed.

Lemma handleNew_cases (d : option TxDetails) (t : Table) :
  (tableOf (TokenMonitorService.handleNewTokenFromWebsocket env d t) = t
   /\ writesOf (effectsOf (TokenMonitorService.handleNewTokenFromWebsocket env d t))
      = [])
  \/ exists dd a q,
      d = Some dd /\ mint dd = Some a
      /\ DatabaseService.selectToken a t = None
      /\ getRugCheckConfirmed env a = Resolves true
      /\ observedPrice env a = Some q
      /\ tableOf (TokenMonitorService.handleNewTokenFromWebsocket env d t)
         = t ++ [mkToken a (now env) q (now env) active].
Proof.
  unfold_handlers. crunch; try (left; split; reflexivity); try discriminate.
  right. exists t0, a, q. destruct a0; [|discriminate].
  repeat split; try assumption.
  - match goal with H : jupPrice _ _ = _ |- _ => now rewrite H end.
  - now apply insertOrReplace_absent.
Qed.

Lemma handleNew_enrolled (d : option TxDetails) (t : Table) :
  Enrolled t (tableOf (TokenMonitorService.handleNewTokenFromWebsocket env d t)).
Proof.
  destruct (handleNew_cases d t) as [[H _]|(dd & a & q & _ & _ & Habs & _ & _ & H)].
  - now left.
  - right. exists (mkToken a (now env) q (now env) active).
    repeat split; assumption.
Qed.

Lemma handleNew_existing (d : TxDetails) (a : address) (t : Table) (r : TokenTrack) :
  mint d = Some a -> DatabaseService.selectToken a t = Some r ->
  tableOf (TokenMonitorService.handleNewTokenFromWebsocket env (Some d) t) = t
  /\ writesOf (effectsOf
                 (TokenMonitorService.handleNewTokenFromWebsocket env (Some d) t))
     = [].
Proof.
  intros Hm Hsel.
  destruct (handleNew_cases (Some d) t)
    as [H|(dd & a' & q & [= <-] & Hm' & Habs & _)]; [assumption|].
  congruence.
Qed.

Lemma handleNew_gate (d : TxDetails) (a : address) (t : Table) :
  mint d = Some a -> getRugCheckConfirmed env a <> Resolves true ->
  tableOf (TokenMonitorService.handleNewTokenFromWebsocket env (Some d) t) = t
  /\ writesOf (effectsOf
                 (TokenMonitorService.handleNewTokenFromWebsocket env (Some d) t))
     = [].
Proof.
  intros Hm Hrug.
  destruct (handleNew_cases (Some d) t)
    as [H|(dd & a' & q & [= <-] & Hm' & _ & Hok & _)]; [assumption|].
  congruence.
Qed.

Lemma handleNew_no_price (d : TxDetails) (a : address) (t : Table) :
  mint d = Some a -> observedPrice env a = None ->
  tableOf (TokenMonitorService.handleNewTokenFromWebsocket env (Some d) t) = t
  /\ writesOf (effectsOf
                 (TokenMonitorService.handleNewTokenFromWebsocket env (Some d) t))
     = [].
Proof.
  intros Hm Hp.
  destruct (handleNew_cases (Some d) t)
    as [H|(dd & a' & q & [= <-] & Hm' & _ & _ & Hq & _)]; [assumption|].
  congruence.
Qed.

Lemma Enrolled_unique (t t' : Table) : Enrolled t t' -> UniqueKeys t -> UniqueKeys t'.
Proof.
  intros [->|(row & Habs & _ & ->)] Hu; [assumption|]. now apply unique_app.
Qed.

Lemma Enrolled_select (t t' : Table) (a : address) (r : TokenTrack) :
  Enrolled t t' -> DatabaseService.selectToken a t = Some r ->
  DatabaseService.selectToken a t' = Some r.
Proof.
  intros [->|(row & _ & _ & ->)] Hsel; [assumption|].
  now rewrite select_app, Hsel.
Qed.

End Enrollment.

Section Dispatch.

Variables (cfg : Config) (env : Env).

Lemma processTransaction_table (a : address) (t : Table) :
  tableOf (processTransaction cfg env a t) = t.
Proof. unfold_handlers. crunch; reflexivity. Qed.

Lemma processTransaction_simulation (a : address) (t : Table) :
  simulation_mode cfg = true ->
  swapsOf (effectsOf (processTransaction cfg env a t)) = []
  /\ resultOf (processTransaction cfg env a t) = Returns tt.
Proof. intros Hsim. unfold_handlers. rewrite Hsim. crunch; split; reflexivity. Qed.

Lemma settle_table (s : System) (id : nat) :
  tokens (fst (onTokenReceived_settle cfg env s id)) = tokens s.
Proof.
  unfold onTokenReceived_settle.
  destruct (lookupPending id (pending s)) as [a|]; [|reflexivity].
  cbn [fst tokens]. pose proof (processTransaction_table a (tokens s)) as H.
  unfold tryCatch, tableOf in *.
  destruct (processTransaction cfg env a (tokens s)) as [[[u|] t1] e1];
    cbn in *; assumption.
Qed.

Lemma cleanup_table (t : Table) :
  tableOf (TokenMonitorService.cleanupTick env t) = t
  \/ tableOf (TokenMonitorService.cleanupTick env t)
     = DatabaseService.deleteOld
         (now env - TokenMonitorService.TOKEN_MAX_AGE_HOURS * 60 * 60 * 1000) t.
Proof. unfold_handlers. crunch; [left|right]; reflexivity. Qed.

End Dispatch.

Section CorrectToken.

Variables (cfg : Config) (env : Env) (a : address).

Lemma sellIncorrect_returns (token : TokenTrack) (t : Table) :
  resultOf (TokenMonitorService.sellIncorrect cfg env a token t) = Returns tt.
Proof. unfold_handlers. crunch; reflexivity. Qed.

Lemma sellIncorrect_table (token : TokenTrack) (t : Table) :
  tableOf (TokenMonitorService.sellIncorrect cfg env a token t)
  = if sold cfg env a token
    then DatabaseService.setStatus (tokenAddress token) inactive (now env) t
    else t.
Proof. unfold_handlers. crunch; reflexivity. Qed.

Lemma sellIncorrect_marked (token : TokenTrack) (t : Table) :
  Marked t (tableOf (TokenMonitorService.sellIncorrect cfg env a token t)).
Proof.
  rewrite sellIncorrect_table. destruct (sold cfg env a token); repeat constructor.
Qed.

Lemma sellIncorrect_swaps (token : TokenTrack) (t : Table) :
  swapsOf (effectsOf (TokenMonitorService.sellIncorrect cfg env a token t))
  = if negb (jsstring_eqb (tokenAddress token) a)
    then [(Some (tokenAddress token), wsol_pc_mint cfg)]
    else [].
Proof. unfold_handlers. crunch; reflexivity. Qed.

Lemma sellIncorrect_logged (token : TokenTrack) (t : Table) :
  tokenAddress token <> a ->
  createSwapTransaction env (Some (tokenAddress token)) (wsol_pc_mint cfg) = Rejects ->
  In (Log LError "Error selling token" (Some (tokenAddress token)))
    (effectsOf (TokenMonitorService.sellIncorrect cfg env a token t))
  /\ tableOf (TokenMonitorService.sellIncorrect cfg env a token t) = t.
Proof.
  intros Hne Hrej. apply jsstring_eqb_neq in Hne.
  unfold_handlers. rewrite Hne, Hrej. crunch. split; [|reflexivity].
  right. now left.
Qed.

Lemma sellIncorrect_select (token : TokenTrack) (t : Table) (b : address) :
  DatabaseService.selectToken b
    (tableOf (TokenMonitorService.sellIncorrect cfg env a token t))
  = if jsstring_eqb b (tokenAddress token)
    then option_map (swept cfg env a token) (DatabaseService.selectToken b t)
    else DatabaseService.selectToken b t.
Proof.
  rewrite sellIncorrect_table. unfold swept.
  destruct (sold cfg env a token).
  - apply select_setStatus.
  - destruct (jsstring_eqb b (tokenAddress token)); [|reflexivity].
    now destruct (DatabaseService.selectToken b t).
Qed.

Lemma sweep_sells (xs : list TokenTrack) (t : Table) :
  swapsOf (effectsOf (forOf xs (TokenMonitorService.sellIncorrect cfg env a) t))
  = map (fun x => (Some (tokenAddress x), wsol_pc_mint cfg))
      (filter (fun x => negb (jsstring_eqb (tokenAddress x) a)) xs).
Proof.
  revert t. induction xs as [|x xs IH]; intros t; [reflexivity|].
  rewrite forOf_cons by apply sellIncorrect_returns.
  cbn [effectsOf snd filter]. rewrite swapsOf_app.
  fold (effectsOf (TokenMonitorService.sellIncorrect cfg env a x t)).
  fold (effectsOf (forOf xs (TokenMonitorService.sellIncorrect cfg env a)
                     (tableOf (TokenMonitorService.sellIncorrect cfg env a x t)))).
  rewrite sellIncorrect_swaps, IH.
  now destruct (negb (jsstring_eqb (tokenAddress x) a)).
Qed.

Lemma sweep_logged (xs : list TokenTrack) (t : Table) (token : TokenTrack) :
  In token xs -> tokenAddress token <> a ->
  createSwapTransaction env (Some (tokenAddress token)) (wsol_pc_mint cfg) = Rejects ->
  In (Log LError "Error selling token" (Some (tokenAddress token)))
    (effectsOf (forOf xs (TokenMonitorService.sellIncorrect cfg env a) t)).
Proof.
  intros Hin Hne Hrej. revert t. induction xs as [|x xs IH]; intros t; [destruct Hin|].
  rewrite forOf_cons by apply sellIncorrect_returns.
  cbn [effectsOf snd]. apply in_or_app. destruct Hin as [->|Hin].
  - left. now apply sellIncorrect_logged.
  - right. now apply IH.
Qed.

Lemma buyCorrect_enrolled (t : Table) :
  Enrolled t (tableOf (TokenMonitorService.buyCorrect env a t)).
Proof.
  unfold_handlers. crunch; try (left; reflexivity).
  all: right;
    match goal with
    | |- context [DatabaseService.insertOrReplace ?row _] => exists row
    end;
    repeat split; [assumption|now apply insertOrReplace_absent].
Qed.

Lemma buyCorrect_spec (t : Table) :
  noDbFault env ->
  resultOf (TokenMonitorService.buyCorrect env a t) = Returns tt
  /\ tableOf (TokenMonitorService.buyCorrect env a t)
     = match DatabaseService.selectToken a t, observedPrice env a with
       | None, Some q => t ++ [mkToken a (now env) q (now env) active]
       | _, _ => t
       end
  /\ swapsOf (effectsOf (TokenMonitorService.buyCorrect env a t))
     = match DatabaseService.selectToken a t, observedPrice env a with
       | None, Some q => [(None, a)]
       | _, _ => []
       end.
Proof.
  intros Hdb. unfold_handlers.
  crunch; rewrite ?Hdb in *; try discriminate; repeat split; try reflexivity.
  all: now apply insertOrReplace_absent.
Qed.

Lemma setCorrectToken_unfold (t : Table) :
  dbThrows env SqlSelectActive = false ->
  TokenMonitorService.setCorrectToken cfg env a t
  = (resultOf (TokenMonitorService.buyCorrect env a
                 (tableOf (forOf (DatabaseService.selectActive t)
                             (TokenMonitorService.sellIncorrect cfg env a) t))),
     tableOf (TokenMonitorService.buyCorrect env a
                (tableOf (forOf (DatabaseService.selectActive t)
                            (TokenMonitorService.sellIncorrect cfg env a) t))),
     Log LInfo "Setting correct token" (Some a)
     :: Sql SqlSelectActive
     :: effectsOf (forOf (DatabaseService.selectActive t)
                     (TokenMonitorService.sellIncorrect cfg env a) t)
     ++ effectsOf (TokenMonitorService.buyCorrect env a
                     (tableOf (forOf (DatabaseService.selectActive t)
                                 (TokenMonitorService.sellIncorrect cfg env a) t)))).
Proof.
  intros Hdb.
  pose proof (forOf_returns _ sellIncorrect_returns
                (DatabaseService.selectActive t) t) as Hret.
  unfold TokenMonitorService.setCorrectToken, DatabaseService.getActiveTokens,
    DatabaseService.statement, bind, emit.
  rewrite Hdb. cbn [fst snd].
  destruct (forOf _ _ t) as [[r t1] e1]. cbn in Hret. subst r.
  cbn [tableOf effectsOf resultOf fst snd].
  now destruct (TokenMonitorService.buyCorrect env a t1) as [[r2 t2] e2].
Qed.

Lemma setCorrectToken_fault (t : Table) :
  dbThrows env SqlSelectActive = true ->
  TokenMonitorService.setCorrectToken cfg env a t
  = (Throws, t,
     [Log LInfo "Setting correct token" (Some a);
      Log LError "Failed to get active tokens" None]).
Proof.
  intros Hdb.
  unfold TokenMonitorService.setCorrectToken, DatabaseService.getActiveTokens,
    DatabaseService.statement, bind, emit.
  now rewrite Hdb.
Qed.

Lemma setCorrectToken_evolves (t : Table) :
  exists t1, Marked t t1
             /\ Enrolled t1 (tableOf (TokenMonitorService.setCorrectToken cfg env a t)).
Proof.
  destruct (dbThrows env SqlSelectActive) eqn:Hdb.
  - rewrite setCorrectToken_fault by assumption. exists t. split; [constructor|now left].
  - rewrite setCorrectToken_unfold by assumption. cbn [tableOf fst snd].
    eexists. split; [|apply buyCorrect_enrolled].
    apply forOf_marked; [apply sellIncorrect_returns|apply sellIncorrect_marked].
Qed.

End CorrectToken.

(* ===================================================================== *)
(** * The process as a whole *)
(* ===================================================================== *)

Section Process.

Variable cfg : Config.

Lemma step_table (s : System) (ev : Event) :
  (exists t1, Marked (tokens s) t1 /\ Enrolled t1 (tokens (fst (step cfg s ev))))
  \/ (exists c, tokens (fst (step cfg s ev)) = DatabaseService.deleteOld c (tokens s)).
Proof.
  destruct ev as [env d|env|env|env a|a|env id]; cbn [step lift fst tokens].
  - left. exists (tokens s). split; [constructor|apply handleNew_enrolled].
  - left. eexists. split; [apply tick_marked|now left].
  - destruct (cleanup_table env (tokens s)) as [->| ->].
    + left. exists (tokens s). split; [constructor|now left].
    + right. eexists. reflexivity.
  - left. apply setCorrectToken_evolves.
  - left. exists (tokens s). split; [constructor|]. left.
    unfold onTokenReceived_enter. now destruct (_ <=? _)%Z.
  - left. exists (tokens s). split; [constructor|]. left. apply settle_table.
Qed.

Lemma step_unique (s : System) (ev : Event) :
  UniqueKeys (tokens s) -> UniqueKeys (tokens (fst (step cfg s ev))).
Proof.
  intros Hu. destruct (step_table s ev) as [(t1 & HM & HE)|(c & ->)].
  - eapply Enrolled_unique; [exact HE|]. eapply Marked_unique; eassumption.
  - now apply keys_filter_NoDup.
Qed.

Lemma run_unique (evs : list Event) (s : System) :
  UniqueKeys (tokens s) -> UniqueKeys (tokens (fst (run cfg s evs))).
Proof.
  revert s. induction evs as [|ev evs IH]; intros s Hu; [assumption|].
  rewrite run_cons. apply IH. now apply step_unique.
Qed.

Lemma rowsOf_absent (a : address) (t : Table) :
  DatabaseService.selectToken a t = None -> rowsOf a t = [].
Proof.
  unfold DatabaseService.selectToken, rowsOf.
  induction t as [|r t IH]; cbn [find filter]; [reflexivity|].
  destruct (hasAddress a r); [discriminate|assumption].
Qed.

Lemma rowsOf_at_most_one (a : address) (t : Table) :
  UniqueKeys t -> (List.length (rowsOf a t) <= 1)%nat.
Proof.
  intros Hu. destruct (DatabaseService.selectToken a t) as [r|] eqn:Hsel.
  - now rewrite (rowsOf_unique _ _ _ Hu Hsel).
  - rewrite (rowsOf_absent _ _ Hsel). cbn. lia.
Qed.

Lemma discoveries_keep (ds : list (Env * option TxDetails)) (s : System)
    (a : address) (r : TokenTrack) :
  DatabaseService.selectToken a (tokens s) = Some r ->
  DatabaseService.selectToken a (tokens (fst (run cfg s (discoveryEvents ds))))
  = Some r.
Proof.
  revert s. induction ds as [|[env d] ds IH]; intros s Hsel; [assumption|].
  cbn [discoveryEvents map]. rewrite run_cons. apply IH.
  cbn [step lift fst snd tokens].
  eapply Enrolled_select; [apply handleNew_enrolled|assumption].
Qed.

End Process.

(* ===================================================================== *)
(** * Properties of the design document *)
(* ===================================================================== *)

(** Witness of C1: a cap of 2, three signals of which the third is
    skipped, and a dispatch whose swap call throws. *)
Lemma C1_in_flight_counter_witness :
  (0 <= MAX_CONCURRENT liveConfig)%Z
  /\ (let s := fst (run liveConfig initial
                      [EvTokenReceived Addr1; EvTokenReceived AddrX;
                       EvTokenReceived AddrY;
                       EvSettled (withSwap calmEnv Rejects) 0%nat]) in
      (0 <= activeTransactions s <= MAX_CONCURRENT liveConfig)%Z)
  /\ onTokenReceived_enter liveConfig twoInFlight AddrY
     = (twoInFlight,
        [Log LWarn "Max concurrent transactions reached, skipping..." None])
  /\ activeTransactions (fst (onTokenReceived_enter liveConfig initial Addr1)) = 1%Z
  /\ resultOf (processTransaction liveConfig (withSwap calmEnv Rejects) Addr1
                 (tokens twoInFlight)) = Throws
  /\ activeTransactions
       (fst (onTokenReceived_settle liveConfig (withSwap calmEnv Rejects)
               twoInFlight 0%nat)) = 1%Z.
Proof.
  assert (Hcap : (0 <= MAX_CONCURRENT liveConfig)%Z) by (vm_compute; discriminate).
  destruct (C1_in_flight_counter liveConfig Hcap) as (Hrun & Hfull & Hfree & Hsettle).
  split; [exact Hcap|]. split; [apply Hrun|].
  split; [apply Hfull; vm_compute; discriminate|].
  split; [apply (Hfree initial Addr1); vm_compute; reflexivity|].
  split; [vm_compute; reflexivity|].
  exact (proj1 (Hsettle (withSwap calmEnv Rejects) twoInFlight 0%nat Addr1
                  eq_refl Throws eq_refl)).
Defined.

(** C2.  A discovery event for an address that already has a record,
    whatever its status, makes [handleNewTokenFromWebsocket] return
    without any write to the table; hence after every sequence of
    discovery events that record is still the only row under its address,
    and no address has more than one row. *)
Theorem C2_idempotent_enrollment (cfg : Config) (a : address) (r : TokenTrack) :
  (forall env d t,
      mint d = Some a ->
      DatabaseService.selectToken a t = Some r ->
      let res := TokenMonitorService.handleNewTokenFromWebsocket env (Some d) t in
      resultOf res = Returns tt /\ tableOf res = t /\ writesOf (effectsOf res) = [])
  /\ (forall ds s,
      UniqueKeys (tokens s) ->
      DatabaseService.selectToken a (tokens s) = Some r ->
      let s' := fst (run cfg s (discoveryEvents ds)) in
      rowsOf a (tokens s') = [r]
      /\ forall b, (List.length (rowsOf b (tokens s')) <= 1)%nat).
Proof.
  split.
  - intros env d t Hm Hsel res. split; [apply handleNew_returns|].
    now apply (handleNew_existing env d a t r).
  - intros ds s Hu Hsel s'.
    assert (Hu' : UniqueKeys (tokens s')) by now apply run_unique.
    split.
    + apply rowsOf_unique; [assumption|]. now apply discoveries_keep.
    + intros b. now apply rowsOf_at_most_one.
Qed.

Lemma C2_idempotent_enrollment_witness :
  mint (mkTxDetails (Some Addr1)) = Some Addr1
  /\ DatabaseService.selectToken Addr1 (tokens retired1) = Some row1Sold
  /\ UniqueKeys (tokens retired1)
  /\ tableOf (TokenMonitorService.handleNewTokenFromWebsocket (priced 2)
                (discover Addr1) (tokens retired1)) = tokens retired1
  /\ rowsOf Addr1
       (tokens (fst (run liveConfig retired1
                       (discoveryEvents [(priced 2, discover Addr1);
                                         (priced 3, discover AddrX);
                                         (priced 5, discover Addr1)]))))
     = [row1Sold].
Proof.
  assert (Hsel : DatabaseService.selectToken Addr1 (tokens retired1) = Some row1Sold)
    by (vm_compute; reflexivity).
  assert (Hu : UniqueKeys (tokens retired1))
  by (vm_compute; constructor; [intros []|constructor]).
  destruct (C2_idempotent_enrollment liveConfig Addr1 row1Sold) as [Hone Hseq].
  split; [reflexivity|]. split; [exact Hsel|]. split; [exact Hu|]. split.
  - exact (proj1 (proj2 (Hone (priced 2) (mkTxDetails (Some Addr1))
                           (tokens retired1) eq_refl Hsel))).
  - exact (proj1 (Hseq _ retired1 Hu Hsel)).
Defined.

(** C6.  When the rug check throws, or answers that the token did not
    pass, [handleNewTokenFromWebsocket] returns normally, leaves the
    table as it was and issues no write: the token is not enrolled. *)
Theorem C6_rug_check_fails_closed (env : Env) (d : TxDetails) (a : address)
    (t : Table) :
  mint d = Some a ->
  getRugCheckConfirmed env a = Rejects
  \/ getRugCheckConfirmed env a = Resolves false ->
  let res := TokenMonitorService.handleNewTokenFromWebsocket env (Some d) t in
  resultOf res = Returns tt
  /\ tableOf res = t
  /\ writesOf (effectsOf res) = []
  /\ DatabaseService.selectToken a (tableOf res) = DatabaseService.selectToken a t.
Proof.
  intros Hm Hrug res.
  assert (Hnot : getRugCheckConfirmed env a <> Resolves true)
    by (destruct Hrug as [-> | ->]; discriminate).
  destruct (handleNew_gate env d a t Hm Hnot) as [Ht Hw].
  split; [apply handleNew_returns|]. split; [exact Ht|]. split; [exact Hw|].
  unfold res. now rewrite Ht.
Qed.

Lemma C6_rug_check_fails_closed_witness :
  mint (mkTxDetails (Some Addr1)) = Some Addr1
  /\ getRugCheckConfirmed (withRugCheck (priced 1) Rejects) Addr1 = Rejects
  /\ tableOf (TokenMonitorService.handleNewTokenFromWebsocket
                (withRugCheck (priced 1) Rejects) (discover Addr1) [])
     = []
  /\ tableOf (TokenMonitorService.handleNewTokenFromWebsocket
                (priced 1) (discover Addr1) [])
     = [row1].
Proof.
  split; [reflexivity|]. split; [reflexivity|]. split.
  - exact (proj1 (proj2 (C6_rug_check_fails_closed
                           (withRugCheck (priced 1) Rejects)
                           (mkTxDetails (Some Addr1)) Addr1 [] eq_refl
                           (or_introl eq_refl)))).
  - vm_compute. reflexivity.
Defined.

Section Threshold.

Lemma Qltb_lt (x y : Q) : Qltb x y = true <-> x < y.
Proof.
  unfold Qltb. rewrite negb_true_iff. split.
  - intros H. apply Qnot_le_lt. intros Hle.
    apply Qle_bool_iff in Hle. congruence.
  - intros H. destruct (Qle_bool y x) eqn:Hle; [|reflexivity].
    apply Qle_bool_iff in Hle. exfalso. now apply (Qlt_not_le x y).
Qed.

(** For a positive stored price the trigger fires exactly when the
    observed price is more than three times the stored one. *)
Lemma thresholdMet_spec (cur ref : Q) :
  0 < ref ->
  (TokenMonitorService.thresholdMet cur ref = true <-> 3 * ref < cur).
Proof.
  intros Hpos. unfold TokenMonitorService.thresholdMet,
    TokenMonitorService.priceIncrease, jsdiv.
  assert (Hnz : ~ ref == 0) by lra.
  destruct (Qeq_bool ref 0) eqn:Hz; [apply Qeq_bool_eq in Hz; tauto|].
  cbn [jsmul jsgt]. rewrite Qltb_lt.
  assert (E : (cur - ref) / ref * ref == cur - ref) by (field; assumption).
  set (d := (cur - ref) / ref) in *. split; intros H.
  - assert (H2 : 2 < d) by lra.
    assert (H3 : 2 * ref < d * ref) by (apply Qmult_lt_r; assumption).
    lra.
  - assert (H3 : 2 * ref < d * ref) by lra.
    apply Qmult_lt_r in H3; [lra|assumption].
Qed.

End Threshold.

(** C10.  A price lookup that answers 0 is turned into [null] by
    [getCurrentPrice], as a missing price and a failed lookup are; a
    candidate whose lookup answers 0 is not enrolled; and a poll that
    observes 0 runs exactly as a poll whose lookup answers no price: it
    updates no stored price and dispatches no buy. *)
Theorem C10_zero_price (env : Env) (a : address) (p : Q) :
  jupPrice env a = Resolves (Some p) ->
  p == 0 ->
  (forall t,
      resultOf (TokenMonitorService.getCurrentPrice env a t) = Returns None
      /\ resultOf (TokenMonitorService.getCurrentPrice
                     (withPrice env (Resolves None)) a t) = Returns None
      /\ resultOf (TokenMonitorService.getCurrentPrice
                     (withPrice env Rejects) a t) = Returns None)
  /\ (forall d t,
      mint d = Some a ->
      let res := TokenMonitorService.handleNewTokenFromWebsocket env (Some d) t in
      tableOf res = t /\ writesOf (effectsOf res) = [])
  /\ (forall token t,
      tokenAddress token = a ->
      let res := TokenMonitorService.checkToken env token t in
      res = TokenMonitorService.checkToken (withPrice env (Resolves None)) token t
      /\ buysOf (effectsOf res) = []
      /\ (forall c, In c (writesOf (effectsOf res)) -> c = SqlUpdateStatus a inactive)
      /\ (forall b row,
            DatabaseService.selectToken b t = Some row ->
            exists row',
              DatabaseService.selectToken b (tableOf res) = Some row'
              /\ price row' = price row)).
Proof.
  intros Hp Hzero.
  assert (Hz : Qeq_bool p 0 = true) by now apply Qeq_eq_bool.
  assert (Hobs : observedPrice env a = None).
  { unfold observedPrice. rewrite Hp. cbn [orNull]. now rewrite Hz. }
  split; [|split].
  - intros t. unfold TokenMonitorService.getCurrentPrice, withPrice.
    cbn [jupPrice]. rewrite Hp. msimpl. cbn [orNull]. rewrite Hz.
    repeat split; reflexivity.
  - intros d t Hm res. now apply (handleNew_no_price env d a t).
  - intros token t Ha res. subst a.
    assert (Hsame : res = TokenMonitorService.checkToken
                            (withPrice env (Resolves None)) token t).
    { unfold res. unfold_handlers. unfold withPrice.
      cbn [jupPrice heliusTransfers dbThrows now createSwapTransaction].
      rewrite Hp. msimpl. cbn [orNull]. rewrite Hz. reflexivity. }
    assert (Htab : tableOf res = t
                   \/ tableOf res
                      = DatabaseService.setStatus (tokenAddress token) inactive
                          (now env) t).
    { unfold res. unfold_handlers. rewrite Hp. msimpl. cbn [orNull]. rewrite Hz.
      crunch; tauto. }
    split; [exact Hsame|]. split; [|split].
    + unfold res. rewrite checkToken_buys. unfold buyTriggered. now rewrite Hobs.
    + unfold res. unfold_handlers. rewrite Hp. msimpl. cbn [orNull]. rewrite Hz.
      crunch; cbn; intros c Hc; tauto || (destruct Hc as [<-|[]]; reflexivity).
    + intros b row Hsel. destruct Htab as [-> | ->]; [now exists row|].
      rewrite select_setStatus, Hsel.
      destruct (jsstring_eqb b (tokenAddress token)); eexists; split;
        reflexivity.
Qed.

Lemma C10_zero_price_witness :
  jupPrice (priced 0) Addr1 = Resolves (Some 0)
  /\ 0 == 0
  /\ resultOf (TokenMonitorService.getCurrentPrice (priced 0) Addr1 []) = Returns None
  /\ tableOf (TokenMonitorService.handleNewTokenFromWebsocket (priced 0)
                (discover Addr1) []) = []
  /\ buysOf (effectsOf (TokenMonitorService.checkToken (priced 0) row1 [row1])) = [].
Proof.
  destruct (C10_zero_price (priced 0) Addr1 0 eq_refl (Qeq_refl 0))
    as (Hget & Henroll & Hpoll).
  split; [reflexivity|]. split; [apply Qeq_refl|].
  split; [exact (proj1 (Hget []))|].
  split; [exact (proj1 (Henroll (mkTxDetails (Some Addr1)) [] eq_refl))|].
  exact (proj1 (proj2 (Hpoll row1 [row1] eq_refl))).
Defined.

Section StoredPrice.

Variable cfg : Config.

Lemma buyTriggered_noFault (env : Env) (r : TokenTrack) :
  noDbFault env ->
  buyTriggered env r
  = match observedPrice env (tokenAddress r) with
    | Some cur => TokenMonitorService.thresholdMet cur (price r)
    | None => false
    end.
Proof.
  intros Hdb. unfold buyTriggered.
  destruct (observedPrice env (tokenAddress r)); [|reflexivity].
  now rewrite Hdb.
Qed.

Lemma polled_price (env : Env) (r : TokenTrack) :
  price (polled env r)
  = match observedPrice env (tokenAddress r) with
    | Some cur => cur
    | None => price r
    end.
Proof.
  unfold polled.
  now destruct (devSold env (tokenAddress r)), (observedPrice env (tokenAddress r)).
Qed.

End StoredPrice.

Section Sweep.

Variables (cfg : Config) (env : Env) (X : address).

Lemma buysOf_swapsOf (es : list Effect) :
  buysOf es
  = flat_map (fun s => match fst s with None => [snd s] | Some _ => [] end)
      (swapsOf es).
Proof.
  induction es as [|e es IH]; [reflexivity|].
  destruct e as [c|[f|] t0|lvl line subject]; cbn [buysOf swapsOf flat_map app];
    fold (buysOf es); fold (swapsOf es); rewrite IH; reflexivity.
Qed.

Lemma sells_are_sells (xs : list TokenTrack) :
  filter isSell (map (fun x => (Some (tokenAddress x), wsol_pc_mint cfg)) xs)
  = map (fun x => (Some (tokenAddress x), wsol_pc_mint cfg)) xs.
Proof. induction xs as [|x xs IH]; [reflexivity|]. cbn. now rewrite IH. Qed.

Lemma sells_no_buy (xs : list TokenTrack) :
  flat_map (fun s : option address * address =>
              match fst s with None => [snd s] | Some _ => [] end)
    (map (fun x => (Some (tokenAddress x), wsol_pc_mint cfg)) xs)
  = [].
Proof. induction xs as [|x xs IH]; [reflexivity|]. cbn. now rewrite IH. Qed.

Lemma active_In (t : Table) (token : TokenTrack) :
  UniqueKeys t -> In token (DatabaseService.selectActive t) ->
  DatabaseService.selectToken (tokenAddress token) t = Some token
  /\ status token = active.
Proof.
  intros Hu Hin. apply filter_In in Hin as [Hin Hst]. split.
  - now apply select_unique.
  - now destruct (status token).
Qed.

Lemma sweep_select (t : Table) (token : TokenTrack) :
  UniqueKeys t -> In token (DatabaseService.selectActive t) ->
  DatabaseService.selectToken (tokenAddress token)
    (tableOf (forOf (DatabaseService.selectActive t)
                (TokenMonitorService.sellIncorrect cfg env X) t))
  = Some (swept cfg env X token token).
Proof.
  intros Hu Hin. destruct (active_In t token Hu Hin) as [Hsel Hact].
  rewrite (forOf_select _ (sellIncorrect_returns cfg env X) tokenAddress
             (swept cfg env X)).
  - rewrite find_active, Hsel, Hact by assumption. reflexivity.
  - intros x t' b'. apply sellIncorrect_select.
  - apply (keys_filter_NoDup _ t Hu).
Qed.

End Sweep.

(** C7 (counterexample).  [AddrY] is active and [AddrX], which has no
    record, is designated; the sell of [AddrY] throws and no price is
    known for [AddrX].  After [setCorrectToken] the token [AddrY] is still
    active, [AddrX] has no record and no buy was dispatched. *)
Lemma C7_counterexample :
  DatabaseService.selectActive (tokens (holdingY liveConfig)) = [rowY]
  /\ DatabaseService.selectToken AddrX (tokens (holdingY liveConfig)) = None
  /\ (let res := TokenMonitorService.setCorrectToken liveConfig swapsFailEnv AddrX
                   (tokens (holdingY liveConfig)) in
      swapsOf (effectsOf res) = [(Some AddrY, wsol)]
      /\ option_map status (DatabaseService.selectToken AddrY (tableOf res))
         = Some active
      /\ DatabaseService.selectToken AddrX (tableOf res) = None
      /\ buysOf (effectsOf res) = []).
Proof.
  repeat split; vm_compute; reflexivity.
Qed.

(** C7 (amended).  When the driver does not fail, [setCorrectToken] for
    the address [X] returns after it has dispatched, in table order, one
    sell into the wrapped-SOL mint for every active token whose address
    differs from [X]; such a token is set to inactive when its sell call
    returns, and when the call throws the failure is logged, the token
    stays as it was and the sweep goes on.  Then, if [X] has no record and
    its price lookup gives a price, [X] is enrolled as active at that
    price and one buy of [X] is dispatched; if the lookup gives no price,
    [X] is not enrolled and nothing is bought. *)
Theorem C7_correct_token_sweep (cfg : Config) (env : Env) (X : address) (t : Table) :
  noDbFault env ->
  UniqueKeys t ->
  let res := TokenMonitorService.setCorrectToken cfg env X t in
  resultOf res = Returns tt
  /\ filter isSell (swapsOf (effectsOf res))
     = map (fun token => (Some (tokenAddress token), wsol_pc_mint cfg))
         (filter (fun token => negb (jsstring_eqb (tokenAddress token) X))
            (DatabaseService.selectActive t))
  /\ (forall token,
        In token (DatabaseService.selectActive t) ->
        tokenAddress token <> X ->
        match createSwapTransaction env (Some (tokenAddress token)) (wsol_pc_mint cfg) with
        | Resolves _ =>
            option_map status
              (DatabaseService.selectToken (tokenAddress token) (tableOf res))
            = Some inactive
        | Rejects =>
            In (Log LError "Error selling token" (Some (tokenAddress token)))
              (effectsOf res)
            /\ DatabaseService.selectToken (tokenAddress token) (tableOf res)
               = Some token
        end)
  /\ (DatabaseService.selectToken X t = None ->
      match observedPrice env X with
      | Some p =>
          DatabaseService.selectToken X (tableOf res)
          = Some (mkToken X (now env) p (now env) active)
          /\ buysOf (effectsOf res) = [X]
      | None =>
          DatabaseService.selectToken X (tableOf res) = None
          /\ buysOf (effectsOf res) = []
      end).
Proof.
  intros Hdb Hu res. unfold res.
  rewrite (setCorrectToken_unfold cfg env X t (Hdb _)).
  set (loop := forOf (DatabaseService.selectActive t)
                 (TokenMonitorService.sellIncorrect cfg env X) t).
  destruct (buyCorrect_spec env X (tableOf loop) Hdb) as (Hret & Htab & Hswaps).
  pose proof (forOf_marked _ (sellIncorrect_returns cfg env X)
                (DatabaseService.selectActive t) t
                (sellIncorrect_marked cfg env X)) as Hmarked.
  fold loop in Hmarked.
  cbn [resultOf tableOf effectsOf fst snd].
  fold (effectsOf loop).
  fold (effectsOf (TokenMonitorService.buyCorrect env X (tableOf loop))).
  fold (tableOf (TokenMonitorService.buyCorrect env X (tableOf loop))).
  fold (resultOf (TokenMonitorService.buyCorrect env X (tableOf loop))).
  assert (Hall : swapsOf
                   (Log LInfo "Setting correct token" (Some X)
                    :: Sql SqlSelectActive
                    :: effectsOf loop
                    ++ effectsOf (TokenMonitorService.buyCorrect env X (tableOf loop)))
                 = map (fun token => (Some (tokenAddress token), wsol_pc_mint cfg))
                     (filter (fun token => negb (jsstring_eqb (tokenAddress token) X))
                        (DatabaseService.selectActive t))
                   ++ swapsOf (effectsOf
                                 (TokenMonitorService.buyCorrect env X (tableOf loop)))).
  { change (swapsOf (?l :: Sql SqlSelectActive :: ?e)) with (swapsOf e).
    rewrite swapsOf_app. unfold loop. now rewrite sweep_sells. }
  split; [exact Hret|]. split; [|split].
  - rewrite Hall, Hswaps, filter_app, sells_are_sells.
    destruct (DatabaseService.selectToken X (tableOf loop)), (observedPrice env X);
      cbn; now rewrite app_nil_r.
  - intros token Hin Hne.
    pose proof (sweep_select cfg env X t token Hu Hin) as Hsel. fold loop in Hsel.
    pose proof (Enrolled_select _ _ _ _
                  (buyCorrect_enrolled env X (tableOf loop)) Hsel) as Hsel'.
    rewrite Hsel'. unfold swept, sold.
    apply jsstring_eqb_neq in Hne. rewrite Hne. cbn [negb andb].
    destruct (createSwapTransaction env (Some (tokenAddress token)) (wsol_pc_mint cfg))
      eqn:Hswap.
    + now rewrite Hdb.
    + split; [|reflexivity]. right. right. apply in_or_app. left.
      apply sweep_logged; [assumption|now apply jsstring_eqb_neq|assumption].
  - intros Habs.
    pose proof (Marked_select_None _ _ _ Hmarked Habs) as Habs1.
    rewrite buysOf_swapsOf, Hall, flat_map_app, sells_no_buy, Hswaps, Htab, Habs1.
    destruct (observedPrice env X) as [p|]; cbn [app flat_map fst snd].
    + split; [|reflexivity]. rewrite select_app, Habs1.
      unfold hasAddress. cbn [tokenAddress]. now rewrite jsstring_eqb_refl.
    + now split.
Qed.

Lemma C7_correct_token_sweep_witness :
  noDbFault (priced 2)
  /\ UniqueKeys (tokens (holdingY liveConfig))
  /\ (let res := TokenMonitorService.setCorrectToken liveConfig (priced 2) AddrX
                   (tokens (holdingY liveConfig)) in
      resultOf res = Returns tt
      /\ filter isSell (swapsOf (effectsOf res)) = [(Some AddrY, wsol)]
      /\ option_map status (DatabaseService.selectToken AddrY (tableOf res))
         = Some inactive
      /\ DatabaseService.selectToken AddrX (tableOf res)
         = Some (mkToken AddrX 0 2 0 active)
      /\ buysOf (effectsOf res) = [AddrX]).
Proof.
  assert (Hdb : noDbFault (priced 2)) by (intros c; reflexivity).
  assert (Hu : UniqueKeys (tokens (holdingY liveConfig)))
  by (vm_compute; constructor; [intros []|constructor]).
  destruct (C7_correct_token_sweep liveConfig (priced 2) AddrX
              (tokens (holdingY liveConfig)) Hdb Hu)
    as (Hret & Hsells & Hsweep & Hbuy).
  split; [exact Hdb|]. split; [exact Hu|].
  split; [exact Hret|]. split; [exact Hsells|]. split.
  - exact (Hsweep rowY (or_introl eq_refl) ltac:(discriminate)).
  - exact (Hbuy eq_refl).
Defined.

(** C8.  With [simulation_mode] set, the signal-driven path dispatches
    no swap, but the poll-cycle trigger and the correct-token sweep do:
    [TokenMonitorService] never reads the option, so the swaps of a
    monitoring tick are the same under every configuration. *)
Theorem C8_simulation_mode_trades :
  simulation_mode simulationConfig = true
  /\ (forall env a t,
        swapsOf (effectsOf (processTransaction simulationConfig env a t)) = [])
  /\ (forall cfg s env,
        swapsOf (snd (step cfg s (EvMonitoringTick env)))
        = if dbThrows env SqlSelectActive then []
          else map (fun token => (None, tokenAddress token))
                 (filter (buyTriggered env) (DatabaseService.selectActive (tokens s))))
  /\ DatabaseService.selectToken AddrY (tokens (holdingY simulationConfig)) = Some rowY
  /\ swapsOf (snd (step simulationConfig (holdingY simulationConfig)
                     (EvMonitoringTick (priced 3.5))))
     = [(None, AddrY)]
  /\ swapsOf (snd (step simulationConfig (holdingY simulationConfig)
                     (EvCorrectToken (priced 2) AddrX)))
     = [(Some AddrY, wsol); (None, AddrX)].
Proof.
  split; [reflexivity|]. split; [|split].
  - intros env a t. now apply processTransaction_simulation.
  - intros cfg s env. cbn [step lift snd]. apply tick_swaps.
  - repeat split; vm_compute; reflexivity.
Qed.

(* ===================================================================== *)
(** * Further properties: the database service *)
(* ===================================================================== *)

Section DatabaseFacts.

Lemma select_without (k b : address) (t : Table) :
  DatabaseService.selectToken b (filter (fun r => negb (hasAddress k r)) t)
  = if jsstring_eqb b k then None else DatabaseService.selectToken b t.
Proof.
  unfold DatabaseService.selectToken. induction t as [|r t IH]; cbn [filter find].
  - now destruct (jsstring_eqb b k).
  - destruct (hasAddress k r) eqn:Hk; cbn [negb find].
    + rewrite IH. destruct (jsstring_eqb b k) eqn:Hb; [reflexivity|].
      apply hasAddress_true in Hk. apply jsstring_eqb_neq in Hb.
      assert (Hr : hasAddress b r = false) by (apply hasAddress_false; congruence).
      now rewrite Hr.
    + destruct (hasAddress b r) eqn:Hr.
      * apply hasAddress_true in Hr. apply hasAddress_false in Hk.
        assert (Hb : jsstring_eqb b k = false) by (apply jsstring_eqb_neq; congruence).
        now rewrite Hb.
      * apply IH.
Qed.

Lemma select_insertOrReplace (row : TokenTrack) (b : address) (t : Table) :
  DatabaseService.selectToken b (DatabaseService.insertOrReplace row t)
  = if jsstring_eqb b (tokenAddress row) then Some row
    else DatabaseService.selectToken b t.
Proof.
  unfold DatabaseService.insertOrReplace. rewrite select_app, select_without.
  unfold hasAddress. rewrite (jsstring_eqb_sym (tokenAddress row) b).
  destruct (jsstring_eqb b (tokenAddress row)); [reflexivity|].
  now destruct (DatabaseService.selectToken b t).
Qed.

Lemma rowsOf_insertOrReplace (row : TokenTrack) (t : Table) :
  rowsOf (tokenAddress row) (DatabaseService.insertOrReplace row t) = [row].
Proof.
  unfold rowsOf, DatabaseService.insertOrReplace. rewrite filter_app.
  cbn [filter]. unfold hasAddress at 3. rewrite jsstring_eqb_refl.
  replace (filter _ (filter _ t)) with (@nil TokenTrack); [reflexivity|].
  induction t as [|r t IH]; [reflexivity|]. cbn [filter].
  destruct (hasAddress (tokenAddress row) r) eqn:Hr; cbn [negb filter];
    [assumption|]. now rewrite Hr.
Qed.

Lemma unique_insertOrReplace (row : TokenTrack) (t : Table) :
  UniqueKeys t -> UniqueKeys (DatabaseService.insertOrReplace row t).
Proof.
  intros Hu. unfold DatabaseService.insertOrReplace.
  pose proof (keys_filter_NoDup (fun r => negb (hasAddress (tokenAddress row) r)) t Hu)
    as Hf.
  unfold UniqueKeys, keys in *. rewrite map_app.
  apply NoDup_app; [assumption|repeat constructor; simpl; tauto|].
  intros x Hx [<-|[]]. apply in_map_iff in Hx as (y & Hy & Hin).
  apply filter_In in Hin as [_ Hne]. apply negb_true_iff in Hne.
  apply hasAddress_false in Hne. congruence.
Qed.

Lemma setPrice_absent (a : address) (p : Q) (n : Z) (t : Table) :
  DatabaseService.selectToken a t = None -> DatabaseService.setPrice a p n t = t.
Proof.
  unfold DatabaseService.selectToken, DatabaseService.setPrice.
  induction t as [|r t IH]; cbn [find map]; [reflexivity|].
  destruct (hasAddress a r); [discriminate|]. intros H. now rewrite IH.
Qed.

Lemma setStatus_absent (a : address) (st : Status) (n : Z) (t : Table) :
  DatabaseService.selectToken a t = None -> DatabaseService.setStatus a st n t = t.
Proof.
  unfold DatabaseService.selectToken, DatabaseService.setStatus.
  induction t as [|r t IH]; cbn [find map]; [reflexivity|].
  destruct (hasAddress a r); [discriminate|]. intros H. now rewrite IH.
Qed.



End DatabaseFacts.

(** X1.  A token written by [addToken] is what [getToken] returns for
    its address: it is then the only row under that address, whether or
    not a row was there before; the rows of other addresses are as they
    were, and the primary key stays unique. *)
Theorem X1_addToken_then_getToken (env : Env) (token : TokenTrack) (t : Table) :
  dbThrows env (SqlInsertOrReplace token) = false ->
  dbThrows env (SqlSelectToken (tokenAddress token)) = false ->
  let t' := tableOf (DatabaseService.addToken env token t) in
  resultOf (DatabaseService.getToken env (tokenAddress token) t')
  = Returns (Some token)
  /\ rowsOf (tokenAddress token) t' = [token]
  /\ (forall b, b <> tokenAddress token ->
        DatabaseService.selectToken b t' = DatabaseService.selectToken b t)
  /\ (UniqueKeys t -> UniqueKeys t').
Proof.
  intros Hadd Hget t'.
  assert (Ht' : t' = DatabaseService.insertOrReplace token t).
  { unfold t', DatabaseService.addToken, DatabaseService.statement, tableOf.
    now rewrite Hadd. }
  rewrite Ht'. split; [|split; [|split]].
  - unfold DatabaseService.getToken, DatabaseService.statement, resultOf.
    rewrite Hget. cbn [fst]. now rewrite select_insertOrReplace, jsstring_eqb_refl.
  - apply rowsOf_insertOrReplace.
  - intros b Hb. rewrite select_insertOrReplace.
    apply jsstring_eqb_neq in Hb. now rewrite Hb.
  - apply unique_insertOrReplace.
Qed.

Lemma X1_addToken_then_getToken_witness :
  dbThrows calmEnv (SqlInsertOrReplace row1) = false
  /\ dbThrows calmEnv (SqlSelectToken (tokenAddress row1)) = false
  /\ resultOf (DatabaseService.getToken calmEnv (tokenAddress row1)
                 (tableOf (DatabaseService.addToken calmEnv row1 [row1Sold; rowY])))
     = Returns (Some row1)
  /\ rowsOf (tokenAddress row1)
       (tableOf (DatabaseService.addToken calmEnv row1 [row1Sold; rowY]))
     = [row1].
Proof.
  destruct (X1_addToken_then_getToken calmEnv row1 [row1Sold; rowY]
              eq_refl eq_refl) as (Hget & Hrows & _).
  split; [reflexivity|]. split; [reflexivity|]. split; [exact Hget|exact Hrows].
Defined.

(** X2.  [updateTokenPrice] and [updateTokenStatus] for an address that
    has no row leave the table as it is, and when the driver does not
    fail they return normally: the update of a missing token is not
    reported. *)
Theorem X2_update_of_missing_address (env : Env) (a : address) (p : Q)
    (st : Status) (t : Table) :
  DatabaseService.selectToken a t = None ->
  tableOf (DatabaseService.updateTokenPrice env a p t) = t
  /\ tableOf (DatabaseService.updateTokenStatus env a st t) = t
  /\ (noDbFault env ->
      resultOf (DatabaseService.updateTokenPrice env a p t) = Returns tt
      /\ resultOf (DatabaseService.updateTokenStatus env a st t) = Returns tt).
Proof.
  intros Habs.
  unfold DatabaseService.updateTokenPrice, DatabaseService.updateTokenStatus,
    DatabaseService.statement, tableOf, resultOf.
  split; [|split].
  - destruct (dbThrows env _); cbn [fst snd]; [reflexivity|now apply setPrice_absent].
  - destruct (dbThrows env _); cbn [fst snd]; [reflexivity|now apply setStatus_absent].
  - intros Hdb. now rewrite !Hdb.
Qed.

Lemma X2_update_of_missing_address_witness :
  DatabaseService.selectToken AddrX [row1; rowY] = None
  /\ tableOf (DatabaseService.updateTokenPrice calmEnv AddrX 7 [row1; rowY])
     = [row1; rowY]
  /\ tableOf (DatabaseService.updateTokenStatus calmEnv AddrX inactive [row1; rowY])
     = [row1; rowY].
Proof.
  assert (Habs : DatabaseService.selectToken AddrX [row1; rowY] = None)
    by (vm_compute; reflexivity).
  destruct (X2_update_of_missing_address calmEnv AddrX 7 inactive [row1; rowY] Habs)
    as (Hp & Hs & _).
  split; [exact Habs|]. split; [exact Hp|exact Hs].
Defined.

(** X3.  After [updateTokenPrice] or [updateTokenStatus] for an address
    that has a row, [getToken] returns that row with the new price (or
    the new status, which may be active as well as inactive) and with
    [lastCheck] set to the time of the update; its address, its discovery
    timestamp and every other row are unchanged. *)
Theorem X3_update_then_getToken (env : Env) (a : address) (p : Q) (st : Status)
    (t : Table) (r : TokenTrack) :
  noDbFault env ->
  DatabaseService.selectToken a t = Some r ->
  let t1 := tableOf (DatabaseService.updateTokenPrice env a p t) in
  let t2 := tableOf (DatabaseService.updateTokenStatus env a st t) in
  resultOf (DatabaseService.getToken env a t1)
  = Returns (Some (mkToken (tokenAddress r) (timestamp r) p (now env) (status r)))
  /\ resultOf (DatabaseService.getToken env a t2)
     = Returns (Some (mkToken (tokenAddress r) (timestamp r) (price r) (now env) st))
  /\ (forall b, b <> a ->
        DatabaseService.selectToken b t1 = DatabaseService.selectToken b t
        /\ DatabaseService.selectToken b t2 = DatabaseService.selectToken b t)
  /\ keys t1 = keys t /\ keys t2 = keys t.
Proof.
  intros Hdb Hsel t1 t2.
  assert (H1 : t1 = DatabaseService.setPrice a p (now env) t).
  { unfold t1, DatabaseService.updateTokenPrice, DatabaseService.statement, tableOf.
    now rewrite Hdb. }
  assert (H2 : t2 = DatabaseService.setStatus a st (now env) t).
  { unfold t2, DatabaseService.updateTokenStatus, DatabaseService.statement, tableOf.
    now rewrite Hdb. }
  rewrite H1, H2.
  unfold DatabaseService.getToken, DatabaseService.statement, resultOf.
  rewrite Hdb. cbn [fst].
  rewrite select_setPrice, select_setStatus, jsstring_eqb_refl, Hsel.
  split; [reflexivity|]. split; [reflexivity|]. split; [|split].
  - intros b Hb. apply jsstring_eqb_neq in Hb.
    now rewrite select_setPrice, select_setStatus, Hb.
  - apply keys_setPrice.
  - apply keys_setStatus.
Qed.

Lemma X3_update_then_getToken_witness :
  noDbFault calmEnv
  /\ DatabaseService.selectToken Addr1 [row1Sold; rowY] = Some row1Sold
  /\ resultOf (DatabaseService.getToken calmEnv Addr1
                 (tableOf (DatabaseService.updateTokenPrice calmEnv Addr1 7
                             [row1Sold; rowY])))
     = Returns (Some (mkToken Addr1 0 7 0 inactive))
  /\ resultOf (DatabaseService.getToken calmEnv Addr1
                 (tableOf (DatabaseService.updateTokenStatus calmEnv Addr1 active
                             [row1Sold; rowY])))
     = Returns (Some row1).
Proof.
  assert (Hdb : noDbFault calmEnv) by (intros c; reflexivity).
  assert (Hsel : DatabaseService.selectToken Addr1 [row1Sold; rowY] = Some row1Sold)
    by (vm_compute; reflexivity).
  destruct (X3_update_then_getToken calmEnv Addr1 7 active [row1Sold; rowY]
              row1Sold Hdb Hsel) as (Hp & Hs & _).
  split; [exact Hdb|]. split; [exact Hsel|]. split; [exact Hp|exact Hs].
Defined.



(** X5.  [getActiveTokens] returns the rows whose status is active, in
    table order; once [updateTokenStatus] has set an address to inactive,
    no row under that address is among them, and the other active rows
    are the same as before. *)
Theorem X5_active_tokens_after_retirement (env : Env) (a : address) (t : Table) :
  noDbFault env ->
  let t' := tableOf (DatabaseService.updateTokenStatus env a inactive t) in
  resultOf (DatabaseService.getActiveTokens env t)
  = Returns (DatabaseService.selectActive t)
  /\ (forall r, In r (DatabaseService.selectActive t) <-> In r t /\ status r = active)
  /\ resultOf (DatabaseService.getActiveTokens env t')
     = Returns (filter (fun r => negb (hasAddress a r)) (DatabaseService.selectActive t)).
Proof.
  intros Hdb t'. split; [|split].
  - unfold DatabaseService.getActiveTokens, DatabaseService.statement, resultOf.
    now rewrite Hdb.
  - intros r. unfold DatabaseService.selectActive. rewrite filter_In.
    destruct (status r); cbn; intuition discriminate.
  - unfold t', DatabaseService.getActiveTokens, DatabaseService.updateTokenStatus,
      DatabaseService.statement, resultOf, tableOf.
    rewrite !Hdb. cbn [fst snd]. f_equal.
    unfold DatabaseService.selectActive, DatabaseService.setStatus.
    induction t as [|r t IH]; [reflexivity|]. cbn [map filter].
    destruct (hasAddress a r) eqn:Ha; cbn [status Status_eqb].
    + rewrite IH. destruct (Status_eqb (status r) active); [|reflexivity].
      cbn [filter]. now rewrite Ha.
    + rewrite IH. destruct (Status_eqb (status r) active); [|reflexivity].
      cbn [filter]. now rewrite Ha.
Qed.

Lemma X5_active_tokens_after_retirement_witness :
  noDbFault calmEnv
  /\ resultOf (DatabaseService.getActiveTokens calmEnv [row1; rowY])
     = Returns [row1; rowY]
  /\ resultOf (DatabaseService.getActiveTokens calmEnv
                 (tableOf (DatabaseService.updateTokenStatus calmEnv Addr1 inactive
                             [row1; rowY])))
     = Returns [rowY].
Proof.
  assert (Hdb : noDbFault calmEnv) by (intros c; reflexivity).
  destruct (X5_active_tokens_after_retirement calmEnv Addr1 [row1; rowY] Hdb)
    as (H1 & _ & H2).
  split; [exact Hdb|]. split; [exact H1|exact H2].
Defined.

(* ===================================================================== *)
(** * Further properties: the lifecycle monitor *)
(* ===================================================================== *)

Section PollFacts.

Variable env : Env.

Lemma checkToken_table_any (token : TokenTrack) (t : Table) :
  tableOf (TokenMonitorService.checkToken env token t)
  = match observedPrice env (tokenAddress token) with
    | Some cur =>
        if dbThrows env (SqlUpdatePrice (tokenAddress token) cur) then t
        else
          let t1 := DatabaseService.setPrice (tokenAddress token) cur (now env) t in
          if devSold env (tokenAddress token) then
            if dbThrows env (SqlUpdateStatus (tokenAddress token) inactive) then t1
            else DatabaseService.setStatus (tokenAddress token) inactive (now env) t1
          else t1
    | None =>
        if devSold env (tokenAddress token) then
          if dbThrows env (SqlUpdateStatus (tokenAddress token) inactive) then t
          else DatabaseService.setStatus (tokenAddress token) inactive (now env) t
        else t
    end.
Proof. unfold_handlers. crunch; reflexivity. Qed.

Lemma checkToken_select_any (token : TokenTrack) (t : Table) (b : address) :
  DatabaseService.selectToken b (tableOf (TokenMonitorService.checkToken env token t))
  = if jsstring_eqb b (tokenAddress token)
    then option_map (polledWith env) (DatabaseService.selectToken b t)
    else DatabaseService.selectToken b t.
Proof.
  rewrite checkToken_table_any.
  destruct (jsstring_eqb b (tokenAddress token)) eqn:Hb.
  - apply jsstring_eqb_eq in Hb. subst b.
    destruct (DatabaseService.selectToken (tokenAddress token) t) as [r|] eqn:Hsel.
    + pose proof (select_In _ _ _ Hsel) as [_ Ha].
      cbn [option_map]. unfold polledWith. rewrite Ha.
      destruct (observedPrice env (tokenAddress token)) as [cur|];
        [destruct (dbThrows env (SqlUpdatePrice (tokenAddress token) cur))|];
        destruct (devSold env (tokenAddress token));
        try destruct (dbThrows env (SqlUpdateStatus (tokenAddress token) inactive));
        cbv zeta;
        rewrite ?select_setStatus, ?select_setPrice, ?jsstring_eqb_refl, ?Hsel;
        cbn [option_map tokenAddress timestamp price status lastCheck];
        rewrite ?Ha; reflexivity.
    + destruct (observedPrice env (tokenAddress token)) as [cur|];
        [destruct (dbThrows env (SqlUpdatePrice (tokenAddress token) cur))|];
        destruct (devSold env (tokenAddress token));
        try destruct (dbThrows env (SqlUpdateStatus (tokenAddress token) inactive));
        cbv zeta;
        rewrite ?select_setStatus, ?select_setPrice, ?jsstring_eqb_refl, ?Hsel;
        reflexivity.
  - destruct (observedPrice env (tokenAddress token)) as [cur|];
      [destruct (dbThrows env (SqlUpdatePrice (tokenAddress token) cur))|];
      destruct (devSold env (tokenAddress token));
      try destruct (dbThrows env (SqlUpdateStatus (tokenAddress token) inactive));
      cbv zeta;
      rewrite ?select_setStatus, ?select_setPrice, ?Hb; reflexivity.
Qed.

Lemma tick_select_any (t : Table) (b : address) :
  dbThrows env SqlSelectActive = false -> UniqueKeys t ->
  DatabaseService.selectToken b (tableOf (TokenMonitorService.monitoringTick env t))
  = match DatabaseService.selectToken b t with
    | Some r => if Status_eqb (status r) active then Some (polledWith env r) else Some r
    | None => None
    end.
Proof.
  intros Hdb Hu. rewrite tick_unfold by assumption. cbn [tableOf fst snd].
  fold (tableOf (forOf (DatabaseService.selectActive t)
                   (TokenMonitorService.checkToken env) t)).
  rewrite (forOf_select _ (checkToken_returns env) tokenAddress
             (fun _ => polledWith env)).
  - rewrite find_active by assumption.
    destruct (DatabaseService.selectToken b t) as [r|]; [|reflexivity].
    now destruct (Status_eqb (status r) active).
  - intros x t' b'. apply checkToken_select_any.
  - apply (keys_filter_NoDup _ t Hu).
Qed.

Lemma tick_inactive_untouched (t : Table) (a : address) (r : TokenTrack) :
  UniqueKeys t ->
  DatabaseService.selectToken a t = Some r -> status r = inactive ->
  DatabaseService.selectToken a (tableOf (TokenMonitorService.monitoringTick env t))
  = Some r.
Proof.
  intros Hu Hsel Hst. destruct (dbThrows env SqlSelectActive) eqn:Hdb.
  - now rewrite tick_fault.
  - now rewrite tick_select_any, Hsel, Hst.
Qed.

Lemma checkToken_fault_logged (token : TokenTrack) (t : Table) (cur : Q) :
  observedPrice env (tokenAddress token) = Some cur ->
  dbThrows env (SqlUpdatePrice (tokenAddress token) cur) = true ->
  In (Log LError "Error checking token" (Some (tokenAddress token)))
    (effectsOf (TokenMonitorService.checkToken env token t)).
Proof.
  unfold_handlers. crunch; intros; try discriminate;
    repeat match goal with H : Some _ = Some _ |- _ => injection H as H; subst end;
    try congruence; cbn; tauto.
Qed.

Lemma forOf_effects_In {A : Type} (body : A -> M unit) (xs : list A) (x : A)
    (e : Effect) (t : Table) :
  (forall y u, resultOf (body y u) = Returns tt) ->
  In x xs -> (forall u, In e (effectsOf (body x u))) ->
  In e (effectsOf (forOf xs body t)).
Proof.
  intros Hret Hin He. revert t. induction xs as [|y xs IH]; intros t; [destruct Hin|].
  rewrite forOf_cons by apply Hret. cbn [effectsOf snd]. apply in_or_app.
  destruct Hin as [->|Hin]; [left; apply He|right; now apply IH].
Qed.

End PollFacts.

(** X6.  [handleNewTokenFromWebsocket] never throws and never dispatches
    a swap.  Its only possible write is the insertion of an active row
    for the mint, stamped with the current time, and it makes that write
    only when the mint has no row, the rug check answered true and the
    price lookup gave a non-zero price; the rows already in the table are
    left as they are.  For missing details or a missing or empty mint it
    only logs an error, without reading the table. *)
Theorem X6_discovery_effects (env : Env) (d : option TxDetails) (t : Table) :
  let res := TokenMonitorService.handleNewTokenFromWebsocket env d t in
  resultOf res = Returns tt
  /\ swapsOf (effectsOf res) = []
  /\ (List.length (writesOf (effectsOf res)) <= 1)%nat
  /\ (forall c, In c (writesOf (effectsOf res)) ->
        exists dd a q,
          d = Some dd /\ mint dd = Some a
          /\ c = SqlInsertOrReplace (mkToken a (now env) q (now env) active)
          /\ DatabaseService.selectToken a t = None
          /\ getRugCheckConfirmed env a = Resolves true
          /\ observedPrice env a = Some q)
  /\ (forall b r, DatabaseService.selectToken b t = Some r ->
        DatabaseService.selectToken b (tableOf res) = Some r)
  /\ ((d = None \/ exists dd, d = Some dd /\ falsy_string (mint dd) = true) ->
      effectsOf res = [Log LError "Invalid transaction details received" None]).
Proof.
  intros res. split; [apply handleNew_returns|].
  split; [unfold res; unfold_handlers; crunch; reflexivity|].
  split; [unfold res; unfold_handlers; crunch; cbn; lia|].
  split; [|split].
  - unfold res. unfold_handlers. crunch; cbn; intros c Hc; try tauto;
      try match goal with H : falsy_string None = false |- _ => discriminate H end.
    destruct Hc as [<-|[]].
    match goal with H : negb ?b = false |- _ => destruct b; [|discriminate] end.
    eexists _, _, _. repeat split; try eassumption; try reflexivity.
    match goal with H : jupPrice _ _ = _ |- _ => now rewrite H end.
  - intros b r Hsel. eapply Enrolled_select; [apply handleNew_enrolled|assumption].
  - intros [->|(dd & -> & Hm)]; unfold res; unfold_handlers; [reflexivity|].
    now rewrite Hm.
Qed.

Lemma X6_discovery_effects_witness :
  writesOf (effectsOf (TokenMonitorService.handleNewTokenFromWebsocket (priced 2)
                         (discover AddrX) [row1]))
  = [SqlInsertOrReplace (mkToken AddrX 0 2 0 active)]
  /\ (exists dd a q,
         discover AddrX = Some dd /\ mint dd = Some a
         /\ SqlInsertOrReplace (mkToken AddrX 0 2 0 active)
            = SqlInsertOrReplace (mkToken a (now (priced 2)) q (now (priced 2)) active)
         /\ DatabaseService.selectToken a [row1] = None
         /\ getRugCheckConfirmed (priced 2) a = Resolves true
         /\ observedPrice (priced 2) a = Some q)
  /\ DatabaseService.selectToken Addr1
       (tableOf (TokenMonitorService.handleNewTokenFromWebsocket (priced 2)
                   (discover AddrX) [row1]))
     = Some row1
  /\ effectsOf (TokenMonitorService.handleNewTokenFromWebsocket (priced 2)
                  (Some (mkTxDetails (Some []))) [row1])
     = [Log LError "Invalid transaction details received" None].
Proof.
  destruct (X6_discovery_effects (priced 2) (discover AddrX) [row1])
    as (_ & _ & _ & Hwrite & Hkeep & _).
  destruct (X6_discovery_effects (priced 2) (Some (mkTxDetails (Some []))) [row1])
    as (_ & _ & _ & _ & _ & Hinvalid).
  split; [vm_compute; reflexivity|].
  split; [apply Hwrite; vm_compute; left; reflexivity|].
  split; [apply Hkeep; vm_compute; reflexivity|].
  apply Hinvalid. right. eexists. split; reflexivity.
Defined.

(** X7.  Handling the same discovery twice in the same outside world is
    the same as handling it once: the second run leaves the table of the
    first and makes no write. *)
Theorem X7_discovery_twice (env : Env) (d : option TxDetails) (t : Table) :
  let t1 := tableOf (TokenMonitorService.handleNewTokenFromWebsocket env d t) in
  tableOf (TokenMonitorService.handleNewTokenFromWebsocket env d t1) = t1
  /\ writesOf (effectsOf (TokenMonitorService.handleNewTokenFromWebsocket env d t1))
     = [].
Proof.
  intros t1. unfold t1.
  destruct (handleNew_cases env d t)
    as [[Ht Hw]|(dd & a & q & -> & Hm & Habs & _ & _ & Ht)].
  - rewrite Ht. now split.
  - rewrite Ht. apply (handleNew_existing env dd a _ (mkToken a (now env) q (now env) active));
      [assumption|].
    rewrite select_app, Habs. unfold hasAddress. cbn [tokenAddress].
    now rewrite jsstring_eqb_refl.
Qed.

(** X8.  A monitoring tick never throws, never adds or removes a row,
    and every swap it dispatches is a buy of a token that was active when
    the tick began, at most one for each; a row that is inactive is
    neither updated nor bought. *)
Theorem X8_tick_frame (env : Env) (t : Table) :
  let res := TokenMonitorService.monitoringTick env t in
  resultOf res = Returns tt
  /\ keys (tableOf res) = keys t
  /\ (forall s, In s (swapsOf (effectsOf res)) ->
        fst s = None
        /\ exists r, In r t /\ status r = active /\ snd s = tokenAddress r)
  /\ (UniqueKeys t ->
      NoDup (buysOf (effectsOf res))
      /\ forall a r,
          DatabaseService.selectToken a t = Some r -> status r = inactive ->
          DatabaseService.selectToken a (tableOf res) = Some r
          /\ ~ In a (buysOf (effectsOf res))).
Proof.
  intros res. unfold res. split; [|split; [|split]].
  - destruct (dbThrows env SqlSelectActive) eqn:Hdb;
      [now rewrite tick_fault|now rewrite tick_unfold].
  - apply Marked_keys, tick_marked.
  - intros s. rewrite tick_swaps. destruct (dbThrows env SqlSelectActive); [intros []|].
    intros Hin. apply in_map_iff in Hin as (r & <- & Hin).
    apply filter_In in Hin as [Hin _]. apply filter_In in Hin as [Hin Hst].
    split; [reflexivity|]. exists r. repeat split; [assumption|].
    now destruct (status r).
  - intros Hu. rewrite tick_buys. split.
    + destruct (dbThrows env SqlSelectActive); [constructor|].
      apply (keys_filter_NoDup (buyTriggered env)).
      now apply (keys_filter_NoDup _ t).
    + intros a r Hsel Hst. split; [now apply tick_inactive_untouched|].
      destruct (dbThrows env SqlSelectActive); [intros []|].
      intros Hin. apply in_map_iff in Hin as (x & Hx & Hin).
      apply filter_In in Hin as [Hin _]. apply filter_In in Hin as [Hin Hact].
      pose proof (select_unique t x Hu Hin) as Hselx. rewrite Hx, Hsel in Hselx.
      injection Hselx as ->. rewrite Hst in Hact. discriminate.
Qed.

Lemma X8_tick_frame_witness :
  UniqueKeys [row1Sold; rowY]
  /\ DatabaseService.selectToken Addr1 [row1Sold; rowY] = Some row1Sold
  /\ status row1Sold = inactive
  /\ swapsOf (effectsOf (TokenMonitorService.monitoringTick (priced 3.5)
                           [row1Sold; rowY]))
     = [(None, AddrY)]
  /\ (fst (@None address, AddrY) = None
      /\ exists r, In r [row1Sold; rowY] /\ status r = active
                   /\ snd (@None address, AddrY) = tokenAddress r)
  /\ DatabaseService.selectToken Addr1
       (tableOf (TokenMonitorService.monitoringTick (priced 3.5) [row1Sold; rowY]))
     = Some row1Sold.
Proof.
  assert (Hu : UniqueKeys [row1Sold; rowY]).
  { vm_compute. constructor; [intros [H|[]]; discriminate H|].
    constructor; [intros []|constructor]. }
  assert (Hsel : DatabaseService.selectToken Addr1 [row1Sold; rowY] = Some row1Sold)
    by (vm_compute; reflexivity).
  destruct (X8_tick_frame (priced 3.5) [row1Sold; rowY])
    as (_ & _ & Hswaps & Hinactive).
  split; [exact Hu|]. split; [exact Hsel|]. split; [reflexivity|].
  split; [vm_compute; reflexivity|].
  split; [apply Hswaps; vm_compute; left; reflexivity|].
  exact (proj1 (proj2 (Hinactive Hu) Addr1 row1Sold Hsel eq_refl)).
Defined.

(** X9.  When the write of the observed price fails for one token, the
    poll of that token ends there: its row is left as it was, it is not
    bought and not retired in this tick even if its developer sold, and
    the error is logged; every other active token is still polled and
    bought as usual. *)
Theorem X9_price_update_failure_isolated (env : Env) (t : Table) (a : address)
    (r : TokenTrack) (cur : Q) :
  UniqueKeys t ->
  dbThrows env SqlSelectActive = false ->
  DatabaseService.selectToken a t = Some r ->
  status r = active ->
  observedPrice env a = Some cur ->
  dbThrows env (SqlUpdatePrice a cur) = true ->
  let res := TokenMonitorService.monitoringTick env t in
  DatabaseService.selectToken a (tableOf res) = Some r
  /\ buysFor a (effectsOf res) = []
  /\ In (Log LError "Error checking token" (Some a)) (effectsOf res)
  /\ (forall b rb,
        b <> a -> DatabaseService.selectToken b t = Some rb -> status rb = active ->
        DatabaseService.selectToken b (tableOf res) = Some (polledWith env rb)
        /\ buysFor b (effectsOf res) = if buyTriggered env rb then [b] else []).
Proof.
  intros Hu Hdb Hsel Hact Hobs Hfault res. unfold res.
  pose proof (select_In _ _ _ Hsel) as [Hin Ha].
  split; [|split; [|split]].
  - rewrite tick_select_any, Hsel, Hact by assumption. cbn [Status_eqb].
    unfold polledWith. now rewrite Ha, Hobs, Hfault.
  - rewrite (tick_buysFor env t a r Hdb Hu Hsel), Hact. unfold buyTriggered.
    now rewrite Ha, Hobs, Hfault.
  - rewrite tick_unfold by assumption. cbn [effectsOf snd]. right.
    apply (forOf_effects_In _ _ r); [apply checkToken_returns| |].
    + apply filter_In. split; [assumption|]. now rewrite Hact.
    + intros u. rewrite <- Ha. apply (checkToken_fault_logged env r u cur);
        now rewrite Ha.
  - intros b rb Hb Hselb Hactb. split.
    + now rewrite tick_select_any, Hselb, Hactb.
    + now rewrite (tick_buysFor env t b rb Hdb Hu Hselb), Hactb.
Qed.

Lemma X9_price_update_failure_isolated_witness :
  UniqueKeys [rowY; row1]
  /\ dbThrows priceWriteFailsEnv SqlSelectActive = false
  /\ DatabaseService.selectToken AddrY [rowY; row1] = Some rowY
  /\ status rowY = active
  /\ observedPrice priceWriteFailsEnv AddrY = Some 3.5
  /\ dbThrows priceWriteFailsEnv (SqlUpdatePrice AddrY 3.5) = true
  /\ DatabaseService.selectToken AddrY
       (tableOf (TokenMonitorService.monitoringTick priceWriteFailsEnv [rowY; row1]))
     = Some rowY
  /\ buysFor AddrY
       (effectsOf (TokenMonitorService.monitoringTick priceWriteFailsEnv [rowY; row1]))
     = []
  /\ buysFor Addr1
       (effectsOf (TokenMonitorService.monitoringTick priceWriteFailsEnv [rowY; row1]))
     = if buyTriggered priceWriteFailsEnv row1 then [Addr1] else [].
Proof.
  assert (Hu : UniqueKeys [rowY; row1]).
  { vm_compute. constructor; [intros [H|[]]; discriminate H|].
    constructor; [intros []|constructor]. }
  assert (Hsel : DatabaseService.selectToken AddrY [rowY; row1] = Some rowY)
    by (vm_compute; reflexivity).
  assert (Hsel1 : DatabaseService.selectToken Addr1 [rowY; row1] = Some row1)
    by (vm_compute; reflexivity).
  assert (Hfault : dbThrows priceWriteFailsEnv (SqlUpdatePrice AddrY 3.5) = true)
    by (vm_compute; reflexivity).
  destruct (X9_price_update_failure_isolated priceWriteFailsEnv [rowY; row1] AddrY
              rowY 3.5 Hu eq_refl Hsel eq_refl eq_refl Hfault)
    as (Hrow & Hnobuy & _ & Hothers).
  split; [exact Hu|]. split; [reflexivity|]. split; [exact Hsel|].
  split; [reflexivity|]. split; [reflexivity|]. split; [exact Hfault|].
  split; [exact Hrow|]. split; [exact Hnobuy|].
  exact (proj2 (Hothers Addr1 row1 ltac:(discriminate) Hsel1 eq_refl)).
Defined.

(** X11.  The buy trigger [((current - stored) / stored) * 100 > 200]:
    for a positive stored price it fires exactly when the current price
    is more than three times the stored one (exactly three times does not
    fire); for a stored price of zero the quotient is infinite and it
    fires for every positive current price; for a negative stored price
    it fires exactly when the current price is below three times the
    stored one. *)
Theorem X11_threshold_is_tripling (cur ref : Q) :
  (0 < ref -> (TokenMonitorService.thresholdMet cur ref = true <-> 3 * ref < cur))
  /\ (ref == 0 -> (TokenMonitorService.thresholdMet cur ref = true <-> 0 < cur))
  /\ (ref < 0 -> (TokenMonitorService.thresholdMet cur ref = true <-> cur < 3 * ref)).
Proof.
  split; [apply thresholdMet_spec|]. split.
  - intros Hz. unfold TokenMonitorService.thresholdMet,
      TokenMonitorService.priceIncrease, jsdiv.
    rewrite (Qeq_eq_bool _ _ Hz).
    destruct (Qeq_bool (cur - ref) 0) eqn:Hc.
    + apply Qeq_bool_eq in Hc. cbn. split; [discriminate|lra].
    + destruct (Qltb 0 (cur - ref)) eqn:Hpos; cbn.
      * apply Qltb_lt in Hpos. split; [lra|reflexivity].
      * split; [discriminate|]. intros H.
        assert (Hlt : 0 < cur - ref) by lra.
        apply Qltb_lt in Hlt. congruence.
  - intros Hneg. unfold TokenMonitorService.thresholdMet,
      TokenMonitorService.priceIncrease, jsdiv.
    assert (Hnz : ~ ref == 0) by lra.
    destruct (Qeq_bool ref 0) eqn:Hz; [apply Qeq_bool_eq in Hz; tauto|].
    cbn [jsmul jsgt]. rewrite Qltb_lt.
    assert (E : (cur - ref) / ref * ref == cur - ref) by (field; assumption).
    set (d := (cur - ref) / ref) in *.
    assert (Hpos : 0 < - ref) by lra. split; intros H.
    + assert (H2 : 2 < d) by lra.
      assert (H3 : 2 * - ref < d * - ref) by (apply Qmult_lt_r; assumption).
      lra.
    + assert (H3 : 2 * - ref < d * - ref) by lra.
      apply Qmult_lt_r in H3; [lra|assumption].
Qed.

Lemma X11_threshold_is_tripling_witness :
  0 < 1 /\ TokenMonitorService.thresholdMet 3 1 = false
  /\ TokenMonitorService.thresholdMet 3.01 1 = true
  /\ 0 == 0 /\ TokenMonitorService.thresholdMet 0.001 0 = true
  /\ -(1) < 0 /\ TokenMonitorService.thresholdMet (-(4)) (-(1)) = true.
Proof.
  split; [reflexivity|].
  split.
  { destruct (TokenMonitorService.thresholdMet 3 1) eqn:H; [|reflexivity].
    apply (proj1 (X11_threshold_is_tripling 3 1) eq_refl) in H.
    vm_compute in H. discriminate H. }
  split; [apply (proj1 (X11_threshold_is_tripling 3.01 1) eq_refl); reflexivity|].
  split; [reflexivity|].
  split; [apply (proj1 (proj2 (X11_threshold_is_tripling 0.001 0)) (Qeq_refl 0));
          reflexivity|].
  split; [reflexivity|].
  apply (proj2 (proj2 (X11_threshold_is_tripling (-(4)) (-(1)))) eq_refl); reflexivity.
Defined.

(** X12.  [checkDevSold] never throws, writes nothing and trades
    nothing.  It answers true exactly when the transfer lookup succeeds
    and some transaction holds a transfer of a positive amount sent by
    the fee payer of that transaction; a failed lookup counts as not
    sold. *)
Theorem X12_checkDevSold (env : Env) (a : address) (t : Table) :
  let res := TokenMonitorService.checkDevSold env a t in
  resultOf res = Returns (devSold env a)
  /\ tableOf res = t
  /\ swapsOf (effectsOf res) = []
  /\ writesOf (effectsOf res) = []
  /\ (devSold env a = true <->
      exists data tx ts tr,
        heliusTransfers env a = Resolves data
        /\ In tx data /\ tokenTransfers tx = Some ts /\ In tr ts
        /\ fromUserAccount tr = feePayer tx /\ 0 < tokenAmount tr).
Proof.
  intros res. unfold res.
  split; [unfold_handlers; crunch; reflexivity|].
  split; [unfold_handlers; crunch; reflexivity|].
  split; [unfold_handlers; crunch; reflexivity|].
  split; [unfold_handlers; crunch; reflexivity|].
  unfold devSold, TokenMonitorService.someDevTransfer.
  destruct (heliusTransfers env a) as [data|].
  - rewrite existsb_exists. split.
    + intros (tx & Hin & Htx). destruct (tokenTransfers tx) as [ts|] eqn:Hts;
        [|discriminate].
      apply existsb_exists in Htx as (tr & Hintr & Htr).
      unfold TokenMonitorService.devTransfer in Htr.
      apply andb_prop in Htr as [Hfrom Hpos].
      exists data, tx, ts, tr. repeat split; try assumption.
      * now apply jsstring_eqb_eq.
      * now apply Qltb_lt.
    + intros (data' & tx & ts & tr & [= <-] & Hin & Hts & Hintr & Hfrom & Hpos).
      exists tx. split; [assumption|]. rewrite Hts. apply existsb_exists.
      exists tr. split; [assumption|]. unfold TokenMonitorService.devTransfer.
      apply andb_true_intro. split; [now apply jsstring_eqb_eq|now apply Qltb_lt].
  - split; [discriminate|]. intros (data & tx & ts & tr & H & _). discriminate H.
Qed.

Section DesignationFacts.

Variables (cfg : Config) (env : Env) (X : address).

Lemma buyCorrect_existing (t : Table) (r : TokenTrack) :
  DatabaseService.selectToken X t = Some r ->
  tableOf (TokenMonitorService.buyCorrect env X t) = t
  /\ swapsOf (effectsOf (TokenMonitorService.buyCorrect env X t)) = [].
Proof.
  intros Hsel. unfold_handlers. crunch; try congruence; split; reflexivity.
Qed.

Lemma buyCorrect_result (t : Table) :
  resultOf (TokenMonitorService.buyCorrect env X t)
  = if dbThrows env (SqlSelectToken X) then Throws
    else match DatabaseService.selectToken X t, observedPrice env X with
         | None, Some cur =>
             if dbThrows env
                  (SqlInsertOrReplace (mkToken X (now env) cur (now env) active))
             then Throws else Returns tt
         | _, _ => Returns tt
         end.
Proof. unfold_handlers. crunch; reflexivity. Qed.

Lemma sweep_keeps_designated (t : Table) (r : TokenTrack) :
  UniqueKeys t ->
  DatabaseService.selectToken X t = Some r ->
  DatabaseService.selectToken X
    (tableOf (forOf (DatabaseService.selectActive t)
                (TokenMonitorService.sellIncorrect cfg env X) t))
  = Some r.
Proof.
  intros Hu Hsel.
  rewrite (forOf_select _ (sellIncorrect_returns cfg env X) tokenAddress
             (swept cfg env X)).
  - rewrite find_active, Hsel by assumption.
    destruct (Status_eqb (status r) active); [|reflexivity].
    cbn [option_map]. unfold swept, sold.
    apply select_In in Hsel as [_ Ha]. now rewrite Ha, jsstring_eqb_refl.
  - intros x t' b'. apply sellIncorrect_select.
  - apply (keys_filter_NoDup _ t Hu).
Qed.

End DesignationFacts.

(** X13.  When the designated address already has a record, active or
    inactive, [setCorrectToken] leaves that record as it is and dispatches
    no buy: an inactive designated token is neither reactivated nor
    bought.  Whatever swaps it dispatches are sells of other tokens into
    the wrapped-SOL mint. *)
Theorem X13_designated_token_with_record (cfg : Config) (env : Env) (X : address)
    (t : Table) (r : TokenTrack) :
  UniqueKeys t ->
  DatabaseService.selectToken X t = Some r ->
  let res := TokenMonitorService.setCorrectToken cfg env X t in
  DatabaseService.selectToken X (tableOf res) = Some r
  /\ buysOf (effectsOf res) = []
  /\ (forall s, In s (swapsOf (effectsOf res)) ->
        snd s = wsol_pc_mint cfg
        /\ exists a, fst s = Some a /\ a <> X).
Proof.
  intros Hu Hsel res. unfold res.
  destruct (dbThrows env SqlSelectActive) eqn:Hdb.
  - rewrite setCorrectToken_fault by assumption. cbn [tableOf effectsOf fst snd].
    split; [assumption|]. split; [reflexivity|]. intros s [].
  - rewrite setCorrectToken_unfold by assumption.
    set (loop := forOf (DatabaseService.selectActive t)
                   (TokenMonitorService.sellIncorrect cfg env X) t).
    pose proof (sweep_keeps_designated cfg env X t r Hu Hsel) as Hkept.
    fold loop in Hkept.
    destruct (buyCorrect_existing env X (tableOf loop) r Hkept) as [Htab Hswaps].
    cbn [tableOf effectsOf fst snd].
    fold (tableOf (TokenMonitorService.buyCorrect env X (tableOf loop))).
    fold (effectsOf loop).
    fold (effectsOf (TokenMonitorService.buyCorrect env X (tableOf loop))).
    assert (Hall : swapsOf
                     (Log LInfo "Setting correct token" (Some X)
                      :: Sql SqlSelectActive
                      :: effectsOf loop
                      ++ effectsOf (TokenMonitorService.buyCorrect env X (tableOf loop)))
                   = map (fun token => (Some (tokenAddress token), wsol_pc_mint cfg))
                       (filter (fun token => negb (jsstring_eqb (tokenAddress token) X))
                          (DatabaseService.selectActive t))).
    { change (swapsOf (?l :: Sql SqlSelectActive :: ?e)) with (swapsOf e).
      rewrite swapsOf_app, Hswaps, app_nil_r. unfold loop. apply sweep_sells. }
    rewrite Htab. split; [exact Hkept|]. split.
    + rewrite buysOf_swapsOf, Hall. apply sells_no_buy.
    + intros s. rewrite Hall. intros Hin.
      apply in_map_iff in Hin as (x & <- & Hin).
      apply filter_In in Hin as [_ Hne]. split; [reflexivity|].
      exists (tokenAddress x). split; [reflexivity|].
      apply negb_true_iff in Hne. now apply jsstring_eqb_neq.
Qed.

Lemma X13_designated_token_with_record_witness :
  UniqueKeys [row1Sold; rowY]
  /\ DatabaseService.selectToken Addr1 [row1Sold; rowY] = Some row1Sold
  /\ DatabaseService.selectToken Addr1
       (tableOf (TokenMonitorService.setCorrectToken liveConfig (priced 9) Addr1
                   [row1Sold; rowY]))
     = Some row1Sold
  /\ buysOf (effectsOf (TokenMonitorService.setCorrectToken liveConfig (priced 9)
                          Addr1 [row1Sold; rowY]))
     = []
  /\ swapsOf (effectsOf (TokenMonitorService.setCorrectToken liveConfig (priced 9)
                           Addr1 [row1Sold; rowY]))
     = [(Some AddrY, wsol)].
Proof.
  assert (Hu : UniqueKeys [row1Sold; rowY]).
  { vm_compute. constructor; [intros [H|[]]; discriminate H|].
    constructor; [intros []|constructor]. }
  assert (Hsel : DatabaseService.selectToken Addr1 [row1Sold; rowY] = Some row1Sold)
    by (vm_compute; reflexivity).
  destruct (X13_designated_token_with_record liveConfig (priced 9) Addr1
              [row1Sold; rowY] row1Sold Hu Hsel) as (Hrow & Hbuys & _).
  split; [exact Hu|]. split; [exact Hsel|]. split; [exact Hrow|].
  split; [exact Hbuys|]. vm_compute. reflexivity.
Defined.

(** X14.  [setCorrectToken] catches the failure of a sell and nothing
    else.  It rejects exactly when reading the active tokens fails, when
    reading the designated token fails, or when the designated token has
    no record, its price is known and its insertion fails.  In the first
    case nothing has been done; in the other two the sells of the sweep
    have been dispatched all the same. *)
Theorem X14_setCorrectToken_rejection (cfg : Config) (env : Env) (X : address)
    (t : Table) :
  let res := TokenMonitorService.setCorrectToken cfg env X t in
  (resultOf res = Throws <->
   dbThrows env SqlSelectActive = true
   \/ dbThrows env (SqlSelectToken X) = true
   \/ (DatabaseService.selectToken X t = None
       /\ exists cur,
           observedPrice env X = Some cur
           /\ dbThrows env
                (SqlInsertOrReplace (mkToken X (now env) cur (now env) active))
              = true))
  /\ (dbThrows env SqlSelectActive = true ->
      tableOf res = t /\ swapsOf (effectsOf res) = [])
  /\ (dbThrows env SqlSelectActive = false ->
      filter isSell (swapsOf (effectsOf res))
      = map (fun token => (Some (tokenAddress token), wsol_pc_mint cfg))
          (filter (fun token => negb (jsstring_eqb (tokenAddress token) X))
             (DatabaseService.selectActive t))).
Proof.
  intros res. unfold res. destruct (dbThrows env SqlSelectActive) eqn:Hdb.
  - rewrite setCorrectToken_fault by assumption.
    cbn [resultOf tableOf effectsOf fst snd]. split; [|split].
    + split; [intros _; now left|reflexivity].
    + intros _. now split.
    + discriminate.
  - rewrite setCorrectToken_unfold by assumption.
    set (loop := forOf (DatabaseService.selectActive t)
                   (TokenMonitorService.sellIncorrect cfg env X) t).
    pose proof (forOf_marked _ (sellIncorrect_returns cfg env X)
                  (DatabaseService.selectActive t) t
                  (sellIncorrect_marked cfg env X)) as Hmarked.
    fold loop in Hmarked.
    cbn [resultOf tableOf effectsOf fst snd].
    fold (resultOf (TokenMonitorService.buyCorrect env X (tableOf loop))).
    fold (effectsOf loop).
    fold (effectsOf (TokenMonitorService.buyCorrect env X (tableOf loop))).
    split; [|split; [discriminate|]].
    + rewrite buyCorrect_result.
      assert (Hnone : DatabaseService.selectToken X (tableOf loop) = None
                      <-> DatabaseService.selectToken X t = None).
      { rewrite !select_None. now rewrite (Marked_keys _ _ Hmarked). }
      destruct (dbThrows env (SqlSelectToken X)); [split; [intros _|]; tauto|].
      destruct (DatabaseService.selectToken X (tableOf loop)) as [r1|] eqn:H1.
      * split; [discriminate|]. intros [H|[H|[H _]]]; try discriminate H.
        apply Hnone in H. discriminate H.
      * destruct (observedPrice env X) as [cur|].
        -- destruct (dbThrows env (SqlInsertOrReplace _)) eqn:Hins.
           ++ split; [intros _|reflexivity]. right. right.
              split; [now apply Hnone|]. now exists cur.
           ++ split; [discriminate|].
              intros [H|[H|(_ & cur' & [= <-] & H)]]; try discriminate H.
              congruence.
        -- split; [discriminate|].
           intros [H|[H|(_ & cur' & H & _)]]; discriminate H.
    + intros _.
      change (swapsOf (?l :: Sql SqlSelectActive :: ?e)) with (swapsOf e).
      rewrite swapsOf_app, filter_app. unfold loop at 1.
      rewrite sweep_sells, sells_are_sells.
      replace (filter isSell (swapsOf (effectsOf
                 (TokenMonitorService.buyCorrect env X (tableOf loop)))))
        with (@nil (option address * address)); [now rewrite app_nil_r|].
      unfold_handlers. crunch; reflexivity.
Qed.

Lemma X14_setCorrectToken_rejection_witness :
  resultOf (TokenMonitorService.setCorrectToken liveConfig swapsFailEnv AddrX [rowY])
  = Returns tt
  /\ dbThrows priceWriteFailsEnv SqlSelectActive = false
  /\ filter isSell
       (swapsOf (effectsOf (TokenMonitorService.setCorrectToken liveConfig
                              priceWriteFailsEnv AddrX [rowY])))
     = [(Some AddrY, wsol)].
Proof.
  destruct (X14_setCorrectToken_rejection liveConfig priceWriteFailsEnv AddrX [rowY])
    as (_ & _ & Hsells).
  split; [vm_compute; reflexivity|]. split; [reflexivity|].
  exact (Hsells eq_refl).
Defined.

Section RecordFacts.

Variable cfg : Config.

Lemma select_deleteOld (c : Z) (t : Table) (a : address) (r : TokenTrack) :
  UniqueKeys t ->
  DatabaseService.selectToken a t = Some r ->
  DatabaseService.selectToken a (DatabaseService.deleteOld c t)
  = if (lastCheck r <? c)%Z && Status_eqb (status r) inactive then None else Some r.
Proof.
  intros Hu Hsel. pose proof (select_In _ _ _ Hsel) as [Hin Ha].
  destruct ((lastCheck r <? c)%Z && Status_eqb (status r) inactive) eqn:Hold.
  - destruct (DatabaseService.selectToken a (DatabaseService.deleteOld c t))
      as [r'|] eqn:Hsel'; [|reflexivity].
    pose proof (select_In _ _ _ Hsel') as [Hin' _].
    apply select_filter in Hsel'; [|assumption].
    assert (r' = r) as -> by congruence.
    apply filter_In in Hin' as [_ Hkeep]. rewrite Hold in Hkeep. discriminate Hkeep.
  - rewrite <- Ha. apply select_unique; [now apply keys_filter_NoDup|].
    apply filter_In. split; [assumption|]. now rewrite Hold.
Qed.

End RecordFacts.

(** X16.  [processTransaction] never touches the token table.  It
    dispatches exactly one buy of the signalled token when the address is
    not empty and simulation mode is off, and no swap otherwise; it
    rejects exactly when that swap call rejects, or when the swap gave a
    transaction id and saving the swap details rejects. *)
Theorem X16_processTransaction (cfg : Config) (env : Env) (a : address) (t : Table) :
  let res := processTransaction cfg env a t in
  tableOf res = t
  /\ writesOf (effectsOf res) = []
  /\ swapsOf (effectsOf res)
     = (if falsy_string (Some a) || simulation_mode cfg then [] else [(None, a)])
  /\ resultOf res
     = (if falsy_string (Some a) || simulation_mode cfg then Returns tt
        else match createSwapTransaction env None a with
             | Rejects => Throws
             | Resolves tx =>
                 if falsy_string tx then Returns tt
                 else match fetchAndSaveSwapDetails env
                              (match tx with Some x => x | None => [] end) with
                      | Rejects => Throws
                      | Resolves _ => Returns tt
                      end
             end).
Proof.
  intros res. unfold res.
  split; [apply processTransaction_table|].
  split; [unfold_handlers; crunch; reflexivity|].
  split; unfold_handlers; crunch; cbn [orb]; try reflexivity;
    repeat match goal with
           | H : ?x = _ |- context [?x] => rewrite H
           end; reflexivity.
Qed.

(** X17.  A signal that is accepted and whose dispatch then settles
    leaves the counter, the dispatches in flight and the token table as
    they were before the signal, whether the dispatch returned or threw:
    nothing of a finished dispatch stays behind. *)
Theorem X17_dispatch_round_trip (cfg : Config) (evs : list Event) (env : Env)
    (a : address) :
  (0 <= MAX_CONCURRENT cfg)%Z ->
  let s := fst (run cfg initial evs) in
  (activeTransactions s < MAX_CONCURRENT cfg)%Z ->
  let s1 := fst (onTokenReceived_enter cfg s a) in
  let s2 := fst (onTokenReceived_settle cfg env s1 (dispatched s)) in
  activeTransactions s2 = activeTransactions s
  /\ pending s2 = pending s
  /\ tokens s2 = tokens s
  /\ released s2 = dispatched s :: released s.
Proof.
  intros Hcap s Hfree s1 s2.
  destruct (run_counter cfg evs initial (initial_counter cfg Hcap))
    as [_ _ _ _ _ _ Hcomplete]. fold s in Hcomplete.
  assert (Hfresh : ~ In (dispatched s) (map fst (pending s))).
  { intros Hin. assert (dispatched s < dispatched s)%nat; [|lia].
    apply Hcomplete. now left. }
  assert (Hs1 : s1 = mkSystem (tokens s) (activeTransactions s + 1)
                       ((dispatched s, a) :: pending s) (S (dispatched s))
                       (released s)).
  { unfold s1, onTokenReceived_enter.
    destruct (Z.leb_spec (MAX_CONCURRENT cfg) (activeTransactions s)); [lia|].
    reflexivity. }
  assert (Hlook : lookupPending (dispatched s) (pending s1) = Some a).
  { rewrite Hs1. unfold lookupPending. cbn [pending find fst].
    now rewrite Nat.eqb_refl. }
  assert (Htok : tokens s2 = tokens s1) by apply settle_table.
  unfold s2 in *. unfold onTokenReceived_settle in *. rewrite Hlook in *.
  cbn [fst activeTransactions pending released tokens] in *.
  rewrite Hs1 in *. cbn [activeTransactions pending released tokens] in *.
  split; [lia|]. split; [|split; [exact Htok|reflexivity]].
  unfold removePending. cbn [filter fst]. rewrite Nat.eqb_refl. cbn [negb].
  now apply (removePending_absent (dispatched s)).
Qed.

Lemma X17_dispatch_round_trip_witness :
  (0 <= MAX_CONCURRENT liveConfig)%Z
  /\ (activeTransactions (fst (run liveConfig initial [EvTokenReceived Addr1]))
      < MAX_CONCURRENT liveConfig)%Z
  /\ activeTransactions
       (fst (onTokenReceived_settle liveConfig swapsFailEnv
               (fst (onTokenReceived_enter liveConfig
                       (fst (run liveConfig initial [EvTokenReceived Addr1])) AddrX))
               (dispatched (fst (run liveConfig initial [EvTokenReceived Addr1])))))
     = activeTransactions (fst (run liveConfig initial [EvTokenReceived Addr1])).
Proof.
  assert (Hcap : (0 <= MAX_CONCURRENT liveConfig)%Z) by (vm_compute; discriminate).
  assert (Hfree : (activeTransactions
                     (fst (run liveConfig initial [EvTokenReceived Addr1]))
                   < MAX_CONCURRENT liveConfig)%Z) by (vm_compute; reflexivity).
  split; [exact Hcap|]. split; [exact Hfree|].
  exact (proj1 (X17_dispatch_round_trip liveConfig [EvTokenReceived Addr1]
                  swapsFailEnv AddrX Hcap Hfree)).
Defined.

(* ===================================================================== *)
(** * Further properties: the pool scan of getpools.ts *)
(* ===================================================================== *)

Section PoolScan.

Lemma ledgerAfter_found (pre : list GetPools.Tx) (x : GetPools.Tx)
    (rest : list GetPools.Tx) (s : jsstring) :
  NoDup (map GetPools.signature (pre ++ x :: rest)) ->
  GetPools.signature x = Some s ->
  ledgerAfter s (pre ++ x :: rest) = rest.
Proof.
  intros Hnd Hx. induction pre as [|y pre IH]; cbn [app ledgerAfter].
  - rewrite Hx. now rewrite jsstring_eqb_refl.
  - cbn [app map] in Hnd. inversion Hnd as [|? ? Hnot Hnd']; subst.
    destruct (GetPools.signature y) as [sy|] eqn:Hy; [|now apply IH].
    destruct (jsstring_eqb sy s) eqn:Heq; [|now apply IH].
    apply jsstring_eqb_eq in Heq. subst sy. exfalso. apply Hnot.
    rewrite map_app. apply in_or_app. right. left. now rewrite Hx.
Qed.

Lemma NewestFirst_app (l1 l2 : list GetPools.Tx) :
  NewestFirst (l1 ++ l2) ->
  NewestFirst l2 /\ forall x y, In x l1 -> In y l2 -> notOlder x y.
Proof.
  induction l1 as [|a l1 IH]; cbn [app NewestFirst].
  - intros H. split; [assumption|intros x y []].
  - intros [Ha H]. destruct (IH H) as [H2 Hcross]. split; [assumption|].
    intros x y [<-|Hx] Hy; [|now apply Hcross].
    apply Ha. apply in_or_app. now right.
Qed.

Lemma filter_old (c : Z) (x : GetPools.Tx) (l : list GetPools.Tx) :
  GetPools.ltNumber (GetPools.blockTime x) c = true ->
  (forall y, In y l -> notOlder x y) ->
  filter (fun tx => GetPools.geNumber (GetPools.blockTime tx) c) l = [].
Proof.
  intros Hold Hl. induction l as [|y l IH]; [reflexivity|]. cbn [filter].
  pose proof (Hl y (or_introl eq_refl)) as Hxy. unfold notOlder in Hxy.
  destruct (GetPools.blockTime x) as [a|]; [|contradiction].
  destruct (GetPools.blockTime y) as [b|]; [|contradiction].
  cbn [GetPools.ltNumber GetPools.geNumber] in *.
  apply Z.ltb_lt in Hold.
  destruct (Z.leb_spec c b); [lia|]. apply IH. intros z Hz. apply Hl. now right.
Qed.

Lemma last_firstn_split (d : GetPools.Tx) (page : list GetPools.Tx) :
  page <> [] -> page = removelast page ++ [last page d].
Proof. intros H. now apply app_removelast_last. Qed.

Lemma fetchLoop_paged (limit : nat) (ledger : list GetPools.Tx) (c : Z) :
  (1 <= limit)%nat ->
  NoDup (map GetPools.signature ledger) ->
  (forall tx, In tx ledger -> falsy_string (GetPools.signature tx) = false) ->
  forall (fuel : nat) (consumed rest : list GetPools.Tx) (n : nat)
         (before : option jsstring),
    ledger = consumed ++ rest ->
    NewestFirst rest ->
    match (if falsy_string before then None else before) with
    | None => ledger
    | Some b => ledgerAfter b ledger
    end = rest ->
    (List.length rest < fuel)%nat ->
    GetPools.fetchLoop fuel (pagingEndpoint limit ledger) c n
      (filter (fun tx => GetPools.geNumber (GetPools.blockTime tx) c) consumed) before
    = Some (Returns (filter (fun tx => GetPools.geNumber (GetPools.blockTime tx) c)
                       ledger)).
Proof.
  intros Hlimit Hnd Hsig.
  induction fuel as [|fuel IH]; intros consumed rest n before Hl Hsorted Hreq Hfuel;
    [lia|].
  cbn [GetPools.fetchLoop]. unfold pagingEndpoint at 1. rewrite Hreq.
  destruct rest as [|r rest'].
  - rewrite firstn_nil. rewrite Hl, app_nil_r. reflexivity.
  - destruct limit as [|limit']; [lia|].
    set (page := firstn (S limit') (r :: rest')).
    assert (Hpage : page = r :: firstn limit' rest') by reflexivity.
    rewrite Hpage. rewrite <- Hpage.
    set (oldest := last page r).
    assert (Hsplit : r :: rest' = page ++ skipn (S limit') (r :: rest'))
      by (symmetry; apply firstn_skipn).
    assert (Hne : page <> []) by (rewrite Hpage; discriminate).
    pose proof (last_firstn_split r page Hne) as Hlast. fold oldest in Hlast.
    destruct (GetPools.ltNumber (GetPools.blockTime oldest) c) eqn:Hold.
    + f_equal. f_equal. rewrite Hl, Hsplit, !filter_app.
      rewrite <- app_nil_r at 1. rewrite <- app_assoc. f_equal. f_equal.
      symmetry. apply (filter_old c oldest); [assumption|].
      rewrite Hsplit in Hsorted. apply NewestFirst_app in Hsorted as [_ Hcross].
      intros y Hy. apply Hcross; [|assumption]. rewrite Hlast.
      apply in_or_app. right. now left.
    + rewrite <- filter_app.
      assert (Hl' : ledger = (consumed ++ page) ++ skipn (S limit') (r :: rest'))
        by (rewrite <- app_assoc, <- Hsplit; exact Hl).
      apply (IH (consumed ++ page) (skipn (S limit') (r :: rest'))).
      * exact Hl'.
      * rewrite Hsplit in Hsorted. now apply NewestFirst_app in Hsorted as [H _].
      * assert (Hin : In oldest ledger).
        { rewrite Hl'. apply in_or_app. left. apply in_or_app. right.
          rewrite Hlast. apply in_or_app. right. now left. }
        pose proof (Hsig oldest Hin) as Hs. rewrite Hs.
        destruct (GetPools.signature oldest) as [s|] eqn:Hso; [|discriminate Hs].
        assert (Hshape : ledger = (consumed ++ removelast page)
                                  ++ oldest :: skipn (S limit') (r :: rest')).
        { rewrite Hl'. rewrite Hlast at 1. now rewrite <- !app_assoc. }
        rewrite Hshape. apply ledgerAfter_found; [now rewrite <- Hshape|assumption].
      * assert (Hlen : List.length (r :: rest')
                       = (List.length page
                          + List.length (skipn (S limit') (r :: rest')))%nat)
          by (rewrite Hsplit at 1; apply length_app).
        assert (1 <= List.length page)%nat by (rewrite Hpage; cbn; lia).
        lia.
Qed.

Lemma fetchLoop_unsigned (post : GetPools.Endpoint) (c : Z)
    (page : list GetPools.Tx) (oldest : GetPools.Tx) :
  (forall n, post n None = Resolves (Some (page ++ [oldest]))) ->
  falsy_string (GetPools.signature oldest) = true ->
  GetPools.ltNumber (GetPools.blockTime oldest) c = false ->
  forall (fuel n : nat) (txs : list GetPools.Tx) (before : option jsstring),
    falsy_string before = true ->
    GetPools.fetchLoop fuel post c n txs before = None.
Proof.
  intros Hpost Hsig Hrecent.
  induction fuel as [|fuel IH]; intros n txs before Hb; [reflexivity|].
  cbn [GetPools.fetchLoop]. rewrite Hb, Hpost.
  destruct (page ++ [oldest]) as [|d data'] eqn:Hdata;
    [now destruct page|].
  assert (Hlast : last (d :: data') d = oldest)
    by (rewrite <- Hdata; apply last_last).
  rewrite Hlast, Hrecent. now apply IH.
Qed.

Lemma fetchLoop_recent (post : GetPools.Endpoint) (c : Z) :
  forall (fuel n : nat) (txs : list GetPools.Tx) (before : option jsstring)
         (out : list GetPools.Tx),
    GetPools.fetchLoop fuel post c n txs before = Some (Returns out) ->
    exists more, out = txs ++ more
                 /\ forall tx, In tx more ->
                               GetPools.geNumber (GetPools.blockTime tx) c = true.
Proof.
  induction fuel as [|fuel IH]; intros n txs before out H; [discriminate H|].
  cbn [GetPools.fetchLoop] in H.
  destruct (post n _) as [[[|d data']|]|]; try discriminate H;
    try (injection H as <-; exists []; split; [now rewrite app_nil_r|intros ? []]).
  set (page := filter (fun tx => GetPools.geNumber (GetPools.blockTime tx) c)
                 (d :: data')) in *.
  assert (Hpage : forall tx, In tx page ->
                             GetPools.geNumber (GetPools.blockTime tx) c = true)
    by (intros tx Hin; now apply filter_In in Hin as [_ Hin]).
  destruct (GetPools.ltNumber _ c).
  - injection H as <-. exists page. now split.
  - apply IH in H as (more & -> & Hmore). exists (page ++ more).
    split; [now rewrite app_assoc|].
    intros tx Hin. apply in_app_or in Hin as [Hin|Hin]; [now apply Hpage|now apply Hmore].
Qed.

End PoolScan.

(** X18.  Against an endpoint that pages through a ledger listing its
    transactions newest first, each under a signature of its own,
    [fetchRecentRaydiumTxs] ends after at most one request per
    transaction and one more, and returns exactly the transactions of the
    ledger whose block time lies in the five-hour window, in the order of
    the ledger. *)
Theorem X18_fetchRecentRaydiumTxs_paged (limit : nat) (ledger : list GetPools.Tx)
    (dateNow : Z) (fuel : nat) :
  (1 <= limit)%nat ->
  NewestFirst ledger ->
  NoDup (map GetPools.signature ledger) ->
  (forall tx, In tx ledger -> falsy_string (GetPools.signature tx) = false) ->
  (List.length ledger < fuel)%nat ->
  GetPools.fetchRecentRaydiumTxs fuel (pagingEndpoint limit ledger) dateNow
  = Some (Returns (filter (inWindow dateNow) ledger)).
Proof.
  intros Hlimit Hsorted Hnd Hsig Hfuel. unfold GetPools.fetchRecentRaydiumTxs.
  exact (fetchLoop_paged limit ledger (GetPools.getFiveHoursAgo dateNow)
           Hlimit Hnd Hsig fuel [] ledger 0%nat None eq_refl Hsorted eq_refl Hfuel).
Qed.

Lemma X18_fetchRecentRaydiumTxs_paged_witness :
  GetPools.fetchRecentRaydiumTxs 4 (pagingEndpoint 2 ledger3) clock3
  = Some (Returns (filter (inWindow clock3) ledger3))
  /\ filter (inWindow clock3) ledger3 = firstn 2 ledger3.
Proof.
  split; [|vm_compute; reflexivity].
  apply (X18_fetchRecentRaydiumTxs_paged 2 ledger3 clock3 4).
  - lia.
  - cbn. repeat split; intros y Hy; cbn in Hy;
      repeat (destruct Hy as [<-|Hy]; [cbn; lia|]); destruct Hy.
  - cbn. repeat constructor; cbn; intuition discriminate.
  - intros tx Hin. cbn in Hin.
    repeat (destruct Hin as [<-|Hin]; [reflexivity|]). destruct Hin.
  - cbn. lia.
Defined.

(** X19.  When the last transaction of the first page is not older than
    the five-hour window (its block time lies in it, or is missing) and
    carries no signature or an empty one, the next request asks for the
    first page again: if the endpoint keeps answering it with that page,
    the loop of [fetchRecentRaydiumTxs] never ends. *)
Theorem X19_fetchRecentRaydiumTxs_unsigned (post : GetPools.Endpoint) (dateNow : Z)
    (page : list GetPools.Tx) (oldest : GetPools.Tx) :
  (forall n, post n None = Resolves (Some (page ++ [oldest]))) ->
  falsy_string (GetPools.signature oldest) = true ->
  GetPools.ltNumber (GetPools.blockTime oldest) (GetPools.getFiveHoursAgo dateNow)
  = false ->
  forall fuel, GetPools.fetchRecentRaydiumTxs fuel post dateNow = None.
Proof.
  intros Hpost Hsig Hrecent fuel. unfold GetPools.fetchRecentRaydiumTxs.
  now apply (fetchLoop_unsigned post _ page oldest).
Qed.

Lemma X19_fetchRecentRaydiumTxs_unsigned_witness :
  GetPools.fetchRecentRaydiumTxs 1000 unsignedEndpoint clock3 = None.
Proof.
  refine (X19_fetchRecentRaydiumTxs_unsigned unsignedEndpoint clock3
            [GetPools.mkTx (Some 1000%Z) (Some (lit "s1")) None]
            (GetPools.mkTx (Some 900%Z) None None) _ _ _ 1000%nat).
  - intros n. reflexivity.
  - reflexivity.
  - vm_compute. reflexivity.
Defined.

(** X20.  Whatever the endpoint answers, every transaction that
    [fetchRecentRaydiumTxs] returns carries a block time, and that time is
    less than five hours and one second before the clock reading of the
    start of the run. *)
Theorem X20_fetchRecentRaydiumTxs_window (post : GetPools.Endpoint) (dateNow : Z)
    (fuel : nat) (txs : list GetPools.Tx) :
  GetPools.fetchRecentRaydiumTxs fuel post dateNow = Some (Returns txs) ->
  forall tx, In tx txs ->
             exists b, GetPools.blockTime tx = Some b
                       /\ (dateNow - 18001000 < 1000 * b)%Z.
Proof.
  unfold GetPools.fetchRecentRaydiumTxs. intros H tx Hin.
  apply fetchLoop_recent in H as (more & -> & Hmore). cbn [app] in Hin.
  specialize (Hmore tx Hin). unfold GetPools.geNumber in Hmore.
  destruct (GetPools.blockTime tx) as [b|]; [|discriminate Hmore].
  exists b. split; [reflexivity|]. apply Z.leb_le in Hmore.
  unfold GetPools.getFiveHoursAgo in Hmore.
  pose proof (Z.mul_succ_div_gt dateNow 1000 ltac:(lia)). lia.
Qed.

Lemma X20_fetchRecentRaydiumTxs_window_witness :
  GetPools.fetchRecentRaydiumTxs 4 (pagingEndpoint 2 ledger3) clock3
  = Some (Returns (firstn 2 ledger3))
  /\ exists b, GetPools.blockTime (GetPools.mkTx (Some 900%Z) (Some (lit "s2")) None)
               = Some b
               /\ (clock3 - 18001000 < 1000 * b)%Z.
Proof.
  assert (H : GetPools.fetchRecentRaydiumTxs 4 (pagingEndpoint 2 ledger3) clock3
              = Some (Returns (firstn 2 ledger3))) by (vm_compute; reflexivity).
  split; [exact H|].
  apply (X20_fetchRecentRaydiumTxs_window (pagingEndpoint 2 ledger3) clock3 4
           (firstn 2 ledger3) H).
  cbn. right. now left.
Defined.

(* ===================================================================== *)
(** * Further properties: the message handler of the websocket *)
(* ===================================================================== *)

Section Includes.

Lemma startsWith_app (p s : jsstring) : startsWith (p ++ s) p = true.
Proof.
  induction p as [|c p IH]; [now destruct s|]. cbn. now rewrite N.eqb_refl.
Qed.

Lemma startsWith_inv (s p : jsstring) :
  startsWith s p = true -> exists post, s = p ++ post.
Proof.
  revert s. induction p as [|c p IH]; intros s H; [now exists s|].
  destruct s as [|d s]; [discriminate H|]. cbn in H.
  apply andb_true_iff in H as [Hc Hs]. apply N.eqb_eq in Hc. subst d.
  destruct (IH s Hs) as [post ->]. now exists post.
Qed.

Lemma includes_unfold (s p : jsstring) :
  includes s p
  = startsWith s p || match s with [] => false | _ :: s' => includes s' p end.
Proof. now destruct s. Qed.

Lemma includes_spec (s p : jsstring) :
  includes s p = true <-> exists pre post, s = pre ++ p ++ post.
Proof.
  split.
  - induction s as [|c s IH]; rewrite includes_unfold; intros H;
      apply orb_true_iff in H as [H|H].
    + apply startsWith_inv in H as [post ->]. now exists [], post.
    + discriminate H.
    + apply startsWith_inv in H as [post ->]. now exists [], post.
    + destruct (IH H) as (pre & post & ->). now exists (c :: pre), post.
  - intros (pre & post & ->). induction pre as [|c pre IH]; rewrite includes_unfold.
    + cbn [app]. now rewrite startsWith_app.
    + cbn [app]. rewrite IH. apply orb_true_r.
Qed.

End Includes.

Section WebsocketFacts.

Variable env : Env.
Variable fetchTransactionDetails : jsstring -> Ext (option TxDetails).
Variable tokenMonitorInstance : bool.

Lemma containsCreate_spec (items : list json) :
  WebsocketHandler.containsCreate items = true
  <-> exists log pre post,
        In (JString log) items /\ log = pre ++ WebsocketHandler.poolCreationLog ++ post.
Proof.
  unfold WebsocketHandler.containsCreate. rewrite existsb_exists. split.
  - intros (x & Hin & Hx). apply andb_true_iff in Hx as [Hs Hinc].
    destruct x as [| | |s| |]; try discriminate Hs. cbn [codeUnits] in Hinc.
    apply includes_spec in Hinc as (pre & post & ->).
    now exists (pre ++ WebsocketHandler.poolCreationLog ++ post), pre, post.
  - intros (log & pre & post & Hin & ->). exists (JString (pre ++ WebsocketHandler.poolCreationLog ++ post)).
    split; [assumption|]. cbn [isString codeUnits andb].
    apply includes_spec. now exists pre, post.
Qed.

Lemma notice_unique (data : option json) (sig sig' : jsstring) :
  PoolCreationNotice data sig -> PoolCreationNotice data sig' -> sig = sig'.
Proof.
  intros (f & p & r & v & i & l & a & b & Hd & _ & _ & Hp & Hr & Hv & _ & Hs & _)
         (f' & p' & r' & v' & i' & l' & a' & b' & Hd' & _ & _ & Hp' & Hr' & Hv' & _ & Hs' & _).
  congruence.
Qed.

Lemma onMessage_passed (sig : jsstring) (t : Table) :
  (emit (Log LInfo "New pool creation detected with signature" (Some sig)) ;;
   tryCatch
     (txDetails <- await (fetchTransactionDetails sig) ;;
      match txDetails with
      | None => emit (Log LError "Failed to fetch transaction details" None)
      | Some d =>
          emit (Log LInfo "Found new token mint" (mint d)) ;;
          if tokenMonitorInstance
          then TokenMonitorService.handleNewTokenFromWebsocket env (Some d)
          else ret tt
      end)
     (emit (Log LError "Error fetching transaction details:" None))) t
  = handled env fetchTransactionDetails tokenMonitorInstance sig t.
Proof.
  unfold handled.
  destruct (fetchTransactionDetails sig) as [[d|]|]; msimpl; try reflexivity.
  destruct tokenMonitorInstance; msimpl; [|reflexivity].
  pose proof (handleNew_returns env (Some d) t) as Hret.
  destruct (TokenMonitorService.handleNewTokenFromWebsocket env (Some d) t)
    as [[r t1] e1].
  cbn in Hret. subst r. reflexivity.
Qed.

Lemma onMessage_notice (data : option json) (sig : jsstring) (t : Table) :
  PoolCreationNotice data sig ->
  WebsocketHandler.onMessage env fetchTransactionDetails tokenMonitorInstance data t
  = handled env fetchTransactionDetails tokenMonitorInstance sig t.
Proof.
  intros (f & p & r & v & items & log & pre & post
          & -> & Hres & Herr & Hp & Hr & Hv & Hlogs & Hsig & Hne & Hin & Hlog).
  assert (Hcreate : WebsocketHandler.containsCreate items = true)
    by (apply containsCreate_spec; now exists log, pre, post).
  assert (Htruthy : truthy (Some (JString sig)) = true)
    by (destruct sig; [contradiction|reflexivity]).
  unfold WebsocketHandler.onMessage. cbn [prop].
  rewrite Hres, Herr, Hp. cbn [isDefined andb optProp prop].
  rewrite Hr. cbn [optProp prop]. rewrite Hv. cbn [optProp prop].
  rewrite Hlogs, Hsig, Htruthy. cbn [isArray elements isString codeUnits negb orb].
  rewrite Hcreate. cbn [negb orb].
  unfold tryCatch at 1. rewrite onMessage_passed.
  unfold handled.
  destruct (fetchTransactionDetails sig) as [[d|]|]; try reflexivity.
  now destruct tokenMonitorInstance.
Qed.

Lemma onMessage_cases (data : option json) (t : Table) :
  (exists sig, PoolCreationNotice data sig)
  \/ Dropped (WebsocketHandler.onMessage env fetchTransactionDetails
                tokenMonitorInstance data t) t.
Proof.
  assert (Hquiet : Dropped (Returns tt, t, []) t)
    by (repeat split; now left).
  assert (Hlog : forall lvl line, Dropped (Returns tt, t, [Log lvl line None]) t)
    by (intros lvl line; repeat split; right; now exists lvl, line).
  unfold WebsocketHandler.onMessage.
  destruct data as [[|b|n|s|items|f]|]; try (right; msimpl; now auto).
  cbn [prop].
  destruct (own f "result") as [res|] eqn:Hres; cbn [isDefined andb];
    destruct (truthy (own f "error")) eqn:Herr; cbn [negb];
    try (right; msimpl; now auto).
  destruct (own f "params") as [[| | | | |p]|] eqn:Hp; cbn [optProp prop];
    try (right; msimpl; now auto).
  destruct (own p "result") as [[| | | | |r]|] eqn:Hr; cbn [optProp prop];
    try (right; msimpl; now auto).
  destruct (own r "value") as [[| | | | |v]|] eqn:Hv; cbn [optProp prop];
    try (right; msimpl; now auto).
  destruct (own v "logs") as [[| | | |items|]|] eqn:Hlogs; cbn [isArray negb orb];
    try (right; msimpl; now auto).
  destruct (truthy (own v "signature")) eqn:Htruthy; cbn [negb];
    try (right; msimpl; now auto).
  cbn [elements].
  destruct (WebsocketHandler.containsCreate items) eqn:Hcreate; cbn [negb orb];
    try (right; msimpl; now auto).
  destruct (own v "signature") as [[| | |sig| |]|] eqn:Hsig; cbn [isString negb];
    try (right; msimpl; now auto).
  left. exists sig. apply containsCreate_spec in Hcreate as (log & pre & post & Hin & Hl).
  exists f, p, r, v, items, log, pre, post.
  repeat split; try assumption; try reflexivity.
  intros ->. discriminate Htruthy.
Qed.

Lemma handleNew_no_swaps (d : option TxDetails) (t : Table) :
  swapsOf (effectsOf (TokenMonitorService.handleNewTokenFromWebsocket env d t)) = [].
Proof. unfold_handlers. crunch; reflexivity. Qed.

End WebsocketFacts.

(** X21.  The listener of the websocket messages never throws and never
    dispatches a swap.  A notification of a pool creation whose
    transaction details are found is handed to the monitor, and the table
    and the writes are those of [handleNewTokenFromWebsocket] for these
    details.  Every other message is dropped: whenever the listener
    changes the table or runs a statement, the message was such a
    notification, its details were found and the monitor was installed;
    acknowledgements, errors of the node, texts that do not parse and
    notifications without the marker, or without a non-empty string
    signature, touch nothing. *)
Theorem X21_websocket_message (env : Env)
    (fetchTransactionDetails : jsstring -> Ext (option TxDetails))
    (tokenMonitorInstance : bool) (data : option json) (t : Table) :
  let res := WebsocketHandler.onMessage env fetchTransactionDetails
               tokenMonitorInstance data t in
  resultOf res = Returns tt
  /\ swapsOf (effectsOf res) = []
  /\ (forall sig d,
        PoolCreationNotice data sig ->
        fetchTransactionDetails sig = Resolves (Some d) ->
        tokenMonitorInstance = true ->
        tableOf res
        = tableOf (TokenMonitorService.handleNewTokenFromWebsocket env (Some d) t)
        /\ writesOf (effectsOf res)
           = writesOf (effectsOf (TokenMonitorService.handleNewTokenFromWebsocket
                                    env (Some d) t)))
  /\ ((tableOf res <> t \/ exists c, In (Sql c) (effectsOf res)) ->
      exists sig d,
        PoolCreationNotice data sig
        /\ fetchTransactionDetails sig = Resolves (Some d)
        /\ tokenMonitorInstance = true).
Proof.
  intros res. unfold res.
  destruct (onMessage_cases env fetchTransactionDetails tokenMonitorInstance data t)
    as [[sig Hn]|(Hr & Ht & He)].
  - rewrite (onMessage_notice env _ _ data sig t Hn). unfold handled.
    split; [|split; [|split]].
    + destruct (fetchTransactionDetails sig) as [[d|]|]; try reflexivity.
      now destruct tokenMonitorInstance.
    + destruct (fetchTransactionDetails sig) as [[d|]|]; try reflexivity.
      destruct tokenMonitorInstance; [|reflexivity].
      cbn [effectsOf snd swapsOf flat_map app]. apply handleNew_no_swaps.
    + intros sig' d Hn' Hf ->. rewrite <- (notice_unique data sig sig' Hn Hn') in Hf.
      rewrite Hf. split; reflexivity.
    + intros Hchange.
      destruct (fetchTransactionDetails sig) as [[d|]|] eqn:Hf.
      * destruct tokenMonitorInstance; [now exists sig, d|].
        cbn in Hchange. destruct Hchange as [Hc|[c [Hc|[Hc|[]]]]];
          [now elim Hc|discriminate Hc|discriminate Hc].
      * cbn in Hchange. destruct Hchange as [Hc|[c [Hc|[Hc|[]]]]];
          [now elim Hc|discriminate Hc|discriminate Hc].
      * cbn in Hchange. destruct Hchange as [Hc|[c [Hc|[Hc|[]]]]];
          [now elim Hc|discriminate Hc|discriminate Hc].
  - split; [assumption|]. split; [|split].
    + destruct He as [->|(lvl & line & ->)]; reflexivity.
    + intros sig d Hn Hf ->.
      rewrite (onMessage_notice env _ _ data sig t Hn). unfold handled.
      rewrite Hf. split; reflexivity.
    + intros [Hc|[c Hc]]; [now elim Hc|].
      destruct He as [He|(lvl & line & He)]; rewrite He in Hc;
        [destruct Hc|destruct Hc as [Hc|[]]; discriminate Hc].
Qed.

Lemma X21_websocket_message_witness :
  PoolCreationNotice (Some (poolNotice (lit "sig1"))) (lit "sig1")
  /\ tableOf (WebsocketHandler.onMessage (priced 2) fetchesX true
                (Some (poolNotice (lit "sig1"))) [row1])
     = [row1; mkToken AddrX 0 2 0 active]
  /\ tableOf (WebsocketHandler.onMessage (priced 2) fetchesX true
                (Some subscriptionAck) [row1])
     = [row1].
Proof.
  assert (Hn : PoolCreationNotice (Some (poolNotice (lit "sig1"))) (lit "sig1")).
  { eexists _, _, _, _, _, _, [], (lit " { nonce: 254 }").
    split; [reflexivity|]. split; [reflexivity|]. split; [reflexivity|].
    split; [reflexivity|]. split; [reflexivity|]. split; [reflexivity|].
    split; [reflexivity|]. split; [reflexivity|]. split; [discriminate|].
    split; [right; left; reflexivity|reflexivity]. }
  split; [exact Hn|]. split.
  - rewrite (proj1 (proj1 (proj2 (proj2 (X21_websocket_message (priced 2) fetchesX true
                                           (Some (poolNotice (lit "sig1"))) [row1])))
                      (lit "sig1") (mkTxDetails (Some AddrX)) Hn eq_refl eq_refl)).
    vm_compute. reflexivity.
  - vm_compute. reflexivity.
Defined.

(* ===================================================================== *)
(** * Further properties: where the trades come from *)
(* ===================================================================== *)

Section Provenance.

Variable cfg : Config.

Lemma buyCorrect_swaps (env : Env) (X : address) (t : Table)
    (s : option address * address) :
  In s (swapsOf (effectsOf (TokenMonitorService.buyCorrect env X t))) ->
  s = (None, X)
  /\ DatabaseService.selectToken X t = None
  /\ exists q, observedPrice env X = Some q.
Proof.
  unfold_handlers. crunch; cbn; intros Hin; try tauto;
    destruct Hin as [<-|[]];
    (split; [reflexivity|]); (split; [reflexivity|]); eexists; reflexivity.
Qed.

Lemma setCorrectToken_swaps (env : Env) (X : address) (t : Table)
    (s : option address * address) :
  UniqueKeys t ->
  In s (swapsOf (effectsOf (TokenMonitorService.setCorrectToken cfg env X t))) ->
  (exists r, s = (Some (tokenAddress r), wsol_pc_mint cfg)
             /\ tokenAddress r <> X
             /\ DatabaseService.selectToken (tokenAddress r) t = Some r
             /\ status r = active)
  \/ (s = (None, X)
      /\ DatabaseService.selectToken X t = None
      /\ exists q, observedPrice env X = Some q).
Proof.
  intros Hu Hin. destruct (dbThrows env SqlSelectActive) eqn:Hdb.
  - rewrite (setCorrectToken_fault cfg env X t Hdb) in Hin. destruct Hin.
  - rewrite (setCorrectToken_unfold cfg env X t Hdb) in Hin.
    cbn [effectsOf snd swapsOf flat_map app] in Hin.
    change (flat_map _ ?es) with (swapsOf es) in Hin.
    rewrite swapsOf_app in Hin. apply in_app_or in Hin as [Hin|Hin].
    + left. rewrite sweep_sells in Hin. apply in_map_iff in Hin as (r & <- & Hr).
      apply filter_In in Hr as [Hact Hne]. exists r.
      destruct (active_In t r Hu Hact) as [Hsel Hst].
      split; [reflexivity|]. split; [|now split].
      apply negb_true_iff in Hne. now apply jsstring_eqb_neq in Hne.
    + right. apply buyCorrect_swaps in Hin as (-> & Hsel & Hq).
      split; [reflexivity|]. split; [|assumption].
      apply select_None. apply select_None in Hsel.
      rewrite <- (Marked_keys t _ (forOf_marked
                                     (TokenMonitorService.sellIncorrect cfg env X)
                                     (sellIncorrect_returns cfg env X)
                                     (DatabaseService.selectActive t) t
                                     (sellIncorrect_marked cfg env X))).
      exact Hsel.
Qed.

Lemma tick_swaps_In (env : Env) (t : Table) (s : option address * address) :
  UniqueKeys t ->
  In s (swapsOf (effectsOf (TokenMonitorService.monitoringTick env t))) ->
  exists r cur,
    s = (None, tokenAddress r)
    /\ DatabaseService.selectToken (tokenAddress r) t = Some r
    /\ status r = active
    /\ observedPrice env (tokenAddress r) = Some cur
    /\ TokenMonitorService.thresholdMet cur (price r) = true.
Proof.
  intros Hu Hin. rewrite tick_swaps in Hin.
  destruct (dbThrows env SqlSelectActive); [destruct Hin|].
  apply in_map_iff in Hin as (r & <- & Hr). apply filter_In in Hr as [Hact Hbuy].
  destruct (active_In t r Hu Hact) as [Hsel Hst].
  unfold buyTriggered in Hbuy.
  destruct (observedPrice env (tokenAddress r)) as [cur|] eqn:Hobs;
    [|discriminate Hbuy].
  apply andb_true_iff in Hbuy as [_ Hth]. now exists r, cur.
Qed.

Lemma settle_swaps (env : Env) (s : System) (id : nat) :
  swapsOf (snd (onTokenReceived_settle cfg env s id))
  = match lookupPending id (pending s) with
    | Some a => if falsy_string (Some a) || simulation_mode cfg then [] else [(None, a)]
    | None => []
    end.
Proof.
  unfold onTokenReceived_settle.
  destruct (lookupPending id (pending s)) as [a|]; [|reflexivity].
  cbn [snd]. unfold_handlers. crunch; reflexivity.
Qed.

Lemma cleanup_effects (env : Env) (t : Table) :
  swapsOf (effectsOf (TokenMonitorService.cleanupTick env t)) = [].
Proof. unfold_handlers. crunch; reflexivity. Qed.

Lemma enter_effects (s : System) (a : address) :
  swapsOf (snd (onTokenReceived_enter cfg s a)) = []
  /\ sqlOf (snd (onTokenReceived_enter cfg s a)) = [].
Proof. unfold onTokenReceived_enter. now destruct (_ <=? _)%Z. Qed.

Lemma outage_handleNew (env : Env) (d : option TxDetails) (t : Table) :
  (forall c, dbThrows env c = true) ->
  tableOf (TokenMonitorService.handleNewTokenFromWebsocket env d t) = t
  /\ sqlOf (effectsOf (TokenMonitorService.handleNewTokenFromWebsocket env d t)) = [].
Proof.
  intros Hdb. unfold_handlers. destruct d as [d|]; [|now split].
  destruct (falsy_string (mint d)); [now split|]. msimpl. rewrite Hdb. now split.
Qed.

Lemma outage_setCorrectToken (env : Env) (X : address) (t : Table) :
  (forall c, dbThrows env c = true) ->
  TokenMonitorService.setCorrectToken cfg env X t
  = (Throws, t, [Log LInfo "Setting correct token" (Some X);
                 Log LError "Failed to get active tokens" None]).
Proof. intros Hdb. now apply setCorrectToken_fault. Qed.

Lemma outage_cleanup (env : Env) (t : Table) :
  (forall c, dbThrows env c = true) ->
  tableOf (TokenMonitorService.cleanupTick env t) = t
  /\ sqlOf (effectsOf (TokenMonitorService.cleanupTick env t)) = [].
Proof. intros Hdb. unfold_handlers. msimpl. rewrite Hdb. now split. Qed.

Lemma settle_sql (env : Env) (s : System) (id : nat) :
  sqlOf (snd (onTokenReceived_settle cfg env s id)) = [].
Proof.
  unfold onTokenReceived_settle.
  destruct (lookupPending id (pending s)) as [a|]; [|reflexivity].
  cbn [snd]. unfold_handlers. crunch; reflexivity.
Qed.

End Provenance.

(** X22.  Every swap the process dispatches has one of four origins.  A
    sell is made by the sweep of a correct-token designation, of a token
    that is active and is not the designated one, for the wrapped-SOL
    mint.  A buy is the threshold buy of a monitoring tick, of a token
    that is active and whose observed price is above the threshold; or
    the buy of the designated token, which has no record; or the buy of a
    signalled token by a dispatch that settles, outside simulation mode.
    Discoveries, cleanups and the acceptance of a signal dispatch
    nothing. *)
Theorem X22_swap_provenance (cfg : Config) (s : System) (ev : Event)
    (solMint : option address) (tokenMint : address) :
  UniqueKeys (tokens s) ->
  In (solMint, tokenMint) (swapsOf (snd (step cfg s ev))) ->
  match solMint with
  | Some a =>
      tokenMint = wsol_pc_mint cfg
      /\ exists env X r,
           ev = EvCorrectToken env X /\ a <> X
           /\ DatabaseService.selectToken a (tokens s) = Some r
           /\ status r = active
  | None =>
      (exists env r cur,
          ev = EvMonitoringTick env
          /\ DatabaseService.selectToken tokenMint (tokens s) = Some r
          /\ status r = active
          /\ observedPrice env tokenMint = Some cur
          /\ TokenMonitorService.thresholdMet cur (price r) = true)
      \/ (exists env q,
             ev = EvCorrectToken env tokenMint
             /\ DatabaseService.selectToken tokenMint (tokens s) = None
             /\ observedPrice env tokenMint = Some q)
      \/ (exists env id,
             ev = EvSettled env id
             /\ lookupPending id (pending s) = Some tokenMint
             /\ tokenMint <> []
             /\ simulation_mode cfg = false)
  end.
Proof.
  intros Hu Hin.
  destruct ev as [env d|env|env|env X|a|env id]; cbn [step lift snd] in Hin.
  - rewrite handleNew_no_swaps in Hin. destruct Hin.
  - apply (tick_swaps_In env _ _ Hu) in Hin
      as (r & cur & [= -> ->] & Hsel & Hst & Hobs & Hth).
    left. now exists env, r, cur.
  - rewrite cleanup_effects in Hin. destruct Hin.
  - apply (setCorrectToken_swaps cfg env X _ _ Hu) in Hin
      as [(r & [= -> ->] & Hne & Hsel & Hst)|([= -> ->] & Hsel & q & Hq)].
    + split; [reflexivity|]. now exists env, X, r.
    + right. left. now exists env, q.
  - rewrite (proj1 (enter_effects cfg s a)) in Hin. destruct Hin.
  - rewrite settle_swaps in Hin.
    destruct (lookupPending id (pending s)) as [a|] eqn:Hlook; [|destruct Hin].
    destruct (falsy_string (Some a)) eqn:Hfalsy; [destruct Hin|].
    destruct (simulation_mode cfg) eqn:Hsim; [destruct Hin|].
    destruct Hin as [[= <- <-]|[]]. right. right. exists env, id.
    split; [reflexivity|]. split; [assumption|]. split; [|reflexivity].
    intros ->. discriminate Hfalsy.
Qed.

Lemma X22_swap_provenance_witness :
  UniqueKeys [row1; rowY]
  /\ In (Some Addr1, wsol)
       (swapsOf (snd (step liveConfig (mkSystem [row1; rowY] 0 [] 0 [])
                        (EvCorrectToken (priced 2) AddrY))))
  /\ (wsol = wsol_pc_mint liveConfig
      /\ exists env X r,
           EvCorrectToken (priced 2) AddrY = EvCorrectToken env X /\ Addr1 <> X
           /\ DatabaseService.selectToken Addr1 [row1; rowY] = Some r
           /\ status r = active).
Proof.
  assert (Hu : UniqueKeys [row1; rowY]).
  { vm_compute. constructor; [intros [H|[]]; discriminate H|].
    constructor; [intros []|constructor]. }
  assert (Hin : In (Some Addr1, wsol)
                  (swapsOf (snd (step liveConfig (mkSystem [row1; rowY] 0 [] 0 [])
                                   (EvCorrectToken (priced 2) AddrY)))))
    by (vm_compute; left; reflexivity).
  split; [exact Hu|]. split; [exact Hin|].
  exact (X22_swap_provenance liveConfig (mkSystem [row1; rowY] 0 [] 0 [])
           (EvCorrectToken (priced 2) AddrY) (Some Addr1) wsol Hu Hin).
Defined.

(** X23.  While the driver rejects every statement, as it does when the
    database was never opened, the monitor is inert: no callback changes
    the table or gets a statement through, no discovery is enrolled, no
    tick buys, a designation sells and buys nothing and rejects.  The
    only swaps left are the buys of signalled tokens by the dispatcher,
    which does not use the database. *)
Theorem X23_database_outage (cfg : Config) (s : System) (ev : Event) :
  (forall env, envOf ev = Some env -> forall c, dbThrows env c = true) ->
  tokens (fst (step cfg s ev)) = tokens s
  /\ sqlOf (snd (step cfg s ev)) = []
  /\ (isSettlement ev = false -> swapsOf (snd (step cfg s ev)) = [])
  /\ (forall env X, ev = EvCorrectToken env X ->
        resultOf (TokenMonitorService.setCorrectToken cfg env X (tokens s)) = Throws).
Proof.
  intros Hdb.
  destruct ev as [env d|env|env|env X|a|env id]; cbn [step lift fst snd tokens];
    try specialize (Hdb env eq_refl).
  - destruct (outage_handleNew env d (tokens s) Hdb) as [Ht Hs].
    split; [assumption|]. split; [assumption|].
    split; [intros _; apply handleNew_no_swaps|intros ? ? H; discriminate H].
  - rewrite (tick_fault env (tokens s) (Hdb _)).
    split; [reflexivity|]. split; [reflexivity|].
    split; [reflexivity|intros ? ? H; discriminate H].
  - destruct (outage_cleanup env (tokens s) Hdb) as [Ht Hs].
    split; [assumption|]. split; [assumption|].
    split; [intros _; apply cleanup_effects|intros ? ? H; discriminate H].
  - rewrite (outage_setCorrectToken cfg env X (tokens s) Hdb).
    split; [reflexivity|]. split; [reflexivity|]. split; [reflexivity|].
    intros env' X' [= <- <-].
    now rewrite (outage_setCorrectToken cfg env X (tokens s) Hdb).
  - destruct (enter_effects cfg s a) as [Hsw Hsql].
    split; [unfold onTokenReceived_enter; now destruct (_ <=? _)%Z|].
    split; [assumption|]. split; [intros _; assumption|intros ? ? H; discriminate H].
  - split; [apply settle_table|]. split; [apply settle_sql|].
    split; [intros H; discriminate H|intros ? ? H; discriminate H].
Qed.

Lemma X23_database_outage_witness :
  (forall env, envOf (EvMonitoringTick noDatabaseEnv) = Some env ->
               forall c, dbThrows env c = true)
  /\ tokens (fst (step liveConfig (mkSystem [row1; rowY] 0 [] 0 [])
                    (EvMonitoringTick noDatabaseEnv)))
     = [row1; rowY]
  /\ swapsOf (snd (step liveConfig (mkSystem [row1; rowY] 0 [] 0 [])
                     (EvMonitoringTick noDatabaseEnv)))
     = [].
Proof.
  assert (H : forall env, envOf (EvMonitoringTick noDatabaseEnv) = Some env ->
                          forall c, dbThrows env c = true)
    by (intros env [= <-] c; reflexivity).
  split; [exact H|].
  destruct (X23_database_outage liveConfig (mkSystem [row1; rowY] 0 [] 0 [])
              (EvMonitoringTick noDatabaseEnv) H) as (Ht & _ & Hsw & _).
  split; [exact Ht|exact (Hsw eq_refl)].
Defined.

(* ===================================================================== *)
(** * Further properties: which text the extractors return *)
(* ===================================================================== *)

Section Runs.

Lemma greedyClass_stops (n : nat) (pre s : jsstring) :
  pre <> [] -> endsOutsideClass pre = true ->
  greedyClass n (pre ++ s) = greedyClass n pre.
Proof.
  revert n. induction pre as [|c pre IH]; intros n Hne Hend; [contradiction|].
  destruct n as [|n]; [reflexivity|]. cbn [app greedyClass].
  destruct pre as [|c' pre].
  - cbn [endsOutsideClass] in Hend. apply negb_true_iff in Hend. now rewrite Hend.
  - destruct (isBase58 c); [|reflexivity]. f_equal. apply IH; [discriminate|].
    exact Hend.
Qed.

Lemma greedyClass_run (n : nat) (w post : jsstring) :
  forallb isBase58 w = true -> startsOutsideClass post = true ->
  greedyClass n (w ++ post) = firstn n w.
Proof.
  intros Hw Hpost. revert n. induction w as [|c w IH]; intros n.
  - cbn [app]. rewrite firstn_nil. destruct n as [|n]; [now destruct post|].
    destruct post as [|d post]; [reflexivity|]. cbn [greedyClass].
    cbn [startsOutsideClass] in Hpost. apply negb_true_iff in Hpost.
    now rewrite Hpost.
  - cbn [forallb] in Hw. apply andb_prop in Hw as [Hc Hw].
    destruct n as [|n]; [reflexivity|]. cbn [app greedyClass firstn].
    rewrite Hc. f_equal. now apply IH.
Qed.

Lemma endsOutsideClass_tail (c : N) (s : jsstring) :
  endsOutsideClass (c :: s) = true -> endsOutsideClass s = true.
Proof. destruct s; [reflexivity|exact (fun H => H)]. Qed.

Lemma addressPattern_match_skip (pre s : jsstring) :
  endsOutsideClass pre = true ->
  addressPattern_match pre = None ->
  addressPattern_match (pre ++ s) = addressPattern_match s.
Proof.
  induction pre as [|c pre IH]; intros Hend Hnone; [reflexivity|].
  cbn [app addressPattern_match] in *.
  change (c :: pre ++ s) with ((c :: pre) ++ s).
  rewrite greedyClass_stops by (discriminate || assumption).
  destruct (32 <=? List.length (greedyClass 44 (c :: pre)))%nat; [discriminate Hnone|].
  apply IH; [now apply endsOutsideClass_tail in Hend|assumption].
Qed.

Lemma split_head (sep : N) (s l : jsstring) (ls : list jsstring) :
  split sep s = l :: ls -> exists post, s = l ++ post.
Proof.
  revert l ls. induction s as [|c s IH]; intros l ls H; cbn [split] in H.
  - injection H as <- <-. now exists [].
  - destruct (c =? sep)%N.
    + injection H as <- <-. now exists (c :: s).
    + destruct (split sep s) as [|l0 ls0] eqn:Hs.
      * injection H as <- <-. destruct s as [|d s]; [now exists []|].
        cbn [split] in Hs. destruct (d =? sep)%N; [discriminate Hs|].
        now destruct (split sep s).
      * injection H as <- <-. destruct (IH l0 ls0 eq_refl) as [post ->].
        now exists post.
Qed.

Lemma split_In (sep : N) (s l : jsstring) :
  In l (split sep s) -> exists pre post, s = pre ++ l ++ post.
Proof.
  revert l. induction s as [|c s IH]; intros l H; cbn [split] in H.
  - destruct H as [<-|[]]. now exists [], [].
  - destruct (c =? sep)%N.
    + destruct H as [<-|H]; [now exists [], (c :: s)|].
      destruct (IH l H) as (pre & post & ->). now exists (c :: pre), post.
    + destruct (split sep s) as [|l0 ls0] eqn:Hs.
      * destruct H as [<-|[]]. now exists [], s.
      * destruct H as [<-|H].
        -- destruct (split_head sep s l0 ls0 Hs) as [post ->]. now exists [], post.
        -- destruct (IH l (or_intror H)) as (pre & post & ->).
           now exists (c :: pre), post.
Qed.

Lemma dropWhile_suffix (p : N -> bool) (s : jsstring) :
  exists pre, s = pre ++ dropWhile p s.
Proof.
  induction s as [|c s [pre IH]]; [now exists []|]. cbn [dropWhile].
  destruct (p c); [|now exists []]. exists (c :: pre). cbn [app]. now f_equal.
Qed.

Lemma trim_substring (s : jsstring) : exists pre post, s = pre ++ trim s ++ post.
Proof.
  unfold trim, trimEnd, trimStart.
  destruct (dropWhile_suffix isWhiteSpace s) as [pre Hpre].
  destruct (dropWhile_suffix isWhiteSpace (rev (dropWhile isWhiteSpace s)))
    as [post Hpost].
  exists pre, (rev post). rewrite Hpre at 1. f_equal.
  rewrite <- rev_app_distr, <- Hpost. now rewrite rev_involutive.
Qed.

Lemma firstMatchingLine_In (lines : list jsstring) (w : jsstring) :
  DexAnalyseManagerService.firstMatchingLine lines = Some w ->
  exists line, In line lines /\ w = trim line /\ solanaAddressRegex_test w = true.
Proof.
  induction lines as [|l lines IH]; intros H; [discriminate H|].
  cbn [DexAnalyseManagerService.firstMatchingLine] in H.
  destruct (solanaAddressRegex_test (trim l)) eqn:Hl.
  - injection H as <-. exists l. split; [now left|now split].
  - destruct (IH H) as (line & Hin & Hw). exists line. split; [now right|assumption].
Qed.

End Runs.

(** X24.  Which text [extractTokenAddress] returns.  When the message
    holds a run of at least 32 characters of the class, bounded on both
    sides by the ends of the message or by characters outside the class,
    and the text before the run holds no match, the result is the first
    44 characters of the run: the whole run when it has at most 44
    characters, and a proper prefix of it, which is not the text that
    was posted, when the run is longer. *)
Theorem X24_extractTokenAddress_run (pre w post : jsstring) :
  AnalyseManagerService.extractTokenAddress pre = None ->
  endsOutsideClass pre = true ->
  forallb isBase58 w = true ->
  (32 <= List.length w)%nat ->
  startsOutsideClass post = true ->
  AnalyseManagerService.extractTokenAddress (pre ++ w ++ post) = Some (firstn 44 w)
  /\ ((List.length w <= 44)%nat ->
      AnalyseManagerService.extractTokenAddress (pre ++ w ++ post) = Some w)
  /\ ((44 < List.length w)%nat ->
      AnalyseManagerService.extractTokenAddress (pre ++ w ++ post) <> Some w).
Proof.
  intros Hpre Hend Hw Hlen Hpost.
  assert (Hmain : AnalyseManagerService.extractTokenAddress (pre ++ w ++ post)
                  = Some (firstn 44 w)).
  { unfold AnalyseManagerService.extractTokenAddress in *.
    rewrite addressPattern_match_skip by assumption.
    destruct w as [|c w]; [cbn in Hlen; lia|].
    cbn [app addressPattern_match].
    change (c :: w ++ post) with ((c :: w) ++ post).
    rewrite greedyClass_run by assumption.
    assert (Hl : (32 <= List.length (firstn 44 (c :: w)))%nat)
      by (rewrite length_firstn; lia).
    apply Nat.leb_le in Hl. now rewrite Hl. }
  split; [exact Hmain|]. split.
  - intros Hshort. rewrite Hmain. f_equal. now apply firstn_all2.
  - intros Hlong. rewrite Hmain. intros Heq.
    assert (Hl : List.length (firstn 44 w) = List.length w) by congruence.
    rewrite length_firstn in Hl. lia.
Qed.

Lemma X24_extractTokenAddress_run_witness :
  AnalyseManagerService.extractTokenAddress runMessage = Some (firstn 44 run45)
  /\ AnalyseManagerService.extractTokenAddress runMessage <> Some run45.
Proof.
  assert (H1 : AnalyseManagerService.extractTokenAddress (lit "CA: ") = None)
    by (vm_compute; reflexivity).
  assert (H2 : endsOutsideClass (lit "CA: ") = true) by (vm_compute; reflexivity).
  assert (H3 : forallb isBase58 run45 = true) by (vm_compute; reflexivity).
  assert (H4 : (32 <= List.length run45)%nat) by (vm_compute; lia).
  assert (H5 : startsOutsideClass (lit " now") = true) by (vm_compute; reflexivity).
  destruct (X24_extractTokenAddress_run (lit "CA: ") run45 (lit " now") H1 H2 H3 H4 H5)
    as (Hfirst & _ & Hlong).
  split; [exact Hfirst|]. apply Hlong. vm_compute. lia.
Defined.

(** X25.  The two extractors compared.  Whatever the line-based
    [extractSolanaAddress] returns is a text of exactly 44 characters of
    the class that occurs in the message, and then the pattern-based
    [extractTokenAddress] finds an address in the same message as well:
    the newer extractor accepts every message the older one accepts.
    (It need not find the same address: a longer run earlier in the
    message wins.) *)
Theorem X25_extractors_compared (message w : jsstring) :
  DexAnalyseManagerService.extractSolanaAddress message = Some w ->
  List.length w = 44%nat
  /\ forallb isBase58 w = true
  /\ (exists pre post, message = pre ++ w ++ post)
  /\ exists a, AnalyseManagerService.extractTokenAddress message = Some a.
Proof.
  unfold DexAnalyseManagerService.extractSolanaAddress. intros H.
  apply firstMatchingLine_In in H as (line & Hin & -> & Htest).
  unfold solanaAddressRegex_test in Htest.
  apply andb_prop in Htest as [Hlen Hclass]. apply Nat.eqb_eq in Hlen.
  assert (Hsub : exists pre post, message = pre ++ trim line ++ post).
  { destruct (split_In _ _ _ Hin) as (p1 & q1 & ->).
    destruct (trim_substring line) as (p2 & q2 & Hl).
    exists (p1 ++ p2), (q2 ++ q1). rewrite Hl at 1. now rewrite <- !app_assoc. }
  split; [assumption|]. split; [assumption|]. split; [assumption|].
  destruct (AnalyseManagerService.extractTokenAddress message) as [a|] eqn:Ha;
    [now exists a|].
  exfalso. destruct Hsub as (pre & post & Hm).
  assert (Hm' : message = pre ++ firstn 32 (trim line)
                            ++ (skipn 32 (trim line) ++ post))
    by (rewrite (app_assoc (firstn 32 (trim line))), firstn_skipn; exact Hm).
  assert (Hl32 : List.length (firstn 32 (trim line)) = 32%nat)
    by (rewrite length_firstn, Hlen; reflexivity).
  pose proof (addressPattern_match_none message Ha pre (firstn 32 (trim line))
                (skipn 32 (trim line) ++ post) Hm' Hl32) as Hnone.
  now rewrite (forallb_firstn isBase58 32 _ Hclass) in Hnone.
Qed.

Lemma X25_extractors_compared_witness :
  DexAnalyseManagerService.extractSolanaAddress twoLineMessage = Some address44
  /\ (exists a, AnalyseManagerService.extractTokenAddress twoLineMessage = Some a)
  /\ AnalyseManagerService.extractTokenAddress twoLineMessage <> Some address44.
Proof.
  assert (H : DexAnalyseManagerService.extractSolanaAddress twoLineMessage
              = Some address44) by (vm_compute; reflexivity).
  split; [exact H|]. split.
  - exact (proj2 (proj2 (proj2 (X25_extractors_compared twoLineMessage address44 H)))).
  - vm_compute. discriminate.
Defined.

(* ===================================================================== *)
(** * Further properties: the monitor that tracks tokens in memory *)
(* ===================================================================== *)

Section WatchlistFacts.

Import WatchlistMonitor.

Lemma isKey_false (a : address) (l : ActiveTokens) :
  ~ In a (map fst l) -> forall e, In e l -> isKey a e = false.
Proof.
  intros Hnot e Hin. unfold isKey. apply jsstring_eqb_neq. intros Heq.
  apply Hnot. rewrite <- Heq. now apply in_map.
Qed.

Lemma mapHas_In (a : address) (l : ActiveTokens) :
  mapHas a l = true <-> In a (map fst l).
Proof.
  unfold mapHas. rewrite existsb_exists, in_map_iff. split.
  - intros (e & Hin & He). apply jsstring_eqb_eq in He. now exists e.
  - intros (e & He & Hin). exists e. split; [assumption|]. now apply jsstring_eqb_eq.
Qed.

Lemma mapDelete_absent (a : address) (l : ActiveTokens) :
  ~ In a (map fst l) -> mapDelete a l = l.
Proof.
  intros Hnot. unfold mapDelete. induction l as [|e l IH]; [reflexivity|].
  cbn [filter]. rewrite (isKey_false a (e :: l) Hnot e (or_introl eq_refl)).
  cbn [negb]. f_equal. apply IH. intros H. apply Hnot. now right.
Qed.

Lemma keys_split (a : address) (d : Tracked) (pre rest : ActiveTokens) :
  NoDup (map fst (pre ++ (a, d) :: rest)) ->
  ~ In a (map fst pre) /\ ~ In a (map fst rest) /\ NoDup (map fst (pre ++ rest)).
Proof.
  rewrite map_app. cbn [map fst]. intros H.
  pose proof (NoDup_remove_2 _ _ _ H) as Hnot.
  pose proof (NoDup_remove_1 _ _ _ H) as Hnd.
  rewrite map_app. split; [|split; [|assumption]];
    intros Hin; apply Hnot; apply in_or_app; [now left|now right].
Qed.

Lemma mapDelete_at (a : address) (d : Tracked) (pre rest : ActiveTokens) :
  NoDup (map fst (pre ++ (a, d) :: rest)) ->
  mapDelete a (pre ++ (a, d) :: rest) = pre ++ rest.
Proof.
  intros H. destruct (keys_split a d pre rest H) as (Hpre & Hrest & _).
  unfold mapDelete. rewrite filter_app. cbn [filter].
  unfold isKey at 2. cbn [fst]. rewrite jsstring_eqb_refl. cbn [negb].
  fold (mapDelete a pre). fold (mapDelete a rest).
  now rewrite !mapDelete_absent.
Qed.

Lemma mapGet_at (a : address) (d : Tracked) (pre rest : ActiveTokens) :
  NoDup (map fst (pre ++ (a, d) :: rest)) ->
  mapGet a (pre ++ (a, d) :: rest) = Some d.
Proof.
  intros H. destruct (keys_split a d pre rest H) as (Hpre & _ & _).
  unfold mapGet. induction pre as [|e pre IH]; cbn [app find].
  - unfold isKey. cbn [fst]. now rewrite jsstring_eqb_refl.
  - rewrite (isKey_false a (e :: pre) Hpre e (or_introl eq_refl)).
    apply IH.
    + cbn [app map] in H. now inversion H.
    + intros Hin. apply Hpre. now right.
Qed.

Lemma mapSet_at (a : address) (d d' : Tracked) (pre rest : ActiveTokens) :
  NoDup (map fst (pre ++ (a, d) :: rest)) ->
  mapSet a d' (pre ++ (a, d) :: rest) = pre ++ (a, d') :: rest.
Proof.
  intros H. destruct (keys_split a d pre rest H) as (Hpre & Hrest & _).
  unfold mapSet.
  assert (Hhas : mapHas a (pre ++ (a, d) :: rest) = true).
  { apply mapHas_In. rewrite map_app. apply in_or_app. right. now left. }
  rewrite Hhas, map_app. cbn [map]. unfold isKey at 2. cbn [fst].
  rewrite jsstring_eqb_refl.
  assert (Hid : forall l : ActiveTokens,
             ~ In a (map fst l) ->
             map (fun e => if isKey a e then (a, d') else e) l = l).
  { intros l Hl. induction l as [|e l IH]; [reflexivity|]. cbn [map].
    rewrite (isKey_false a (e :: l) Hl e (or_introl eq_refl)). f_equal.
    apply IH. intros Hin. apply Hl. now right. }
  now rewrite !Hid.
Qed.

Lemma mapSet_new (a : address) (d : Tracked) (m : ActiveTokens) :
  mapHas a m = false -> mapSet a d m = m ++ [(a, d)].
Proof. intros H. unfold mapSet. now rewrite H. Qed.

Lemma buyToken_swaps (env : Env) (a : address) :
  swapsOf (buyToken env a) = [(None, a)] /\ buysOf (buyToken env a) = [a].
Proof. unfold buyToken. now destruct (createSwapTransaction env None a). Qed.

Lemma checkEach_spec (env : Env) (entries pre : ActiveTokens) :
  NoDup (map fst (pre ++ entries)) ->
  fst (checkEach env entries (pre ++ entries))
  = pre ++ map (repriced env) (filter (fun e => negb (stale env e)) entries)
  /\ swapsOf (snd (checkEach env entries (pre ++ entries)))
     = map (fun e => (None, fst e)) (filter (sweepBuys env) entries).
Proof.
  revert pre. induction entries as [|[a d] rest IH]; intros pre Hnd.
  - cbn. now rewrite app_nil_r.
  - assert (Hkeep : forall d', NoDup (map fst ((pre ++ [(a, d')]) ++ rest))).
    { intros d'. rewrite <- app_assoc. cbn [app].
      rewrite map_app in *. exact Hnd. }
    assert (Hshape : forall d', pre ++ (a, d') :: rest = (pre ++ [(a, d')]) ++ rest)
      by (intros d'; now rewrite <- app_assoc).
    assert (Hsb : sweepBuys env (a, d)
                  = negb (stale env (a, d)) && negb (justChecked env (a, d))
                    && match observedPrice env a with
                       | Some p => TokenMonitorService.thresholdMet p (price d)
                       | None => false
                       end) by reflexivity.
    assert (Hrp : repriced env (a, d)
                  = if justChecked env (a, d) then (a, d)
                    else match observedPrice env a with
                         | Some p => (a, mkTracked (timestamp d) p (now env))
                         | None => (a, d)
                         end) by reflexivity.
    cbn [checkEach filter]. rewrite Hsb.
    destruct (timestamp d <? now env - 30 * 60 * 1000)%Z eqn:Hstale.
    + assert (Hst : stale env (a, d) = true) by exact Hstale.
      rewrite Hst. cbn [negb andb].
      rewrite (mapDelete_at a d pre rest Hnd).
      destruct (keys_split a d pre rest Hnd) as (_ & _ & Hnd').
      exact (IH pre Hnd').
    + assert (Hst : stale env (a, d) = false) by exact Hstale.
      rewrite Hst. cbn [negb andb map]. rewrite Hrp.
      destruct (now env - lastCheck d <? 1000)%Z eqn:Hjust.
      * assert (Hj : justChecked env (a, d) = true) by exact Hjust.
        rewrite Hj. cbn [negb andb].
        rewrite (Hshape d). destruct (IH (pre ++ [(a, d)]) (Hkeep d)) as [Ht Hs].
        rewrite Ht, Hs. split; [now rewrite <- app_assoc|reflexivity].
      * assert (Hj : justChecked env (a, d) = false) by exact Hjust.
        rewrite Hj. cbn [negb andb].
        unfold checkTokenPrice, observedPrice.
        destruct (jupPrice env a) as [response|].
        -- destruct (orNull response) as [p|].
           ++ rewrite (mapGet_at a d pre rest Hnd), (mapSet_at a d _ pre rest Hnd).
              rewrite (Hshape (mkTracked (timestamp d) p (now env))).
              destruct (IH (pre ++ [(a, mkTracked (timestamp d) p (now env))])
                          (Hkeep _)) as [Ht Hs].
              destruct (checkEach env rest _) as [m2 e2]. cbn [fst snd] in *.
              rewrite Ht, swapsOf_app, Hs. split; [now rewrite <- app_assoc|].
              destruct (TokenMonitorService.thresholdMet p (price d));
                [now rewrite (proj1 (buyToken_swaps env a))|reflexivity].
           ++ rewrite (Hshape d).
              destruct (IH (pre ++ [(a, d)]) (Hkeep d)) as [Ht Hs].
              destruct (checkEach env rest _) as [m2 e2]. cbn [fst snd app] in *.
              rewrite Ht, Hs. split; [now rewrite <- app_assoc|reflexivity].
        -- rewrite (Hshape d).
           destruct (IH (pre ++ [(a, d)]) (Hkeep d)) as [Ht Hs].
           destruct (checkEach env rest _) as [m2 e2].
           cbn [fst snd app swapsOf flat_map] in *.
           rewrite Ht, Hs. split; [now rewrite <- app_assoc|reflexivity].
Qed.

Lemma repriced_key (env : Env) (e : address * Tracked) :
  fst (repriced env e) = fst e
  /\ timestamp (snd (repriced env e)) = timestamp (snd e).
Proof.
  unfold repriced. destruct (justChecked env e); [now split|].
  now destruct (observedPrice env (fst e)).
Qed.

Lemma NoDup_keys_filter (q : address * Tracked -> bool) (m : ActiveTokens) :
  NoDup (map fst m) -> NoDup (map fst (filter q m)).
Proof.
  induction m as [|e m IH]; cbn [map filter]; intros H; [constructor|].
  inversion H as [|? ? Hnot Hnd]; subst.
  destruct (q e); [|now apply IH]. cbn [map]. constructor; [|now apply IH].
  intros Hin. apply Hnot. apply in_map_iff in Hin as (x & Hx & Hin).
  apply filter_In in Hin as [Hin _]. rewrite <- Hx. now apply in_map.
Qed.

Lemma sellEach_spec (cfg : Config) (env : Env) (c : address)
    (entries pre : ActiveTokens) :
  NoDup (map fst (pre ++ entries)) ->
  fst (sellEach cfg env (Some c) (map fst entries) (pre ++ entries))
  = pre ++ filter (unsold cfg env c) entries
  /\ swapsOf (snd (sellEach cfg env (Some c) (map fst entries) (pre ++ entries)))
     = map (fun e => (Some (fst e), wsol_pc_mint cfg))
         (filter (fun e => negb (isKey c e)) entries)
  /\ buysOf (snd (sellEach cfg env (Some c) (map fst entries) (pre ++ entries))) = [].
Proof.
  revert pre. induction entries as [|[a d] rest IH]; intros pre Hnd.
  - cbn. now rewrite app_nil_r.
  - assert (Hkeep : NoDup (map fst ((pre ++ [(a, d)]) ++ rest)))
      by (now rewrite <- app_assoc).
    assert (Hshape : pre ++ (a, d) :: rest = (pre ++ [(a, d)]) ++ rest)
      by (now rewrite <- app_assoc).
    cbn [map fst sellEach filter]. unfold unsold at 1, isKey at 1 2. cbn [fst].
    destruct (jsstring_eqb a c) eqn:Hsame; cbn [negb orb].
    + rewrite Hshape. destruct (IH (pre ++ [(a, d)]) Hkeep) as (Ht & Hs & Hb).
      rewrite Ht, Hs, Hb. split; [now rewrite <- app_assoc|now split].
    + destruct (createSwapTransaction env (Some a) (wsol_pc_mint cfg)).
      * rewrite (mapDelete_at a d pre rest Hnd).
        destruct (keys_split a d pre rest Hnd) as (_ & _ & Hnd').
        destruct (IH pre Hnd') as (Ht & Hs & Hb).
        destruct (sellEach cfg env (Some c) (map fst rest) (pre ++ rest)) as [m2 e2].
        cbn [fst snd swapsOf buysOf flat_map app map] in *.
        now rewrite Ht, Hs, Hb.
      * rewrite Hshape. destruct (IH (pre ++ [(a, d)]) Hkeep) as (Ht & Hs & Hb).
        destruct (sellEach cfg env (Some c) (map fst rest) _) as [m2 e2].
        cbn [fst snd swapsOf buysOf flat_map app map] in *.
        rewrite Ht, Hs, Hb. split; [now rewrite <- app_assoc|now split].
Qed.

Lemma mapHas_unsold (cfg : Config) (env : Env) (a : address) (m : ActiveTokens) :
  mapHas a (filter (unsold cfg env a) m) = mapHas a m.
Proof.
  unfold mapHas. induction m as [|e m IH]; [reflexivity|]. cbn [filter existsb].
  unfold unsold at 1. destruct (isKey a e) eqn:He; cbn [orb].
  - cbn [existsb]. now rewrite He.
  - destruct (createSwapTransaction env (Some (fst e)) (wsol_pc_mint cfg));
      [exact IH|]. cbn [existsb]. now rewrite He, IH.
Qed.

Lemma setCorrectToken_spec (cfg : Config) (env : Env) (a : address) (s : State) :
  NoDup (map fst (activeTokens s)) ->
  activeTokens (fst (setCorrectToken cfg env a s))
  = filter (unsold cfg env a) (activeTokens s)
  /\ filter isSell (swapsOf (snd (setCorrectToken cfg env a s)))
     = map (fun e => (Some (fst e), wsol_pc_mint cfg))
         (filter (fun e => negb (isKey a e)) (activeTokens s))
  /\ buysOf (snd (setCorrectToken cfg env a s))
     = (if falsy_string (Some a) || mapHas a (activeTokens s) then [] else [a]).
Proof.
  intros Hnd. unfold setCorrectToken, handleCorrectTokenAnnouncement.
  cbn [activeTokens correctToken].
  destruct (sellEach_spec cfg env a (activeTokens s) [] Hnd) as (Ht & Hs & Hb).
  cbn [app] in Ht, Hs, Hb.
  destruct (sellEach cfg env (Some a) (map fst (activeTokens s)) (activeTokens s))
    as [m e]. cbn [fst snd] in *. subst m.
  cbn [withTokens activeTokens swapsOf buysOf flat_map app].
  change (flat_map (fun e0 => match e0 with Swap f t => [(f, t)] | _ => [] end))
    with swapsOf.
  change (flat_map (fun e0 => match e0 with Swap None t => [t] | _ => [] end))
    with buysOf.
  rewrite swapsOf_app, buysOf_app, Hs, Hb, filter_app, mapHas_unsold.
  split; [reflexivity|]. split.
  - assert (Hsells : forall l : ActiveTokens,
               filter isSell (map (fun e0 => (Some (fst e0), wsol_pc_mint cfg)) l)
               = map (fun e0 => (Some (fst e0), wsol_pc_mint cfg)) l)
      by (induction l as [|x l IHl]; cbn; [reflexivity|now rewrite IHl]).
    rewrite Hsells.
    destruct (negb (falsy_string (Some a)) && negb (mapHas a (activeTokens s)));
      [|now rewrite app_nil_r].
    rewrite (proj1 (buyToken_swaps env a)). cbn. now rewrite app_nil_r.
  - cbn [app]. destruct (falsy_string (Some a)); cbn [negb andb orb]; [reflexivity|].
    destruct (mapHas a (activeTokens s)); cbn [negb]; [reflexivity|].
    exact (proj2 (buyToken_swaps env a)).
Qed.

End WatchlistFacts.

(** X26.  The price sweep of the in-memory monitor.  While the window
    flag is off it does nothing at all: no price is read and no stale
    entry is dropped.  While the flag is on it drops exactly the entries
    enrolled more than thirty minutes before, keeps the others in their
    order with their enrolment times, gives every entry not checked
    within the last second the observed price, when there is one, as its
    new stored price, and buys exactly the kept tokens whose observed
    price is above the threshold relative to the price stored before;
    it never adds an entry, and each token stays listed once. *)
Theorem X26_watchlist_price_sweep (env : Env) (s : WatchlistMonitor.State) :
  NoDup (map fst (WatchlistMonitor.activeTokens s)) ->
  let res := WatchlistMonitor.checkAllTokenPrices env s in
  (WatchlistMonitor.isWithinTimeWindow s = false -> res = (s, []))
  /\ (WatchlistMonitor.isWithinTimeWindow s = true ->
      WatchlistMonitor.activeTokens (fst res)
      = map (repriced env)
          (filter (fun e => negb (stale env e)) (WatchlistMonitor.activeTokens s))
      /\ swapsOf (snd res)
         = map (fun e => (None, fst e))
             (filter (sweepBuys env) (WatchlistMonitor.activeTokens s)))
  /\ NoDup (map fst (WatchlistMonitor.activeTokens (fst res)))
  /\ (forall e', In e' (WatchlistMonitor.activeTokens (fst res)) ->
        exists e, In e (WatchlistMonitor.activeTokens s)
                  /\ fst e' = fst e
                  /\ WatchlistMonitor.timestamp (snd e')
                     = WatchlistMonitor.timestamp (snd e)).
Proof.
  intros Hnd res. unfold res, WatchlistMonitor.checkAllTokenPrices.
  destruct (WatchlistMonitor.isWithinTimeWindow s) eqn:Hw; cbn [negb].
  - destruct (checkEach_spec env (WatchlistMonitor.activeTokens s) [] Hnd) as [Ht Hs].
    cbn [app] in Ht, Hs.
    destruct (WatchlistMonitor.checkEach env _ _) as [m e]. cbn [fst snd] in *.
    subst m. cbn [WatchlistMonitor.withTokens WatchlistMonitor.activeTokens].
    split; [discriminate|]. split; [intros _; now split|]. split.
    + rewrite map_map.
      rewrite (map_ext _ fst (fun e0 => proj1 (repriced_key env e0))).
      now apply NoDup_keys_filter.
    + intros e' Hin. apply in_map_iff in Hin as (e0 & <- & Hin).
      apply filter_In in Hin as [Hin _]. exists e0. split; [assumption|].
      apply repriced_key.
  - split; [reflexivity|]. split; [discriminate|]. split; [assumption|].
    intros e' Hin. now exists e'.
Qed.

Lemma X26_watchlist_price_sweep_witness :
  NoDup (map fst (WatchlistMonitor.activeTokens watch2))
  /\ swapsOf (snd (WatchlistMonitor.checkAllTokenPrices (priced 3.5) watch2))
     = [(None, Addr1); (None, AddrY)]
  /\ WatchlistMonitor.activeTokens
       (fst (WatchlistMonitor.checkAllTokenPrices (priced 3.5) watch2))
     = [(Addr1, WatchlistMonitor.mkTracked 0 3.5 0);
        (AddrY, WatchlistMonitor.mkTracked 0 3.5 0)].
Proof.
  assert (Hnd : NoDup (map fst (WatchlistMonitor.activeTokens watch2))).
  { cbn. constructor; [intros [H|[]]; discriminate H|].
    constructor; [intros []|constructor]. }
  destruct (X26_watchlist_price_sweep (priced 3.5) watch2 Hnd) as (_ & Hin & _).
  destruct (Hin eq_refl) as [Ht Hs].
  split; [exact Hnd|]. split.
  - rewrite Hs. vm_compute. reflexivity.
  - rewrite Ht. vm_compute. reflexivity.
Defined.

(** X27.  A designation in the in-memory monitor sells every listed
    token other than the designated one and drops the ones whose sell
    went through; a token whose sell is rejected stays listed.  It buys
    the designated token when its address is not empty and it is not
    listed, but never lists it: so a repeated designation of an unlisted
    token buys it again each time. *)
Theorem X27_watchlist_designation (cfg : Config) (env : Env) (a : address)
    (s : WatchlistMonitor.State) :
  NoDup (map fst (WatchlistMonitor.activeTokens s)) ->
  let res := WatchlistMonitor.setCorrectToken cfg env a s in
  WatchlistMonitor.activeTokens (fst res)
  = filter (unsold cfg env a) (WatchlistMonitor.activeTokens s)
  /\ WatchlistMonitor.correctToken (fst res) = Some a
  /\ filter isSell (swapsOf (snd res))
     = map (fun e => (Some (fst e), wsol_pc_mint cfg))
         (filter (fun e => negb (WatchlistMonitor.isKey a e))
            (WatchlistMonitor.activeTokens s))
  /\ buysOf (snd res)
     = (if falsy_string (Some a)
           || WatchlistMonitor.mapHas a (WatchlistMonitor.activeTokens s)
        then [] else [a])
  /\ WatchlistMonitor.mapHas a (WatchlistMonitor.activeTokens (fst res))
     = WatchlistMonitor.mapHas a (WatchlistMonitor.activeTokens s)
  /\ buysOf (snd (WatchlistMonitor.setCorrectToken cfg env a (fst res)))
     = buysOf (snd res).
Proof.
  intros Hnd res. unfold res.
  destruct (setCorrectToken_spec cfg env a s Hnd) as (Ht & Hs & Hb).
  assert (Hhas : WatchlistMonitor.mapHas a
                   (WatchlistMonitor.activeTokens
                      (fst (WatchlistMonitor.setCorrectToken cfg env a s)))
                 = WatchlistMonitor.mapHas a (WatchlistMonitor.activeTokens s))
    by (rewrite Ht; apply mapHas_unsold).
  split; [assumption|]. split.
  { unfold WatchlistMonitor.setCorrectToken,
      WatchlistMonitor.handleCorrectTokenAnnouncement.
    cbn [WatchlistMonitor.activeTokens WatchlistMonitor.correctToken].
    now destruct (WatchlistMonitor.sellEach _ _ _ _ _). }
  split; [assumption|]. split; [assumption|]. split; [assumption|].
  assert (Hnd' : NoDup (map fst (WatchlistMonitor.activeTokens
                                   (fst (WatchlistMonitor.setCorrectToken cfg env a s)))))
    by (rewrite Ht; now apply NoDup_keys_filter).
  destruct (setCorrectToken_spec cfg env a _ Hnd') as (_ & _ & Hb').
  now rewrite Hb', Hb, Hhas.
Qed.

Lemma X27_watchlist_designation_witness :
  NoDup (map fst (WatchlistMonitor.activeTokens watch2))
  /\ WatchlistMonitor.activeTokens
       (fst (WatchlistMonitor.setCorrectToken liveConfig (priced 2) AddrX watch2))
     = []
  /\ buysOf (snd (WatchlistMonitor.setCorrectToken liveConfig (priced 2) AddrX watch2))
     = [AddrX]
  /\ buysOf (snd (WatchlistMonitor.setCorrectToken liveConfig (priced 2) AddrX
                    (fst (WatchlistMonitor.setCorrectToken liveConfig (priced 2)
                            AddrX watch2))))
     = [AddrX].
Proof.
  assert (Hnd : NoDup (map fst (WatchlistMonitor.activeTokens watch2))).
  { cbn. constructor; [intros [H|[]]; discriminate H|].
    constructor; [intros []|constructor]. }
  destruct (X27_watchlist_designation liveConfig (priced 2) AddrX watch2 Hnd)
    as (Ht & _ & _ & Hb & _ & Hagain).
  split; [exact Hnd|]. split; [rewrite Ht; vm_compute; reflexivity|].
  split; [rewrite Hb; vm_compute; reflexivity|].
  rewrite Hagain, Hb. vm_compute. reflexivity.
Defined.

Section WatchlistEnrollment.

Import WatchlistMonitor.

Variable rc : RugCheckConfig.
Variable env : Env.
Variable getTokenCreationTime : address -> Ext (option Z).
Variable getRugCheckConfirmed : address -> Ext (option json).

Lemma handleNewToken_trackable (tokenData : TxDetails) (s : State) (a : address)
    (p : Q) :
  Trackable rc env getTokenCreationTime getRugCheckConfirmed tokenData s a p ->
  fst (handleNewToken rc env getTokenCreationTime getRugCheckConfirmed tokenData s)
  = (Returns tt,
     withTokens s (activeTokens s ++ [(a, mkTracked (now env) p (now env))])).
Proof.
  intros (Hmint & Hne & Hhas & (ts & Hts & Hnz & Hfresh) & Hdev
          & (rugcheck & Hrug & Hsafe) & Hp).
  unfold handleNewToken, devSold, observedPrice in *. rewrite Hmint.
  assert (Hf : falsy_string (Some a) = false) by (destruct a; [contradiction|reflexivity]).
  rewrite Hf, Hhas, Hts. cbn [creationTimeOf].
  apply Z.eqb_neq in Hnz. rewrite Hnz.
  assert (Hnew : (ts <? now env - 30 * 60 * 1000)%Z = false) by (apply Z.ltb_ge; lia).
  rewrite Hnew.
  destruct (heliusTransfers env a) as [data|]; [|discriminate Hdev].
  rewrite Hdev. cbn [negb]. rewrite Hrug, Hsafe.
  destruct (jupPrice env a) as [response|]; [|discriminate Hp].
  rewrite Hp. cbn [fst]. now rewrite (mapSet_new a _ _ Hhas).
Qed.

Lemma handleNewToken_cases (tokenData : TxDetails) (s : State) :
  (exists a p,
      Trackable rc env getTokenCreationTime getRugCheckConfirmed tokenData s a p)
  \/ (snd (fst (handleNewToken rc env getTokenCreationTime getRugCheckConfirmed
                  tokenData s)) = s
      /\ (fst (fst (handleNewToken rc env getTokenCreationTime getRugCheckConfirmed
                      tokenData s)) = Throws ->
          exists a, mint tokenData = Some a
                    /\ devSold env a = true
                    /\ (getRugCheckConfirmed a = Rejects
                        \/ getRugCheckConfirmed a = Resolves None
                        \/ getRugCheckConfirmed a = Resolves (Some JNull)))).
Proof.
  unfold handleNewToken.
  destruct (falsy_string (mint tokenData)) eqn:Hf;
    [right; split; [reflexivity|discriminate]|].
  destruct (mint tokenData) as [a|] eqn:Hmint; [|discriminate Hf].
  destruct (mapHas a (activeTokens s)) eqn:Hhas;
    [right; split; [reflexivity|discriminate]|].
  destruct (getTokenCreationTime a) as [[ts|]|] eqn:Hts; cbn [creationTimeOf];
    try (right; split; [reflexivity|discriminate]).
  destruct (ts =? 0)%Z eqn:Hnz; [right; split; [reflexivity|discriminate]|].
  destruct (ts <? now env - 30 * 60 * 1000)%Z eqn:Hfresh;
    [right; split; [reflexivity|discriminate]|].
  destruct (heliusTransfers env a) as [data|] eqn:Hdata; cbn [negb];
    [|right; split; [reflexivity|discriminate]].
  destruct (TokenMonitorService.someDevTransfer data) eqn:Hdev; cbn [negb];
    [|right; split; [reflexivity|discriminate]].
  assert (Hsold : devSold env a = true) by (unfold devSold; now rewrite Hdata).
  destruct (getRugCheckConfirmed a) as [rugcheck|] eqn:Hrug;
    [|right; split; [reflexivity|intros _; exists a; auto]].
  destruct (isTokenSafe rc rugcheck) as [[|]|] eqn:Hsafe;
    [|right; split; [reflexivity|discriminate]|].
  - destruct (jupPrice env a) as [response|] eqn:Hjup;
      [|right; split; [reflexivity|discriminate]].
    destruct (orNull response) as [p|] eqn:Hp;
      [|right; split; [reflexivity|discriminate]].
    left. exists a, p. unfold Trackable.
    split; [exact Hmint|]. split; [intros ->; discriminate Hf|].
    split; [assumption|]. split.
    { exists ts. split; [exact Hts|]. apply Z.eqb_neq in Hnz.
      apply Z.ltb_ge in Hfresh. split; [assumption|lia]. }
    split; [assumption|]. split; [now exists rugcheck|].
    unfold observedPrice. now rewrite Hjup.
  - right. split; [reflexivity|]. intros _. exists a.
    split; [reflexivity|]. split; [assumption|].
    destruct rugcheck as [[| | | | |]|]; try discriminate Hsafe; auto.
Qed.

Lemma handleNewToken_no_swaps (tokenData : TxDetails) (s : State) :
  swapsOf (snd (handleNewToken rc env getTokenCreationTime getRugCheckConfirmed
                  tokenData s)) = [].
Proof.
  assert (Hlogs : forall m : ActiveTokens,
             swapsOf (map (fun e => Log LInfo "-" (Some (fst e))) m) = [])
    by (induction m as [|e m IH]; [reflexivity|exact IH]).
  unfold handleNewToken.
  destruct (falsy_string (mint tokenData)); [reflexivity|].
  destruct (mapHas _ (activeTokens s)); [reflexivity|].
  set (a := match mint tokenData with Some x => x | None => [] end).
  destruct (getTokenCreationTime a) as [[ts|]|]; cbn [creationTimeOf];
    try reflexivity.
  destruct (ts =? 0)%Z; [reflexivity|].
  destruct (ts <? _)%Z; [reflexivity|].
  destruct (heliusTransfers env a) as [data|]; cbn [negb app]; [|reflexivity].
  destruct (TokenMonitorService.someDevTransfer data); cbn [negb]; [|reflexivity].
  destruct (getRugCheckConfirmed a) as [rugcheck|]; [|reflexivity].
  destruct (isTokenSafe rc rugcheck) as [[|]|]; try reflexivity.
  destruct (jupPrice env a) as [response|]; [|reflexivity].
  destruct (orNull response) as [p|]; [|reflexivity].
  cbn [snd app swapsOf flat_map]. apply Hlogs.
Qed.

End WatchlistEnrollment.

(** X28.  Enrolment in the in-memory monitor.  A discovery is listed,
    as the last entry, stamped with the current time and the observed
    price, exactly when its mint is not empty and not listed, its
    creation time is known, not zero and at most thirty minutes old, its
    developer has sold, the rug check is judged safe and the price lookup
    gives a non-zero price; in every other case the watchlist is left as
    it is.  The handler dispatches no swap, and it rejects only after the
    developer-sold test has passed, when the rug check rejects or answers
    nothing. *)
Theorem X28_watchlist_enrollment (rc : RugCheckConfig) (env : Env)
    (getTokenCreationTime : address -> Ext (option Z))
    (getRugCheckConfirmed : address -> Ext (option json))
    (tokenData : TxDetails) (s : WatchlistMonitor.State) :
  let res := WatchlistMonitor.handleNewToken rc env getTokenCreationTime
               getRugCheckConfirmed tokenData s in
  swapsOf (snd res) = []
  /\ (forall a p,
        Trackable rc env getTokenCreationTime getRugCheckConfirmed tokenData s a p ->
        fst res
        = (Returns tt,
           WatchlistMonitor.withTokens s
             (WatchlistMonitor.activeTokens s
              ++ [(a, WatchlistMonitor.mkTracked (now env) p (now env))])))
  /\ (snd (fst res) <> s ->
      exists a p,
        Trackable rc env getTokenCreationTime getRugCheckConfirmed tokenData s a p)
  /\ (fst (fst res) = Throws ->
      snd (fst res) = s
      /\ exists a, mint tokenData = Some a
                   /\ devSold env a = true
                   /\ (getRugCheckConfirmed a = Rejects
                       \/ getRugCheckConfirmed a = Resolves None
                       \/ getRugCheckConfirmed a = Resolves (Some JNull))).
Proof.
  intros res. unfold res.
  split; [apply handleNewToken_no_swaps|].
  split; [apply handleNewToken_trackable|].
  destruct (handleNewToken_cases rc env getTokenCreationTime getRugCheckConfirmed
              tokenData s) as [(a & p & Htr)|[Hsame Hthrow]].
  - split; [intros _; now exists a, p|].
    rewrite (handleNewToken_trackable rc env _ _ tokenData s a p Htr).
    intros H. discriminate H.
  - split; [intros H; now elim H|]. intros H. split; [assumption|now apply Hthrow].
Qed.

Lemma X28_watchlist_enrollment_witness :
  Trackable strictRugCheck devSoldEnv (fun _ => Resolves (Some 1%Z))
    (fun _ => Resolves (Some (JBool false))) (mkTxDetails (Some AddrX)) watch2 AddrX 2
  /\ map fst (WatchlistMonitor.activeTokens
                (snd (fst (WatchlistMonitor.handleNewToken strictRugCheck devSoldEnv
                             (fun _ => Resolves (Some 1%Z))
                             (fun _ => Resolves (Some (JBool false)))
                             (mkTxDetails (Some AddrX)) watch2))))
     = [Addr1; AddrY; AddrX].
Proof.
  assert (Htr : Trackable strictRugCheck devSoldEnv (fun _ => Resolves (Some 1%Z))
                  (fun _ => Resolves (Some (JBool false))) (mkTxDetails (Some AddrX))
                  watch2 AddrX 2).
  { split; [reflexivity|]. split; [discriminate|]. split; [reflexivity|].
    split; [exists 1%Z; split; [reflexivity|split; [discriminate|vm_compute; discriminate]]|].
    split; [reflexivity|]. split; [eexists; split; reflexivity|reflexivity]. }
  split; [exact Htr|].
  rewrite (proj1 (proj2 (X28_watchlist_enrollment strictRugCheck devSoldEnv
                           (fun _ => Resolves (Some 1%Z))
                           (fun _ => Resolves (Some (JBool false)))
                           (mkTxDetails (Some AddrX)) watch2))
             AddrX 2 Htr).
  reflexivity.
Defined.

(** X29.  [isTokenSafe] throws exactly for a report that is [null] or
    [undefined].  A report that is an object is safe exactly when its
    [rugged] flag is falsy and each of the flags [mintAuthority],
    [freezeAuthority] and [mutable] is falsy or allowed by the
    configuration, so a rugged token is unsafe under every configuration
    and allowing more never turns a safe report unsafe.  A report that is
    not an object, such as the bare verdict [true] or [false], has none
    of the flags and counts as safe under every configuration. *)
Theorem X29_isTokenSafe (rc rc' : RugCheckConfig) (rugcheck : option json) :
  (WatchlistMonitor.isTokenSafe rc rugcheck = Throws
   <-> rugcheck = None \/ rugcheck = Some JNull)
  /\ (forall fields,
        rugcheck = Some (JObject fields) ->
        (WatchlistMonitor.isTokenSafe rc rugcheck = Returns true
         <-> truthy (own fields "rugged") = false
             /\ (truthy (own fields "mintAuthority") = true ->
                 allow_mint_authority rc = true)
             /\ (truthy (own fields "freezeAuthority") = true ->
                 allow_freeze_authority rc = true)
             /\ (truthy (own fields "mutable") = true -> allow_mutable rc = true)))
  /\ (forall v,
        rugcheck = Some v -> v <> JNull -> (forall fields, v <> JObject fields) ->
        WatchlistMonitor.isTokenSafe rc rugcheck = Returns true)
  /\ (allowsAtLeast rc rc' ->
      WatchlistMonitor.isTokenSafe rc rugcheck = Returns true ->
      WatchlistMonitor.isTokenSafe rc' rugcheck = Returns true).
Proof.
  split; [|split; [|split]].
  - destruct rugcheck as [[| | | | |]|]; cbn; split; intros H;
      try discriminate H; try reflexivity; try (now left); try (now right);
      destruct H as [H|H]; discriminate H.
  - intros fields ->. cbn [WatchlistMonitor.isTokenSafe prop].
    destruct (truthy (own fields "rugged")), (truthy (own fields "mintAuthority")),
      (truthy (own fields "freezeAuthority")), (truthy (own fields "mutable")),
      (allow_mint_authority rc), (allow_freeze_authority rc), (allow_mutable rc);
      cbn; split; intros H; try discriminate H; try reflexivity;
      try (repeat split; intros; reflexivity || assumption || discriminate);
      destruct H as (H0 & H1 & H2 & H3);
      try discriminate H0; try discriminate (H1 eq_refl);
      try discriminate (H2 eq_refl); try discriminate (H3 eq_refl).
  - intros v -> Hnull Hobj.
    destruct v as [| | | | |fields]; try reflexivity;
      [now elim Hnull|now elim (Hobj fields)].
  - intros (Hm & Hf & Hu).
    destruct rugcheck as [[| | | | |fields]|]; cbn [WatchlistMonitor.isTokenSafe prop];
      try (intros H; exact H).
    destruct (truthy (own fields "rugged")), (truthy (own fields "mintAuthority")),
      (truthy (own fields "freezeAuthority")), (truthy (own fields "mutable")),
      (allow_mint_authority rc), (allow_freeze_authority rc), (allow_mutable rc);
      cbn; intros H; try discriminate H;
      try rewrite (Hm eq_refl); try rewrite (Hf eq_refl); try rewrite (Hu eq_refl);
      reflexivity.
Qed.

Lemma X29_isTokenSafe_witness :
  WatchlistMonitor.isTokenSafe strictRugCheck (Some mintableReport) = Returns false
  /\ WatchlistMonitor.isTokenSafe (mkRugCheckConfig true false false)
       (Some mintableReport) = Returns true
  /\ WatchlistMonitor.isTokenSafe (mkRugCheckConfig true true false)
       (Some mintableReport) = Returns true
  /\ WatchlistMonitor.isTokenSafe strictRugCheck (Some (JBool false)) = Returns true.
Proof.
  assert (H1 : WatchlistMonitor.isTokenSafe (mkRugCheckConfig true false false)
                 (Some mintableReport) = Returns true) by (vm_compute; reflexivity).
  split; [vm_compute; reflexivity|]. split; [exact H1|]. split.
  - apply (proj2 (proj2 (proj2 (X29_isTokenSafe (mkRugCheckConfig true false false)
                                  (mkRugCheckConfig true true false)
                                  (Some mintableReport)))));
      [|exact H1].
    repeat split; cbn; intros H; (reflexivity || discriminate H).
  - apply (proj1 (proj2 (proj2 (X29_isTokenSafe strictRugCheck strictRugCheck
                                  (Some (JBool false))))) (JBool false) eq_refl);
      [discriminate|intros fields; discriminate].
Defined.

(* ===================================================================== *)
(** * Further properties: the interval timers *)
(* ===================================================================== *)

Section TimerFacts.

Lemma filter_other (cb : Callback) (h : nat) (l : list (nat * Callback)) :
  (forall x, In x l -> fst x = h -> Callback_eqb (snd x) cb = false) ->
  filter (fun x => Callback_eqb (snd x) cb)
    (filter (fun x => negb (Nat.eqb (fst x) h)) l)
  = filter (fun x => Callback_eqb (snd x) cb) l.
Proof.
  induction l as [|x l IH]; intros H; [reflexivity|]. cbn [filter].
  assert (IH' := IH (fun y Hy => H y (or_intror Hy))).
  destruct (Nat.eqb_spec (fst x) h) as [Heq|Hne]; cbn [negb filter].
  - rewrite (H x (or_introl eq_refl) Heq). exact IH'.
  - destruct (Callback_eqb (snd x) cb); [now rewrite IH'|exact IH'].
Qed.

Lemma NoDup_handles_filter (q : nat * Callback -> bool) (l : list (nat * Callback)) :
  NoDup (map fst l) -> NoDup (map fst (filter q l)).
Proof.
  induction l as [|x l IH]; cbn [map filter]; intros H; [constructor|].
  inversion H as [|? ? Hnot Hnd]; subst.
  destruct (q x); [|now apply IH]. cbn [map]. constructor; [|now apply IH].
  intros Hin. apply Hnot. apply in_map_iff in Hin as (y & Hy & Hin).
  apply filter_In in Hin as [Hin _]. rewrite <- Hy. now apply in_map.
Qed.

Lemma NoDup_handles_fresh (l : list (nat * Callback)) (n : nat) (cb : Callback) :
  (forall x, In x l -> (fst x < n)%nat) ->
  NoDup (map fst l) -> NoDup (map fst (l ++ [(n, cb)])).
Proof.
  intros Hlt Hnd. rewrite map_app. cbn [map fst].
  apply NoDup_app; [assumption|repeat constructor; intros []|].
  intros a Hin [<-|[]]. apply in_map_iff in Hin as (x & Hx & Hin).
  specialize (Hlt x Hin). lia.
Qed.

Lemma same_handle (l : list (nat * Callback)) (x y : nat * Callback) :
  NoDup (map fst l) -> In x l -> In y l -> fst x = fst y -> x = y.
Proof.
  induction l as [|z l IH]; intros Hnd Hx Hy Heq; [destruct Hx|].
  cbn [map] in Hnd. inversion Hnd as [|? ? Hnot Hnd']; subst.
  destruct Hx as [->|Hx], Hy as [->|Hy]; [reflexivity| | |now apply IH].
  - exfalso. apply Hnot. rewrite Heq. now apply in_map.
  - exfalso. apply Hnot. rewrite <- Heq. now apply in_map.
Qed.

Lemma store_call_invariant (s : StoreMonitorTimers.Service) (c : Call) :
  StoreTimersInvariant s ->
  StoreTimersInvariant (callStore s c)
  /\ liveCount CleanupCallback (StoreMonitorTimers.timers (callStore s c))
     = (liveCount CleanupCallback (StoreMonitorTimers.timers s)
        + match c with Initialize => 1 | _ => 0 end)%nat.
Proof.
  intros [Hlt Hnd Hmon]. destruct s as [field [n l]].
  cbn [StoreMonitorTimers.timers StoreMonitorTimers.monitoringInterval
         nextHandle live] in *.
  unfold liveCount.
  destruct c; cbn [callStore].
  - unfold StoreMonitorTimers.initialize, StoreMonitorTimers.startCleanupInterval.
    cbn [setInterval snd StoreMonitorTimers.timers
           StoreMonitorTimers.monitoringInterval nextHandle live].
    split; [split|].
    + cbn [StoreMonitorTimers.timers nextHandle live]. intros x Hin.
      apply in_app_or in Hin as [Hin|[<-|[]]]; [specialize (Hlt x Hin); lia|cbn; lia].
    + cbn [StoreMonitorTimers.timers live]. now apply NoDup_handles_fresh.
    + cbn [StoreMonitorTimers.timers StoreMonitorTimers.monitoringInterval live].
      rewrite filter_app. cbn [filter snd Callback_eqb]. now rewrite app_nil_r.
    + rewrite filter_app, length_app. reflexivity.
  - unfold StoreMonitorTimers.startMonitoring.
    cbn [StoreMonitorTimers.monitoringInterval StoreMonitorTimers.timers].
    destruct field as [h|]; cbn [fst setInterval nextHandle live].
    + split; [now split|cbn; lia].
    + split; [split|].
      * cbn [StoreMonitorTimers.timers nextHandle live]. intros x Hin.
        apply in_app_or in Hin as [Hin|[<-|[]]]; [specialize (Hlt x Hin); lia|cbn; lia].
      * cbn [StoreMonitorTimers.timers live]. now apply NoDup_handles_fresh.
      * cbn [StoreMonitorTimers.timers StoreMonitorTimers.monitoringInterval live].
        rewrite filter_app, Hmon. reflexivity.
      * cbn [StoreMonitorTimers.timers live]. rewrite filter_app, length_app.
        cbn. lia.
  - unfold StoreMonitorTimers.stopMonitoring.
    cbn [StoreMonitorTimers.monitoringInterval StoreMonitorTimers.timers].
    destruct field as [h|]; [|split; [now split|cbn; lia]].
    assert (Hheld : In (h, MonitoringCallback) l).
    { assert (Hin : In (h, MonitoringCallback)
                      (filter (fun x => Callback_eqb (snd x) MonitoringCallback) l))
        by (rewrite Hmon; now left).
      now apply filter_In in Hin as [Hin _]. }
    assert (Honly : forall x, In x l -> fst x = h -> x = (h, MonitoringCallback))
      by (intros x Hx Hxh; now apply (same_handle l x (h, MonitoringCallback))).
    split; [split|].
    + cbn [StoreMonitorTimers.timers clearInterval nextHandle live]. intros x Hin.
      apply filter_In in Hin as [Hin _]. now apply Hlt.
    + cbn [StoreMonitorTimers.timers clearInterval live].
      now apply NoDup_handles_filter.
    + cbn [StoreMonitorTimers.timers StoreMonitorTimers.monitoringInterval
             clearInterval live].
      destruct (filter (fun x => Callback_eqb (snd x) MonitoringCallback)
                  (filter (fun x => negb (Nat.eqb (fst x) h)) l)) as [|y ys] eqn:Hf;
        [reflexivity|].
      assert (Hy : In y (filter (fun x => Callback_eqb (snd x) MonitoringCallback)
                           (filter (fun x => negb (Nat.eqb (fst x) h)) l)))
        by (rewrite Hf; now left).
      apply filter_In in Hy as [Hy Hcb]. apply filter_In in Hy as [Hy Hne].
      assert (Hin : In y (filter (fun x => Callback_eqb (snd x) MonitoringCallback) l))
        by (apply filter_In; now split).
      rewrite Hmon in Hin. destruct Hin as [<-|[]]. cbn [fst] in Hne.
      now rewrite Nat.eqb_refl in Hne.
    + cbn [StoreMonitorTimers.timers clearInterval live]. rewrite Nat.add_0_r.
      f_equal. apply filter_other. intros x Hx Hxh. now rewrite (Honly x Hx Hxh).
Qed.

Lemma store_run_invariant (calls : list Call) (s : StoreMonitorTimers.Service) :
  StoreTimersInvariant s ->
  StoreTimersInvariant (fold_left callStore calls s)
  /\ liveCount CleanupCallback (StoreMonitorTimers.timers (fold_left callStore calls s))
     = (liveCount CleanupCallback (StoreMonitorTimers.timers s)
        + initializations calls)%nat.
Proof.
  revert s. induction calls as [|c calls IH]; intros s Hs.
  - split; [assumption|]. unfold initializations. cbn. lia.
  - cbn [fold_left]. destruct (store_call_invariant s c Hs) as [Hs' Hc].
    destruct (IH _ Hs') as [Hinv Hn]. split; [assumption|].
    rewrite Hn, Hc. unfold initializations. cbn [filter].
    destruct c; cbn [List.length]; lia.
Qed.

Lemma leaked_call (cb : Callback) (h : nat) (s : WatchlistMonitorTimers.Service)
    (c : Call) :
  Leaked cb h s -> Leaked cb h (callWatchlist s c).
Proof.
  intros (Hin & Hlt & Hm & Hp). destruct s as [m p [n l]].
  cbn [WatchlistMonitorTimers.timers WatchlistMonitorTimers.monitoringInterval
         WatchlistMonitorTimers.priceCheckInterval nextHandle live] in *.
  destruct c; cbn [callWatchlist].
  - now repeat split.
  - unfold WatchlistMonitorTimers.startMonitoring, Leaked.
    cbn [setInterval WatchlistMonitorTimers.timers
           WatchlistMonitorTimers.monitoringInterval
           WatchlistMonitorTimers.priceCheckInterval nextHandle live].
    split; [apply in_or_app; left; apply in_or_app; now left|].
    split; [lia|]. split; intros [= H]; lia.
  - unfold WatchlistMonitorTimers.stopMonitoring, Leaked.
    assert (Hkeep : forall k l0, k <> h -> In (h, cb) l0 ->
                                 In (h, cb) (filter (fun x => negb (Nat.eqb (fst x) k)) l0)).
    { intros k l0 Hk Hl0. apply filter_In. split; [assumption|]. cbn [fst].
      apply negb_true_iff. apply Nat.eqb_neq. congruence. }
    destruct m as [hm|], p as [hp|];
      cbn [WatchlistMonitorTimers.timers WatchlistMonitorTimers.monitoringInterval
             WatchlistMonitorTimers.priceCheckInterval clearInterval nextHandle live];
      (split; [|split; [assumption|split; discriminate]]);
      repeat apply Hkeep; try assumption; congruence.
Qed.

Lemma leaked_run (cb : Callback) (h : nat) (calls : list Call)
    (s : WatchlistMonitorTimers.Service) :
  Leaked cb h s -> Leaked cb h (fold_left callWatchlist calls s).
Proof.
  revert s. induction calls as [|c calls IH]; intros s Hs; [assumption|].
  cbn [fold_left]. apply IH. now apply leaked_call.
Qed.

Lemma leaked_live (cb : Callback) (h : nat) (s : WatchlistMonitorTimers.Service) :
  Leaked cb h s -> (1 <= liveCount cb (WatchlistMonitorTimers.timers s))%nat.
Proof.
  intros (Hin & _). unfold liveCount.
  assert (Hf : In (h, cb) (filter (fun x => Callback_eqb (snd x) cb)
                             (live (WatchlistMonitorTimers.timers s))))
    by (apply filter_In; split; [assumption|now destruct cb]).
  destruct (filter _ _); [destruct Hf|cbn; lia].
Qed.

End TimerFacts.

(** X30.  The guard of [startMonitoring].  In the version that stores
    the tokens, whatever calls of [initialize], [startMonitoring] and
    [stopMonitoring] are made, at most one monitoring interval is live:
    exactly one while the service holds a handle and none after a stop,
    so the poll never runs twice per period; [initialize] sets a cleanup
    interval each time it is called and nothing clears it.  The version
    that tracks tokens in memory has no such guard: once
    [startMonitoring] was called twice in a row, an interval of the price
    check and one of the time-window check stay live whatever is called
    afterwards, a stop included. *)
Theorem X30_monitoring_intervals (calls calls' : list Call) :
  let s := fold_left callStore calls newStore in
  let w := fold_left callWatchlist
             (calls ++ StartMonitoring :: StartMonitoring :: calls') newWatchlist in
  liveCount MonitoringCallback (StoreMonitorTimers.timers s)
  = match StoreMonitorTimers.monitoringInterval s with Some _ => 1%nat | None => 0%nat end
  /\ StoreMonitorTimers.monitoringInterval
       (StoreMonitorTimers.stopMonitoring s) = None
  /\ liveCount MonitoringCallback
       (StoreMonitorTimers.timers (StoreMonitorTimers.stopMonitoring s)) = 0%nat
  /\ liveCount CleanupCallback (StoreMonitorTimers.timers s) = initializations calls
  /\ (1 <= liveCount PriceCheckCallback (WatchlistMonitorTimers.timers w))%nat
  /\ (1 <= liveCount TimeWindowCallback (WatchlistMonitorTimers.timers w))%nat.
Proof.
  intros s w.
  assert (Hnew : StoreTimersInvariant newStore).
  { split; [intros x []|constructor|reflexivity]. }
  destruct (store_run_invariant calls newStore Hnew) as [Hinv Hclean].
  fold s in Hinv, Hclean.
  destruct (store_call_invariant s StopMonitoring Hinv) as [[_ _ Hstop] _].
  cbn [callStore] in Hstop.
  assert (Hnone : StoreMonitorTimers.monitoringInterval
                    (StoreMonitorTimers.stopMonitoring s) = None).
  { unfold StoreMonitorTimers.stopMonitoring.
    now destruct (StoreMonitorTimers.monitoringInterval s) eqn:H. }
  split; [|split; [exact Hnone|split; [|split; [exact Hclean|]]]].
  - unfold liveCount. rewrite (monitoring_held s Hinv).
    now destruct (StoreMonitorTimers.monitoringInterval s).
  - unfold liveCount. rewrite Hstop, Hnone. reflexivity.
  - unfold w. rewrite fold_left_app. cbn [fold_left].
    set (s0 := fold_left callWatchlist calls newWatchlist).
    destruct s0 as [m p [n l]].
    split.
    + apply (leaked_live _ (S n)). apply leaked_run.
      unfold Leaked, callWatchlist, WatchlistMonitorTimers.startMonitoring.
      cbn [setInterval WatchlistMonitorTimers.timers
             WatchlistMonitorTimers.monitoringInterval
             WatchlistMonitorTimers.priceCheckInterval nextHandle live].
      split; [|split; [lia|split; intros [= H]; lia]].
      apply in_or_app. left. apply in_or_app. left. apply in_or_app. right. now left.
    + apply (leaked_live _ n). apply leaked_run.
      unfold Leaked, callWatchlist, WatchlistMonitorTimers.startMonitoring.
      cbn [setInterval WatchlistMonitorTimers.timers
             WatchlistMonitorTimers.monitoringInterval
             WatchlistMonitorTimers.priceCheckInterval nextHandle live].
      split; [|split; [lia|split; intros [= H]; lia]].
      apply in_or_app. left. apply in_or_app. left. apply in_or_app. left.
      apply in_or_app. right. now left.
Qed.

(* ===================================================================== *)
(** * Handlers that overlap *)
(* ===================================================================== *)

(** The handlers are [async] functions started by timers and by socket
    messages; one may run while another waits.  This part relates the
    handlers cut at their [await]s to the handlers run in one piece, and
    proves what holds of them under every schedule. *)

Section Programs.

Context {A B : Type}.

Lemma runToEnd_bind (p : Prog A) (k : A -> Prog B) (t : Table) :
  runToEnd (pbind p k) t = bind (runToEnd p) (fun a => runToEnd (k a)) t.
Proof.
  revert t. induction p as [[a|]|next IH write says]; intros t.
  - cbn [pbind runToEnd]. unfold bind.
    destruct (runToEnd (k a) t) as [[r t2] e2]. reflexivity.
  - reflexivity.
  - cbn [pbind runToEnd]. rewrite IH. unfold bind.
    destruct (runToEnd (next t) (write t)) as [[[a|] t1] e1].
    + destruct (runToEnd (k a) t1) as [[r t2] e2]. now rewrite app_assoc.
    + reflexivity.
Qed.

Lemma runToEnd_tryCatch (body handler : Prog A) (t : Table) :
  runToEnd (ptryCatch body handler) t
  = tryCatch (runToEnd body) (runToEnd handler) t.
Proof.
  revert t. induction body as [[a|]|next IH write says]; intros t.
  - reflexivity.
  - cbn [ptryCatch runToEnd]. unfold tryCatch.
    destruct (runToEnd handler t) as [[r t2] e2]. reflexivity.
  - cbn [ptryCatch runToEnd]. rewrite IH. unfold tryCatch.
    destruct (runToEnd (next t) (write t)) as [[[a|] t1] e1].
    + reflexivity.
    + destruct (runToEnd handler t1) as [[r t2] e2]. now rewrite app_assoc.
Qed.

Lemma runToEnd_perform (m : M A) (t : Table) :
  runToEnd (perform m) t = m t.
Proof.
  cbn [perform runToEnd]. unfold resultOf, tableOf, effectsOf.
  destruct (m t) as [[r t1] e1]. cbn [fst snd]. now rewrite app_nil_r.
Qed.

Lemma bind_ext (m m' : M A) (k k' : A -> M B) (t : Table) :
  m t = m' t -> (forall a u, k a u = k' a u) -> bind m k t = bind m' k' t.
Proof.
  intros Hm Hk. unfold bind. rewrite Hm.
  destruct (m' t) as [[[a|] t1] e1]; [now rewrite Hk|reflexivity].
Qed.

Lemma tryCatch_ext (m m' h h' : M A) (t : Table) :
  m t = m' t -> (forall u, h u = h' u) -> tryCatch m h t = tryCatch m' h' t.
Proof.
  intros Hm Hh. unfold tryCatch. rewrite Hm.
  destruct (m' t) as [[[a|] t1] e1]; [reflexivity|now rewrite Hh].
Qed.

End Programs.

Lemma runToEnd_forOf {A : Type} (body : A -> Prog unit) (mbody : A -> M unit)
    (xs : list A) (t : Table) :
  (forall x u, runToEnd (body x) u = mbody x u) ->
  runToEnd (pforOf xs body) t = forOf xs mbody t.
Proof.
  intros Hb. revert t. induction xs as [|x xs IH]; intros t; [reflexivity|].
  cbn [pforOf forOf]. rewrite runToEnd_bind. apply bind_ext; [apply Hb|].
  intros _ u. apply IH.
Qed.

(** ** Run in one piece, the cut handlers are the handlers *)

Ltac unfold_async :=
  unfold Async.handleNewTokenFromWebsocket, Async.monitoringTick,
    Async.checkToken, Async.cleanupTick, Async.setCorrectToken,
    Async.sellIncorrect, Async.buyCorrect, Async.addToken,
    Async.getCurrentPrice, Async.checkDevSold, Async.buyToken in *.

Ltac asimpl :=
  cbv beta iota zeta delta [runToEnd pbind ptryCatch perform pret
                             resultOf tableOf effectsOf fst snd ret throw emit
                             bind tryCatch await DatabaseService.statement] in *;
  cbn [app negb andb orb] in *.

Ltac acrunch :=
  repeat (asimpl;
          match goal with
          | |- context [match ?x with _ => _ end] =>
              lazymatch x with
              | context [match _ with _ => _ end] => fail
              | _ => destruct x eqn:?
              end
          | |- context [if ?x then _ else _] =>
              lazymatch x with
              | context [match _ with _ => _ end] => fail
              | _ => destruct x eqn:?
              end
          end);
  asimpl.

Section Serial.

Variable cfg : Config.
Variable env : Env.

Lemma checkToken_serial (token : TokenTrack) (t : Table) :
  runToEnd (Async.checkToken env token) t
  = TokenMonitorService.checkToken env token t.
Proof.
  unfold_async. unfold_handlers. acrunch; try reflexivity.
  all: rewrite ?app_nil_r; try reflexivity.
Qed.

Lemma monitoringTick_serial (t : Table) :
  runToEnd (Async.monitoringTick env) t = TokenMonitorService.monitoringTick env t.
Proof.
  unfold Async.monitoringTick, TokenMonitorService.monitoringTick.
  rewrite runToEnd_tryCatch. apply tryCatch_ext.
  - rewrite runToEnd_bind. apply bind_ext; [apply runToEnd_perform|].
    intros xs u. apply runToEnd_forOf. apply checkToken_serial.
  - intros u. apply runToEnd_perform.
Qed.

Lemma cleanupTick_serial (t : Table) :
  runToEnd (Async.cleanupTick env) t = TokenMonitorService.cleanupTick env t.
Proof.
  unfold Async.cleanupTick, TokenMonitorService.cleanupTick.
  rewrite runToEnd_tryCatch. apply tryCatch_ext.
  - apply runToEnd_perform.
  - intros u. apply runToEnd_perform.
Qed.

Lemma handleNewTokenFromWebsocket_serial (d : option TxDetails) (t : Table) :
  runToEnd (Async.handleNewTokenFromWebsocket env d) t
  = TokenMonitorService.handleNewTokenFromWebsocket env d t.
Proof.
  unfold_async. unfold_handlers. acrunch; try reflexivity.
  all: rewrite ?app_nil_r; try reflexivity.
Qed.

Lemma sellIncorrect_serial (a : address) (token : TokenTrack) (t : Table) :
  runToEnd (Async.sellIncorrect cfg env a token) t
  = TokenMonitorService.sellIncorrect cfg env a token t.
Proof.
  unfold_async. unfold_handlers. acrunch; try reflexivity.
  all: rewrite ?app_nil_r; try reflexivity.
Qed.

Lemma buyCorrect_serial (a : address) (t : Table) :
  runToEnd (Async.buyCorrect env a) t = TokenMonitorService.buyCorrect env a t.
Proof.
  unfold_async. unfold_handlers. acrunch; try reflexivity.
  all: rewrite ?app_nil_r; try reflexivity.
Qed.

Lemma setCorrectToken_serial (a : address) (t : Table) :
  runToEnd (Async.setCorrectToken cfg env a) t
  = TokenMonitorService.setCorrectToken cfg env a t.
Proof.
  unfold Async.setCorrectToken, TokenMonitorService.setCorrectToken.
  rewrite runToEnd_bind. apply bind_ext; [apply runToEnd_perform|].
  intros _ u. rewrite runToEnd_bind. apply bind_ext; [apply runToEnd_perform|].
  intros xs u'. rewrite runToEnd_bind. apply bind_ext.
  - apply runToEnd_forOf. apply sellIncorrect_serial.
  - intros _ u''. apply buyCorrect_serial.
Qed.

End Serial.

(** ** Segments of a handler *)

Section SegmentsOf.

Context {A B : Type}.
Variable R : Table -> Table -> list Effect -> Prop.

Lemma Segments_bind (Q : A -> Prop) (Q' : B -> Prop) (p : Prog A)
    (k : A -> Prog B) :
  Segments R Q p -> (forall a, Q a -> Segments R Q' (k a)) ->
  Segments R Q' (pbind p k).
Proof.
  intros Hp Hk. induction Hp as [a Ha| |next write says HR _ IH]; cbn [pbind].
  - now apply Hk.
  - apply Segments_throws.
  - apply Segments_step; assumption.
Qed.

Lemma Segments_tryCatch (Q : A -> Prop) (body handler : Prog A) :
  Segments R Q body -> Segments R Q handler ->
  Segments R Q (ptryCatch body handler).
Proof.
  intros Hb Hh. induction Hb as [a Ha| |next write says HR _ IH];
    cbn [ptryCatch].
  - now apply Segments_returns.
  - exact Hh.
  - apply Segments_step; assumption.
Qed.

Lemma Segments_perform (Q : A -> Prop) (m : M A) :
  (forall t, R t (tableOf (m t)) (effectsOf (m t))) ->
  (forall t a, resultOf (m t) = Returns a -> Q a) ->
  Segments R Q (perform m).
Proof.
  intros HR HQ. apply Segments_step; [exact HR|].
  intros t. destruct (resultOf (m t)) as [a|] eqn:Hr.
  - apply Segments_returns. now apply (HQ t).
  - apply Segments_throws.
Qed.

End SegmentsOf.

Lemma Segments_forOf {A : Type} (R : Table -> Table -> list Effect -> Prop)
    (xs : list A) (body : A -> Prog unit) :
  (forall x, In x xs -> Segments R (fun _ => True) (body x)) ->
  Segments R (fun _ => True) (pforOf xs body).
Proof.
  induction xs as [|x xs IH]; intros Hb; cbn [pforOf].
  - now apply Segments_returns.
  - apply Segments_bind with (Q := fun _ => True).
    + apply Hb. now left.
    + intros _ _. apply IH. intros y Hy. apply Hb. now right.
Qed.

(** Under any interference every segment of the run is in [R]. *)
Lemma Segments_runSeen {A : Type} (R : Table -> Table -> list Effect -> Prop)
    (Q : A -> Prop) (p : Prog A) (seen : nat -> Table) (k : nat) :
  Segments R Q p ->
  Forall (fun s => R (found s) (left s) (said s)) (snd (runSeen p seen k))
  /\ forall a, fst (runSeen p seen k) = Returns a -> Q a.
Proof.
  intros Hp. revert k.
  induction Hp as [a Ha| |next write says HR _ IH]; intros k; cbn [runSeen].
  - split; [constructor|]. cbn [fst]. now intros b [= <-].
  - split; [constructor|]. cbn [fst]. discriminate.
  - specialize (IH (seen k) (S k)).
    destruct (runSeen (next (seen k)) seen (S k)) as [r log].
    cbn [fst snd] in *. split; [|apply IH].
    constructor; [apply HR|apply IH].
Qed.

(** ** Handlers that do not look at the table *)

Section BlindOf.

Context {A B : Type}.

Lemma Blind_bind (p : Prog A) (k : A -> Prog B) :
  Blind p -> (forall a, Blind (k a)) -> Blind (pbind p k).
Proof.
  intros Hp Hk. induction Hp as [[a|]|next write says Hn Hs _ IH]; cbn [pbind].
  - apply Hk.
  - apply Blind_done.
  - apply Blind_step; [|exact Hs|exact IH].
    intros t u. now rewrite (Hn t u).
Qed.

Lemma Blind_tryCatch (body handler : Prog A) :
  Blind body -> Blind handler -> Blind (ptryCatch body handler).
Proof.
  intros Hb Hh. induction Hb as [[a|]|next write says Hn Hs _ IH];
    cbn [ptryCatch].
  - apply Blind_done.
  - exact Hh.
  - apply Blind_step; [|exact Hs|exact IH].
    intros t u. now rewrite (Hn t u).
Qed.

Lemma Blind_perform (m : M A) :
  (forall t u, resultOf (m t) = resultOf (m u)) ->
  (forall t u, effectsOf (m t) = effectsOf (m u)) ->
  Blind (perform m).
Proof.
  intros Hr He. apply Blind_step.
  - intros t u. now rewrite (Hr t u).
  - exact He.
  - intros t. apply Blind_done.
Qed.

(** What a blind handler returns and does to the outside is what it
    returns and does when run in one piece, on any table. *)
Lemma runSeen_blind (p : Prog A) (seen : nat -> Table) (k : nat) (t : Table) :
  Blind p ->
  fst (runSeen p seen k) = resultOf (runToEnd p t)
  /\ saidIn (snd (runSeen p seen k)) = effectsOf (runToEnd p t).
Proof.
  intros Hp. revert k t.
  induction Hp as [r|next write says Hn Hs _ IH]; intros k t.
  - split; reflexivity.
  - cbn [runSeen runToEnd]. rewrite (Hn (seen k) t), (Hs (seen k) t).
    specialize (IH t (S k) (write t)).
    destruct (runSeen (next t) seen (S k)) as [r log].
    destruct (runToEnd (next t) (write t)) as [[r' t'] e'].
    unfold resultOf, effectsOf, saidIn in *. cbn [fst snd flat_map said] in *.
    destruct IH as [-> ->]. split; reflexivity.
Qed.

(** A handler that reads the table in its first segment only does, under
    any interference, what it does in one piece on the table it read. *)
Lemma runSeen_first_read (next : Table -> Prog A) (write : Table -> Table)
    (says : Table -> list Effect) (seen : nat -> Table) (k : nat) :
  (forall t, Blind (next t)) ->
  fst (runSeen (Step next write says) seen k)
  = resultOf (runToEnd (Step next write says) (seen k))
  /\ saidIn (snd (runSeen (Step next write says) seen k))
     = effectsOf (runToEnd (Step next write says) (seen k)).
Proof.
  intros Hb. cbn [runSeen runToEnd].
  destruct (runSeen_blind (next (seen k)) seen (S k) (write (seen k)) (Hb _))
    as [Hr He].
  destruct (runSeen (next (seen k)) seen (S k)) as [r log].
  destruct (runToEnd (next (seen k)) (write (seen k))) as [[r' t'] e'].
  unfold resultOf, effectsOf, saidIn in *. cbn [fst snd flat_map said] in *.
  rewrite Hr, He. split; reflexivity.
Qed.

End BlindOf.

Lemma Blind_forOf {A : Type} (xs : list A) (body : A -> Prog unit) :
  (forall x, Blind (body x)) -> Blind (pforOf xs body).
Proof.
  intros Hb. induction xs as [|x xs IH]; cbn [pforOf].
  - apply Blind_done.
  - apply Blind_bind; [apply Hb|]. intros _. exact IH.
Qed.

Lemma runSeen_shift {A : Type} (p : Prog A) (seen seen' : nat -> Table)
    (k k' : nat) :
  (forall n, seen (k + n)%nat = seen' (k' + n)%nat) ->
  runSeen p seen k = runSeen p seen' k'.
Proof.
  revert k k'. induction p as [r|next IH write says]; intros k k' Hs.
  - reflexivity.
  - cbn [runSeen]. pose proof (Hs 0%nat) as H0. rewrite !Nat.add_0_r in H0.
    rewrite H0. rewrite (IH (seen' k') (S k) (S k')); [reflexivity|].
    intros n. specialize (Hs (S n)). now rewrite !Nat.add_succ_r in Hs.
Qed.

(** ** What the segments of the handlers write *)

Section HandlerSegments.

Variable cfg : Config.
Variable h : Handler.


Lemma segments_emit (e : Effect) :
  writesOf [e] = [] -> Segments (Wrote h) (fun _ => True) (perform (emit e)).
Proof.
  intros He. apply Segments_perform; [|now intros].
  intros t. now apply Wrote_nothing.
Qed.

Lemma segments_await {A : Type} (x : Ext A) :
  Segments (Wrote h) (fun a => x = Resolves a) (perform (await x)).
Proof.
  apply Segments_perform.
  - intros t. destruct x; now apply Wrote_nothing.
  - intros t a. destruct x; cbn; [now intros [= ->]|discriminate].
Qed.

Lemma segments_getToken (a : address) :
  Segments (Wrote h) (fun _ => True) (perform (DatabaseService.getToken (worldOf h) a)).
Proof.
  apply Segments_perform; [|now intros].
  intros t. unfold DatabaseService.getToken, DatabaseService.statement.
  destruct (dbThrows (worldOf h) (SqlSelectToken a)); now apply Wrote_nothing.
Qed.

Lemma segments_getActiveTokens :
  Segments (Wrote h) (fun _ => True)
    (perform (DatabaseService.getActiveTokens (worldOf h))).
Proof.
  apply Segments_perform; [|now intros].
  intros t. unfold DatabaseService.getActiveTokens, DatabaseService.statement.
  destruct (dbThrows (worldOf h) SqlSelectActive); now apply Wrote_nothing.
Qed.

Lemma segments_updateTokenPrice (a : address) (p : Q) :
  polls h = true ->
  observedPrice (worldOf h) a = Some p ->
  Segments (Wrote h) (fun _ => True)
    (perform (DatabaseService.updateTokenPrice (worldOf h) a p)).
Proof.
  intros Hh Hp. apply Segments_perform; [|now intros].
  intros t. unfold DatabaseService.updateTokenPrice, DatabaseService.statement.
  destruct (dbThrows (worldOf h) (SqlUpdatePrice a p)).
  - now apply Wrote_nothing.
  - now apply Wrote_price.
Qed.

Lemma segments_updateTokenStatus (a : address) :
  retires h = true ->
  Segments (Wrote h) (fun _ => True)
    (perform (DatabaseService.updateTokenStatus (worldOf h) a inactive)).
Proof.
  intros Hh. apply Segments_perform; [|now intros].
  intros t. unfold DatabaseService.updateTokenStatus, DatabaseService.statement.
  destruct (dbThrows (worldOf h) (SqlUpdateStatus a inactive)).
  - now apply Wrote_nothing.
  - now apply Wrote_status.
Qed.

Lemma segments_cleanupOldTokens :
  cleans h = true ->
  Segments (Wrote h) (fun _ => True)
    (perform (DatabaseService.cleanupOldTokens (worldOf h)
                TokenMonitorService.TOKEN_MAX_AGE_HOURS)).
Proof.
  intros Hh. apply Segments_perform; [|now intros].
  intros t. unfold DatabaseService.cleanupOldTokens, DatabaseService.statement.
  destruct (dbThrows (worldOf h) (SqlDeleteOld TokenMonitorService.TOKEN_MAX_AGE_HOURS)).
  - now apply Wrote_nothing.
  - now apply Wrote_cleanup.
Qed.

Lemma segments_addToken (a : address) (p : Q) :
  enrolls h = true ->
  observedPrice (worldOf h) a = Some p ->
  Segments (Wrote h) (fun _ => True) (Async.addToken (worldOf h) a p).
Proof.
  intros Hh Hp. unfold Async.addToken. cbv zeta.
  apply Segments_bind with (Q := fun _ => True).
  - apply Segments_perform; [|now intros].
    intros t. unfold DatabaseService.addToken, DatabaseService.statement.
    destruct (dbThrows (worldOf h) _).
    + now apply Wrote_nothing.
    + now apply Wrote_token.
  - intros _ _. now apply segments_emit.
Qed.

Lemma segments_getCurrentPrice (a : address) :
  Segments (Wrote h) (fun r => r = observedPrice (worldOf h) a)
    (Async.getCurrentPrice (worldOf h) a).
Proof.
  unfold Async.getCurrentPrice, observedPrice.
  destruct (jupPrice (worldOf h) a) as [p|]; cbn.
  - apply Segments_step; [intros t; now apply Wrote_nothing|].
    intros _. now apply Segments_returns.
  - apply Segments_step; [intros t; now apply Wrote_nothing|].
    intros _. apply Segments_step; [intros t; now apply Wrote_nothing|].
    intros _. now apply Segments_returns.
Qed.

Lemma segments_checkDevSold (a : address) :
  Segments (Wrote h) (fun _ => True) (Async.checkDevSold (worldOf h) a).
Proof.
  unfold Async.checkDevSold. apply Segments_tryCatch.
  - eapply Segments_bind; [apply segments_await|].
    intros data _. now apply Segments_returns.
  - apply Segments_bind with (Q := fun _ => True); [now apply segments_emit|].
    intros _ _. now apply Segments_returns.
Qed.

Lemma segments_buyToken (a : address) :
  Segments (Wrote h) (fun _ => True) (Async.buyToken (worldOf h) a).
Proof.
  unfold Async.buyToken. apply Segments_tryCatch.
  - apply Segments_bind with (Q := fun _ => True); [now apply segments_emit|].
    intros _ _. eapply Segments_bind; [apply segments_await|].
    intros _ _. now apply segments_emit.
  - now apply segments_emit.
Qed.

Lemma segments_checkToken (token : TokenTrack) :
  polls h = true -> retires h = true ->
  Segments (Wrote h) (fun _ => True) (Async.checkToken (worldOf h) token).
Proof.
  intros Hpoll Hret. unfold Async.checkToken. cbv zeta. apply Segments_tryCatch.
  - eapply Segments_bind; [apply segments_getCurrentPrice|].
    intros [cur|] Hcur.
    + apply Segments_bind with (Q := fun _ => True).
      * apply Segments_bind with (Q := fun _ => True);
          [now apply segments_updateTokenPrice|].
        intros _ _.
        destruct (TokenMonitorService.thresholdMet cur (price token));
          [apply segments_buyToken|now apply Segments_returns].
      * intros _ _. apply Segments_bind with (Q := fun _ => True);
          [apply segments_checkDevSold|].
        intros [|] _; [|now apply Segments_returns].
        apply Segments_bind with (Q := fun _ => True);
          [now apply segments_updateTokenStatus|].
        intros _ _. now apply segments_emit.
    + apply Segments_bind with (Q := fun _ => True); [now apply Segments_returns|].
      intros _ _. apply Segments_bind with (Q := fun _ => True);
        [apply segments_checkDevSold|].
      intros [|] _; [|now apply Segments_returns].
      apply Segments_bind with (Q := fun _ => True);
        [now apply segments_updateTokenStatus|].
      intros _ _. now apply segments_emit.
  - now apply segments_emit.
Qed.

Lemma segments_monitoringTick :
  polls h = true -> retires h = true ->
  Segments (Wrote h) (fun _ => True) (Async.monitoringTick (worldOf h)).
Proof.
  intros Hpoll Hret. unfold Async.monitoringTick. apply Segments_tryCatch.
  - apply Segments_bind with (Q := fun _ => True); [apply segments_getActiveTokens|].
    intros xs _. apply Segments_forOf. intros x _. now apply segments_checkToken.
  - now apply segments_emit.
Qed.

Lemma segments_cleanupTick :
  cleans h = true ->
  Segments (Wrote h) (fun _ => True) (Async.cleanupTick (worldOf h)).
Proof.
  intros Hh. unfold Async.cleanupTick. apply Segments_tryCatch.
  - now apply segments_cleanupOldTokens.
  - now apply segments_emit.
Qed.

Lemma segments_handleNewTokenFromWebsocket (d : option TxDetails) :
  enrolls h = true ->
  Segments (Wrote h) (fun _ => True) (Async.handleNewTokenFromWebsocket (worldOf h) d).
Proof.
  intros Hh. unfold Async.handleNewTokenFromWebsocket. apply Segments_tryCatch;
    [|now apply segments_emit].
  destruct d as [d|]; [|now apply segments_emit].
  destruct (falsy_string (mint d)); [now apply segments_emit|]. cbv zeta.
  apply Segments_bind with (Q := fun _ => True); [apply segments_getToken|].
  intros [existing|] _; [now apply segments_emit|].
  apply Segments_bind with (Q := fun _ => True).
  - apply Segments_tryCatch.
    + eapply Segments_bind; [apply segments_await|].
      intros [|] _; cbn [negb].
      * apply Segments_bind with (Q := fun _ => True); [now apply segments_emit|].
        intros _ _. now apply Segments_returns.
      * apply Segments_bind with (Q := fun _ => True); [now apply segments_emit|].
        intros _ _. now apply Segments_returns.
    + apply Segments_bind with (Q := fun _ => True); [now apply segments_emit|].
      intros _ _. now apply Segments_returns.
  - intros gate _. destruct (negb gate); [now apply Segments_returns|].
    eapply Segments_bind; [apply segments_getCurrentPrice|].
    intros [cur|] Hcur; [|now apply Segments_returns].
    now apply segments_addToken.
Qed.

Lemma segments_sellIncorrect (a : address) (token : TokenTrack) :
  retires h = true ->
  Segments (Wrote h) (fun _ => True) (Async.sellIncorrect cfg (worldOf h) a token).
Proof.
  intros Hh. unfold Async.sellIncorrect.
  destruct (negb (jsstring_eqb (tokenAddress token) a));
    [|now apply Segments_returns].
  apply Segments_tryCatch; [|now apply segments_emit].
  apply Segments_bind with (Q := fun _ => True); [now apply segments_emit|].
  intros _ _. eapply Segments_bind; [apply segments_await|].
  intros _ _. apply Segments_bind with (Q := fun _ => True); [now apply segments_emit|].
  intros _ _. now apply segments_updateTokenStatus.
Qed.

Lemma segments_buyCorrect (a : address) :
  enrolls h = true ->
  Segments (Wrote h) (fun _ => True) (Async.buyCorrect (worldOf h) a).
Proof.
  intros Hh. unfold Async.buyCorrect.
  apply Segments_bind with (Q := fun _ => True); [apply segments_getToken|].
  intros [existing|] _; [now apply Segments_returns|].
  eapply Segments_bind; [apply segments_getCurrentPrice|].
  intros [cur|] Hcur; [|now apply Segments_returns].
  apply Segments_bind with (Q := fun _ => True); [now apply segments_addToken|].
  intros _ _. apply segments_buyToken.
Qed.

Lemma segments_setCorrectToken (a : address) :
  retires h = true -> enrolls h = true ->
  Segments (Wrote h) (fun _ => True) (Async.setCorrectToken cfg (worldOf h) a).
Proof.
  intros Hret Hh. unfold Async.setCorrectToken.
  apply Segments_bind with (Q := fun _ => True); [now apply segments_emit|].
  intros _ _. apply Segments_bind with (Q := fun _ => True);
    [apply segments_getActiveTokens|].
  intros xs _. apply Segments_bind with (Q := fun _ => True).
  - apply Segments_forOf. intros x _. now apply segments_sellIncorrect.
  - intros _ _. now apply segments_buyCorrect.
Qed.

End HandlerSegments.

(** Every segment of every handler of the monitor writes nothing or is
    one of the writing statements that handler issues. *)
Lemma segments_programOf (cfg : Config) (h : Handler) :
  Segments (Wrote h) (fun _ => True) (programOf cfg h).
Proof.
  destruct h as [env d|env|env|env a]; cbn [programOf].
  - now apply (segments_handleNewTokenFromWebsocket (HDiscovery env d)).
  - now apply (segments_monitoringTick (HMonitoringTick env)).
  - now apply (segments_cleanupTick (HCleanupTick env)).
  - now apply (segments_setCorrectToken cfg (HCorrectToken env a)).
Qed.

(** ** Which handlers look at the table, and when *)

Section HandlerBlind.

Variable cfg : Config.
Variable env : Env.

Lemma blind_emit (e : Effect) : Blind (perform (emit e)).
Proof. apply Blind_perform; reflexivity. Qed.

Lemma blind_await {A : Type} (x : Ext A) : Blind (perform (await x)).
Proof. apply Blind_perform; intros t u; now destruct x. Qed.

Lemma blind_statement (c : DbCall) (failed : string) (subject : option address)
    (run : Table -> Table) :
  Blind (perform (DatabaseService.statement env c failed subject
                    (fun t => (tt, run t)))).
Proof.
  apply Blind_perform; intros t u; unfold DatabaseService.statement;
    now destruct (dbThrows env c).
Qed.

Lemma blind_getCurrentPrice (a : address) : Blind (Async.getCurrentPrice env a).
Proof.
  unfold Async.getCurrentPrice. apply Blind_tryCatch.
  - apply Blind_bind; [apply blind_await|]. intros r. apply Blind_done.
  - apply Blind_bind; [apply blind_emit|]. intros r. apply Blind_done.
Qed.

Lemma blind_checkDevSold (a : address) : Blind (Async.checkDevSold env a).
Proof.
  unfold Async.checkDevSold. apply Blind_tryCatch.
  - apply Blind_bind; [apply blind_await|]. intros r. apply Blind_done.
  - apply Blind_bind; [apply blind_emit|]. intros r. apply Blind_done.
Qed.

Lemma blind_buyToken (a : address) : Blind (Async.buyToken env a).
Proof.
  unfold Async.buyToken. apply Blind_tryCatch; [|apply blind_emit].
  apply Blind_bind; [apply blind_emit|]. intros _.
  apply Blind_bind; [apply blind_await|]. intros _. apply blind_emit.
Qed.

Lemma blind_addToken (a : address) (p : Q) : Blind (Async.addToken env a p).
Proof.
  unfold Async.addToken. cbv zeta.
  apply Blind_bind; [apply blind_statement|]. intros _. apply blind_emit.
Qed.

(** The poll of one token works from the row it was given: it never
    reads the table. *)
Lemma blind_checkToken (token : TokenTrack) : Blind (Async.checkToken env token).
Proof.
  unfold Async.checkToken. cbv zeta. apply Blind_tryCatch; [|apply blind_emit].
  apply Blind_bind; [apply blind_getCurrentPrice|].
  intros [cur|].
  - apply Blind_bind.
    + apply Blind_bind; [apply blind_statement|]. intros _.
      destruct (TokenMonitorService.thresholdMet cur (price token));
        [apply blind_buyToken|apply Blind_done].
    + intros _. apply Blind_bind; [apply blind_checkDevSold|].
      intros [|]; [|apply Blind_done].
      apply Blind_bind; [apply blind_statement|]. intros _. apply blind_emit.
  - apply Blind_bind; [apply Blind_done|].
    intros _. apply Blind_bind; [apply blind_checkDevSold|].
    intros [|]; [|apply Blind_done].
    apply Blind_bind; [apply blind_statement|]. intros _. apply blind_emit.
Qed.

End HandlerBlind.

(** ** The event loop *)

Section EventLoop.

Variable cfg : Config.

Lemma select_filter_None (q : TokenTrack -> bool) (a : address) (t : Table) :
  DatabaseService.selectToken a t = None ->
  DatabaseService.selectToken a (filter q t) = None.
Proof.
  rewrite !select_None. intros Hn Hin. apply Hn.
  unfold keys in *. apply in_map_iff in Hin as (r & Hr & Hin).
  apply filter_In in Hin as [Hin _]. rewrite <- Hr. now apply in_map.
Qed.

Lemma Wrote_unique (h : Handler) (t t' : Table) (es : list Effect) :
  Wrote h t t' es -> UniqueKeys t -> UniqueKeys t'.
Proof.
  intros [es' _|a p _ _|a _|a p _ _|_] Hu.
  - exact Hu.
  - unfold UniqueKeys. now rewrite keys_setPrice.
  - unfold UniqueKeys. now rewrite keys_setStatus.
  - now apply unique_insertOrReplace.
  - now apply keys_filter_NoDup.
Qed.

Lemma writesOf_enrollsOf (a : address) (es : list Effect) :
  writesOf es = [] -> enrollsOf a es = [].
Proof.
  induction es as [|e es IH]; [reflexivity|].
  unfold writesOf, enrollsOf in *. cbn [flat_map]. intros H.
  apply app_eq_nil in H as [He Hes]. rewrite (IH Hes), app_nil_r.
  destruct e as [c| |]; try reflexivity. now destruct c.
Qed.

(** What a segment does to one record. *)
Lemma Wrote_row (h : Handler) (t t' : Table) (es : list Effect) (a : address) :
  UniqueKeys t -> Wrote h t t' es ->
  RowStep h a (DatabaseService.selectToken a t)
    (DatabaseService.selectToken a t') es.
Proof.
  intros Hu [es' Hes|b p Hh Hp|b Hh|b p Hh Hp|Hh].
  - apply Row_kept. now apply writesOf_enrollsOf.
  - rewrite select_setPrice. destruct (jsstring_eqb a b) eqn:Hab.
    + apply jsstring_eqb_eq in Hab. subst b.
      destruct (DatabaseService.selectToken a t) as [r|]; cbn [option_map].
      * now apply Row_priced.
      * now apply Row_kept.
    + now apply Row_kept.
  - rewrite select_setStatus. destruct (jsstring_eqb a b) eqn:Hab.
    + apply jsstring_eqb_eq in Hab. subst b.
      destruct (DatabaseService.selectToken a t) as [r|]; cbn [option_map].
      * now apply Row_retired.
      * now apply Row_kept.
    + now apply Row_kept.
  - rewrite select_insertOrReplace. cbn [tokenAddress].
    destruct (jsstring_eqb a b) eqn:Hab.
    + apply jsstring_eqb_eq in Hab. subst b. now apply Row_enrolled.
    + apply Row_kept. unfold enrollsOf. cbn [flat_map tokenAddress].
      now rewrite jsstring_eqb_sym, Hab.
  - destruct (DatabaseService.selectToken a t) as [r|] eqn:Hsel.
    + rewrite (select_deleteOld _ _ _ _ Hu Hsel).
      destruct ((lastCheck r <? _)%Z && Status_eqb (status r) inactive) eqn:Hold.
      * apply andb_true_iff in Hold as [Hlt Hst]. apply Z.ltb_lt in Hlt.
        apply Row_deleted; [exact Hh| |exact Hlt]. now destruct (status r).
      * now apply Row_kept.
    + unfold DatabaseService.deleteOld. rewrite select_filter_None by assumption.
      now apply Row_kept.
Qed.

Lemma nth_error_setNth {A : Type} (l : list A) (i j : nat) (x : A) :
  nth_error (setNth i x l) j
  = if Nat.eqb j i then match nth_error l j with Some _ => Some x | None => None end
    else nth_error l j.
Proof.
  revert i j. induction l as [|y l IH]; intros i j.
  - cbn [setNth]. destruct j, i; cbn; try reflexivity;
      now destruct (Nat.eqb j i).
  - destruct i as [|i], j as [|j]; cbn [setNth nth_error Nat.eqb]; try reflexivity.
    apply IH.
Qed.

Lemma Forall_setNth {A : Type} (P : A -> Prop) (l : list A) (i : nat) (x : A) :
  Forall P l -> P x -> Forall P (setNth i x l).
Proof.
  intros Hl Hx. revert i. induction Hl as [|y l Hy Hl IH]; intros i.
  - destruct i; constructor.
  - destruct i as [|i]; cbn [setNth]; constructor; auto.
Qed.

Lemma Tame_idle : Tame idle.
Proof. constructor. Qed.

Lemma Tame_nth (s : Concurrent) (i : nat) (h : Handler) (p : Prog unit) :
  Tame s -> nth_error (running s) i = Some (h, p) ->
  Segments (Wrote h) (fun _ => True) p.
Proof.
  intros Ht Hn. apply nth_error_In in Hn.
  unfold Tame in Ht. rewrite Forall_forall in Ht. exact (Ht _ Hn).
Qed.

Lemma Tame_move (s : Concurrent) (mv : Move) :
  Tame s -> Tame (fst (move cfg s mv)).
Proof.
  intros Ht. destruct mv as [h|i]; cbn [move].
  - cbn [fst]. unfold Tame. cbn [running]. apply Forall_app. split; [exact Ht|].
    constructor; [|constructor]. apply segments_programOf.
  - destruct (nth_error (running s) i) as [[h [r|next write says]]|] eqn:Hn;
      cbn [fst]; try exact Ht.
    unfold Tame. cbn [running]. apply Forall_setNth; [exact Ht|].
    cbn [fst snd]. pose proof (Tame_nth _ _ _ _ Ht Hn) as Hp.
    inversion Hp as [| |? ? ? _ Hnext]; subst. apply Hnext.
Qed.

Lemma play_cons (s : Concurrent) (mv : Move) (mvs : list Move) :
  play cfg s (mv :: mvs)
  = (fst (play cfg (fst (move cfg s mv)) mvs),
     snd (move cfg s mv) ++ snd (play cfg (fst (move cfg s mv)) mvs)).
Proof.
  cbn [play]. destruct (move cfg s mv) as [s1 e1]. cbn [fst snd].
  now destruct (play cfg s1 mvs).
Qed.

Lemma Tame_play (s : Concurrent) (mvs : list Move) :
  Tame s -> Tame (fst (play cfg s mvs)).
Proof.
  revert s. induction mvs as [|mv mvs IH]; intros s Ht; [exact Ht|].
  rewrite play_cons. cbn [fst]. apply IH. now apply Tame_move.
Qed.

(** One move of the event loop does nothing to the table and to the
    outside, or it is one segment of a running handler. *)
Lemma move_wrote (s : Concurrent) (mv : Move) :
  Tame s ->
  (store (fst (move cfg s mv)) = store s /\ snd (move cfg s mv) = [])
  \/ exists i h p,
       mv = Resume i /\ nth_error (running s) i = Some (h, p)
       /\ Wrote h (store s) (store (fst (move cfg s mv)))
            (snd (move cfg s mv)).
Proof.
  intros Ht. destruct mv as [h|i]; cbn [move]; [now left|].
  destruct (nth_error (running s) i) as [[h [r|next write says]]|] eqn:Hn;
    cbn [fst snd store]; try (now left).
  right. exists i, h, (Step next write says). split; [reflexivity|].
  split; [exact Hn|].
  pose proof (Tame_nth _ _ _ _ Ht Hn) as Hp.
  inversion Hp as [| |? ? ? HR _]; subst. apply HR.
Qed.

Lemma unique_move (s : Concurrent) (mv : Move) :
  Tame s -> UniqueKeys (store s) -> UniqueKeys (store (fst (move cfg s mv))).
Proof.
  intros Ht Hu. destruct (move_wrote s mv Ht) as [[-> _]|(i & h & p & _ & _ & Hw)];
    [exact Hu|]. exact (Wrote_unique _ _ _ _ Hw Hu).
Qed.

Lemma unique_play (s : Concurrent) (mvs : list Move) :
  Tame s -> UniqueKeys (store s) -> UniqueKeys (store (fst (play cfg s mvs))).
Proof.
  revert s. induction mvs as [|mv mvs IH]; intros s Ht Hu; [exact Hu|].
  rewrite play_cons. cbn [fst]. apply IH; [now apply Tame_move|].
  now apply unique_move.
Qed.

Lemma unique_idle : UniqueKeys (store idle).
Proof. constructor. Qed.

(** What one move of the event loop does to one record. *)
Lemma move_row (s : Concurrent) (mv : Move) (a : address) :
  Tame s -> UniqueKeys (store s) ->
  (DatabaseService.selectToken a (store (fst (move cfg s mv)))
   = DatabaseService.selectToken a (store s)
   /\ enrollsOf a (snd (move cfg s mv)) = [])
  \/ exists i h p,
       mv = Resume i /\ nth_error (running s) i = Some (h, p)
       /\ RowStep h a (DatabaseService.selectToken a (store s))
            (DatabaseService.selectToken a (store (fst (move cfg s mv))))
            (snd (move cfg s mv)).
Proof.
  intros Ht Hu.
  destruct (move_wrote s mv Ht) as [[-> ->]|(i & h & p & Hmv & Hn & Hw)];
    [now left|].
  right. exists i, h, p. split; [exact Hmv|]. split; [exact Hn|].
  now apply Wrote_row.
Qed.

End EventLoop.

(** ** Handlers of the event loop, one at a time *)

Section Threads.

Variable cfg : Config.

Lemma move_keeps (s : Concurrent) (mv : Move) (i : nat) (h : Handler)
    (p : Prog unit) :
  nth_error (running s) i = Some (h, p) ->
  exists p', nth_error (running (fst (move cfg s mv))) i = Some (h, p').
Proof.
  intros Hn. destruct mv as [h0|j]; cbn [move].
  - cbn [fst running]. exists p. rewrite nth_error_app1; [exact Hn|].
    apply nth_error_Some. now rewrite Hn.
  - destruct (nth_error (running s) j) as [[h1 [r|next write says]]|] eqn:Hj;
      cbn [fst]; try (now exists p).
    cbn [running]. rewrite nth_error_setNth.
    destruct (Nat.eqb i j) eqn:Hij.
    + apply Nat.eqb_eq in Hij. subst j. rewrite Hn in *.
      injection Hj as -> _. now eexists.
    + now exists p.
Qed.

Lemma play_keeps (mvs : list Move) (s : Concurrent) (i : nat) (h : Handler)
    (p : Prog unit) :
  nth_error (running s) i = Some (h, p) ->
  exists p', nth_error (running (fst (play cfg s mvs))) i = Some (h, p').
Proof.
  revert s p. induction mvs as [|mv mvs IH]; intros s p Hn; [now exists p|].
  rewrite play_cons. cbn [fst].
  destruct (move_keeps s mv i h p Hn) as [p1 H1]. exact (IH _ _ H1).
Qed.

(** The segments a handler ran in the event loop are the first segments
    of the handler run on the tables it found there. *)
Lemma thread_runs (mvs : list Move) (s : Concurrent) (i : nat) (h : Handler)
    (p' : Prog unit) :
  nth_error (running (fst (play cfg s mvs))) i = Some (h, p') ->
  let p := match nth_error (running s) i with
           | Some (_, p) => p
           | None => programOf cfg h
           end in
  let log := threadLog cfg s mvs i in
  exists seen,
    fst (runSeen p seen 0) = fst (runSeen p' seen (List.length log))
    /\ snd (runSeen p seen 0) = log ++ snd (runSeen p' seen (List.length log))
    /\ match log with
       | [] => True
       | seg :: _ => seen 0%nat = found seg
       end.
Proof.
  revert s. induction mvs as [|mv mvs IH]; intros s Hend; cbv zeta.
  - cbn [play fst] in Hend. rewrite Hend. cbn [threadLog List.length app].
    exists (still []). repeat split.
  - rewrite play_cons in Hend. cbn [fst] in Hend.
    specialize (IH _ Hend). cbv zeta in IH. destruct IH as (seen1 & Hr1 & Hl1 & Hf1).
    cbn [threadLog].
    set (s1 := fst (move cfg s mv)) in *.
    set (log1 := threadLog cfg s1 mvs i) in *.
    destruct (nth_error (running s) i) as [[h0 p]|] eqn:Hn.
    + (* the handler is running *)
      assert (h0 = h) as ->.
      { destruct (move_keeps s mv i h0 p Hn) as [q Hq]. fold s1 in Hq.
        destruct (play_keeps mvs s1 i h0 q Hq) as [q' Hq'].
        rewrite Hq' in Hend. now injection Hend. }
      destruct mv as [h1|j].
      * assert (Hn1 : nth_error (running s1) i = Some (h, p)).
        { unfold s1. cbn [move fst running]. rewrite nth_error_app1; [exact Hn|].
          apply nth_error_Some. now rewrite Hn. }
        rewrite Hn1 in Hr1, Hl1. cbn [app]. exists seen1.
        split; [exact Hr1|]. split; [exact Hl1|]. exact Hf1.
      * destruct (Nat.eqb j i) eqn:Hji.
        -- apply Nat.eqb_eq in Hji. subst j.
           destruct p as [r|next write says].
           ++ assert (Hs1 : s1 = s) by (unfold s1; cbn [move]; now rewrite Hn).
              rewrite Hs1, Hn in Hr1, Hl1. cbn [app]. exists seen1.
              split; [exact Hr1|]. split; [exact Hl1|]. exact Hf1.
           ++ assert (Hn1 : nth_error (running s1) i = Some (h, next (store s))).
              { unfold s1. cbn [move]. rewrite Hn. cbn [fst running].
                rewrite nth_error_setNth, Nat.eqb_refl, Hn. reflexivity. }
              rewrite Hn1 in Hr1, Hl1.
              exists (seenFrom (store s) seen1).
              cbn [app List.length runSeen seenFrom].
              rewrite (runSeen_shift (next (store s)) (seenFrom (store s) seen1)
                         seen1 1 0) by reflexivity.
              rewrite (runSeen_shift p' (seenFrom (store s) seen1) seen1
                         (S (List.length log1)) (List.length log1))
                by reflexivity.
              destruct (runSeen (next (store s)) seen1 0) as [r log] eqn:Hrun.
              cbn [fst snd] in *. split; [exact Hr1|]. split; [|reflexivity].
              now rewrite Hl1.
        -- assert (Hn1 : nth_error (running s1) i = Some (h, p)).
           { unfold s1. cbn [move].
             destruct (nth_error (running s) j) as [[h1 [r|next write says]]|];
               cbn [fst]; try exact Hn.
             cbn [running]. rewrite nth_error_setNth.
             rewrite Nat.eqb_sym, Hji. exact Hn. }
           rewrite Hn1 in Hr1, Hl1. cbn [app]. exists seen1.
           split; [exact Hr1|]. split; [exact Hl1|]. exact Hf1.
    + (* the handler is not started yet *)
      assert (Hhead : match mv with
                      | Resume j =>
                          if Nat.eqb j i then
                            match nth_error (running s) i with
                            | Some (_, Step _ write says) =>
                                [(store s, write (store s), says (store s))]
                            | _ => []
                            end
                          else []
                      | Start _ => []
                      end = []).
      { destruct mv as [h1|j]; [reflexivity|].
        destruct (Nat.eqb j i); [|reflexivity]. now rewrite Hn. }
      rewrite Hn in Hhead. rewrite Hhead. cbn [app].
      destruct (nth_error (running s1) i) as [[h1 q]|] eqn:Hn1.
      * assert (h1 = h) as ->.
        { destruct (play_keeps mvs s1 i h1 q Hn1) as [q' Hq'].
          rewrite Hq' in Hend. now injection Hend. }
        assert (q = programOf cfg h) as ->.
        { destruct mv as [h2|j]; unfold s1 in Hn1; cbn [move] in Hn1.
          - cbn [fst running] in Hn1.
            destruct (Nat.lt_ge_cases i (List.length (running s))) as [Hlt|Hge].
            + apply nth_error_Some in Hlt. now rewrite Hn in Hlt.
            + rewrite nth_error_app2 in Hn1 by assumption.
              destruct (i - List.length (running s))%nat as [|k];
                cbn [nth_error] in Hn1; [now injection Hn1 as -> <-|].
              now destruct k.
          - destruct (nth_error (running s) j) as [[h2 [r|next write says]]|];
              cbn [fst] in Hn1; try congruence.
            cbn [running] in Hn1. rewrite nth_error_setNth, Hn in Hn1.
            now destruct (Nat.eqb i j). }
        exists seen1. split; [exact Hr1|]. split; [exact Hl1|]. exact Hf1.
      * exists seen1. split; [exact Hr1|]. split; [exact Hl1|]. exact Hf1.
Qed.

Lemma threadLog_unique (mvs : list Move) (s : Concurrent) (i : nat) :
  Tame s -> UniqueKeys (store s) ->
  Forall (fun seg => UniqueKeys (found seg)) (threadLog cfg s mvs i).
Proof.
  revert s. induction mvs as [|mv mvs IH]; intros s Ht Hu; [constructor|].
  cbn [threadLog]. apply Forall_app. split.
  - destruct mv as [h|j]; [constructor|].
    destruct (Nat.eqb j i); [|constructor].
    destruct (nth_error (running s) i) as [[h [r|next write says]]|];
      constructor; [exact Hu|constructor].
  - apply IH; [now apply Tame_move|now apply unique_move].
Qed.

Lemma threadLog_wrote (mvs : list Move) (s : Concurrent) (i : nat) (h : Handler)
    (p : Prog unit) :
  Tame s -> nth_error (running (fst (play cfg s mvs))) i = Some (h, p) ->
  Forall (fun seg => Wrote h (found seg) (left seg) (said seg))
    (threadLog cfg s mvs i).
Proof.
  revert s. induction mvs as [|mv mvs IH]; intros s Ht Hend; [constructor|].
  rewrite play_cons in Hend. cbn [fst] in Hend.
  cbn [threadLog]. apply Forall_app. split.
  - destruct mv as [h0|j]; [constructor|].
    destruct (Nat.eqb j i) eqn:Hji; [|constructor].
    apply Nat.eqb_eq in Hji. subst j.
    destruct (nth_error (running s) i) as [[h0 [r|next write says]]|] eqn:Hn;
      constructor; [|constructor].
    assert (h0 = h) as ->.
    { destruct (move_keeps s (Resume i) i h0 _ Hn) as [q Hq].
      destruct (play_keeps mvs _ i h0 q Hq) as [q' Hq'].
      rewrite Hq' in Hend. now injection Hend. }
    pose proof (Tame_nth _ _ _ _ Ht Hn) as Hp.
    inversion Hp as [| |? ? ? HR _]; subst. apply HR.
  - apply IH; [now apply Tame_move|exact Hend].
Qed.

End Threads.

(** ** The schedules in which handlers do not overlap *)

Section SerialSchedule.

Variable cfg : Config.

Lemma setNth_same {A : Type} (l : list A) (i : nat) (x : A) :
  nth_error l i = Some x -> setNth i x l = l.
Proof.
  revert i. induction l as [|y l IH]; intros [|i]; cbn [nth_error setNth];
    try discriminate.
  - now intros [= ->].
  - intros H. now rewrite IH.
Qed.

Lemma setNth_setNth {A : Type} (l : list A) (i : nat) (x y : A) :
  setNth i x (setNth i y l) = setNth i x l.
Proof.
  revert i. induction l as [|z l IH]; intros [|i]; cbn [setNth]; try reflexivity.
  now rewrite IH.
Qed.

Lemma play_ended (s : Concurrent) (i : nat) (h : Handler) (r : Res unit)
    (fuel : nat) :
  nth_error (running s) i = Some (h, Done r) ->
  play cfg s (finish fuel i) = (s, []).
Proof.
  intros Hn. induction fuel as [|fuel IH]; [reflexivity|].
  unfold finish in *. cbn [repeat play move]. rewrite Hn, IH. reflexivity.
Qed.

(** A handler resumed until its end with nothing in between does to the
    table and to the outside what it does run in one piece. *)
Lemma play_finish (p : Prog unit) (s : Concurrent) (i : nat) (h : Handler)
    (fuel : nat) :
  nth_error (running s) i = Some (h, p) ->
  (segmentsLeft p (store s) <= fuel)%nat ->
  play cfg s (finish fuel i)
  = (mkConcurrent (tableOf (runToEnd p (store s)))
       (setNth i (h, Done (resultOf (runToEnd p (store s)))) (running s)),
     effectsOf (runToEnd p (store s))).
Proof.
  revert s fuel. induction p as [r|next IH write says]; intros s fuel Hn Hfuel.
  - rewrite (play_ended s i h r fuel Hn). cbn [runToEnd tableOf resultOf effectsOf
                                                 fst snd].
    rewrite (setNth_same _ _ _ Hn). now destruct s.
  - cbn [segmentsLeft] in Hfuel. destruct fuel as [|fuel]; [lia|].
    unfold finish. cbn [repeat]. fold (finish fuel i). rewrite play_cons.
    cbn [move]. rewrite Hn. cbn [fst snd].
    rewrite (IH (store s) _ fuel); cbn [store running].
    + rewrite setNth_setNth. cbn [runToEnd].
      destruct (runToEnd (next (store s)) (write (store s))) as [[r t2] e2].
      reflexivity.
    + rewrite nth_error_setNth, Nat.eqb_refl, Hn. reflexivity.
    + lia.
Qed.

(** The transition of [System] for a handler of the monitor is the
    schedule that starts the handler and resumes it until its end. *)
Lemma step_serial (sys : System) (h : Handler) :
  step cfg sys (eventOf h) = lift sys (runToEnd (programOf cfg h)).
Proof.
  unfold lift. destruct h as [env d|env|env|env a]; cbn [eventOf step programOf];
    unfold lift.
  - now rewrite handleNewTokenFromWebsocket_serial.
  - now rewrite monitoringTick_serial.
  - now rewrite cleanupTick_serial.
  - now rewrite setCorrectToken_serial.
Qed.

Lemma step_as_schedule (sys : System) (h : Handler) (fuel : nat) :
  (segmentsLeft (programOf cfg h) (tokens sys) <= fuel)%nat ->
  tokens (fst (step cfg sys (eventOf h)))
  = store (fst (play cfg (mkConcurrent (tokens sys) []) (Start h :: finish fuel 0)))
  /\ snd (step cfg sys (eventOf h))
     = snd (play cfg (mkConcurrent (tokens sys) []) (Start h :: finish fuel 0)).
Proof.
  intros Hfuel. rewrite step_serial, play_cons. cbn [move fst snd app running store].
  rewrite (play_finish (programOf cfg h)
             (mkConcurrent (tokens sys) [(h, programOf cfg h)]) 0 h fuel eq_refl
             Hfuel).
  unfold lift. cbn [fst snd store tokens]. split; reflexivity.
Qed.

End SerialSchedule.

(** ** The monitoring tick among other handlers *)

Section OverlappedTick.

Variable cfg : Config.
Variable env : Env.

(** The tick reads the table once, in its first segment; whatever other
    handlers write afterwards, its polls and buys are those of the tick
    run in one piece on the table it read. *)
Lemma monitoringTick_overlapped (seen : nat -> Table) (k : nat) :
  fst (runSeen (Async.monitoringTick env) seen k)
  = resultOf (TokenMonitorService.monitoringTick env (seen k))
  /\ saidIn (snd (runSeen (Async.monitoringTick env) seen k))
     = effectsOf (TokenMonitorService.monitoringTick env (seen k)).
Proof.
  rewrite <- monitoringTick_serial. unfold Async.monitoringTick.
  cbn [perform pbind ptryCatch]. apply runSeen_first_read.
  intros t.
  destruct (resultOf (DatabaseService.getActiveTokens env t)) as [xs|];
    cbn [pbind ptryCatch].
  - apply Blind_tryCatch; [|apply blind_emit].
    apply Blind_forOf. apply blind_checkToken.
  - apply blind_emit.
Qed.

Lemma tryCatch_bind_perform {A B : Type} (m : M A) (k : A -> Prog B)
    (h : Prog B) :
  ptryCatch (pbind (perform m) k) h
  = Step (fun t => ptryCatch (pbind (Done (resultOf (m t))) k) h)
      (fun t => tableOf (m t)) (fun t => effectsOf (m t)).
Proof. reflexivity. Qed.

(** The discovery handler asks the table for the token in its first
    segment and never looks at the table again. *)
Lemma handleNewTokenFromWebsocket_overlapped (d : option TxDetails)
    (seen : nat -> Table) (k : nat) :
  fst (runSeen (Async.handleNewTokenFromWebsocket env d) seen k)
  = resultOf (TokenMonitorService.handleNewTokenFromWebsocket env d (seen k))
  /\ saidIn (snd (runSeen (Async.handleNewTokenFromWebsocket env d) seen k))
     = effectsOf (TokenMonitorService.handleNewTokenFromWebsocket env d (seen k)).
Proof.
  rewrite <- handleNewTokenFromWebsocket_serial.
  assert (Hinvalid :
    forall e h : Prog unit,
      e = perform (emit (Log LError "Invalid transaction details received" None)) ->
      Blind h ->
      fst (runSeen (ptryCatch e h) seen k) = resultOf (runToEnd (ptryCatch e h) (seen k))
      /\ saidIn (snd (runSeen (ptryCatch e h) seen k))
         = effectsOf (runToEnd (ptryCatch e h) (seen k))).
  { intros e h -> Hh. apply runSeen_blind. apply Blind_tryCatch; [apply blind_emit|exact Hh]. }
  unfold Async.handleNewTokenFromWebsocket.
  destruct d as [d|]; [|apply Hinvalid; [reflexivity|apply blind_emit]].
  destruct (falsy_string (mint d)); [apply Hinvalid; [reflexivity|apply blind_emit]|].
  cbv zeta. rewrite tryCatch_bind_perform. apply runSeen_first_read.
  intros t.
  destruct (resultOf (DatabaseService.getToken env _ t)) as [[existing|]|];
    cbn [pbind ptryCatch].
  - apply Blind_tryCatch; apply blind_emit.
  - apply Blind_tryCatch; [|apply blind_emit].
    apply Blind_bind.
    + apply Blind_tryCatch.
      * apply Blind_bind; [apply blind_await|].
        intros [|]; cbn [negb]; (apply Blind_bind; [apply blind_emit|]);
          intros _; apply Blind_done.
      * apply Blind_bind; [apply blind_emit|]. intros _. apply Blind_done.
    + intros gate. destruct (negb gate); [apply Blind_done|].
      apply Blind_bind; [apply blind_getCurrentPrice|].
      intros [cur|]; [apply blind_addToken|apply Blind_done].
  - apply blind_emit.
Qed.

Lemma handleNew_enrollment_write (d : TxDetails) (a : address) (q : Q) (t : Table) :
  noDbFault env -> mint d = Some a -> a <> [] ->
  DatabaseService.selectToken a t = None ->
  getRugCheckConfirmed env a = Resolves true ->
  observedPrice env a = Some q ->
  In (Sql (SqlInsertOrReplace (mkToken a (now env) q (now env) active)))
    (effectsOf (TokenMonitorService.handleNewTokenFromWebsocket env (Some d) t)).
Proof.
  intros Hdb Hm Hne Habs Hrug Hobs.
  unfold_handlers. rewrite Hm, Hrug. destruct a as [|c a]; [congruence|].
  cbn [falsy_string]. msimpl. rewrite Hdb, Habs. msimpl.
  destruct (jupPrice env (c :: a)) as [resp|]; [|discriminate].
  msimpl. rewrite Hobs. msimpl. rewrite Hdb. msimpl.
  cbn [In]. tauto.
Qed.

Lemma forOf_effects_inv {A : Type} (body : A -> M unit) (xs : list A)
    (e : Effect) (t : Table) :
  (forall y u, resultOf (body y u) = Returns tt) ->
  In e (effectsOf (forOf xs body t)) ->
  exists x u, In x xs /\ In e (effectsOf (body x u)).
Proof.
  intros Hret. revert t. induction xs as [|y xs IH]; intros t Hin.
  - destruct Hin.
  - rewrite forOf_cons in Hin by apply Hret. cbn [effectsOf snd] in Hin.
    apply in_app_or in Hin as [Hin|Hin].
    + exists y, t. split; [now left|exact Hin].
    + destruct (IH _ Hin) as (x & u & Hx & He). exists x, u.
      split; [now right|exact He].
Qed.

Lemma checkToken_price_update (token : TokenTrack) (t : Table) (b : address)
    (p : Q) :
  In (Sql (SqlUpdatePrice b p)) (effectsOf (TokenMonitorService.checkToken env token t)) ->
  b = tokenAddress token /\ observedPrice env (tokenAddress token) = Some p.
Proof.
  unfold_handlers. crunch; intros H; cbn in H;
    repeat match goal with
           | H : _ \/ _ |- _ => destruct H as [H|H]
           | H : False |- _ => destruct H
           end;
    try discriminate;
    injection H as <- <-; split; congruence.
Qed.

Lemma checkToken_status_update (token : TokenTrack) (t : Table) (b : address)
    (st : Status) :
  In (Sql (SqlUpdateStatus b st)) (effectsOf (TokenMonitorService.checkToken env token t)) ->
  b = tokenAddress token /\ st = inactive /\ devSold env (tokenAddress token) = true.
Proof.
  unfold_handlers. crunch; intros H; cbn in H;
    repeat match goal with
           | H : _ \/ _ |- _ => destruct H as [H|H]
           | H : False |- _ => destruct H
           end;
    try discriminate;
    injection H as <- <-; repeat split; congruence.
Qed.

Lemma checkToken_updates_price (token : TokenTrack) (t : Table) (p : Q) :
  observedPrice env (tokenAddress token) = Some p ->
  dbThrows env (SqlUpdatePrice (tokenAddress token) p) = false ->
  In (Sql (SqlUpdatePrice (tokenAddress token) p))
    (effectsOf (TokenMonitorService.checkToken env token t)).
Proof.
  unfold_handlers. crunch; intros; try discriminate;
    repeat match goal with H : Some _ = Some _ |- _ => injection H as H; subst end;
    try congruence; cbn; tauto.
Qed.

Lemma checkToken_retires (token : TokenTrack) (t : Table) :
  devSold env (tokenAddress token) = true ->
  (forall p, observedPrice env (tokenAddress token) = Some p ->
             dbThrows env (SqlUpdatePrice (tokenAddress token) p) = false) ->
  dbThrows env (SqlUpdateStatus (tokenAddress token) inactive) = false ->
  In (Sql (SqlUpdateStatus (tokenAddress token) inactive))
    (effectsOf (TokenMonitorService.checkToken env token t)).
Proof.
  unfold_handlers. crunch; intros Hd Hp Hs; try discriminate;
    try (specialize (Hp _ eq_refl)); try congruence;
    cbn; rewrite ?in_app_iff; cbn; tauto.
Qed.

(** The statements of a tick, on the table it read. *)
Lemma tick_price_update (t : Table) (b : address) (p : Q) :
  In (Sql (SqlUpdatePrice b p)) (effectsOf (TokenMonitorService.monitoringTick env t)) ->
  observedPrice env b = Some p
  /\ exists r, In r (DatabaseService.selectActive t) /\ tokenAddress r = b.
Proof.
  destruct (dbThrows env SqlSelectActive) eqn:Hdb.
  - rewrite tick_fault by assumption. cbn. intros [H|[H|[]]]; discriminate.
  - rewrite tick_unfold by assumption. cbn [effectsOf snd].
    intros [H|H]; [discriminate|].
    apply forOf_effects_inv in H as (x & u & Hx & He);
      [|apply checkToken_returns].
    apply checkToken_price_update in He as [-> Hp]. split; [exact Hp|].
    now exists x.
Qed.

Lemma tick_status_update (t : Table) (b : address) (st : Status) :
  In (Sql (SqlUpdateStatus b st)) (effectsOf (TokenMonitorService.monitoringTick env t)) ->
  st = inactive /\ devSold env b = true
  /\ exists r, In r (DatabaseService.selectActive t) /\ tokenAddress r = b.
Proof.
  destruct (dbThrows env SqlSelectActive) eqn:Hdb.
  - rewrite tick_fault by assumption. cbn. intros [H|[H|[]]]; discriminate.
  - rewrite tick_unfold by assumption. cbn [effectsOf snd].
    intros [H|H]; [discriminate|].
    apply forOf_effects_inv in H as (x & u & Hx & He);
      [|apply checkToken_returns].
    apply checkToken_status_update in He as (-> & Hst & Hd).
    split; [exact Hst|]. split; [exact Hd|]. now exists x.
Qed.

Lemma tick_updates_price (t : Table) (r : TokenTrack) (p : Q) :
  dbThrows env SqlSelectActive = false ->
  In r (DatabaseService.selectActive t) ->
  observedPrice env (tokenAddress r) = Some p ->
  dbThrows env (SqlUpdatePrice (tokenAddress r) p) = false ->
  In (Sql (SqlUpdatePrice (tokenAddress r) p))
    (effectsOf (TokenMonitorService.monitoringTick env t)).
Proof.
  intros Hdb Hin Hp Hup. rewrite tick_unfold by assumption.
  cbn [effectsOf snd]. right.
  apply forOf_effects_In with (x := r);
    [apply checkToken_returns|exact Hin|].
  intros u. now apply checkToken_updates_price.
Qed.

Lemma tick_retires (t : Table) (r : TokenTrack) :
  dbThrows env SqlSelectActive = false ->
  In r (DatabaseService.selectActive t) ->
  devSold env (tokenAddress r) = true ->
  (forall p, observedPrice env (tokenAddress r) = Some p ->
             dbThrows env (SqlUpdatePrice (tokenAddress r) p) = false) ->
  dbThrows env (SqlUpdateStatus (tokenAddress r) inactive) = false ->
  In (Sql (SqlUpdateStatus (tokenAddress r) inactive))
    (effectsOf (TokenMonitorService.monitoringTick env t)).
Proof.
  intros Hdb Hin Hd Hp Hs. rewrite tick_unfold by assumption.
  cbn [effectsOf snd]. right.
  apply forOf_effects_In with (x := r);
    [apply checkToken_returns|exact Hin|].
  intros u. now apply checkToken_retires.
Qed.

End OverlappedTick.

(** ** The segments of a handler and its statements *)

Section Logs.

Variable cfg : Config.

Lemma writesOf_In (c : DbCall) (es : list Effect) :
  In (Sql c) es -> isWrite c = true -> In c (writesOf es).
Proof.
  intros Hin Hw. unfold writesOf. apply in_flat_map. exists (Sql c).
  split; [exact Hin|]. rewrite Hw. now left.
Qed.

Lemma log_write (h : Handler) (log : list Segment) (c : DbCall) :
  Forall (fun seg => Wrote h (found seg) (left seg) (said seg)) log ->
  isWrite c = true -> In (Sql c) (saidIn log) ->
  exists t t', In (t, t', [Sql c]) log /\ Wrote h t t' [Sql c].
Proof.
  intros Hlog Hw Hin. unfold saidIn in Hin.
  apply in_flat_map in Hin as ([[t t'] es] & Hseg & Hes).
  rewrite Forall_forall in Hlog. pose proof (Hlog _ Hseg) as HW.
  unfold found, left, said in *. cbn [fst snd] in *.
  exists t, t'.
  assert (Hone : es = [Sql c]).
  { destruct HW as [es' Hno|a p _ _|a _|a p _ _|_];
      try (destruct Hes as [<-|[]]; reflexivity).
    pose proof (writesOf_In _ _ Hes Hw) as Hc. rewrite Hno in Hc. destruct Hc. }
  subst es. split; assumption.
Qed.

Lemma log_price_update (h : Handler) (log : list Segment) (a : address) (p : Q) :
  Forall (fun seg => Wrote h (found seg) (left seg) (said seg)) log ->
  In (Sql (SqlUpdatePrice a p)) (saidIn log) ->
  exists t,
    In (t, DatabaseService.setPrice a p (now (worldOf h)) t,
        [Sql (SqlUpdatePrice a p)]) log.
Proof.
  intros Hlog Hin.
  destruct (log_write h log (SqlUpdatePrice a p) Hlog eq_refl Hin)
    as (t & t' & Hseg & HW).
  exists t.
  inversion HW; subst; try exact Hseg.
  match goal with H : writesOf _ = [] |- _ => discriminate H end.
Qed.

Lemma log_status_update (h : Handler) (log : list Segment) (a : address) :
  Forall (fun seg => Wrote h (found seg) (left seg) (said seg)) log ->
  In (Sql (SqlUpdateStatus a inactive)) (saidIn log) ->
  exists t,
    In (t, DatabaseService.setStatus a inactive (now (worldOf h)) t,
        [Sql (SqlUpdateStatus a inactive)]) log.
Proof.
  intros Hlog Hin.
  destruct (log_write h log (SqlUpdateStatus a inactive) Hlog eq_refl Hin)
    as (t & t' & Hseg & HW).
  exists t.
  inversion HW; subst; try exact Hseg.
  match goal with H : writesOf _ = [] |- _ => discriminate H end.
Qed.

Lemma log_enrollment (h : Handler) (log : list Segment) (row : TokenTrack) :
  Forall (fun seg => Wrote h (found seg) (left seg) (said seg)) log ->
  In (Sql (SqlInsertOrReplace row)) (saidIn log) ->
  exists t,
    In (t, DatabaseService.insertOrReplace row t, [Sql (SqlInsertOrReplace row)])
      log.
Proof.
  intros Hlog Hin.
  destruct (log_write h log (SqlInsertOrReplace row) Hlog eq_refl Hin)
    as (t & t' & Hseg & HW).
  exists t.
  inversion HW; subst; try exact Hseg.
  match goal with H : writesOf _ = [] |- _ => discriminate H end.
Qed.

(** A handler of the event loop that ran to its end, whatever ran in
    between: the table its first segment found is one the event loop
    reached, each of its segments is one statement on the table as it
    was then, and together they are the handler run on the tables it
    found. *)
Lemma ran_runSeen (mvs : list Move) (h : Handler) (t0 : Table)
    (log : list Segment) :
  ran cfg mvs h t0 log ->
  UniqueKeys t0
  /\ Forall (fun seg => Wrote h (found seg) (left seg) (said seg)) log
  /\ exists seen, seen 0%nat = t0 /\ snd (runSeen (programOf cfg h) seen 0) = log.
Proof.
  intros (i & r & Hend & -> & Hhd).
  pose proof (thread_runs cfg mvs idle i _ _ Hend) as Hruns. cbv zeta in Hruns.
  assert (Hnone : nth_error (running idle) i = None) by now destruct i.
  rewrite Hnone in Hruns.
  destruct Hruns as (seen & _ & Hlog & Hfirst).
  cbn [runSeen snd] in Hlog. rewrite app_nil_r in Hlog.
  pose proof (threadLog_unique cfg mvs idle i Tame_idle unique_idle) as Hu.
  pose proof (threadLog_wrote cfg mvs idle i _ _ Tame_idle Hend) as Hw.
  destruct (threadLog cfg idle mvs i) as [|seg log] eqn:Hl; [discriminate|].
  cbn [hd_error option_map] in Hhd. injection Hhd as Ht0.
  split; [|split].
  - inversion Hu; subst. assumption.
  - exact Hw.
  - exists seen. split; [now rewrite Hfirst|exact Hlog].
Qed.

(** The statements and buys of a tick of the event loop are those of the
    tick run in one piece on the table it read. *)
Lemma tick_in_loop (mvs : list Move) (env : Env) (t0 : Table)
    (log : list Segment) :
  ran cfg mvs (HMonitoringTick env) t0 log ->
  UniqueKeys t0
  /\ saidIn log = effectsOf (TokenMonitorService.monitoringTick env t0)
  /\ Forall (fun seg => Wrote (HMonitoringTick env) (found seg) (left seg) (said seg))
       log.
Proof.
  intros Hran. destruct (ran_runSeen _ _ _ _ Hran) as (Hu & Hw & seen & H0 & Hlog).
  split; [exact Hu|]. split; [|exact Hw].
  destruct (monitoringTick_overlapped env seen 0) as [_ Hsaid].
  cbn [programOf] in Hlog. now rewrite Hlog, H0 in Hsaid.
Qed.

(** The same of a discovery: it asks the table for the token once, in
    its first segment. *)
Lemma discovery_in_loop (mvs : list Move) (env : Env) (d : option TxDetails)
    (t0 : Table) (log : list Segment) :
  ran cfg mvs (HDiscovery env d) t0 log ->
  UniqueKeys t0
  /\ saidIn log
     = effectsOf (TokenMonitorService.handleNewTokenFromWebsocket env d t0)
  /\ Forall (fun seg => Wrote (HDiscovery env d) (found seg) (left seg) (said seg))
       log.
Proof.
  intros Hran. destruct (ran_runSeen _ _ _ _ Hran) as (Hu & Hw & seen & H0 & Hlog).
  split; [exact Hu|]. split; [|exact Hw].
  destruct (handleNewTokenFromWebsocket_overlapped env d seen 0) as [_ Hsaid].
  cbn [programOf] in Hlog. now rewrite Hlog, H0 in Hsaid.
Qed.

End Logs.

(** ** Records under every schedule *)

Section Records.

Variable cfg : Config.

Lemma RowStep_present (h : Handler) (a : address) (r : TokenTrack)
    (o' : option TokenTrack) (es : list Effect) :
  RowStep h a (Some r) o' es ->
  (o' = Some r /\ enrollsOf a es = [])
  \/ (exists p, polls h = true /\ observedPrice (worldOf h) a = Some p
                /\ es = [Sql (SqlUpdatePrice a p)]
                /\ o' = Some (mkToken (tokenAddress r) (timestamp r) p
                                (now (worldOf h)) (status r)))
  \/ (retires h = true /\ es = [Sql (SqlUpdateStatus a inactive)]
      /\ o' = Some (mkToken (tokenAddress r) (timestamp r) (price r)
                      (now (worldOf h)) inactive))
  \/ (exists p, enrolls h = true /\ observedPrice (worldOf h) a = Some p
                /\ es = [Sql (SqlInsertOrReplace
                                (mkToken a (now (worldOf h)) p (now (worldOf h))
                                   active))]
                /\ o' = Some (mkToken a (now (worldOf h)) p (now (worldOf h))
                                active))
  \/ (cleans h = true /\ status r = inactive
      /\ (lastCheck r
          < now (worldOf h)
            - TokenMonitorService.TOKEN_MAX_AGE_HOURS * 60 * 60 * 1000)%Z
      /\ es = [Sql (SqlDeleteOld TokenMonitorService.TOKEN_MAX_AGE_HOURS)]
      /\ o' = None).
Proof.
  intros H. inversion H; subst.
  - left. now split.
  - right. left. eexists. repeat split; eassumption || reflexivity.
  - right. right. left. now repeat split.
  - right. right. right. left. eexists. repeat split; eassumption || reflexivity.
  - right. right. right. right. now repeat split.
Qed.

Lemma RowStep_absent (h : Handler) (a : address) (o' : option TokenTrack)
    (es : list Effect) :
  RowStep h a None o' es ->
  (o' = None /\ enrollsOf a es = [])
  \/ (exists p, enrolls h = true /\ observedPrice (worldOf h) a = Some p
                /\ es = [Sql (SqlInsertOrReplace
                                (mkToken a (now (worldOf h)) p (now (worldOf h))
                                   active))]
                /\ o' = Some (mkToken a (now (worldOf h)) p (now (worldOf h))
                                active)).
Proof.
  intros H. inversion H; subst.
  - left. now split.
  - right. eexists. repeat split; eassumption || reflexivity.
Qed.




(** What one move of the event loop does to the record of [a], and which
    handler does it. *)
Lemma move_record (s : Concurrent) (mv : Move) (a : address) (r : TokenTrack) :
  Tame s -> UniqueKeys (store s) ->
  DatabaseService.selectToken a (store s) = Some r ->
  let o' := DatabaseService.selectToken a (store (fst (move cfg s mv))) in
  let es := snd (move cfg s mv) in
  (o' = Some r /\ enrollsOf a es = [])
  \/ (exists h p, movedBy s mv h /\ polls h = true
                  /\ observedPrice (worldOf h) a = Some p
                  /\ es = [Sql (SqlUpdatePrice a p)]
                  /\ o' = Some (mkToken (tokenAddress r) (timestamp r) p
                                  (now (worldOf h)) (status r)))
  \/ (exists h, movedBy s mv h /\ retires h = true
                /\ es = [Sql (SqlUpdateStatus a inactive)]
                /\ o' = Some (mkToken (tokenAddress r) (timestamp r) (price r)
                                (now (worldOf h)) inactive))
  \/ (exists h p, movedBy s mv h /\ enrolls h = true
                  /\ observedPrice (worldOf h) a = Some p
                  /\ es = [Sql (SqlInsertOrReplace
                                  (mkToken a (now (worldOf h)) p (now (worldOf h))
                                     active))]
                  /\ o' = Some (mkToken a (now (worldOf h)) p (now (worldOf h))
                                  active))
  \/ (exists h, movedBy s mv h /\ cleans h = true /\ status r = inactive
                /\ (lastCheck r
                    < now (worldOf h)
                      - TokenMonitorService.TOKEN_MAX_AGE_HOURS * 60 * 60 * 1000)%Z
                /\ es = [Sql (SqlDeleteOld TokenMonitorService.TOKEN_MAX_AGE_HOURS)]
                /\ o' = None).
Proof.
  intros Ht Hu Hsel. cbv zeta.
  destruct (move_row cfg s mv a Ht Hu) as [[Hsame Hno]|(i & h & p & Hmv & Hn & Hrow)].
  - left. split; [now rewrite Hsame|exact Hno].
  - assert (Hby : movedBy s mv h) by (now exists i, p).
    rewrite Hsel in Hrow.
    destruct (RowStep_present _ _ _ _ _ Hrow)
      as [H|[(q & H)|[H|[(q & H)|H]]]].
    + now left.
    + right. left. now exists h, q.
    + right. right. left. now exists h.
    + right. right. right. left. now exists h, q.
    + right. right. right. right. now exists h.
Qed.

Lemma move_enrolls (s : Concurrent) (mv : Move) (a : address) :
  Tame s -> UniqueKeys (store s) ->
  DatabaseService.selectToken a (store s) = None ->
  let o' := DatabaseService.selectToken a (store (fst (move cfg s mv))) in
  let es := snd (move cfg s mv) in
  (o' = None /\ enrollsOf a es = [])
  \/ (exists h p, movedBy s mv h /\ enrolls h = true
                  /\ observedPrice (worldOf h) a = Some p
                  /\ es = [Sql (SqlInsertOrReplace
                                  (mkToken a (now (worldOf h)) p (now (worldOf h))
                                     active))]
                  /\ o' = Some (mkToken a (now (worldOf h)) p (now (worldOf h))
                                  active)).
Proof.
  intros Ht Hu Hsel. cbv zeta.
  destruct (move_row cfg s mv a Ht Hu) as [[Hsame Hno]|(i & h & p & Hmv & Hn & Hrow)].
  - left. split; [now rewrite Hsame|exact Hno].
  - assert (Hby : movedBy s mv h) by (now exists i, p).
    rewrite Hsel in Hrow.
    destruct (RowStep_absent _ _ _ _ Hrow) as [H|(q & H)].
    + now left.
    + right. now exists h, q.
Qed.


End Records.

Section PollsInLoop.

Variable env : Env.

Lemma tick_buysFor_any (t : Table) (a : address) (r : TokenTrack) :
  UniqueKeys t -> DatabaseService.selectToken a t = Some r ->
  buysFor a (effectsOf (TokenMonitorService.monitoringTick env t))
  = if dbThrows env SqlSelectActive then []
    else if Status_eqb (status r) active && buyTriggered env r then [a] else [].
Proof.
  intros Hu Hsel. destruct (dbThrows env SqlSelectActive) eqn:Hdb.
  - now rewrite tick_fault.
  - now apply tick_buysFor.
Qed.

(** A tick issues no statement and no buy for a token that is not
    active in the table it read. *)
Lemma tick_skips_inactive (t : Table) (a : address) (r : TokenTrack) :
  UniqueKeys t -> DatabaseService.selectToken a t = Some r ->
  status r = inactive ->
  buysFor a (effectsOf (TokenMonitorService.monitoringTick env t)) = []
  /\ (forall p, ~ In (Sql (SqlUpdatePrice a p))
                    (effectsOf (TokenMonitorService.monitoringTick env t)))
  /\ (forall st, ~ In (Sql (SqlUpdateStatus a st))
                     (effectsOf (TokenMonitorService.monitoringTick env t))).
Proof.
  intros Hu Hsel Hst.
  assert (Hnone : forall x, In x (DatabaseService.selectActive t) ->
                            tokenAddress x = a -> False).
  { intros x Hx Ha. apply filter_In in Hx as [Hin Hact].
    pose proof (select_unique _ _ Hu Hin) as Hx. rewrite Ha, Hsel in Hx.
    injection Hx as <-. now rewrite Hst in Hact. }
  split; [|split].
  - rewrite (tick_buysFor_any t a r Hu Hsel), Hst. cbn [Status_eqb andb].
    now destruct (dbThrows env SqlSelectActive).
  - intros p Hp. apply tick_price_update in Hp as (_ & x & Hx & Ha).
    exact (Hnone x Hx Ha).
  - intros st Hs. apply tick_status_update in Hs as (_ & _ & x & Hx & Ha).
    exact (Hnone x Hx Ha).
Qed.

End PollsInLoop.

(* ===================================================================== *)
(** * Properties of the design document, under every schedule *)
(* ===================================================================== *)




(** C4 (counterexample).  [Addr1] is enrolled at price 1; one poll that
    observes 3.5 leaves 3.5 in the stored price: the price written at
    enrollment has been overwritten. *)
Lemma C4_counterexample :
  option_map price (DatabaseService.selectToken Addr1 (tokens enrolled1)) = Some 1
  /\ option_map price
       (DatabaseService.selectToken Addr1
          (tokens (fst (step liveConfig enrolled1 (EvMonitoringTick (priced 3.5))))))
     = Some 3.5
  /\ ~ 3.5 == 1.
Proof.
  split; [vm_compute; reflexivity|]. split; [vm_compute; reflexivity|].
  intros H. vm_compute in H. discriminate.
Qed.

(** C4 (amended).  The stored price of a token is written at enrollment,
    with the price fetched then: a discovery that finds no record of the
    token, passes the rug check and obtains a price issues the
    enrollment write with that price, and a record appears in no other
    way.  Afterwards the price is not fixed.  Under every schedule, one
    segment of a handler leaves the price and the discovery timestamp of
    a stored record, or it is the price update of a poll cycle, which
    puts the price that poll observed and the time of the poll in the
    place of the price and of the last-checked timestamp and leaves the
    rest, or it is an enrollment write for the same address, which
    replaces the whole record.  A poll cycle that read the token as
    active and obtains a price issues that update; one that obtains none
    issues no price update.  The buy trigger of a poll cycle compares
    the price it observed with the price the token had in the list of
    active tokens the cycle read. *)
Theorem C4_stored_price (cfg : Config) (a : address) :
  (forall mvs env d t0 log q,
      ran cfg mvs (HDiscovery env (Some d)) t0 log ->
      noDbFault env -> mint d = Some a -> a <> [] ->
      DatabaseService.selectToken a t0 = None ->
      getRugCheckConfirmed env a = Resolves true ->
      observedPrice env a = Some q ->
      exists t,
        In (t,
            DatabaseService.insertOrReplace
              (mkToken a (now env) q (now env) active) t,
            [Sql (SqlInsertOrReplace (mkToken a (now env) q (now env) active))])
          log)
  /\ (forall mvs mv r',
         let s := fst (play cfg idle mvs) in
         DatabaseService.selectToken a (store s) = None ->
         DatabaseService.selectToken a (store (fst (move cfg s mv))) = Some r' ->
         exists h p,
           movedBy s mv h /\ enrolls h = true
           /\ observedPrice (worldOf h) a = Some p
           /\ r' = mkToken a (now (worldOf h)) p (now (worldOf h)) active)
  /\ (forall mvs mv r r',
         let s := fst (play cfg idle mvs) in
         DatabaseService.selectToken a (store s) = Some r ->
         DatabaseService.selectToken a (store (fst (move cfg s mv))) = Some r' ->
         (price r' = price r /\ timestamp r' = timestamp r
          /\ enrollsOf a (snd (move cfg s mv)) = [])
         \/ (exists h p,
                movedBy s mv h /\ polls h = true
                /\ observedPrice (worldOf h) a = Some p
                /\ snd (move cfg s mv) = [Sql (SqlUpdatePrice a p)]
                /\ r' = mkToken (tokenAddress r) (timestamp r) p (now (worldOf h))
                          (status r))
         \/ (exists h p,
                movedBy s mv h /\ enrolls h = true
                /\ observedPrice (worldOf h) a = Some p
                /\ snd (move cfg s mv)
                   = [Sql (SqlInsertOrReplace
                             (mkToken a (now (worldOf h)) p (now (worldOf h)) active))]
                /\ r' = mkToken a (now (worldOf h)) p (now (worldOf h)) active))
  /\ (forall mvs env t0 log r,
         ran cfg mvs (HMonitoringTick env) t0 log ->
         DatabaseService.selectToken a t0 = Some r -> status r = active ->
         noDbFault env ->
         match observedPrice env a with
         | Some p =>
             (exists t,
                 In (t, DatabaseService.setPrice a p (now env) t,
                     [Sql (SqlUpdatePrice a p)]) log)
             /\ buysFor a (saidIn log)
                = if TokenMonitorService.thresholdMet p (price r) then [a] else []
         | None =>
             (forall p, ~ In (Sql (SqlUpdatePrice a p)) (saidIn log))
             /\ buysFor a (saidIn log) = []
         end)
  /\ (forall p n t x,
         DatabaseService.selectToken a t = Some x ->
         DatabaseService.selectToken a (DatabaseService.setPrice a p n t)
         = Some (mkToken (tokenAddress x) (timestamp x) p n (status x))).
Proof.
  split; [|split; [|split; [|split]]].
  - intros mvs env d t0 log q Hran Hdb Hm Hne Habs Hrug Hobs.
    destruct (discovery_in_loop cfg _ _ _ _ _ Hran) as (_ & Hsaid & Hw).
    apply (log_enrollment _ _ _ Hw). rewrite Hsaid.
    now apply handleNew_enrollment_write.
  - intros mvs mv r' s Hsel Hsel'.
    assert (Ht : Tame s) by (apply Tame_play, Tame_idle).
    assert (Hu : UniqueKeys (store s))
      by (apply unique_play; [apply Tame_idle|apply unique_idle]).
    destruct (move_enrolls cfg s mv a Ht Hu Hsel) as [[H _]|(h & p & Hby & Hh & Hp & _ & H)].
    + rewrite H in Hsel'. discriminate Hsel'.
    + rewrite H in Hsel'. injection Hsel' as <-. now exists h, p.
  - intros mvs mv r r' s Hsel Hsel'.
    assert (Ht : Tame s) by (apply Tame_play, Tame_idle).
    assert (Hu : UniqueKeys (store s))
      by (apply unique_play; [apply Tame_idle|apply unique_idle]).
    destruct (move_record cfg s mv a r Ht Hu Hsel)
      as [[H Hno]|[(h & p & Hby & Hh & Hp & He & H)|[(h & _ & _ & He & H)
         |[(h & p & Hby & Hh & Hp & He & H)|(h & _ & _ & _ & _ & _ & H)]]]];
      rewrite H in Hsel'; try discriminate Hsel'; injection Hsel' as <-.
    + left. now repeat split.
    + right. left. now exists h, p.
    + left. split; [reflexivity|]. split; [reflexivity|]. now rewrite He.
    + right. right. now exists h, p.
  - intros mvs env t0 log r Hran Hsel Hact Hdb.
    destruct (tick_in_loop cfg _ _ _ _ Hran) as (Hu & Hsaid & Hw).
    pose proof (select_In _ _ _ Hsel) as [Hin Ha].
    assert (Hinact : In r (DatabaseService.selectActive t0)).
    { apply filter_In. split; [exact Hin|]. now rewrite Hact. }
    assert (Hbuys : buysFor a (saidIn log)
                    = match observedPrice env a with
                      | Some p =>
                          if TokenMonitorService.thresholdMet p (price r)
                          then [a] else []
                      | None => []
                      end).
    { rewrite Hsaid, (tick_buysFor env t0 a r (Hdb _) Hu Hsel), Hact.
      rewrite buyTriggered_noFault by assumption. rewrite Ha.
      cbn [Status_eqb andb]. now destruct (observedPrice env a). }
    destruct (observedPrice env a) as [p|] eqn:Hobs.
    + split; [|exact Hbuys].
      apply (log_price_update _ _ _ _ Hw). rewrite Hsaid, <- Ha.
      apply tick_updates_price; rewrite ?Ha; auto.
    + split; [|exact Hbuys].
      intros p Hp. rewrite Hsaid in Hp.
      apply tick_price_update in Hp as [Hp _]. congruence.
  - intros p n t x Hx. rewrite select_setPrice, jsstring_eqb_refl, Hx. reflexivity.
Qed.

Lemma C4_stored_price_witness :
  ran liveConfig twoDiscoveries (HDiscovery (priced 2) (discover AddrX)) [row1]
    (threadLog liveConfig idle twoDiscoveries 1)
  /\ (exists t,
         In (t, DatabaseService.insertOrReplace (mkToken AddrX 0 2 0 active) t,
             [Sql (SqlInsertOrReplace (mkToken AddrX 0 2 0 active))])
           (threadLog liveConfig idle twoDiscoveries 1))
  /\ ran liveConfig (twoPolls 3.6) (HMonitoringTick (priced 3.5)) [row1]
       (threadLog liveConfig idle (twoPolls 3.6) 1)
  /\ (exists t,
         In (t, DatabaseService.setPrice Addr1 3.5 0 t, [Sql (SqlUpdatePrice Addr1 3.5)])
           (threadLog liveConfig idle (twoPolls 3.6) 1))
  /\ buysFor Addr1 (saidIn (threadLog liveConfig idle (twoPolls 3.6) 1))
     = (if TokenMonitorService.thresholdMet 3.5 (price row1) then [Addr1] else []).
Proof.
  assert (H1 : ran liveConfig twoDiscoveries (HDiscovery (priced 2) (discover AddrX))
                 [row1] (threadLog liveConfig idle twoDiscoveries 1)).
  { exists 1%nat, (Returns tt). repeat split; vm_compute; reflexivity. }
  assert (H2 : ran liveConfig (twoPolls 3.6) (HMonitoringTick (priced 3.5)) [row1]
                 (threadLog liveConfig idle (twoPolls 3.6) 1)).
  { exists 1%nat, (Returns tt). repeat split; vm_compute; reflexivity. }
  destruct (C4_stored_price liveConfig AddrX) as (Henroll & _).
  destruct (C4_stored_price liveConfig Addr1) as (_ & _ & _ & Hpoll & _).
  split; [exact H1|]. split.
  { apply (Henroll twoDiscoveries (priced 2) (mkTxDetails (Some AddrX)) [row1] _ 2 H1);
      [intros c; reflexivity|reflexivity|discriminate
      |vm_compute; reflexivity|reflexivity|reflexivity]. }
  split; [exact H2|].
  exact (Hpoll (twoPolls 3.6) (priced 3.5) [row1] _ row1 H2 eq_refl eq_refl
           (fun _ => eq_refl)).
Defined.

(** C5 (counterexample).  [Addr1] is enrolled at price 1.0; a poll
    observing 3.5 dispatches a buy, and a second poll observing 11, a
    price that is still above the original reference, dispatches a second
    buy. *)
Lemma C5_counterexample :
  option_map price (DatabaseService.selectToken Addr1 (tokens enrolled1)) = Some 1
  /\ buysFor Addr1 (snd (step liveConfig enrolled1 (EvMonitoringTick (priced 3.5))))
     = [Addr1]
  /\ 1 < 11
  /\ buysFor Addr1
       (snd (step liveConfig
               (fst (step liveConfig enrolled1 (EvMonitoringTick (priced 3.5))))
               (EvMonitoringTick (priced 11))))
     = [Addr1].
Proof.
  repeat split; vm_compute; reflexivity.
Qed.

(** C5 (amended).  Under every schedule, a poll cycle that read a token
    as active with a positive stored price dispatches at most one buy
    for it; when the driver works, it dispatches exactly one when the
    price it observes is more than three times (more than 200% above)
    the price the token had in the list the cycle read, and none
    otherwise, and it issues the update that stores the observed price.
    So a poll cycle that reads the token while the price observed by the
    first is the stored one dispatches no second buy when it observes no
    more than three times that price (stored 1.0, polls observing 3.5
    and then 3.6: one buy in all), and dispatches another buy when it
    observes more (3.5 and then 11). *)
Theorem C5_one_buy_per_crossing (cfg : Config) (mvs : list Move) (env : Env)
    (t0 : Table) (log : list Segment) (a : address) (r : TokenTrack) :
  ran cfg mvs (HMonitoringTick env) t0 log ->
  DatabaseService.selectToken a t0 = Some r ->
  status r = active ->
  0 < price r ->
  (List.length (buysFor a (saidIn log)) <= 1)%nat
  /\ (observedPrice env a = None -> buysFor a (saidIn log) = [])
  /\ (noDbFault env ->
      forall p,
        observedPrice env a = Some p ->
        (3 * price r < p -> buysFor a (saidIn log) = [a])
        /\ (p <= 3 * price r -> buysFor a (saidIn log) = [])
        /\ (exists t,
               In (t, DatabaseService.setPrice a p (now env) t,
                   [Sql (SqlUpdatePrice a p)]) log)
        /\ (forall t x,
               DatabaseService.selectToken a t = Some x ->
               option_map price
                 (DatabaseService.selectToken a
                    (DatabaseService.setPrice a p (now env) t))
               = Some p)
        /\ (3 * price r < p ->
            forall mvs2 env2 t2 log2 r2 q,
              ran cfg mvs2 (HMonitoringTick env2) t2 log2 ->
              DatabaseService.selectToken a t2 = Some r2 ->
              status r2 = active -> price r2 = p ->
              noDbFault env2 -> observedPrice env2 a = Some q ->
              (q <= 3 * p -> buysFor a (saidIn log2) = [])
              /\ (3 * p < q -> buysFor a (saidIn log2) = [a]))).
Proof.
  intros Hran Hsel Hact Hpos.
  assert (Hbuys : forall mvs' env' t' log' r',
             ran cfg mvs' (HMonitoringTick env') t' log' ->
             DatabaseService.selectToken a t' = Some r' -> status r' = active ->
             noDbFault env' ->
             buysFor a (saidIn log')
             = match observedPrice env' a with
               | Some p =>
                   if TokenMonitorService.thresholdMet p (price r') then [a] else []
               | None => []
               end).
  { intros mvs' env' t' log' r' Hran' Hsel' Hact' Hdb'.
    destruct (tick_in_loop cfg _ _ _ _ Hran') as (Hu' & Hsaid' & _).
    pose proof (select_In _ _ _ Hsel') as [_ Ha'].
    rewrite Hsaid', (tick_buysFor env' t' a r' (Hdb' _) Hu' Hsel'), Hact'.
    rewrite buyTriggered_noFault by assumption. rewrite Ha'.
    cbn [Status_eqb andb]. now destruct (observedPrice env' a). }
  assert (Hcross : forall p q : Q, 0 < p ->
             (q <= 3 * p ->
              (if TokenMonitorService.thresholdMet q p then [a] else []) = [])
             /\ (3 * p < q ->
                 (if TokenMonitorService.thresholdMet q p then [a] else []) = [a])).
  { intros p q Hp. pose proof (thresholdMet_spec q p Hp) as Hspec.
    destruct (TokenMonitorService.thresholdMet q p).
    - assert (3 * p < q) by now apply Hspec. split; [lra|reflexivity].
    - split; [reflexivity|]. intros Hlt. apply Hspec in Hlt. discriminate Hlt. }
  destruct (tick_in_loop cfg _ _ _ _ Hran) as (Hu & Hsaid & Hw).
  pose proof (select_In _ _ _ Hsel) as [Hin Ha].
  split; [|split].
  - rewrite Hsaid, (tick_buysFor_any env t0 a r Hu Hsel).
    destruct (dbThrows env SqlSelectActive); [cbn; lia|].
    destruct (Status_eqb (status r) active && buyTriggered env r); cbn; lia.
  - intros Hnone. rewrite Hsaid, (tick_buysFor_any env t0 a r Hu Hsel).
    unfold buyTriggered. rewrite Ha, Hnone, andb_false_r.
    now destruct (dbThrows env SqlSelectActive).
  - intros Hdb p Hobs.
    pose proof (Hbuys _ _ _ _ _ Hran Hsel Hact Hdb) as Hb. rewrite Hobs in Hb.
    destruct (Hcross (price r) p Hpos) as [Hle Hgt].
    split; [intros H; rewrite Hb; now apply Hgt|].
    split; [intros H; rewrite Hb; now apply Hle|].
    split.
    { apply (log_price_update _ _ _ _ Hw). rewrite Hsaid, <- Ha.
      apply tick_updates_price; rewrite ?Ha; auto.
      apply filter_In. split; [exact Hin|]. now rewrite Hact. }
    split.
    { intros t x Hx. now rewrite select_setPrice, jsstring_eqb_refl, Hx. }
    intros Hcrossed mvs2 env2 t2 log2 r2 q Hran2 Hsel2 Hact2 Hp2 Hdb2 Hobs2.
    pose proof (Hbuys _ _ _ _ _ Hran2 Hsel2 Hact2 Hdb2) as Hb2.
    rewrite Hobs2, Hp2 in Hb2. rewrite Hb2. apply Hcross. lra.
Qed.

Lemma C5_one_buy_per_crossing_witness :
  ran liveConfig (twoPolls 3.6) (HMonitoringTick (priced 3.5)) [row1]
    (threadLog liveConfig idle (twoPolls 3.6) 1)
  /\ buysFor Addr1 (saidIn (threadLog liveConfig idle (twoPolls 3.6) 1)) = [Addr1]
  /\ ran liveConfig (twoPolls 3.6) (HMonitoringTick (priced 3.6))
       [mkToken Addr1 0 3.5 0 active]
       (threadLog liveConfig idle (twoPolls 3.6) 2)
  /\ buysFor Addr1 (saidIn (threadLog liveConfig idle (twoPolls 3.6) 2)) = []
  /\ ran liveConfig (twoPolls 11) (HMonitoringTick (priced 11))
       [mkToken Addr1 0 3.5 0 active]
       (threadLog liveConfig idle (twoPolls 11) 2)
  /\ buysFor Addr1 (saidIn (threadLog liveConfig idle (twoPolls 11) 2)) = [Addr1].
Proof.
  assert (H1 : ran liveConfig (twoPolls 3.6) (HMonitoringTick (priced 3.5)) [row1]
                 (threadLog liveConfig idle (twoPolls 3.6) 1)).
  { exists 1%nat, (Returns tt). repeat split; vm_compute; reflexivity. }
  assert (H2 : ran liveConfig (twoPolls 3.6) (HMonitoringTick (priced 3.6))
                 [mkToken Addr1 0 3.5 0 active]
                 (threadLog liveConfig idle (twoPolls 3.6) 2)).
  { exists 2%nat, (Returns tt). repeat split; vm_compute; reflexivity. }
  assert (H3 : ran liveConfig (twoPolls 11) (HMonitoringTick (priced 11))
                 [mkToken Addr1 0 3.5 0 active]
                 (threadLog liveConfig idle (twoPolls 11) 2)).
  { exists 2%nat, (Returns tt). repeat split; vm_compute; reflexivity. }
  assert (Hpos : 0 < price row1) by (cbn; lra).
  assert (Hup : 3 * price row1 < 3.5) by (cbn; lra).
  destruct (C5_one_buy_per_crossing liveConfig (twoPolls 3.6) (priced 3.5) [row1]
              _ Addr1 row1 H1 eq_refl eq_refl Hpos) as (_ & _ & Hpoll).
  destruct (Hpoll (fun _ => eq_refl) 3.5 eq_refl) as (Hbuy & _ & _ & _ & Hnext).
  split; [exact H1|]. split; [exact (Hbuy Hup)|]. split; [exact H2|].
  split.
  - refine (proj1 (Hnext Hup (twoPolls 3.6) (priced 3.6) _ _ _ 3.6 H2 eq_refl eq_refl
                     eq_refl (fun _ => eq_refl) eq_refl) _).
    lra.
  - split; [exact H3|].
    refine (proj2 (Hnext Hup (twoPolls 11) (priced 11) _ _ _ 11 H3 eq_refl eq_refl
                     eq_refl (fun _ => eq_refl) eq_refl) _).
    lra.
Defined.

(* ===================================================================== *)
(** * Further properties, under every schedule *)
(* ===================================================================== *)

(** X10.  When the developer of a token that is active in the table a
    tick read has sold, the tick issues the update that sets the token
    inactive with the time of the tick, whatever its price did and
    whatever other handlers run in between; if the tick observed a price
    above the threshold it buys the token as well.  Run with no other
    handler in between, the tick leaves the record inactive, with the
    time of the tick and the price it observed.  A tick that reads the
    table while the token is inactive issues no price update, no status
    update and no buy for it. *)
Theorem X10_dev_sold_retires (cfg : Config) (mvs : list Move) (env : Env)
    (t0 : Table) (log : list Segment) (a : address) (r : TokenTrack) :
  ran cfg mvs (HMonitoringTick env) t0 log ->
  noDbFault env ->
  DatabaseService.selectToken a t0 = Some r ->
  status r = active ->
  devSold env a = true ->
  (exists t,
      In (t, DatabaseService.setStatus a inactive (now env) t,
          [Sql (SqlUpdateStatus a inactive)]) log)
  /\ (forall t x,
         DatabaseService.selectToken a t = Some x ->
         DatabaseService.selectToken a
           (DatabaseService.setStatus a inactive (now env) t)
         = Some (mkToken (tokenAddress x) (timestamp x) (price x) (now env)
                   inactive))
  /\ buysFor a (saidIn log)
     = match observedPrice env a with
       | Some cur =>
           if TokenMonitorService.thresholdMet cur (price r) then [a] else []
       | None => []
       end
  /\ (exists r',
         DatabaseService.selectToken a
           (tableOf (runToEnd (Async.monitoringTick env) t0)) = Some r'
         /\ status r' = inactive
         /\ lastCheck r' = now env
         /\ price r' = match observedPrice env a with
                       | Some cur => cur
                       | None => price r
                       end)
  /\ (forall mvs2 env2 t2 log2 r2,
         ran cfg mvs2 (HMonitoringTick env2) t2 log2 ->
         DatabaseService.selectToken a t2 = Some r2 ->
         status r2 = inactive ->
         buysFor a (saidIn log2) = []
         /\ (forall p, ~ In (Sql (SqlUpdatePrice a p)) (saidIn log2))
         /\ (forall st, ~ In (Sql (SqlUpdateStatus a st)) (saidIn log2))).
Proof.
  intros Hran Hdb Hsel Hact Hdev.
  destruct (tick_in_loop cfg _ _ _ _ Hran) as (Hu & Hsaid & Hw).
  pose proof (select_In _ _ _ Hsel) as [Hin Ha].
  assert (Hinact : In r (DatabaseService.selectActive t0)).
  { apply filter_In. split; [exact Hin|]. now rewrite Hact. }
  split; [|split; [|split; [|split]]].
  - apply (log_status_update _ _ _ Hw). rewrite Hsaid, <- Ha.
    apply tick_retires; rewrite ?Ha; auto.
  - intros t x Hx. now rewrite select_setStatus, jsstring_eqb_refl, Hx.
  - rewrite Hsaid, (tick_buysFor env t0 a r (Hdb _) Hu Hsel), Hact.
    rewrite buyTriggered_noFault by assumption. rewrite Ha.
    cbn [Status_eqb andb]. now destruct (observedPrice env a).
  - rewrite monitoringTick_serial. exists (polled env r).
    split; [now rewrite (tick_select env t0 a Hdb Hu), Hsel, Hact|].
    split; [unfold polled; rewrite Ha, Hdev; reflexivity|].
    split; [unfold polled; rewrite Ha, Hdev; reflexivity|].
    now rewrite polled_price, Ha.
  - intros mvs2 env2 t2 log2 r2 Hran2 Hsel2 Hst2.
    destruct (tick_in_loop cfg _ _ _ _ Hran2) as (Hu2 & Hsaid2 & _).
    rewrite Hsaid2. now apply (tick_skips_inactive env2 t2 a r2).
Qed.

Lemma X10_dev_sold_retires_witness :
  ran liveConfig soldThenPolled
    (HMonitoringTick (withPrice devSellsEnv (Resolves (Some 3.5)))) [rowY]
    (threadLog liveConfig idle soldThenPolled 1)
  /\ (exists t,
         In (t, DatabaseService.setStatus AddrY inactive 0 t,
             [Sql (SqlUpdateStatus AddrY inactive)])
           (threadLog liveConfig idle soldThenPolled 1))
  /\ buysFor AddrY (saidIn (threadLog liveConfig idle soldThenPolled 1)) = [AddrY]
  /\ ran liveConfig soldThenPolled (HMonitoringTick (priced 11))
       [mkToken AddrY 0 3.5 0 inactive]
       (threadLog liveConfig idle soldThenPolled 2)
  /\ buysFor AddrY (saidIn (threadLog liveConfig idle soldThenPolled 2)) = [].
Proof.
  assert (H1 : ran liveConfig soldThenPolled
                 (HMonitoringTick (withPrice devSellsEnv (Resolves (Some 3.5))))
                 [rowY] (threadLog liveConfig idle soldThenPolled 1)).
  { exists 1%nat, (Returns tt). repeat split; vm_compute; reflexivity. }
  assert (H2 : ran liveConfig soldThenPolled (HMonitoringTick (priced 11))
                 [mkToken AddrY 0 3.5 0 inactive]
                 (threadLog liveConfig idle soldThenPolled 2)).
  { exists 2%nat, (Returns tt). repeat split; vm_compute; reflexivity. }
  destruct (X10_dev_sold_retires liveConfig soldThenPolled
              (withPrice devSellsEnv (Resolves (Some 3.5))) [rowY] _ AddrY rowY
              H1 (fun _ => eq_refl) eq_refl eq_refl eq_refl)
    as (Hupd & _ & Hbuy & _ & Hlater).
  split; [exact H1|]. split; [exact Hupd|]. split; [exact Hbuy|].
  split; [exact H2|].
  exact (proj1 (Hlater soldThenPolled (priced 11) _ _ _ H2 eq_refl eq_refl)).
Defined.

(** X15.  Under every schedule, one segment of a handler leaves a record
    that is in the table with its address and its discovery timestamp,
    unless it is an enrollment write for the address of the record
    (INSERT OR REPLACE, issued by a discovery or by the designation of
    the correct token), which puts a fresh active record in its place; a
    record that is active is never removed; and a record disappears only
    through the DELETE of the cleanup handler, when it is inactive and
    was last checked more than 72 hours before. *)
Theorem X15_records_persist (cfg : Config) (mvs : list Move) (mv : Move)
    (a : address) (r : TokenTrack) :
  let s := fst (play cfg idle mvs) in
  let s' := fst (move cfg s mv) in
  let es := snd (move cfg s mv) in
  DatabaseService.selectToken a (store s) = Some r ->
  (forall r', DatabaseService.selectToken a (store s') = Some r' ->
              (tokenAddress r' = tokenAddress r /\ timestamp r' = timestamp r
               /\ enrollsOf a es = [])
              \/ exists h p,
                   movedBy s mv h /\ enrolls h = true
                   /\ observedPrice (worldOf h) a = Some p
                   /\ es = [Sql (SqlInsertOrReplace r')]
                   /\ r' = mkToken a (now (worldOf h)) p (now (worldOf h)) active)
  /\ (status r = active -> DatabaseService.selectToken a (store s') <> None)
  /\ (DatabaseService.selectToken a (store s') = None ->
      status r = inactive
      /\ exists h,
           movedBy s mv h /\ cleans h = true
           /\ es = [Sql (SqlDeleteOld TokenMonitorService.TOKEN_MAX_AGE_HOURS)]
           /\ (lastCheck r < now (worldOf h) - 259200000)%Z).
Proof.
  intros s s' es Hsel. unfold s', es.
  assert (Ht : Tame s) by (apply Tame_play, Tame_idle).
  assert (Hu : UniqueKeys (store s))
    by (apply unique_play; [apply Tame_idle|apply unique_idle]).
  destruct (move_record cfg s mv a r Ht Hu Hsel)
    as [[H Hno]|[(h & p & _ & _ & _ & He & H)|[(h & _ & _ & He & H)
       |[(h & p & Hby & Hh & Hp & He & H)|(h & Hby & Hh & Hst & Hold & He & H)]]]];
    rewrite H.
  - split; [|split; [discriminate|discriminate]].
    intros r' [= <-]. left. now repeat split.
  - split; [|split; [discriminate|discriminate]].
    intros r' [= <-]. left. rewrite He. now repeat split.
  - split; [|split; [discriminate|discriminate]].
    intros r' [= <-]. left. rewrite He. now repeat split.
  - split; [|split; [discriminate|discriminate]].
    intros r' [= <-]. right. exists h, p. now repeat split.
  - split; [discriminate|]. split; [intros Hact; congruence|].
    intros _. split; [exact Hst|]. exists h. now repeat split.
Qed.

Lemma X15_records_persist_witness :
  DatabaseService.selectToken Addr1 (store (fst (play liveConfig idle cleanupOfTwo)))
  = Some row1Sold
  /\ DatabaseService.selectToken Addr1
       (store (fst (move liveConfig (fst (play liveConfig idle cleanupOfTwo))
                      (Resume 3))))
     = None
  /\ (status row1Sold = inactive
      /\ exists h,
           movedBy (fst (play liveConfig idle cleanupOfTwo)) (Resume 3) h
           /\ cleans h = true
           /\ snd (move liveConfig (fst (play liveConfig idle cleanupOfTwo)) (Resume 3))
              = [Sql (SqlDeleteOld TokenMonitorService.TOKEN_MAX_AGE_HOURS)]
           /\ (lastCheck row1Sold < now (worldOf h) - 259200000)%Z)
  /\ DatabaseService.selectToken AddrY
       (store (fst (move liveConfig (fst (play liveConfig idle cleanupOfTwo))
                      (Resume 3))))
     <> None.
Proof.
  assert (Hsel : DatabaseService.selectToken Addr1
                   (store (fst (play liveConfig idle cleanupOfTwo)))
                 = Some row1Sold) by (vm_compute; reflexivity).
  assert (HselY : DatabaseService.selectToken AddrY
                    (store (fst (play liveConfig idle cleanupOfTwo)))
                  = Some rowY) by (vm_compute; reflexivity).
  assert (Hgone : DatabaseService.selectToken Addr1
                    (store (fst (move liveConfig
                                   (fst (play liveConfig idle cleanupOfTwo))
                                   (Resume 3))))
                  = None) by (vm_compute; reflexivity).
  split; [exact Hsel|]. split; [exact Hgone|]. split.
  - exact (proj2 (proj2 (X15_records_persist liveConfig cleanupOfTwo (Resume 3)
                           Addr1 row1Sold Hsel)) Hgone).
  - exact (proj1 (proj2 (X15_records_persist liveConfig cleanupOfTwo (Resume 3)
                           AddrY rowY HselY)) eq_refl).
Defined.
